(** * OneClickJumpShot: the simulation core of [src/components/Game.tsx]

    A shallow embedding of the game component's update engine: [resetGame],
    [triggerShockwave], [executeJump], [handleGlobalInteraction] and the
    per-frame [update], together with the data they mutate.

    Modelling conventions.
    - A JavaScript [number] is a real number ([R]): arithmetic is exact and
      there is no NaN, no infinity and no signed zero.  The one place where
      the source can read [undefined] (an index outside [spawnCurve]) is an
      [option], and a comparison against such a value is false, as a
      comparison against NaN is.  The one place where the sign of a zero
      shows ([Math.atan2] in [executeJump]) is modelled for the zeros that
      reach it.  The one division whose divisor can be zero without a guard
      ([sw.life / sw.maxLife] in [update]) makes the radius of the shockwave
      NaN in the source; [R] has no such value, and every result that reads
      a radius computed by [growShockwave] asks for a [sw_maxLife] other
      than zero.
    - The React refs ([playerRef], [enemiesRef], ...) and the React state
      ([gameState], [score], [highScore]) are the fields of one record,
      [World], passed explicitly; a [setState] takes effect at once.
    - [Math.random()] reads the next value of a stream ([Rng]) that the
      caller supplies; the values are consumed in the order of the calls.
    - [playSound] appends the requested cue to a log when the audio gate is
      open; the wall-clock throttle and the oscillator are not modelled.
    - [GAME_WIDTH], [GAME_HEIGHT], [PHYSICS.MAX_FUEL] and
      [PHYSICS.AIR_RESISTANCE] come from a constants module that is not part
      of the sources at hand; they are the fields of [Constants], a parameter
      of every definition that reads them.
    - A run ([run], [reachable]) keeps one [config] from its first event to
      its last.  The results about a single operation are stated for an
      arbitrary world, with whatever bound on its data they need, and so
      hold as well after the [config] prop has changed.  With one [config]
      the callbacks that React memoises ([resetGame], [triggerShockwave],
      [executeJump], [update]) all hold that [config], whatever their
      dependency lists. *)

From Stdlib Require Import Reals Lra Lia List Bool ZArith.
Import ListNotations.
Open Scope R_scope.

(** ** Numbers *)

Definition Rltb (a b : R) : bool := if Rlt_dec a b then true else false.
Definition Rleb (a b : R) : bool := if Rle_dec a b then true else false.
Definition Rgtb (a b : R) : bool := Rltb b a.

(** [a || b] on numbers: [b] when [a] is zero. *)
Definition js_or (a b : R) : R := if Req_dec_T a 0 then b else a.

(** [Math.floor]. *)
Definition floor (a : R) : R := IZR (Zfloor a).

(** Rounding toward zero, and the remainder [a % m] built on it (the sign of
    the result follows the dividend, as in JavaScript). *)
Definition Ztrunc (a : R) : Z := if Rle_dec 0 a then Zfloor a else Zceil a.
Definition js_rem (a m : R) : R := a - m * IZR (Ztrunc (a / m)).

(** [Math.atan2 y x] as [executeJump] calls it, on [- uy] and [- ux]: the
    components [ux] and [uy] are quotients by a positive distance of
    differences, whose zero is the positive one, so an argument that is zero
    here is the negative zero, and [Math.atan2] reads it as a value below
    zero: [Math.atan2(-0, x)] is [-PI] for a negative [x], and
    [Math.atan2(-0, -0)] is [-PI]. *)
Definition atan2 (y x : R) : R :=
  if Rlt_dec 0 x then atan (y / x)
  else if Rlt_dec x 0 then
    (if Rlt_dec 0 y then atan (y / x) + PI else atan (y / x) - PI)
  else if Rlt_dec 0 y then PI / 2
  else if Rlt_dec y 0 then - PI / 2
  else - PI.

(** The source of [Math.random()] values. *)
Definition Rng := nat -> R.

Definition draw (g : Rng) : R := g 0%nat.
Definition after (n : nat) (g : Rng) : Rng := fun i => g (n + i)%nat.

(** Every value lies in [0, 1), as [Math.random] promises. *)
Definition rng_ok (g : Rng) : Prop := forall i, 0 <= g i < 1.

(** ** Data model ([types.ts]) *)

Inductive GameState := START | PLAYING | GAMEOVER.

Inductive Sound := snd_jump | snd_shockwave | snd_pulse | snd_kill | snd_deadjump.

Inductive Color := YELLOW | WHITE | ORANGE | HOT_PINK.

Record Player := mkPlayer {
  pl_x : R; pl_y : R; pl_width : R; pl_height : R;
  pl_vx : R; pl_vy : R;
  pl_fuel : R; pl_maxFuel : R;
  pl_flashTimer : R
}.

Record Enemy := mkEnemy {
  en_id : nat; en_x : R; en_y : R; en_radius : R; en_speed : R;
  en_isDead : bool
}.

Record Particle := mkParticle {
  pa_x : R; pa_y : R; pa_vx : R; pa_vy : R;
  pa_life : R; pa_maxLife : R; pa_color : Color
}.

Record Pulse := mkPulse {
  pu_x : R; pu_y : R; pu_width : R;
  pu_life : R; pu_maxLife : R; pu_isSuper : bool
}.

Record Shockwave := mkShockwave {
  sw_x : R; sw_y : R; sw_radius : R; sw_maxRadius : R;
  sw_life : R; sw_maxLife : R; sw_id : nat
}.

Record Shake := mkShake { sh_x : R; sh_y : R; sh_intensity : R }.

(** The fields of [GameConfig] that the simulation reads. *)
Record GameConfig := mkConfig {
  gravity : R;
  recoilForce : R;
  fuelRegen : R;
  fuelConsumption : R;
  enemySpawnRate : R;
  bounceElasticity : R;
  difficultyScale : R;
  deadZoneThreshold : R;
  superJumpMultiplier : R;
  spawnCurve : list R;
  deadJumpEnabled : bool;
  burningEnabled : bool;
  burningRadius : R;
  burningDuration : R;
  playerSize : R;
  audioEnabled : bool;
  sfxVolume : R
}.

Record Constants := mkConstants {
  GAME_WIDTH : R;
  GAME_HEIGHT : R;
  MAX_FUEL : R;
  AIR_RESISTANCE : R
}.

(** Everything the component keeps between frames. *)
Record World := mkWorld {
  gameState : GameState;
  score : R;
  highScore : R;
  elapsedTime : R;
  invincibilityFrames : R;
  player : Player;
  enemies : list Enemy;
  particles : list Particle;
  pulses : list Pulse;
  shockwaves : list Shockwave;
  shake : Shake;
  enemyIdCounter : nat;
  shockwaveIdCounter : nat;
  sounds : list Sound
}.

(** *** Field updates *)

Definition set_gameState (v : GameState) (w : World) : World :=
  mkWorld v (score w) (highScore w) (elapsedTime w) (invincibilityFrames w)
    (player w) (enemies w) (particles w) (pulses w) (shockwaves w) (shake w)
    (enemyIdCounter w) (shockwaveIdCounter w) (sounds w).
Definition set_score (v : R) (w : World) : World :=
  mkWorld (gameState w) v (highScore w) (elapsedTime w) (invincibilityFrames w)
    (player w) (enemies w) (particles w) (pulses w) (shockwaves w) (shake w)
    (enemyIdCounter w) (shockwaveIdCounter w) (sounds w).
Definition set_highScore (v : R) (w : World) : World :=
  mkWorld (gameState w) (score w) v (elapsedTime w) (invincibilityFrames w)
    (player w) (enemies w) (particles w) (pulses w) (shockwaves w) (shake w)
    (enemyIdCounter w) (shockwaveIdCounter w) (sounds w).
Definition set_elapsedTime (v : R) (w : World) : World :=
  mkWorld (gameState w) (score w) (highScore w) v (invincibilityFrames w)
    (player w) (enemies w) (particles w) (pulses w) (shockwaves w) (shake w)
    (enemyIdCounter w) (shockwaveIdCounter w) (sounds w).
Definition set_invincibilityFrames (v : R) (w : World) : World :=
  mkWorld (gameState w) (score w) (highScore w) (elapsedTime w) v
    (player w) (enemies w) (particles w) (pulses w) (shockwaves w) (shake w)
    (enemyIdCounter w) (shockwaveIdCounter w) (sounds w).
Definition set_player (v : Player) (w : World) : World :=
  mkWorld (gameState w) (score w) (highScore w) (elapsedTime w)
    (invincibilityFrames w) v (enemies w) (particles w) (pulses w)
    (shockwaves w) (shake w) (enemyIdCounter w) (shockwaveIdCounter w)
    (sounds w).
Definition set_enemies (v : list Enemy) (w : World) : World :=
  mkWorld (gameState w) (score w) (highScore w) (elapsedTime w)
    (invincibilityFrames w) (player w) v (particles w) (pulses w)
    (shockwaves w) (shake w) (enemyIdCounter w) (shockwaveIdCounter w)
    (sounds w).
Definition set_particles (v : list Particle) (w : World) : World :=
  mkWorld (gameState w) (score w) (highScore w) (elapsedTime w)
    (invincibilityFrames w) (player w) (enemies w) v (pulses w)
    (shockwaves w) (shake w) (enemyIdCounter w) (shockwaveIdCounter w)
    (sounds w).
Definition set_pulses (v : list Pulse) (w : World) : World :=
  mkWorld (gameState w) (score w) (highScore w) (elapsedTime w)
    (invincibilityFrames w) (player w) (enemies w) (particles w) v
    (shockwaves w) (shake w) (enemyIdCounter w) (shockwaveIdCounter w)
    (sounds w).
Definition set_shockwaves (v : list Shockwave) (w : World) : World :=
  mkWorld (gameState w) (score w) (highScore w) (elapsedTime w)
    (invincibilityFrames w) (player w) (enemies w) (particles w) (pulses w)
    v (shake w) (enemyIdCounter w) (shockwaveIdCounter w) (sounds w).
Definition set_shake (v : Shake) (w : World) : World :=
  mkWorld (gameState w) (score w) (highScore w) (elapsedTime w)
    (invincibilityFrames w) (player w) (enemies w) (particles w) (pulses w)
    (shockwaves w) v (enemyIdCounter w) (shockwaveIdCounter w) (sounds w).
Definition set_enemyIdCounter (v : nat) (w : World) : World :=
  mkWorld (gameState w) (score w) (highScore w) (elapsedTime w)
    (invincibilityFrames w) (player w) (enemies w) (particles w) (pulses w)
    (shockwaves w) (shake w) v (shockwaveIdCounter w) (sounds w).
Definition set_shockwaveIdCounter (v : nat) (w : World) : World :=
  mkWorld (gameState w) (score w) (highScore w) (elapsedTime w)
    (invincibilityFrames w) (player w) (enemies w) (particles w) (pulses w)
    (shockwaves w) (shake w) (enemyIdCounter w) v (sounds w).
Definition set_sounds (v : list Sound) (w : World) : World :=
  mkWorld (gameState w) (score w) (highScore w) (elapsedTime w)
    (invincibilityFrames w) (player w) (enemies w) (particles w) (pulses w)
    (shockwaves w) (shake w) (enemyIdCounter w) (shockwaveIdCounter w) v.

Definition set_intensity (v : R) (w : World) : World :=
  set_shake (mkShake (sh_x (shake w)) (sh_y (shake w)) v) w.

Definition set_isDead (v : bool) (e : Enemy) : Enemy :=
  mkEnemy (en_id e) (en_x e) (en_y e) (en_radius e) (en_speed e) v.
Definition set_en_y (v : R) (e : Enemy) : Enemy :=
  mkEnemy (en_id e) (en_x e) v (en_radius e) (en_speed e) (en_isDead e).

(** ** Pointer events

    What [handleGlobalInteraction] reads from a mouse or touch event, from the
    [isMouseOver] prop and from the canvas rectangle at the time of the
    event. *)
Record Interaction := mkInteraction {
  isTouch : bool;
  isMouseOver : bool;
  clientX : R;
  clientY : R;
  rect_left : R;
  rect_top : R;
  rect_width : R;
  rect_height : R
}.

Definition rect_right (i : Interaction) : R := rect_left i + rect_width i.
Definition rect_bottom (i : Interaction) : R := rect_top i + rect_height i.

(** What drives the component: an animation frame or a pointer event. *)
Inductive Event :=
| Frame (g : Rng)
| Pointer (i : Interaction) (g : Rng).

(** An array read [points[i]] at a numeric index: [undefined] (here [None])
    unless [i] is an integer inside the array. *)
Definition index (points : list R) (i : R) : option R :=
  let z := Zfloor i in
  if Req_dec_T (IZR z) i then
    (if (0 <=? z)%Z then nth_error points (Z.to_nat z) else None)
  else None.

(** * Around the engine: the page, the audio and the canvas *)

From Stdlib Require String.
Import String.StringSyntax.
Delimit Scope string_scope with string.
Bind Scope string_scope with String.string.

(** The fields of [GameConfig] that the simulation does not read: the look
    of the game and the volume of the music. *)
Inductive Shape := shape_square | shape_circle | shape_triangle.

Record Presentation := mkPresentation {
  cursorScale : R;
  cursorColor : String.string;
  footerText : String.string;
  showCustomCursor : bool;
  playerColor : String.string;
  playerShape : Shape;
  crtEnabled : bool;
  bgmVolume : R
}.

(** A rectangle of the page, as [getBoundingClientRect] gives it. *)
Record DOMRect := mkDOMRect {
  dom_left : R; dom_top : R; dom_right : R; dom_bottom : R
}.

Definition dom_width (r : DOMRect) : R := dom_right r - dom_left r.

(** ** [App.tsx]: the state of the page and its window listeners *)
Module App.

Record State := mkState {
  isClicking : bool;
  isMouseOverGame : bool;
  sidebarVisible : bool
}.

(** The state the component mounts with. *)
Definition initial : State := mkState false false false.

(** The test of [handleMouseMove]: the borders count as inside. *)
Definition inside (clientX clientY : R) (rect : DOMRect) : bool :=
  Rleb (dom_left rect) clientX && Rleb clientX (dom_right rect)
  && Rleb (dom_top rect) clientY && Rleb clientY (dom_bottom rect).

(** [handleMouseMove]: [container] is the rectangle of the game container,
    when the container is mounted.  The custom cursor follows the pointer;
    its position is a style of the page and is not kept here. *)
Definition handleMouseMove (clientX clientY : R) (container : option DOMRect)
    (st : State) : State :=
  match container with
  | Some rect =>
      mkState (isClicking st) (inside clientX clientY rect)
              (sidebarVisible st)
  | None => st
  end.

Definition handleMouseDown (st : State) : State :=
  mkState true (isMouseOverGame st) (sidebarVisible st).

Definition handleMouseUp (st : State) : State :=
  mkState false (isMouseOverGame st) (sidebarVisible st).

(** [handleKeyDown]: Ctrl+F7 shows or hides the sidebar. *)
Definition handleKeyDown (ctrlKey : bool) (key : String.string) (st : State)
  : State :=
  if ctrlKey && String.eqb key "F7" then
    mkState (isClicking st) (isMouseOverGame st) (negb (sidebarVisible st))
  else st.

(** [onMouseEnter] of the sidebar. *)
Definition sidebarMouseEnter (st : State) : State :=
  mkState (isClicking st) false (sidebarVisible st).

(** What the window hears from the mouse and the keyboard. *)
Inductive Event :=
| mousemove (clientX clientY : R) (container : option DOMRect)
| mousedown
| mouseup
| keydown (ctrlKey : bool) (key : String.string)
| sidebarEnter.

Definition handle (ev : Event) (st : State) : State :=
  match ev with
  | mousemove x y c => handleMouseMove x y c st
  | mousedown => handleMouseDown st
  | mouseup => handleMouseUp st
  | keydown c k => handleKeyDown c k st
  | sidebarEnter => sidebarMouseEnter st
  end.


(** The props of [RocketCursor]: whether it shows, and the height of its
    flame, [r] being the random draw of the render. *)
Definition cursorVisible (look : Presentation) (st : State) : bool :=
  showCustomCursor look && isMouseOverGame st.

Definition flameHeight (isRecoiling : bool) (r : R) : R :=
  if isRecoiling then 4 + r * 4 else 2.

End App.

(** ** [App.tsx]: the curve editor *)
Module CurveEditor.

(** [handlePointClick]: a press on a point picks it up, a press on the point
    that is held lets it go. *)
Definition handlePointClick (index : nat) (activePoint : option nat)
  : option nat :=
  match activePoint with
  | Some a => if Nat.eqb a index then None else Some index
  | None => Some index
  end.

(** [handleGlobalClick]. *)
Definition handleGlobalClick (activePoint : option nat) : option nat := None.




End CurveEditor.

(** ** [Game.tsx]: the audio *)
Module Audio.

Inductive OscillatorType := square | triangle | sawtooth | sine.

(** A call on an [AudioParam], the frequency of an oscillator or the gain of
    a gain node. *)
Inductive Automation :=
| setValueAtTime (value startTime : R)
| linearRampToValueAtTime (value endTime : R)
| exponentialRampToValueAtTime (value endTime : R).

(** An oscillator connected through a gain node to the destination: its
    type, the calls on its two parameters, in order, and the times of
    [osc.start] and [osc.stop]. *)
Record Voice := mkVoice {
  osc_type : OscillatorType;
  frequency : list Automation;
  gain : list Automation;
  start : R;
  stop : R
}.

(** The two refs of the audio: whether the [AudioContext] exists, and when
    each cue was played last ([Date.now()], in milliseconds; a cue that was
    never played has no entry). *)
Record State := mkState {
  audioCtx : bool;
  lastSoundPlayed : Sound -> option Z
}.

Definition initial : State := mkState false (fun _ => None).

Definition Sound_eqb (a b : Sound) : bool :=
  match a, b with
  | snd_jump, snd_jump | snd_shockwave, snd_shockwave
  | snd_pulse, snd_pulse | snd_kill, snd_kill
  | snd_deadjump, snd_deadjump => true
  | _, _ => false
  end.

Definition throttleTime (type : Sound) : Z :=
  match type with snd_kill => 60 | _ => 50 end.

(** The [switch] of [playSound]: the voice of a cue started at the time
    [now] of the audio clock. *)
Definition voice (sfxVolume : R) (type : Sound) (now : R) : Voice :=
  match type with
  | snd_jump =>
      mkVoice square
        [setValueAtTime 150 now; exponentialRampToValueAtTime 600 (now + 0.1)]
        [setValueAtTime sfxVolume now;
         exponentialRampToValueAtTime (0.01 * (sfxVolume / 0.1)) (now + 0.1)]
        now (now + 0.1)
  | snd_deadjump =>
      mkVoice triangle
        [setValueAtTime 100 now; exponentialRampToValueAtTime 800 (now + 0.2)]
        [setValueAtTime (sfxVolume * 2) now;
         exponentialRampToValueAtTime (0.01 * (sfxVolume / 0.1)) (now + 0.2)]
        now (now + 0.2)
  | snd_shockwave =>
      mkVoice sawtooth
        [setValueAtTime 120 now; exponentialRampToValueAtTime 40 (now + 0.4)]
        [setValueAtTime (sfxVolume * 1.5) now;
         linearRampToValueAtTime 0 (now + 0.4)]
        now (now + 0.4)
  | snd_pulse =>
      mkVoice sine
        [setValueAtTime 800 now; linearRampToValueAtTime 400 (now + 0.05)]
        [setValueAtTime (sfxVolume * 0.5) now;
         linearRampToValueAtTime 0 (now + 0.05)]
        now (now + 0.05)
  | snd_kill =>
      mkVoice square
        [setValueAtTime 200 now; setValueAtTime 100 (now + 0.05)]
        [setValueAtTime (sfxVolume * 0.8) now;
         linearRampToValueAtTime 0 (now + 0.1)]
        now (now + 0.1)
  end.

(** The throttle: a cue played before, at a time other than 0, less than
    [throttleTime] ago. *)
Definition throttled (type : Sound) (now_ts : Z) (st : State) : bool :=
  match lastSoundPlayed st type with
  | Some last => negb (last =? 0)%Z && (now_ts - last <? throttleTime type)%Z
  | None => false
  end.

(** [playSound], with the wall clock and the oscillator: [now_ts] is
    [Date.now()] and [now] is [ctx.currentTime].  The result is the state of
    the refs and the voice that was started, if any.  Whether the context
    was suspended is the browser's affair and is not kept. *)
Definition playSound (config : GameConfig) (type : Sound) (now_ts : Z)
    (now : R) (st : State) : State * option Voice :=
  if negb (audioEnabled config) || Rleb (sfxVolume config) 0 then (st, None)
  else if throttled type now_ts st then (st, None)
  else
    (mkState true
       (fun t => if Sound_eqb t type then Some now_ts
                 else lastSoundPlayed st t),
     Some (voice (sfxVolume config) type now)).

(** A request for a cue: its type and the two clocks at the time. *)
Record Request := mkRequest {
  req_type : Sound; req_ts : Z; req_now : R
}.


(** A series of calls of [playSound], each by the callback that holds it:
    a memoised callback ([triggerShockwave], [resetGame], [executeJump],
    [update]) calls the [playSound] of the render that created it, which
    reads the [config] of that render.  A call is a request with the
    [config] its [playSound] closes over. *)
Fixpoint playEach (calls : list (GameConfig * Request)) (st : State)
  : State * list (Sound * Z) :=
  match calls with
  | [] => (st, [])
  | (config, r) :: rest =>
      let '(st1, v) := playSound config (req_type r) (req_ts r) (req_now r) st in
      let '(st2, played) := playEach rest st1 in
      (st2, match v with
            | Some _ => (req_type r, req_ts r) :: played
            | None => played
            end)
  end.

(** A [config] under which [playSound] returns at its first line. *)
Definition muted (config : GameConfig) : Prop :=
  audioEnabled config = false \/ sfxVolume config <= 0.


(** A call that the audio context takes: a time between the start and the
    stop of the voice, and for an exponential ramp a positive target (a
    target of 0 is refused with an exception). *)
Definition scheduled (v : Voice) (a : Automation) : Prop :=
  match a with
  | setValueAtTime _ t | linearRampToValueAtTime _ t => start v <= t <= stop v
  | exponentialRampToValueAtTime value t => 0 < value /\ start v <= t <= stop v
  end.

(** The value an automation aims at. *)
Definition target (a : Automation) : R :=
  match a with
  | setValueAtTime x _ | linearRampToValueAtTime x _
  | exponentialRampToValueAtTime x _ => x
  end.

(** C3, D3, E3, G3. *)
Definition notes : list R := [130.81; 146.83; 164.81; 196.00].

(** What a call of [playBgmNote] comes to: nothing, an exception (a
    frequency that is not a number is refused by [setValueAtTime]), or a
    voice. *)
Inductive Outcome := silent | throws | plays (v : Voice).

Definition isPlaying (s : GameState) : bool :=
  match s with PLAYING => true | _ => false end.

(** [playBgmNote], called every 250 ms while the game is [PLAYING]. *)
Definition playBgmNote (config : GameConfig) (look : Presentation)
    (w : World) (now : R) (st : State) : Outcome :=
  if negb (audioEnabled config) || negb (isPlaying (gameState w))
     || Rleb (bgmVolume look) 0
  then silent
  else if negb (audioCtx st) then silent
  else
    match index notes
            (js_rem (floor (elapsedTime w / 30)) (INR (length notes))) with
    | Some freq =>
        plays (mkVoice square
                 [setValueAtTime freq now]
                 [setValueAtTime (bgmVolume look) now;
                  linearRampToValueAtTime 0 (now + 0.2)]
                 now (now + 0.2))
    | None => throws
    end.

End Audio.

(** ** [Game.tsx]: the canvas *)
Module Canvas.

(** A call of [addColorStop]: an offset and an [rgba(...)] colour. *)
Record ColorStop := mkColorStop {
  stop_offset : R;
  stop_r : R; stop_g : R; stop_b : R; stop_a : R
}.

(** What [fillStyle], [strokeStyle] and [shadowColor] are set to: a colour
    of the palette ([pico] for the four that particles take, which are
    [Color], then the others), the colour of the player as configured, an
    [rgba(...)] string or a gradient with its colour stops. *)
Inductive Paint :=
| pico (c : Color)
| PINK | DARK_GRAY | RED | DARK_BLUE | BLUE | BLACK | INDIGO
| css (s : String.string)
| rgba (r g b a : R)
| linearGradient (x0 y0 x1 y1 : R) (stops : list ColorStop)
| radialGradient (x0 y0 r0 x1 y1 r1 : R) (stops : list ColorStop).

(** A text: a literal, or a literal followed by a number. *)
Inductive Text :=
| text (s : String.string)
| textNum (s : String.string) (v : R).

Inductive Align := align_start | align_left | align_center.

(** The calls that [draw] makes on the 2D context.  The font is always
    "Press Start 2P"; [font] carries its size in pixels. *)
Inductive Cmd :=
| fillStyle (p : Paint)
| strokeStyle (p : Paint)
| lineWidth (v : R)
| globalAlpha (v : R)
| font (px : nat)
| textAlign (a : Align)
| shadowColor (p : Paint)
| shadowBlur (v : R)
| fillRect (x y w h : R)
| strokeRect (x y w h : R)
| fillText (t : Text) (x y : R)
| beginPath
| closePath
| moveTo (x y : R)
| lineTo (x y : R)
| arc (x y radius startAngle endAngle : R)
| fill
| stroke
| save
| restore
| translate (x y : R).

Section Draw.

Variable K : Constants.
Variable config : GameConfig.
Variable look : Presentation.

(** The band that marks the dead zone. *)
Definition drawDeadZone : list Cmd :=
  if deadJumpEnabled config then
    let deadZoneY := GAME_HEIGHT K * (1 - deadZoneThreshold config) in
    [ fillStyle (rgba 255 163 0 0.05);
      fillRect 0 deadZoneY (GAME_WIDTH K) (GAME_HEIGHT K - deadZoneY);
      strokeStyle (rgba 255 163 0 0.2);
      lineWidth 2;
      beginPath; moveTo 0 deadZoneY; lineTo (GAME_WIDTH K) deadZoneY;
      stroke ]
  else [].

Definition drawPulse (s : Pulse) : list Cmd :=
  let alpha := pu_life s / pu_maxLife s in
  if pu_isSuper s then
    [ fillStyle
        (linearGradient (pu_x s) (pu_y s) (pu_x s) 0
           [ mkColorStop 0 255 236 39 alpha;
             mkColorStop 0.5 255 163 0 (alpha * 0.5);
             mkColorStop 1 255 163 0 0 ]);
      fillRect (pu_x s) 0 (pu_width s) (pu_y s) ]
  else
    [ fillStyle
        (linearGradient (pu_x s) (pu_y s) (pu_x s) (GAME_HEIGHT K)
           [ mkColorStop 0 255 255 255 alpha;
             mkColorStop 0.5 255 119 168 (alpha * 0.5);
             mkColorStop 1 255 119 168 0 ]);
      fillRect (pu_x s) (pu_y s) (pu_width s) (GAME_HEIGHT K - pu_y s) ].

Definition drawShockwave (sw : Shockwave) : list Cmd :=
  let alpha := Rmin 1 (sw_life sw / sw_maxLife sw * 2) in
  [ strokeStyle (pico YELLOW);
    lineWidth 3;
    globalAlpha (alpha * 0.6);
    beginPath;
    arc (sw_x sw) (sw_y sw) (sw_radius sw) 0 (PI * 2);
    stroke;
    fillStyle (pico ORANGE);
    globalAlpha (alpha * 0.2);
    fill ].

Definition drawParticle (p : Particle) : list Cmd :=
  [ fillStyle (pico (pa_color p));
    globalAlpha (pa_life p / pa_maxLife p);
    fillRect (pa_x p - 2) (pa_y p - 2) 4 4 ].

(** The colour of the player: invincible, flashing after a kill, out of
    fuel for a jump, or as configured. *)
Definition playerFill (w : World) : Paint :=
  let p := player w in
  if Rlt_dec 0 (invincibilityFrames w) then pico YELLOW
  else if Rlt_dec 0 (pl_flashTimer p) then pico WHITE
  else if Rlt_dec (pl_fuel p) (fuelConsumption config) then DARK_GRAY
  else css (playerColor look).

Definition drawPlayer (p : Player) : list Cmd :=
  let cx := pl_x p + pl_width p / 2 in
  let cy := pl_y p + pl_height p / 2 in
  let size := pl_width p in
  match playerShape look with
  | shape_square => [ fillRect (pl_x p) (pl_y p) size size ]
  | shape_circle => [ beginPath; arc cx cy (size / 2) 0 (PI * 2); fill ]
  | shape_triangle =>
      [ beginPath;
        moveTo cx (pl_y p);
        lineTo (pl_x p) (pl_y p + size);
        lineTo (pl_x p + size) (pl_y p + size);
        closePath;
        fill ]
  end.

Definition drawEnemy (e : Enemy) : list Cmd :=
  [ beginPath;
    arc (en_x e) (en_y e) (en_radius e) 0 (PI * 2);
    fillStyle RED; fill; closePath;
    fillStyle (pico WHITE);
    fillRect (en_x e - en_radius e * 0.4) (en_y e - en_radius e * 0.4) 4 4 ].

(** The scan lines of the CRT overlay: the loop
    [for (let i = 0; i < GAME_HEIGHT; i += 3)], with a bound on its turns. *)
Fixpoint scanFrom (turns : nat) (i : R) : list Cmd :=
  match turns with
  | O => []
  | S k =>
      if Rlt_dec i (GAME_HEIGHT K) then
        fillRect 0 i (GAME_WIDTH K) 1 :: scanFrom k (i + 3)
      else []
  end.

(** The turns that the loop takes. *)
Definition scanTurns : nat := Z.to_nat (Zceil (GAME_HEIGHT K / 3)).

Definition drawCrt : list Cmd :=
  if crtEnabled look then
    [ fillStyle (rgba 18 16 16 0.1) ]
    ++ scanFrom scanTurns 0
    ++ [ fillStyle
           (radialGradient (GAME_WIDTH K / 2) (GAME_HEIGHT K / 2) 50
              (GAME_WIDTH K / 2) (GAME_HEIGHT K / 2) (GAME_HEIGHT K / 1.5)
              [ mkColorStop 0 0 0 0 0; mkColorStop 1 0 0 0 0.2 ]);
         fillRect 0 0 (GAME_WIDTH K) (GAME_HEIGHT K) ]
  else [].

(** The score and the fuel bar. *)
Definition drawHud (score : R) (p : Player) : list Cmd :=
  let fuelBarWidth := 120 in
  let fuelBarHeight := 12 in
  let fuelBarX := GAME_WIDTH K - fuelBarWidth - 20 in
  let fuelBarY := 28 in
  [ fillStyle (pico HOT_PINK); font 16; textAlign align_left;
    shadowColor (rgba 0 0 0 0.5); shadowBlur 4;
    fillText (textNum "SCORE: " score) 20 40;
    font 8; fillStyle (pico HOT_PINK);
    fillText (text "FUEL") fuelBarX (fuelBarY - 8);
    fillStyle DARK_BLUE;
    fillRect fuelBarX fuelBarY fuelBarWidth fuelBarHeight;
    fillStyle (if Rlt_dec (pl_fuel p) (fuelConsumption config) then RED
               else BLUE);
    fillRect fuelBarX fuelBarY (pl_fuel p / pl_maxFuel p * fuelBarWidth)
      fuelBarHeight;
    strokeStyle (pico WHITE); lineWidth 2;
    strokeRect fuelBarX fuelBarY fuelBarWidth fuelBarHeight ].

(** The title screen. *)
Definition drawStart (highScore elapsedTime : R) : list Cmd :=
  let floatY := sin (elapsedTime * 0.05) * 10 in
  let subPulse := 0.7 + sin (elapsedTime * 0.1) * 0.3 in
  [ fillStyle (rgba 29 43 83 0.4);
    fillRect 0 0 (GAME_WIDTH K) (GAME_HEIGHT K);
    textAlign align_center;
    font 36;
    fillStyle BLACK;
    fillText (text "PULSE") (GAME_WIDTH K / 2 + 4)
      (GAME_HEIGHT K / 2 - 40 + floatY + 4);
    fillStyle (pico HOT_PINK);
    fillText (text "PULSE") (GAME_WIDTH K / 2)
      (GAME_HEIGHT K / 2 - 40 + floatY);
    font 12;
    fillStyle DARK_BLUE;
    fillText (text "SHOCKWAVE SURVIVOR") (GAME_WIDTH K / 2)
      (GAME_HEIGHT K / 2 - 5);
    globalAlpha subPulse;
    font 10;
    fillStyle (pico WHITE);
    fillText (text "CLICK TO INITIATE LAUNCH") (GAME_WIDTH K / 2)
      (GAME_HEIGHT K / 2 + 60);
    globalAlpha 1.0 ]
  ++ (if Rlt_dec 0 highScore then
        [ font 8;
          fillStyle (pico ORANGE);
          fillText (textNum "BEST ALTITUDE: " highScore) (GAME_WIDTH K / 2)
            (GAME_HEIGHT K / 2 + 100) ]
      else [])
  ++ [ font 7;
       fillStyle INDIGO;
       fillText (text "CLICK TO RECOIL / KILL ENEMIES TO REFUEL")
         (GAME_WIDTH K / 2) (GAME_HEIGHT K - 40) ].

(** The game-over screen. *)
Definition drawGameOver (score : R) : list Cmd :=
  [ fillStyle (rgba 126 37 83 0.7);
    fillRect 0 0 (GAME_WIDTH K) (GAME_HEIGHT K);
    fillStyle (pico WHITE); textAlign align_center; font 32;
    fillText (text "OFFLINE") (GAME_WIDTH K / 2) (GAME_HEIGHT K / 2 - 20);
    font 12;
    fillText (textNum "FINAL SCORE: " score) (GAME_WIDTH K / 2)
      (GAME_HEIGHT K / 2 + 30);
    font 10;
    fillText (text "CLICK TO RE-IGNITE") (GAME_WIDTH K / 2)
      (GAME_HEIGHT K / 2 + 80) ].

(** What is drawn between [ctx.save()] and [ctx.restore()], under the
    translation of the camera shake. *)
Definition drawScene (gameState : GameState) (w : World) : list Cmd :=
  flat_map drawPulse (pulses w)
  ++ flat_map drawShockwave (shockwaves w)
  ++ [ globalAlpha 1.0 ]
  ++ flat_map drawParticle (particles w)
  ++ [ globalAlpha 1.0 ]
  ++ [ fillStyle (playerFill w) ]
  ++ match gameState with
     | PLAYING | GAMEOVER =>
         drawPlayer (player w) ++ flat_map drawEnemy (enemies w)
     | START => []
     end.

(** [draw].  The state tag, the score and the best score are those of the
    render that created the callback; the rest is read from the refs, here
    the fields of [w]. *)
Definition draw (gameState : GameState) (score highScore : R) (w : World)
  : list Cmd :=
  [ fillStyle PINK; fillRect 0 0 (GAME_WIDTH K) (GAME_HEIGHT K) ]
  ++ drawDeadZone
  ++ [ save; translate (sh_x (shake w)) (sh_y (shake w)) ]
  ++ drawScene gameState w
  ++ [ restore ]
  ++ drawCrt
  ++ match gameState with
     | PLAYING => drawHud score (player w)
     | _ => []
     end
  ++ [ shadowBlur 0 ]
  ++ match gameState with
     | START => drawStart highScore (elapsedTime w)
     | GAMEOVER => drawGameOver score
     | PLAYING => []
     end.

End Draw.

(** *** The drawing state of the context *)

(** The part of the drawing state that [draw] sets. *)
Record Style := mkStyle {
  st_fillStyle : Paint;
  st_strokeStyle : Paint;
  st_lineWidth : R;
  st_globalAlpha : R;
  st_font : nat;
  st_textAlign : Align;
  st_shadowColor : Paint;
  st_shadowBlur : R;
  st_dx : R;
  st_dy : R
}.

(** The context: its current drawing state and the stack of [save]. *)
Record Context := mkContext {
  current : Style;
  saved : list Style
}.

(** A fresh context: black, opaque, no shadow, no translation. *)
Definition freshStyle : Style :=
  mkStyle BLACK BLACK 1 1 10 align_start (rgba 0 0 0 0) 0 0 0.

Definition fresh : Context := mkContext freshStyle [].

(** Whether the context takes a value for [globalAlpha]: a value outside
    [[0, 1]] is ignored. *)
Definition alphaValid (v : R) : bool := Rleb 0 v && Rleb v 1.

(** The effect of a call on the drawing state. *)
Definition exec (c : Context) (cmd : Cmd) : Context :=
  let s := current c in
  let upd s' := mkContext s' (saved c) in
  match cmd with
  | fillStyle p =>
      upd (mkStyle p (st_strokeStyle s) (st_lineWidth s) (st_globalAlpha s)
             (st_font s) (st_textAlign s) (st_shadowColor s)
             (st_shadowBlur s) (st_dx s) (st_dy s))
  | strokeStyle p =>
      upd (mkStyle (st_fillStyle s) p (st_lineWidth s) (st_globalAlpha s)
             (st_font s) (st_textAlign s) (st_shadowColor s)
             (st_shadowBlur s) (st_dx s) (st_dy s))
  | lineWidth v =>
      upd (mkStyle (st_fillStyle s) (st_strokeStyle s) v (st_globalAlpha s)
             (st_font s) (st_textAlign s) (st_shadowColor s)
             (st_shadowBlur s) (st_dx s) (st_dy s))
  | globalAlpha v =>
      if alphaValid v then
        upd (mkStyle (st_fillStyle s) (st_strokeStyle s) (st_lineWidth s) v
               (st_font s) (st_textAlign s) (st_shadowColor s)
               (st_shadowBlur s) (st_dx s) (st_dy s))
      else c
  | font px =>
      upd (mkStyle (st_fillStyle s) (st_strokeStyle s) (st_lineWidth s)
             (st_globalAlpha s) px (st_textAlign s) (st_shadowColor s)
             (st_shadowBlur s) (st_dx s) (st_dy s))
  | textAlign a =>
      upd (mkStyle (st_fillStyle s) (st_strokeStyle s) (st_lineWidth s)
             (st_globalAlpha s) (st_font s) a (st_shadowColor s)
             (st_shadowBlur s) (st_dx s) (st_dy s))
  | shadowColor p =>
      upd (mkStyle (st_fillStyle s) (st_strokeStyle s) (st_lineWidth s)
             (st_globalAlpha s) (st_font s) (st_textAlign s) p
             (st_shadowBlur s) (st_dx s) (st_dy s))
  | shadowBlur v =>
      upd (mkStyle (st_fillStyle s) (st_strokeStyle s) (st_lineWidth s)
             (st_globalAlpha s) (st_font s) (st_textAlign s)
             (st_shadowColor s) v (st_dx s) (st_dy s))
  | translate x y =>
      upd (mkStyle (st_fillStyle s) (st_strokeStyle s) (st_lineWidth s)
             (st_globalAlpha s) (st_font s) (st_textAlign s)
             (st_shadowColor s) (st_shadowBlur s)
             (st_dx s + x) (st_dy s + y))
  | save => mkContext s (s :: saved c)
  | restore =>
      match saved c with
      | s' :: rest => mkContext s' rest
      | [] => c
      end
  | fillRect _ _ _ _ | strokeRect _ _ _ _ | fillText _ _ _
  | beginPath | closePath | moveTo _ _ | lineTo _ _ | arc _ _ _ _ _
  | fill | stroke => c
  end.

Definition execAll (cmds : list Cmd) (c : Context) : Context :=
  fold_left exec cmds c.

(** What reaches the bitmap: a call that paints, with the drawing state it
    is made in. *)
Definition paints (cmd : Cmd) : bool :=
  match cmd with
  | fillRect _ _ _ _ | strokeRect _ _ _ _ | fillText _ _ _ | fill | stroke =>
      true
  | _ => false
  end.

Fixpoint painted (cmds : list Cmd) (c : Context) : list (Cmd * Style) :=
  match cmds with
  | [] => []
  | cmd :: rest =>
      (if paints cmd then [(cmd, current c)] else [])
      ++ painted rest (exec c cmd)
  end.

(** The place of a painted call: the translation it is made under. *)
Definition offset (p : Cmd * Style) : R * R :=
  (st_dx (snd p), st_dy (snd p)).

(** A context between two frames: opaque, without shadow or translation,
    with nothing on the stack of [save]. *)
Definition ready (c : Context) : Prop :=
  st_globalAlpha (current c) = 1 /\ st_shadowBlur (current c) = 0
  /\ st_dx (current c) = 0 /\ st_dy (current c) = 0
  /\ saved c = [].

(** Calls that touch neither the stack of [save] nor the translation. *)
Definition planar (cmd : Cmd) : bool :=
  match cmd with
  | save | restore | translate _ _ => false
  | _ => true
  end.

(** Calls that cannot change the blur of the shadow, and calls that cannot
    change the opacity. *)
Definition keepsBlur (cmd : Cmd) : bool :=
  match cmd with
  | shadowBlur _ | restore => false
  | _ => true
  end.

Definition keepsAlpha (cmd : Cmd) : bool :=
  match cmd with
  | globalAlpha _ | restore => false
  | _ => true
  end.

(** The calls that the context refuses with an exception: an arc or a
    radial gradient with a negative radius, a colour stop outside
    [[0, 1]]. *)
Definition stops_ok (stops : list ColorStop) : Prop :=
  Forall (fun s => 0 <= stop_offset s <= 1) stops.

Definition accepted (cmd : Cmd) : Prop :=
  match cmd with
  | arc _ _ radius _ _ => 0 <= radius
  | fillStyle (radialGradient _ _ r0 _ _ r1 stops) =>
      0 <= r0 /\ 0 <= r1 /\ stops_ok stops
  | fillStyle (linearGradient _ _ _ _ stops) => stops_ok stops
  | _ => True
  end.

(** The calls that the context takes as they are: an accepted call, with an
    opacity between 0 and 1. *)
Definition effective (cmd : Cmd) : Prop :=
  accepted cmd
  /\ match cmd with
     | globalAlpha v => 0 <= v <= 1
     | _ => True
     end.

End Canvas.

Section Game.

Variable K : Constants.
Variable config : GameConfig.

(** ** [playSound] *)
Definition playSound (type : Sound) (w : World) : World :=
  if negb (audioEnabled config) || Rleb (sfxVolume config) 0 then w
  else set_sounds (sounds w ++ [type]) w.

(** ** Initial values of the refs *)
Definition initialPlayer : Player :=
  mkPlayer (GAME_WIDTH K / 2 - playerSize config / 2)
           (GAME_HEIGHT K / 2 - 100)
           (playerSize config) (playerSize config)
           0 0 (MAX_FUEL K) (MAX_FUEL K) 0.

Definition initialWorld : World :=
  mkWorld START 0 0 0 0 initialPlayer [] [] [] [] (mkShake 0 0 0)
          0%nat 0%nat [].

(** ** [resetGame] *)
Definition resetGame (w : World) : World :=
  let w := set_player initialPlayer w in
  let w := set_enemies [] w in
  let w := set_particles [] w in
  let w := set_pulses [] w in
  let w := set_shockwaves [] w in
  let w := set_shake (mkShake 0 0 0) w in
  let w := set_elapsedTime 0 w in
  let w := set_invincibilityFrames 0 w in
  let w := set_score 0 w in
  let w := set_gameState PLAYING w in
  if audioEnabled config then playSound snd_pulse w else w.

(** ** [triggerShockwave]

    The callback is memoised on [burningEnabled], [burningRadius] and
    [burningDuration] only, so the [playSound] it calls is the one of the
    render that last changed one of the three; in a run, which has one
    [config], that is the [playSound] of the run.  What a cue played by a
    callback that holds an earlier [config] does to the audio is stated on
    [Audio.playEach]. *)
Definition triggerShockwave (x y radiusScale : R) (w : World) : World :=
  if negb (burningEnabled config) then w
  else
    let sw := mkShockwave x y 0 (burningRadius config * radiusScale)
                (burningDuration config) (burningDuration config)
                (shockwaveIdCounter w) in
    let w := set_shockwaves (shockwaves w ++ [sw]) w in
    let w := set_shockwaveIdCounter (S (shockwaveIdCounter w)) w in
    playSound snd_shockwave w.

(** ** [executeJump] *)

(** The particles of one eliminated enemy: two random draws each. *)
Fixpoint killBurst (n : nat) (ex ey : R) (isSuper : bool) (g : Rng)
  : list Particle :=
  match n with
  | O => []
  | S k =>
      mkParticle ex ey ((g 0%nat - 0.5) * 12) ((g 1%nat - 0.5) * 12) 25 25
                 (if isSuper then YELLOW else WHITE)
      :: killBurst k ex ey isSuper (after 2 g)
  end.

(** The test of the pulse on one enemy:
    [withinRayX && isAffected && !e.isDead]. *)
Definition pulseHits (px py pulseWidth : R) (isSuper : bool) (e : Enemy)
  : bool :=
  let withinRayX :=
    Rgtb (en_x e + en_radius e) (px - pulseWidth / 2)
    && Rltb (en_x e - en_radius e) (px + pulseWidth / 2) in
  let isAffected :=
    if isSuper then Rltb (en_y e) py else Rgtb (en_y e) py in
  withinRayX && isAffected && negb (en_isDead e).

(** What the pulse does on a hit: the refill, the flash, the chained
    shockwave, the cue and the particles. *)
Definition pulseKill (px py : R) (isSuper : bool) (e : Enemy) (g : Rng)
    (w : World) : World :=
  let p := player w in
  let w := set_player
             (mkPlayer (pl_x p) (pl_y p) (pl_width p) (pl_height p)
                (pl_vx p) (pl_vy p) (pl_maxFuel p) (pl_maxFuel p) 10) w in
  let w := triggerShockwave px py 1.0 w in
  let w := playSound snd_kill w in
  set_particles
    (particles w ++
     killBurst (if isSuper then 20%nat else 12%nat) (en_x e) (en_y e)
       isSuper g) w.

(** [enemiesRef.current.forEach] in [executeJump]: the one-shot elimination
    pass of the pulse. *)
Fixpoint pulseSweep (px py pulseWidth : R) (isSuper : bool)
    (es : list Enemy) (g : Rng) (w : World) : list Enemy * Rng * World :=
  match es with
  | [] => ([], g, w)
  | e :: rest =>
      if pulseHits px py pulseWidth isSuper e then
        let w := pulseKill px py isSuper e g w in
        let n := if isSuper then 20%nat else 12%nat in
        let '(rest', g', w') :=
          pulseSweep px py pulseWidth isSuper rest (after (2 * n) g) w in
        (set_isDead true e :: rest', g', w')
      else
        let '(rest', g', w') :=
          pulseSweep px py pulseWidth isSuper rest g w in
        (e :: rest', g', w')
  end.

(** The exhaust particles of a jump: three random draws each. *)
Fixpoint jumpBurst (n : nat) (px py ux uy : R) (isSuper : bool) (g : Rng)
  : list Particle :=
  match n with
  | O => []
  | S k =>
      let pAngle := atan2 (- uy) (- ux) + (g 0%nat - 0.5) * 1.5 in
      let pSpeed := (if isSuper then 5 else 2) + g 1%nat * 8 in
      mkParticle px py (cos pAngle * pSpeed) (sin pAngle * pSpeed)
                 (20 + g 2%nat * 20) 40
                 (if isSuper then ORANGE else HOT_PINK)
      :: jumpBurst k px py ux uy isSuper (after 3 g)
  end.

(** The centre of the player, as [executeJump] and [update] compute it. *)
Definition centerX (p : Player) : R := pl_x p + pl_width p / 2.
Definition centerY (p : Player) : R := pl_y p + pl_height p / 2.

(** Whether a jump of this player is a super jump. *)
Definition inDeadZone (p : Player) : bool :=
  let deadZoneY := GAME_HEIGHT K * (1 - deadZoneThreshold config) in
  deadJumpEnabled config && Rgtb (pl_y p + pl_height p) deadZoneY.

(** The width of the pulse of a jump. *)
Definition pulseWidthOf (p : Player) (isSuper : bool) : R :=
  pl_width p + (if isSuper then 30 else 10).

(** [Math.sqrt(dx * dx + dy * dy) || 1]. *)
Definition jumpDist (dx dy : R) : R := js_or (sqrt (dx * dx + dy * dy)) 1.

Definition executeJump (mouseX mouseY : R) (g : Rng) (w : World) : World :=
  let p := player w in
  if Rlt_dec (pl_fuel p) (fuelConsumption config) then
    playSound snd_pulse (set_intensity 5 w)
  else
    let px := centerX p in
    let py := centerY p in
    let dx := mouseX - px in
    let dy := mouseY - py in
    let dist := jumpDist dx dy in
    let ux := dx / dist in
    let uy := dy / dist in
    let isSuper := inDeadZone p in
    let force :=
      if isSuper then recoilForce config * superJumpMultiplier config
      else recoilForce config in
    let w :=
      if isSuper then
        playSound snd_deadjump
          (set_intensity 30 (set_invincibilityFrames 15 w))
      else playSound snd_jump w in
    let w := set_player
               (mkPlayer (pl_x p) (pl_y p) (pl_width p) (pl_height p)
                  (- ux * force) (- uy * force)
                  (pl_fuel p - fuelConsumption config) (pl_maxFuel p)
                  (pl_flashTimer p)) w in
    let pulseWidth := pulseWidthOf p isSuper in
    let w := set_pulses
               (pulses w ++
                [mkPulse (px - pulseWidth / 2) py pulseWidth
                   (if isSuper then 15 else 8) (if isSuper then 15 else 8)
                   isSuper]) w in
    let '(es, g, w) := pulseSweep px py pulseWidth isSuper (enemies w) g w in
    let w := set_enemies es w in
    let w := if negb isSuper then set_intensity 15 w else w in
    set_particles
      (particles w ++
       jumpBurst (if isSuper then 40%nat else 20%nat) px py ux uy isSuper g) w.

(** ** [handleGlobalInteraction] *)
Definition handleGlobalInteraction (i : Interaction) (g : Rng) (w : World)
  : World :=
  if negb (isMouseOver i) && negb (isTouch i) then w
  else
    match gameState w with
    | PLAYING =>
        if isTouch i
           && (Rltb (clientX i) (rect_left i) || Rgtb (clientX i) (rect_right i)
               || Rltb (clientY i) (rect_top i)
               || Rgtb (clientY i) (rect_bottom i))
        then w
        else
          let mx := (clientX i - rect_left i) * (GAME_WIDTH K / rect_width i) in
          let my := (clientY i - rect_top i) * (GAME_HEIGHT K / rect_height i) in
          executeJump mx my g w
    | START | GAMEOVER => resetGame w
    end.

(** ** [update] *)

(** The frame duration [dt]. *)
Definition dt : R := 1.0.

(** Integration of the player: gravity, motion, drag, the flash timer, the
    two walls and the fuel regeneration.  The result is the player and the
    shake intensity (the walls overwrite it). *)
Definition movePlayer (p : Player) (intensity : R) : Player * R :=
  let vy := pl_vy p + gravity config * dt in
  let x := pl_x p + pl_vx p * dt in
  let y := pl_y p + vy * dt in
  let vx := pl_vx p * AIR_RESISTANCE K in
  let flashTimer :=
    if Rlt_dec 0 (pl_flashTimer p) then pl_flashTimer p - dt
    else pl_flashTimer p in
  let '(x, vx, intensity) :=
    if Rlt_dec x 0 then
      let vx := - vx * bounceElasticity config in
      (0, vx, Rabs vx * 0.5)
    else (x, vx, intensity) in
  let '(x, vx, intensity) :=
    if Rlt_dec (GAME_WIDTH K - pl_width p) x then
      let vx := - vx * bounceElasticity config in
      (GAME_WIDTH K - pl_width p, vx, Rabs vx * 0.5)
    else (x, vx, intensity) in
  let fuel :=
    if Rlt_dec (pl_fuel p) (pl_maxFuel p) then
      Rmin (pl_maxFuel p) (pl_fuel p + fuelRegen config * dt)
    else pl_fuel p in
  (mkPlayer x y (pl_width p) (pl_height p) vx vy fuel (pl_maxFuel p)
     flashTimer,
   intensity).

(** The fall past the bottom boundary. *)
Definition checkFall (w : World) : World :=
  if Rlt_dec (GAME_HEIGHT K) (pl_y (player w)) then
    playSound snd_shockwave (set_intensity 25 (set_gameState GAMEOVER w))
  else w.

(** The camera shake: two random draws while the intensity is positive. *)
Definition stepShake (g : Rng) (w : World) : Rng * World :=
  let s := shake w in
  if Rlt_dec 0 (sh_intensity s) then
    (after 2 g,
     set_shake
       (mkShake ((g 0%nat - 0.5) * sh_intensity s)
                ((g 1%nat - 0.5) * sh_intensity s)
                (sh_intensity s * 0.9)) w)
  else (g, w).

Definition moveParticle (p : Particle) : Particle :=
  mkParticle (pa_x p + pa_vx p * dt) (pa_y p + pa_vy p * dt) (pa_vx p)
             (pa_vy p + gravity config * 0.3 * dt) (pa_life p - 1 * dt)
             (pa_maxLife p) (pa_color p).

Definition agePulse (s : Pulse) : Pulse :=
  mkPulse (pu_x s) (pu_y s) (pu_width s) (pu_life s - 1 * dt) (pu_maxLife s)
          (pu_isSuper s).

(** The first half of the shockwave callback: re-centre, age and resize.
    With a [sw_maxLife] of zero the quotient of the source is infinite or
    NaN and its radius is NaN, which no real number stands for: the
    definition is the callback for the other values of [sw_maxLife]. *)
Definition growShockwave (playerCenterX playerCenterY : R) (sw : Shockwave)
  : Shockwave :=
  let life := sw_life sw - dt in
  let progress := 1 - life / sw_maxLife sw in
  let easedProgress := sin (progress * PI) in
  mkShockwave playerCenterX playerCenterY (easedProgress * sw_maxRadius sw)
              (sw_maxRadius sw) life (sw_maxLife sw) (sw_id sw).

(** The distance between an enemy and a point. *)
Definition distTo (e : Enemy) (cx cy : R) : R :=
  let dx := en_x e - cx in
  let dy := en_y e - cy in
  sqrt (dx * dx + dy * dy).

(** The test of a shockwave on one enemy: alive and within reach. *)
Definition burnHits (sw : Shockwave) (e : Enemy) : bool :=
  negb (en_isDead e)
  && Rltb (distTo e (sw_x sw) (sw_y sw)) (sw_radius sw + en_radius e).

(** The inner [enemiesRef.current.forEach] of the shockwave callback. *)
Fixpoint burnEnemies (playerCenterX playerCenterY : R) (sw : Shockwave)
    (es : list Enemy) (w : World) : list Enemy * World :=
  match es with
  | [] => ([], w)
  | e :: rest =>
      if burnHits sw e then
        let w := triggerShockwave playerCenterX playerCenterY 0.8 w in
        let w := playSound snd_kill w in
        let '(rest', w') := burnEnemies playerCenterX playerCenterY sw rest w in
        (set_isDead true e :: rest', w')
      else
        let '(rest', w') := burnEnemies playerCenterX playerCenterY sw rest w in
        (e :: rest', w')
  end.

(** [shockwavesRef.current.forEach]: the callback runs on the shockwaves
    present when the loop starts (the first argument); those pushed by
    [triggerShockwave] during the loop land at the end of [shockwaves w] and
    are not visited. *)
Fixpoint burnAll (playerCenterX playerCenterY : R) (visit : list Shockwave)
    (es : list Enemy) (w : World) : list Shockwave * list Enemy * World :=
  match visit with
  | [] => ([], es, w)
  | sw :: rest =>
      let sw := growShockwave playerCenterX playerCenterY sw in
      let '(es, w) := burnEnemies playerCenterX playerCenterY sw es w in
      let '(rest', es', w') := burnAll playerCenterX playerCenterY rest es w in
      (sw :: rest', es', w')
  end.

(** The whole shockwave block, pruning included. *)
Definition stepShockwaves (playerCenterX playerCenterY : R) (w : World)
  : World :=
  let old := shockwaves w in
  let '(visited, es, w) :=
    burnAll playerCenterX playerCenterY old (enemies w) w in
  let pushed := skipn (length old) (shockwaves w) in
  let w := set_enemies es w in
  set_shockwaves
    (filter (fun sw => Rltb 0 (sw_life sw)) (visited ++ pushed)) w.

(** The spawn director. *)
Definition curveValue (points : list R) (t : R) : option R :=
  let n := INR (length points) - 1 in
  let idx := floor (t * n) in
  let nxtIdx := Rmin (idx + 1) n in
  let localT := js_rem (t * n) 1 in
  match index points idx, index points nxtIdx with
  | Some a, Some b => Some (a * (1 - localT) + b * localT)
  | _, _ => None
  end.

Definition waveFactor (seconds : R) : R := 1.0 + 0.6 * sin (seconds * 0.8).

Definition finalSpawnRate (seconds : R) : option R :=
  let cycleDuration := 120 in
  let t := js_rem seconds cycleDuration / cycleDuration in
  match curveValue (spawnCurve config) t with
  | Some cv =>
      Some ((enemySpawnRate config + cv * 0.1 * difficultyScale config)
            * waveFactor seconds)
  | None => None
  end.

Definition finalSpeed (seconds : R) : R :=
  Rmin (1.5 + seconds * 0.05 * difficultyScale config) 8.

(** Where a new enemy appears: [r] is the random draw. *)
Definition spawnX (playerCenterX r : R) : R :=
  let spawnX := r * (GAME_WIDTH K - 40) + 20 in
  if Rlt_dec (Rabs (spawnX - playerCenterX)) 60 then
    (if Rlt_dec spawnX playerCenterX then Rmax 20 (spawnX - 60)
     else Rmin (GAME_WIDTH K - 20) (spawnX + 60))
  else spawnX.

(** The enemy pushed by a spawning frame: [g] starts at the draw for the
    position. *)
Definition newEnemy (playerCenterX : R) (g : Rng) (id : nat) (seconds : R)
  : Enemy :=
  mkEnemy id (spawnX playerCenterX (g 0%nat)) (-30)
          (10 + g 1%nat * 12) (finalSpeed seconds + g 2%nat * 1.0) false.

(** Whether this frame spawns: [Math.random() < finalSpawnRate * dt]. *)
Definition spawns (g : Rng) (seconds : R) : bool :=
  match finalSpawnRate seconds with
  | Some rate => Rltb (draw g) (rate * dt)
  | None => false
  end.

Definition stepSpawn (playerCenterX : R) (g : Rng) (w : World) : World :=
  let seconds := elapsedTime w / 60 in
  if spawns g seconds then
    let e := newEnemy playerCenterX (after 1 g) (enemyIdCounter w) seconds in
    set_enemyIdCounter (S (enemyIdCounter w))
      (set_enemies (enemies w ++ [e]) w)
  else w.

(** The last [enemiesRef.current.forEach]: the fall of the enemies and the
    lethal contact. *)
Definition fallen (e : Enemy) : Enemy :=
  set_en_y (en_y e + en_speed e * dt) e.

Definition touches (playerCenterX playerCenterY : R)
    (invincibility playerWidth : R) (e : Enemy) : bool :=
  Rleb invincibility 0
  && Rltb (distTo e playerCenterX playerCenterY)
          (en_radius e + playerWidth / 2 - 2).

Fixpoint fallEnemies (playerCenterX playerCenterY : R) (es : list Enemy)
    (w : World) : list Enemy * World :=
  match es with
  | [] => ([], w)
  | e :: rest =>
      let e := fallen e in
      let w :=
        if touches playerCenterX playerCenterY (invincibilityFrames w)
             (pl_width (player w)) e
        then playSound snd_shockwave (set_gameState GAMEOVER w)
        else w in
      let '(rest', w') := fallEnemies playerCenterX playerCenterY rest w in
      (e :: rest', w')
  end.

Definition keepEnemy (e : Enemy) : bool :=
  negb (en_isDead e) && Rltb (en_y e) (GAME_HEIGHT K + 50).

(** The frame up to the shockwave block: score, invincibility, the player,
    the fall, the shake, the particles and the pulses. *)
Definition beginFrame (g : Rng) (w : World) : Rng * World :=
  let w := set_score (floor (elapsedTime w / 60) * 10) w in
  let w :=
    if Rlt_dec 0 (invincibilityFrames w) then
      set_invincibilityFrames (invincibilityFrames w - dt) w
    else w in
  let '(p, intensity) := movePlayer (player w) (sh_intensity (shake w)) in
  let w := set_intensity intensity (set_player p w) in
  let w := checkFall w in
  let '(g, w) := stepShake g w in
  let w := set_particles
             (filter (fun p => Rltb 0 (pa_life p))
                (map moveParticle (particles w))) w in
  let w := set_pulses
             (filter (fun s => Rltb 0 (pu_life s))
                (map agePulse (pulses w))) w in
  (g, w).

Definition update (g : Rng) (w : World) : World :=
  let w := set_elapsedTime (elapsedTime w + dt) w in
  match gameState w with
  | PLAYING =>
      let playerCenterX := centerX (player w) in
      let playerCenterY := centerY (player w) in
      let '(g, w) := beginFrame g w in
      let w := stepShockwaves playerCenterX playerCenterY w in
      let w := stepSpawn playerCenterX g w in
      let '(es, w) := fallEnemies playerCenterX playerCenterY (enemies w) w in
      set_enemies (filter keepEnemy es) w
  | START | GAMEOVER => w
  end.

(** ** The component as a transition system *)

(** The effect that follows every render: the best score so far. *)
Definition syncHighScore (w : World) : World :=
  if Rlt_dec (highScore w) (score w) then set_highScore (score w) w else w.

Definition step (ev : Event) (w : World) : World :=
  syncHighScore
    (match ev with
     | Frame g => update g w
     | Pointer i g => handleGlobalInteraction i g w
     end).

Definition run (evs : list Event) (w : World) : World :=
  fold_left (fun w ev => step ev w) evs w.

Definition event_ok (ev : Event) : Prop :=
  match ev with
  | Frame g => rng_ok g
  | Pointer _ g => rng_ok g
  end.

(** The worlds the component can be in: the mounted one, and what frames and
    pointer events make of it. *)
Inductive reachable : World -> Prop :=
| reach_init : reachable initialWorld
| reach_step : forall ev w,
    reachable w -> event_ok ev -> reachable (step ev w).

(** ** Vocabulary of the statements *)

(** Two worlds that differ at most in the cue log. *)
Definition same_but_sounds (w w' : World) : Prop :=
  gameState w' = gameState w /\ score w' = score w
  /\ highScore w' = highScore w /\ elapsedTime w' = elapsedTime w
  /\ invincibilityFrames w' = invincibilityFrames w
  /\ player w' = player w /\ enemies w' = enemies w
  /\ particles w' = particles w /\ pulses w' = pulses w
  /\ shockwaves w' = shockwaves w /\ shake w' = shake w
  /\ enemyIdCounter w' = enemyIdCounter w
  /\ shockwaveIdCounter w' = shockwaveIdCounter w.

(** Two worlds that agree on everything but the shockwaves, their counter
    and the cue log. *)
Definition same_but_burning (w w' : World) : Prop :=
  gameState w' = gameState w /\ score w' = score w
  /\ highScore w' = highScore w /\ elapsedTime w' = elapsedTime w
  /\ invincibilityFrames w' = invincibilityFrames w
  /\ player w' = player w /\ enemies w' = enemies w
  /\ particles w' = particles w /\ pulses w' = pulses w
  /\ shake w' = shake w /\ enemyIdCounter w' = enemyIdCounter w.

(** The shockwave that [triggerShockwave x y radiusScale] pushes. *)
Definition pushedShockwave (x y radiusScale : R) (id : nat) : Shockwave :=
  mkShockwave x y 0 (burningRadius config * radiusScale)
    (burningDuration config) (burningDuration config) id.

(** The pulse test of the jump that [executeJump] would perform in [w]. *)
Definition jumpHits (w : World) (e : Enemy) : bool :=
  let p := player w in
  pulseHits (centerX p) (centerY p) (pulseWidthOf p (inDeadZone p))
            (inDeadZone p) e.

(** The fuel invariant. *)
Definition fuel_ok (w : World) : Prop :=
  0 <= pl_fuel (player w) <= pl_maxFuel (player w).

(** What the pulse sweep leaves alone: everything but the enemies' flags,
    the fuel and flash timer of the player, the particles, the shockwaves
    and the cue log. *)
Definition same_but_kills (w w' : World) : Prop :=
  gameState w' = gameState w /\ score w' = score w
  /\ highScore w' = highScore w /\ elapsedTime w' = elapsedTime w
  /\ invincibilityFrames w' = invincibilityFrames w
  /\ pulses w' = pulses w /\ shake w' = shake w
  /\ enemyIdCounter w' = enemyIdCounter w
  /\ pl_x (player w') = pl_x (player w)
  /\ pl_y (player w') = pl_y (player w)
  /\ pl_width (player w') = pl_width (player w)
  /\ pl_height (player w') = pl_height (player w)
  /\ pl_vx (player w') = pl_vx (player w)
  /\ pl_vy (player w') = pl_vy (player w)
  /\ pl_maxFuel (player w') = pl_maxFuel (player w).

(** The enemies after a pulse with the given test. *)
Definition markHit (hit : Enemy -> bool) (e : Enemy) : Enemy :=
  if hit e then set_isDead true e else e.

(** The number of elements of a list that pass a test. *)
Definition count {A : Type} (f : A -> bool) (l : list A) : nat :=
  length (filter f l).

(** What the contact loop leaves alone: everything but the state tag and the
    cue log; the tag can only move to [GAMEOVER]. *)
Definition same_but_over (w w' : World) : Prop :=
  (gameState w' = gameState w \/ gameState w' = GAMEOVER)
  /\ score w' = score w
  /\ highScore w' = highScore w /\ elapsedTime w' = elapsedTime w
  /\ invincibilityFrames w' = invincibilityFrames w
  /\ player w' = player w /\ enemies w' = enemies w
  /\ particles w' = particles w /\ pulses w' = pulses w
  /\ shockwaves w' = shockwaves w /\ shake w' = shake w
  /\ enemyIdCounter w' = enemyIdCounter w
  /\ shockwaveIdCounter w' = shockwaveIdCounter w.

(** The number of animation frames in a sequence of events. *)
Fixpoint frames (evs : list Event) : nat :=
  match evs with
  | [] => 0%nat
  | Frame _ :: rest => S (frames rest)
  | Pointer _ _ :: rest => frames rest
  end.

(** The game is in [PLAYING] when each event of the sequence arrives. *)
Fixpoint playing_before (evs : list Event) (w : World) : Prop :=
  match evs with
  | [] => True
  | ev :: rest => gameState w = PLAYING /\ playing_before rest (step ev w)
  end.

(** The score that [update] displays for a number of elapsed frames. *)
Definition scoreAt (elapsed : R) : R := floor (elapsed / 60) * 10.

(** The score of a playing world is the score of its frame count. *)
Definition score_ok (w : World) : Prop :=
  gameState w = PLAYING -> score w = scoreAt (elapsedTime w).

(** The number of enemies flagged dead. *)
Definition dead_count (es : list Enemy) : nat := count en_isDead es.

(** The test of a whole list of shockwaves, grown and re-centred at
    [(cx, cy)], on one enemy. *)
Definition burnedBy (cx cy : R) (sws : list Shockwave) (e : Enemy) : bool :=
  negb (en_isDead e)
  && existsb
       (fun sw =>
          Rltb (distTo e cx cy)
               (sw_radius (growShockwave cx cy sw) + en_radius e))
       sws.

(** The shockwave block of the frame that [update g w] runs: its visited
    shockwaves, the enemies it leaves and the world after it. *)
Definition frameBurn (g : Rng) (w : World)
  : list Shockwave * list Enemy * World :=
  let w0 := set_elapsedTime (elapsedTime w + dt) w in
  let w1 := snd (beginFrame g w0) in
  burnAll (centerX (player w)) (centerY (player w))
    (shockwaves w1) (enemies w1) w1.

(** A shockwave fresh from a chained elimination. *)
Definition chained (cx cy : R) (sw : Shockwave) : Prop :=
  sw_x sw = cx /\ sw_y sw = cy /\ sw_radius sw = 0
  /\ sw_maxRadius sw = burningRadius config * 0.8
  /\ sw_life sw = burningDuration config
  /\ sw_maxLife sw = burningDuration config.

(** What holds of the enemies and shockwaves of every reachable world. *)
Definition wellFormed (w : World) : Prop :=
  Forall (fun e => 10 <= en_radius e) (enemies w)
  /\ (burningEnabled config = false -> shockwaves w = []).

(** The phases of the frame that [update g w] runs on a playing world: after
    [beginFrame], after the shockwave block, after the spawn. *)
Definition frameStart (g : Rng) (w : World) : Rng * World :=
  beginFrame g (set_elapsedTime (elapsedTime w + dt) w).

Definition frameBurnt (g : Rng) (w : World) : World :=
  stepShockwaves (centerX (player w)) (centerY (player w))
    (snd (frameStart g w)).

Definition frameSpawned (g : Rng) (w : World) : World :=
  stepSpawn (centerX (player w)) (fst (frameStart g w)) (frameBurnt g w).

(** *** A frame of a playing world, read off the world it starts from *)

(** Whether the frame moves the player past the bottom boundary. *)
Definition frameFell (w : World) : bool :=
  Rltb (GAME_HEIGHT K)
       (pl_y (player w) + (pl_vy (player w) + gravity config * dt) * dt).

(** The shake intensity before the shake step of the frame. *)
Definition frameIntensity (w : World) : R :=
  if frameFell w then 25
  else snd (movePlayer (player w) (sh_intensity (shake w))).

(** The random source after the shake step. *)
Definition frameRng (g : Rng) (w : World) : Rng :=
  if Rlt_dec 0 (frameIntensity w) then after 2 g else g.

(** The invincibility timer during the frame. *)
Definition frameInv (w : World) : R :=
  if Rlt_dec 0 (invincibilityFrames w) then invincibilityFrames w - dt
  else invincibilityFrames w.

(** The enemies after the shockwave block. *)
Definition frameBurned (w : World) : list Enemy :=
  map (markHit (burnedBy (centerX (player w)) (centerY (player w))
                  (shockwaves w)))
      (enemies w).

(** The enemies after the spawn, before they fall. *)
Definition frameEnemies (g : Rng) (w : World) : list Enemy :=
  let seconds := (elapsedTime w + dt) / 60 in
  if spawns (frameRng g w) seconds then
    frameBurned w
    ++ [newEnemy (centerX (player w)) (after 1 (frameRng g w))
          (enemyIdCounter w) seconds]
  else frameBurned w.

(** The lethal-contact test of the frame on a fallen enemy. *)
Definition frameTouches (w : World) (e : Enemy) : bool :=
  touches (centerX (player w)) (centerY (player w)) (frameInv w)
          (pl_width (player w)) e.

(** *** A sample configuration and a sample run

    A configuration without gravity, drag-free bounces or difficulty ramp,
    a large player and a short shockwave, chosen so that a short run
    reaches a world where a pulse, a shockwave and a lethal contact meet.
    The recoil force is the distance from the start position to the top of
    the play field. *)
Definition demoConfig : GameConfig :=
  mkConfig 0 (GAME_HEIGHT K / 2 - 25) 0 12 0.5 0 0 0 1 [0; 0]
           false true 80 2 100 false 0.

(** A random source that yields the values of a list, then zeros. *)
Definition rng_of (l : list R) : Rng := fun i => nth i l 0.

Definition still : Rng := fun _ => 0.
Definition quiet : Rng := fun _ => 0.9.
Definition spawnA : Rng := rng_of [0; 1 / 2; 0; 1 / 2].
Definition spawnB : Rng := rng_of [0; 1 / 2; 11 / 12; 1 / 2].

(** A mouse press over the game, at the logical point [(x, y)] of a canvas
    displayed at its logical size. *)
Definition clickAt (x y : R) : Interaction :=
  mkInteraction false true x y 0 0 (GAME_WIDTH K) (GAME_HEIGHT K).

(** A mouse press while the pointer is away from the game. *)
Definition clickAway : Interaction :=
  mkInteraction false false 0 0 0 0 (GAME_WIDTH K) (GAME_HEIGHT K).

(** Start the game, let two enemies spawn, jump to their height. *)
Definition approach : list Event :=
  [ Pointer (clickAt 0 0) still;
    Frame spawnA;
    Frame spawnB;
    Pointer (clickAt (GAME_WIDTH K / 2) (GAME_HEIGHT K / 2 - 49)) still;
    Frame quiet ].

(** The jump that follows: aimed at the centre of the player. *)
Definition strike : Event :=
  Pointer (clickAt (GAME_WIDTH K / 2) (-25)) still.

(** The two enemies of the run, at their spawn height. *)
Definition enemyA (y : R) (dead : bool) : Enemy :=
  mkEnemy 0 (GAME_WIDTH K / 2 + 60) y 10 2 dead.
Definition enemyB (y : R) (dead : bool) : Enemy :=
  mkEnemy 1 (GAME_WIDTH K / 2 + 60) y 21 2 dead.

(** What the sample run needs to know of a world: its state, its clock,
    the position, vertical speed and fuel of the player, the enemies, the
    shockwaves, the shake intensity and the next enemy id.  The player is
    the large one of [demoConfig], at rest horizontally and vulnerable. *)
Definition demoShape (w : World) (st : GameState) (elapsed x y vy fuel : R)
    (es : list Enemy) (sws : list Shockwave) (intensity : R) (eid : nat)
  : Prop :=
  gameState w = st /\ elapsedTime w = elapsed
  /\ invincibilityFrames w = 0
  /\ pl_x (player w) = x /\ pl_y (player w) = y
  /\ pl_width (player w) = 100 /\ pl_height (player w) = 100
  /\ pl_vx (player w) = 0 /\ pl_vy (player w) = vy
  /\ pl_fuel (player w) = fuel /\ pl_maxFuel (player w) = MAX_FUEL K
  /\ enemies w = es /\ shockwaves w = sws
  /\ sh_intensity (shake w) = intensity
  /\ enemyIdCounter w = eid.

(** A reachable frame in which an enemy, alive when the frame starts, is
    flagged by the shockwave pass of the frame and then, flagged, is the one
    enemy whose contact ends the game, the player being vulnerable and not
    having fallen out. *)
Definition deadContactFrame : Prop :=
  exists w g e,
    reachable w /\ rng_ok g
    /\ gameState w = PLAYING /\ invincibilityFrames w <= 0
    /\ In e (enemies w) /\ en_isDead e = false
    /\ In (set_isDead true e) (enemies (frameBurnt g w))
    /\ In (set_isDead true e) (frameEnemies g w)
    /\ frameTouches w (fallen (set_isDead true e)) = true
    /\ frameFell w = false
    /\ (forall e',
          In e' (frameEnemies g w) ->
          frameTouches w (fallen e') = true -> e' = set_isDead true e)
    /\ gameState (update g w) = GAMEOVER.

(** *** Sample data *)

(** A set of constants to run the definitions on.  The constants module of
    the game is not among the sources at hand: these values stand for it in
    the examples only, and no theorem depends on them. *)
Definition sampleConstants : Constants := mkConstants 400 600 100 0.98.

(** The configuration that [App.tsx] starts with. *)
Definition defaultConfig : GameConfig :=
  mkConfig 0.16 6 0.1 12 0.01 1.2 0.5 0.15 3
           [0.1; 0.1785714285714286; 0.29761904761904767; 0.4;
            0.47619047619047616]
           false true 80 44 20 true 0.04.

(** A playing world whose player has 5 units of fuel left. *)
Definition lowFuelWorld : World :=
  mkWorld PLAYING 0 0 0 0 (mkPlayer 190 200 20 20 0 0 5 100 0)
          [] [] [] [] (mkShake 0 0 0) 0%nat 0%nat [].



(** Start the game, jump away from a point one unit to the left of the
    centre of the player: the player leaves to the right. *)
Definition sidestep : list Event :=
  [ Pointer (clickAt 0 0) still;
    Pointer (clickAt (GAME_WIDTH K / 2 - 1) (GAME_HEIGHT K / 2 - 100 + 10))
      still ].

(** The draws of a frame that shakes, spawns, and places its enemy at
    [43 / 64] of the spawn range. *)
Definition spawnC : Rng := rng_of [0; 0; 0; 43 / 64; 1 / 2; 1 / 2].

(** ** Vocabulary of the further properties *)


(** The player is inside the play field, horizontally. *)
Definition inField (w : World) : Prop :=
  0 <= pl_x (player w) <= GAME_WIDTH K - pl_width (player w).

(** The enemies carry distinct ids, all below the counter. *)
Definition ids_ok (w : World) : Prop :=
  NoDup (map en_id (enemies w))
  /\ Forall (fun e => (en_id e < enemyIdCounter w)%nat) (enemies w).

(** The shape of the transient effects: a particle and a pulse that are
    still due to be drawn, with the remaining life within the initial one. *)
Definition particle_ok (p : Particle) : Prop :=
  0 < pa_life p <= pa_maxLife p /\ pa_maxLife p <= 40.

Definition pulse_ok (s : Pulse) : Prop :=
  0 < pu_life s <= pu_maxLife s /\ pu_maxLife s <= 15.

(** The shape of a stored shockwave. *)
Definition shockwave_ok (sw : Shockwave) : Prop :=
  0 < sw_life sw <= sw_maxLife sw
  /\ 0 <= sw_radius sw <= sw_maxRadius sw
  /\ sw_maxRadius sw <= burningRadius config.

(** The envelope of an enemy in play.  The upper bounds of the radius and
    of the speed are large ones: a draw of [Math.random] close to 1 can
    round the sum up to the bound. *)
Definition enemy_ok (e : Enemy) : Prop :=
  10 <= en_radius e <= 22 /\ 1.5 <= en_speed e <= 9
  /\ 20 <= en_x e <= GAME_WIDTH K - 20
  /\ -30 <= en_y e < GAME_HEIGHT K + 50.

(** Jumps in a row, with no frame in between: each target comes with the
    random source of its jump. *)
Definition jumps (targets : list (R * R * Rng)) (w : World) : World :=
  fold_left
    (fun w t => executeJump (fst (fst t)) (snd (fst t)) (snd t) w)
    targets w.

(** The animation loop, [update(); draw()]: the world after the frame and
    the calls of the frame on the canvas.  The [draw] of a frame is the
    callback of the render before it: it reads the state tag, the score and
    the best score that [w] has, and the refs as [update] leaves them. *)
Definition loop (look : Presentation) (g : Rng) (w : World)
  : World * list Canvas.Cmd :=
  let w' := update g w in
  (w', Canvas.draw K config look (gameState w) (score w) (highScore w) w').

(** A world that [draw] can paint: effects in shape, enemies with a radius,
    a player with a width. *)
Definition drawable (w : World) : Prop :=
  Forall shockwave_ok (shockwaves w)
  /\ Forall particle_ok (particles w)
  /\ Forall pulse_ok (pulses w)
  /\ Forall (fun e => 0 <= en_radius e) (enemies w)
  /\ 0 <= pl_width (player w).

(** No enemy of the world is flagged dead. *)
Definition all_alive (w : World) : Prop :=
  Forall (fun e => en_isDead e = false) (enemies w).

(** The clock of the world counts whole frames. *)
Definition whole_clock (w : World) : Prop :=
  exists n : nat, elapsedTime w = INR n.

(** *** More sample data *)

(** The look that [App.tsx] starts with. *)
Definition defaultLook : Presentation :=
  mkPresentation 1.5 "#FF77A8"
    "One click to launch, one kill to trigger a shockwave, and endless blasts to clear your path to the peak"
    true "#FFCCAA" shape_square true 0.05.

(** The default configuration with the dead jump switched on. *)
Definition deadJumpConfig : GameConfig :=
  mkConfig 0.16 6 0.1 12 0.01 1.2 0.5 0.15 3
           [0.1; 0.1785714285714286; 0.29761904761904767; 0.4;
            0.47619047619047616]
           true true 80 44 20 true 0.04.

(** An enemy below the centre of the player of [deepWorld] and within its
    reach: a super jump, whose pulse goes upwards, leaves it alive. *)
Definition sittingEnemy : Enemy := mkEnemy 0 200 590 21 2 false.

(** A playing world whose player, with full fuel, is near the bottom of a
    field 600 high, in the dead zone when the dead jump is on, with
    [sittingEnemy] on it. *)
Definition deepWorld : World :=
  mkWorld PLAYING 0 0 0 0 (mkPlayer 190 570 20 20 0 0 100 100 0)
          [sittingEnemy] [] [] [] (mkShake 0 0 0) 1%nat 0%nat [].

(** The default configuration with the sound effects turned down to 0. *)
Definition mutedConfig : GameConfig :=
  mkConfig 0.16 6 0.1 12 0.01 1.2 0.5 0.15 3
           [0.1; 0.1785714285714286; 0.29761904761904767; 0.4;
            0.47619047619047616]
           false true 80 44 20 true 0.

(** A game started and left alone for 45 frames in which nothing spawns. *)
Definition warmUp : list Event :=
  Pointer (clickAt 0 0) still :: repeat (Frame quiet) 45.

(** The world of the default configuration [k] frames into such a game: the
    player, at rest horizontally, is in free fall from its start position
    in a field 400 wide and 600 high.  The bounds on the fall leave room
    above the sums [0.16 * k] and [200 + 0.08 * k * (k + 1)]. *)
Definition freeFall (k : nat) (w : World) : Prop :=
  gameState w = PLAYING /\ elapsedTime w = INR k
  /\ invincibilityFrames w = 0
  /\ pl_x (player w) = 190 /\ pl_width (player w) = 20
  /\ pl_vx (player w) = 0
  /\ pl_y (player w) <= 200 + 0.09 * INR k * (INR k + 1)
  /\ pl_vy (player w) <= 0.17 * INR k
  /\ enemies w = [] /\ shockwaves w = []
  /\ sh_intensity (shake w) = 0.


(** The game container on the page. *)
Definition containerRect : DOMRect := mkDOMRect 300 0 900 700.

(** A mouse press, as the game component receives it while the page holds
    the pointer to be over the game or not. *)
Definition pressWhile (over : bool) : Interaction :=
  mkInteraction false over 400 300 0 0 400 600.

(** * Properties *)

(** ** Comparisons *)

Lemma Rltb_true (a b : R) : Rltb a b = true <-> a < b.
Proof. unfold Rltb; destruct (Rlt_dec a b); split; intros; congruence || lra. Qed.

Lemma Rltb_false (a b : R) : Rltb a b = false <-> b <= a.
Proof. unfold Rltb; destruct (Rlt_dec a b); split; intros; congruence || lra. Qed.

Lemma Rleb_true (a b : R) : Rleb a b = true <-> a <= b.
Proof. unfold Rleb; destruct (Rle_dec a b); split; intros; congruence || lra. Qed.

Lemma Rleb_false (a b : R) : Rleb a b = false <-> b < a.
Proof. unfold Rleb; destruct (Rle_dec a b); split; intros; congruence || lra. Qed.

Lemma Rgtb_true (a b : R) : Rgtb a b = true <-> a > b.
Proof. unfold Rgtb; rewrite Rltb_true; lra. Qed.

Lemma Rgtb_false (a b : R) : Rgtb a b = false <-> a <= b.
Proof. unfold Rgtb; rewrite Rltb_false; lra. Qed.

(** Decide the comparisons of a goal whose outcome [lra] can settle. *)
Ltac decide_R :=
  repeat match goal with
    | |- context [Rlt_dec ?a ?b] => destruct (Rlt_dec a b); try lra
    | |- context [Rle_dec ?a ?b] => destruct (Rle_dec a b); try lra
    | |- context [Req_dec_T ?a ?b] => destruct (Req_dec_T a b); try lra
    end.

(** ** What [playSound] and [triggerShockwave] leave alone *)

Lemma playSound_same t w : same_but_sounds w (playSound t w).
Proof.
  unfold same_but_sounds, playSound.
  destruct (negb (audioEnabled config) || Rleb (sfxVolume config) 0);
    cbn; repeat split.
Qed.

Ltac sound_frame t w :=
  let H := fresh in
  pose proof (playSound_same t w) as H; unfold same_but_sounds in H; tauto.

Lemma playSound_gameState t w : gameState (playSound t w) = gameState w.
Proof. sound_frame t w. Qed.
Lemma playSound_score t w : score (playSound t w) = score w.
Proof. sound_frame t w. Qed.
Lemma playSound_highScore t w : highScore (playSound t w) = highScore w.
Proof. sound_frame t w. Qed.
Lemma playSound_elapsedTime t w : elapsedTime (playSound t w) = elapsedTime w.
Proof. sound_frame t w. Qed.
Lemma playSound_invincibilityFrames t w :
  invincibilityFrames (playSound t w) = invincibilityFrames w.
Proof. sound_frame t w. Qed.
Lemma playSound_player t w : player (playSound t w) = player w.
Proof. sound_frame t w. Qed.
Lemma playSound_enemies t w : enemies (playSound t w) = enemies w.
Proof. sound_frame t w. Qed.
Lemma playSound_particles t w : particles (playSound t w) = particles w.
Proof. sound_frame t w. Qed.
Lemma playSound_pulses t w : pulses (playSound t w) = pulses w.
Proof. sound_frame t w. Qed.
Lemma playSound_shockwaves t w : shockwaves (playSound t w) = shockwaves w.
Proof. sound_frame t w. Qed.
Lemma playSound_shake t w : shake (playSound t w) = shake w.
Proof. sound_frame t w. Qed.
Lemma playSound_enemyIdCounter t w :
  enemyIdCounter (playSound t w) = enemyIdCounter w.
Proof. sound_frame t w. Qed.
Lemma playSound_shockwaveIdCounter t w :
  shockwaveIdCounter (playSound t w) = shockwaveIdCounter w.
Proof. sound_frame t w. Qed.


Lemma triggerShockwave_shockwaves x y k w :
  shockwaves (triggerShockwave x y k w) =
  if burningEnabled config
  then shockwaves w ++ [pushedShockwave x y k (shockwaveIdCounter w)]
  else shockwaves w.
Proof.
  unfold triggerShockwave.
  destruct (burningEnabled config); cbn; [|reflexivity].
  now rewrite playSound_shockwaves.
Qed.

Lemma triggerShockwave_shockwaveIdCounter x y k w :
  shockwaveIdCounter (triggerShockwave x y k w) =
  if burningEnabled config then S (shockwaveIdCounter w)
  else shockwaveIdCounter w.
Proof.
  unfold triggerShockwave.
  destruct (burningEnabled config); cbn; [|reflexivity].
  now rewrite playSound_shockwaveIdCounter.
Qed.

Lemma same_but_burning_refl w : same_but_burning w w.
Proof. unfold same_but_burning; repeat split. Qed.

Lemma same_but_burning_trans w1 w2 w3 :
  same_but_burning w1 w2 -> same_but_burning w2 w3 -> same_but_burning w1 w3.
Proof. unfold same_but_burning; intuition congruence. Qed.

Lemma playSound_burning t w : same_but_burning w (playSound t w).
Proof.
  pose proof (playSound_same t w) as H.
  unfold same_but_sounds in H; unfold same_but_burning; tauto.
Qed.

Lemma triggerShockwave_burning x y k w :
  same_but_burning w (triggerShockwave x y k w).
Proof.
  unfold triggerShockwave.
  destruct (burningEnabled config); cbn; [|apply same_but_burning_refl].
  eapply same_but_burning_trans; [|apply playSound_burning].
  unfold same_but_burning; cbn; repeat split.
Qed.

(** ** The pulse sweep *)

Lemma same_but_kills_refl w : same_but_kills w w.
Proof. unfold same_but_kills; repeat split. Qed.

Lemma same_but_kills_trans w1 w2 w3 :
  same_but_kills w1 w2 -> same_but_kills w2 w3 -> same_but_kills w1 w3.
Proof. unfold same_but_kills; intuition congruence. Qed.

Lemma burning_kills w w' : same_but_burning w w' -> same_but_kills w w'.
Proof.
  unfold same_but_burning, same_but_kills.
  intros (?&?&?&?&?&Hp&?&?&?&?&?); rewrite Hp; repeat split; assumption.
Qed.

Lemma killBurst_length n ex ey sup g :
  length (killBurst n ex ey sup g) = n.
Proof. revert g; induction n; intros; cbn; [reflexivity|now rewrite IHn]. Qed.

Lemma jumpBurst_length n px py ux uy sup g :
  length (jumpBurst n px py ux uy sup g) = n.
Proof. revert g; induction n; intros; cbn; [reflexivity|now rewrite IHn]. Qed.

Lemma pulseKill_frame px py sup e g w :
  same_but_kills w (pulseKill px py sup e g w).
Proof.
  unfold pulseKill; cbv zeta.
  set (w1 := set_player _ w).
  assert (H1 : same_but_kills w w1)
    by (unfold same_but_kills; cbn; repeat split).
  pose proof (burning_kills _ _ (triggerShockwave_burning px py 1.0 w1)) as H2.
  pose proof (burning_kills _ _
                (playSound_burning snd_kill (triggerShockwave px py 1.0 w1)))
    as H3.
  refine (same_but_kills_trans _ _ _ H1 (same_but_kills_trans _ _ _ H2
            (same_but_kills_trans _ _ _ H3 _))).
  unfold same_but_kills; cbn; repeat split.
Qed.

Lemma pulseKill_fuel px py sup e g w :
  pl_fuel (player (pulseKill px py sup e g w)) = pl_maxFuel (player w).
Proof.
  unfold pulseKill; cbv zeta; cbn [player set_particles].
  rewrite playSound_player.
  match goal with |- context [triggerShockwave ?x ?y ?k ?w1] =>
    destruct (triggerShockwave_burning x y k w1) as (_&_&_&_&_&Hp&_) end.
  now rewrite Hp.
Qed.

Lemma pulseKill_particles px py sup e g w :
  particles (pulseKill px py sup e g w) =
  particles w ++
  killBurst (if sup then 20%nat else 12%nat) (en_x e) (en_y e) sup g.
Proof.
  unfold pulseKill; cbv zeta; cbn [particles set_particles].
  rewrite playSound_particles.
  match goal with |- context [triggerShockwave ?x ?y ?k ?w1] =>
    destruct (triggerShockwave_burning x y k w1) as (_&_&_&_&_&_&_&Hp&_) end.
  now rewrite Hp.
Qed.

Lemma pulseSweep_enemies px py pw sup es g w :
  fst (fst (pulseSweep px py pw sup es g w)) =
  map (markHit (pulseHits px py pw sup)) es.
Proof.
  revert g w; induction es as [|e rest IH]; intros; [reflexivity|].
  cbn [pulseSweep map]; unfold markHit at 1.
  destruct (pulseHits px py pw sup e); cbv zeta.
  - match goal with |- context [pulseSweep _ _ _ _ rest ?g' ?w'] =>
      specialize (IH g' w'); destruct (pulseSweep px py pw sup rest g' w')
        as [[r g2] w2] end.
    cbn in *; now rewrite IH.
  - specialize (IH g w); destruct (pulseSweep px py pw sup rest g w)
      as [[r g2] w2].
    cbn in *; now rewrite IH.
Qed.

Lemma pulseSweep_frame px py pw sup es g w :
  same_but_kills w (snd (pulseSweep px py pw sup es g w)).
Proof.
  revert g w; induction es as [|e rest IH]; intros;
    [apply same_but_kills_refl|].
  cbn [pulseSweep].
  destruct (pulseHits px py pw sup e); cbv zeta.
  - match goal with |- context [pulseSweep _ _ _ _ rest ?g' ?w'] =>
      specialize (IH g' w'); destruct (pulseSweep px py pw sup rest g' w')
        as [[r g2] w2]; cbn [snd] in * end.
    exact (same_but_kills_trans _ _ _ (pulseKill_frame px py sup e g w) IH).
  - specialize (IH g w); destruct (pulseSweep px py pw sup rest g w)
      as [[r g2] w2]; exact IH.
Qed.

(** The fuel after the sweep: refilled as soon as one enemy was hit. *)
Lemma pulseSweep_fuel px py pw sup es g w :
  pl_fuel (player (snd (pulseSweep px py pw sup es g w))) =
  if existsb (pulseHits px py pw sup) es then pl_maxFuel (player w)
  else pl_fuel (player w).
Proof.
  revert g w; induction es as [|e rest IH]; intros; [reflexivity|].
  cbn [pulseSweep existsb].
  destruct (pulseHits px py pw sup e); cbv zeta; cbn [orb].
  - match goal with |- context [pulseSweep _ _ _ _ rest ?g' ?w'] =>
      specialize (IH g' w'); destruct (pulseSweep px py pw sup rest g' w')
        as [[r g2] w2]; cbn [snd] in * end.
    rewrite IH, pulseKill_fuel.
    destruct (pulseKill_frame px py sup e g w) as (_&_&_&_&_&_&_&_&_&_&_&_&_&_&Hm).
    rewrite Hm; now destruct (existsb _ rest).
  - specialize (IH g w); destruct (pulseSweep px py pw sup rest g w)
      as [[r g2] w2]; exact IH.
Qed.

(** The particles after the sweep: a burst for every enemy hit. *)
Lemma pulseSweep_particles px py pw sup es g w :
  exists ps,
    particles (snd (pulseSweep px py pw sup es g w)) = particles w ++ ps
    /\ length ps =
       (count (pulseHits px py pw sup) es * (if sup then 20 else 12))%nat.
Proof.
  revert g w; induction es as [|e rest IH]; intros.
  - exists []; cbn; now rewrite app_nil_r.
  - cbn [pulseSweep]; unfold count; cbn [filter].
    destruct (pulseHits px py pw sup e); cbv zeta.
    + match goal with |- context [pulseSweep _ _ _ _ rest ?g' ?w'] =>
        destruct (IH g' w') as (ps & Hps & Hlen);
        destruct (pulseSweep px py pw sup rest g' w') as [[r g2] w2];
        cbn [snd] in * end.
      rewrite Hps, pulseKill_particles.
      eexists; rewrite <- app_assoc; split; [reflexivity|].
      rewrite length_app, killBurst_length, Hlen; unfold count; cbn [length].
      destruct sup; lia.
    + destruct (IH g w) as (ps & Hps & Hlen);
        destruct (pulseSweep px py pw sup rest g w) as [[r g2] w2];
        cbn [snd] in *.
      exists ps; split; assumption.
Qed.

(** ** [executeJump] *)

(** The world that the sweep of an accepted jump starts from, and the one
    that [executeJump] returns, agree with these descriptions. *)
Lemma executeJump_accepted mx my g w :
  fuelConsumption config <= pl_fuel (player w) ->
  exists w1 sweep,
    sweep = pulseSweep (centerX (player w)) (centerY (player w))
              (pulseWidthOf (player w) (inDeadZone (player w)))
              (inDeadZone (player w)) (enemies w) g w1
    /\ player w1 =
       mkPlayer (pl_x (player w)) (pl_y (player w)) (pl_width (player w))
         (pl_height (player w))
         (- ((mx - centerX (player w))
             / jumpDist (mx - centerX (player w)) (my - centerY (player w)))
          * (if inDeadZone (player w)
             then recoilForce config * superJumpMultiplier config
             else recoilForce config))
         (- ((my - centerY (player w))
             / jumpDist (mx - centerX (player w)) (my - centerY (player w)))
          * (if inDeadZone (player w)
             then recoilForce config * superJumpMultiplier config
             else recoilForce config))
         (pl_fuel (player w) - fuelConsumption config)
         (pl_maxFuel (player w)) (pl_flashTimer (player w))
    /\ pulses w1 =
       pulses w ++
       [mkPulse
          (centerX (player w)
           - pulseWidthOf (player w) (inDeadZone (player w)) / 2)
          (centerY (player w))
          (pulseWidthOf (player w) (inDeadZone (player w)))
          (if inDeadZone (player w) then 15 else 8)
          (if inDeadZone (player w) then 15 else 8)
          (inDeadZone (player w))]
    /\ particles w1 = particles w
    /\ shockwaves w1 = shockwaves w
    /\ shockwaveIdCounter w1 = shockwaveIdCounter w
    /\ gameState w1 = gameState w /\ score w1 = score w
    /\ elapsedTime w1 = elapsedTime w
    /\ enemyIdCounter w1 = enemyIdCounter w
    /\ invincibilityFrames w1 =
       (if inDeadZone (player w) then 15 else invincibilityFrames w)
    /\ player (executeJump mx my g w) = player (snd sweep)
    /\ enemies (executeJump mx my g w) = fst (fst sweep)
    /\ pulses (executeJump mx my g w) = pulses (snd sweep)
    /\ shockwaves (executeJump mx my g w) = shockwaves (snd sweep)
    /\ shockwaveIdCounter (executeJump mx my g w)
       = shockwaveIdCounter (snd sweep)
    /\ gameState (executeJump mx my g w) = gameState (snd sweep)
    /\ score (executeJump mx my g w) = score (snd sweep)
    /\ elapsedTime (executeJump mx my g w) = elapsedTime (snd sweep)
    /\ enemyIdCounter (executeJump mx my g w) = enemyIdCounter (snd sweep)
    /\ invincibilityFrames (executeJump mx my g w)
       = invincibilityFrames (snd sweep)
    /\ particles (executeJump mx my g w) =
       particles (snd sweep) ++
       jumpBurst (if inDeadZone (player w) then 40%nat else 20%nat)
         (centerX (player w)) (centerY (player w))
         ((mx - centerX (player w))
          / jumpDist (mx - centerX (player w)) (my - centerY (player w)))
         ((my - centerY (player w))
          / jumpDist (mx - centerX (player w)) (my - centerY (player w)))
         (inDeadZone (player w)) (snd (fst sweep)).
Proof.
  intros Hfuel. unfold executeJump.
  destruct (Rlt_dec (pl_fuel (player w)) (fuelConsumption config)) as [?|_];
    [lra|].
  cbv zeta.
  match goal with |- context [pulseSweep ?a ?b ?c ?d ?es g ?w1] =>
    exists w1, (pulseSweep a b c d es g w1);
    replace es with (enemies w)
      by (destruct (inDeadZone (player w)); cbn;
          now rewrite playSound_enemies);
    destruct (pulseSweep a b c d (enemies w) g w1) as [[es' g'] w'] end.
  split; [reflexivity|].
  cbn [fst snd].
  repeat split;
    try (destruct (inDeadZone (player w)); cbn;
         rewrite ?playSound_pulses, ?playSound_particles,
           ?playSound_shockwaves, ?playSound_shockwaveIdCounter,
           ?playSound_gameState, ?playSound_score, ?playSound_elapsedTime,
           ?playSound_enemyIdCounter, ?playSound_invincibilityFrames;
         reflexivity).
Qed.

(** ** The phases of [update] *)

Lemma same_but_over_refl w : same_but_over w w.
Proof. unfold same_but_over; repeat split; now left. Qed.

Lemma same_but_over_trans w1 w2 w3 :
  same_but_over w1 w2 -> same_but_over w2 w3 -> same_but_over w1 w3.
Proof.
  unfold same_but_over.
  intros ([?|?]&?) ([?|?]&?); (split; [|intuition congruence]);
    (left; congruence) || (right; congruence).
Qed.

Lemma sounds_over w w' : same_but_sounds w w' -> same_but_over w w'.
Proof. unfold same_but_sounds, same_but_over; intuition. Qed.

Lemma fallEnemies_frame cx cy es w :
  same_but_over w (snd (fallEnemies cx cy es w)).
Proof.
  revert w; induction es as [|e rest IH]; intros;
    [apply same_but_over_refl|].
  cbn [fallEnemies]; cbv zeta.
  match goal with |- context [fallEnemies cx cy rest ?w1] =>
    specialize (IH w1); destruct (fallEnemies cx cy rest w1) as [r w2];
    cbn [snd] in *; refine (same_but_over_trans _ w1 _ _ IH) end.
  destruct (touches _ _ _ _ _); [|apply same_but_over_refl].
  eapply same_but_over_trans; [|apply sounds_over, playSound_same].
  unfold same_but_over; cbn; repeat split; now right.
Qed.

Lemma fallEnemies_length cx cy es w :
  length (fst (fallEnemies cx cy es w)) = length es.
Proof.
  revert w; induction es as [|e rest IH]; intros; [reflexivity|].
  cbn [fallEnemies]; cbv zeta.
  match goal with |- context [fallEnemies cx cy rest ?w1] =>
    specialize (IH w1); destruct (fallEnemies cx cy rest w1) as [r w2] end.
  cbn in *; now rewrite IH.
Qed.

Lemma burnEnemies_frame cx cy sw es w :
  same_but_burning w (snd (burnEnemies cx cy sw es w)).
Proof.
  revert w; induction es as [|e rest IH]; intros;
    [apply same_but_burning_refl|].
  cbn [burnEnemies].
  destruct (burnHits sw e); cbv zeta.
  - match goal with |- context [burnEnemies cx cy sw rest ?w1] =>
      specialize (IH w1); destruct (burnEnemies cx cy sw rest w1) as [r w2];
      cbn [snd] in *; refine (same_but_burning_trans _ w1 _ _ IH) end.
    eapply same_but_burning_trans;
      [apply triggerShockwave_burning|apply playSound_burning].
  - specialize (IH w); destruct (burnEnemies cx cy sw rest w) as [r w2].
    exact IH.
Qed.

Lemma burnAll_frame cx cy visit es w :
  same_but_burning w (snd (burnAll cx cy visit es w)).
Proof.
  revert es w; induction visit as [|sw rest IH]; intros;
    [apply same_but_burning_refl|].
  cbn [burnAll]; cbv zeta.
  pose proof (burnEnemies_frame cx cy (growShockwave cx cy sw) es w) as H1.
  destruct (burnEnemies cx cy (growShockwave cx cy sw) es w) as [es1 w1].
  specialize (IH es1 w1).
  destruct (burnAll cx cy rest es1 w1) as [[r es2] w2].
  cbn [snd] in *. eapply same_but_burning_trans; eassumption.
Qed.

(** [stepShockwaves] touches the enemies, the shockwaves, their counter and
    the cue log only. *)
Lemma stepShockwaves_frame cx cy w :
  let w' := stepShockwaves cx cy w in
  gameState w' = gameState w /\ score w' = score w
  /\ highScore w' = highScore w /\ elapsedTime w' = elapsedTime w
  /\ invincibilityFrames w' = invincibilityFrames w
  /\ player w' = player w
  /\ particles w' = particles w /\ pulses w' = pulses w
  /\ shake w' = shake w /\ enemyIdCounter w' = enemyIdCounter w.
Proof.
  unfold stepShockwaves; cbv zeta.
  pose proof (burnAll_frame cx cy (shockwaves w) (enemies w) w) as H.
  destruct (burnAll cx cy (shockwaves w) (enemies w) w) as [[v es] w1].
  cbn [snd] in H; unfold same_but_burning in H; cbn; tauto.
Qed.

Lemma stepSpawn_frame cx g w :
  let w' := stepSpawn cx g w in
  gameState w' = gameState w /\ score w' = score w
  /\ highScore w' = highScore w /\ elapsedTime w' = elapsedTime w
  /\ invincibilityFrames w' = invincibilityFrames w
  /\ player w' = player w
  /\ particles w' = particles w /\ pulses w' = pulses w
  /\ shockwaves w' = shockwaves w
  /\ shake w' = shake w
  /\ shockwaveIdCounter w' = shockwaveIdCounter w.
Proof.
  unfold stepSpawn; cbv zeta; destruct (spawns g _); cbn; repeat split.
Qed.

Lemma checkFall_frame w :
  let w' := checkFall w in
  (gameState w' = gameState w \/ gameState w' = GAMEOVER)
  /\ score w' = score w
  /\ highScore w' = highScore w /\ elapsedTime w' = elapsedTime w
  /\ invincibilityFrames w' = invincibilityFrames w
  /\ player w' = player w /\ enemies w' = enemies w
  /\ particles w' = particles w /\ pulses w' = pulses w
  /\ shockwaves w' = shockwaves w
  /\ enemyIdCounter w' = enemyIdCounter w
  /\ shockwaveIdCounter w' = shockwaveIdCounter w.
Proof.
  unfold checkFall; destruct (Rlt_dec _ _); cbn.
  - rewrite playSound_gameState, playSound_score, playSound_highScore,
      playSound_elapsedTime, playSound_invincibilityFrames, playSound_player,
      playSound_enemies, playSound_particles, playSound_pulses,
      playSound_shockwaves, playSound_enemyIdCounter,
      playSound_shockwaveIdCounter; cbn.
    repeat split; now right.
  - repeat split; now left.
Qed.

Lemma stepShake_frame g w :
  let w' := snd (stepShake g w) in
  gameState w' = gameState w /\ score w' = score w
  /\ highScore w' = highScore w /\ elapsedTime w' = elapsedTime w
  /\ invincibilityFrames w' = invincibilityFrames w
  /\ player w' = player w /\ enemies w' = enemies w
  /\ particles w' = particles w /\ pulses w' = pulses w
  /\ shockwaves w' = shockwaves w
  /\ enemyIdCounter w' = enemyIdCounter w
  /\ shockwaveIdCounter w' = shockwaveIdCounter w.
Proof.
  unfold stepShake; destruct (Rlt_dec _ _); cbn; repeat split.
Qed.

(** What [beginFrame] does to the fields that later phases rely on. *)
Lemma beginFrame_frame g w :
  let w' := snd (beginFrame g w) in
  (gameState w' = gameState w \/ gameState w' = GAMEOVER)
  /\ score w' = floor (elapsedTime w / 60) * 10
  /\ highScore w' = highScore w /\ elapsedTime w' = elapsedTime w
  /\ invincibilityFrames w' =
     (if Rlt_dec 0 (invincibilityFrames w) then invincibilityFrames w - dt
      else invincibilityFrames w)
  /\ player w' = fst (movePlayer (player w) (sh_intensity (shake w)))
  /\ enemies w' = enemies w
  /\ shockwaves w' = shockwaves w
  /\ enemyIdCounter w' = enemyIdCounter w
  /\ shockwaveIdCounter w' = shockwaveIdCounter w.
Proof.
  unfold beginFrame; cbv zeta.
  set (w1 := if Rlt_dec 0 (invincibilityFrames (set_score _ w)) then _ else _).
  assert (H1 : gameState w1 = gameState w /\ score w1 = floor (elapsedTime w / 60) * 10
               /\ highScore w1 = highScore w /\ elapsedTime w1 = elapsedTime w
               /\ invincibilityFrames w1 =
                  (if Rlt_dec 0 (invincibilityFrames w)
                   then invincibilityFrames w - dt else invincibilityFrames w)
               /\ player w1 = player w /\ enemies w1 = enemies w
               /\ shockwaves w1 = shockwaves w /\ shake w1 = shake w
               /\ enemyIdCounter w1 = enemyIdCounter w
               /\ shockwaveIdCounter w1 = shockwaveIdCounter w).
  { subst w1; cbn. destruct (Rlt_dec 0 (invincibilityFrames w)); cbn;
      repeat split. }
  clearbody w1.
  destruct H1 as (E1&E2&E3&E4&E5&E6&E7&E8&E9&E10&E11).
  rewrite E6, E9.
  destruct (movePlayer (player w) (sh_intensity (shake w))) as [p i].
  pose proof (checkFall_frame (set_intensity i (set_player p w1))) as H2.
  set (w2 := checkFall _) in *. cbv zeta in H2.
  pose proof (stepShake_frame g w2) as H3.
  destruct (stepShake g w2) as [g3 w3]. cbv zeta in H3; cbn [snd] in H3.
  cbn in *.
  destruct H2 as (F1&F2&F3&F4&F5&F6&F7&F8&F9&F10&F11&F12).
  destruct H3 as (G1&G2&G3&G4&G5&G6&G7&G8&G9&G10&G11&G12).
  split; [destruct F1 as [F1|F1]; [left|right]; congruence|].
  repeat split; congruence.
Qed.

(** [update] outside [PLAYING] only counts the frame. *)
Lemma update_idle g w :
  gameState w <> PLAYING -> update g w = set_elapsedTime (elapsedTime w + dt) w.
Proof.
  unfold update; cbn; destruct (gameState w); congruence.
Qed.

(** [update] while [PLAYING], on the fields other than the collections. *)
Lemma update_playing g w :
  gameState w = PLAYING ->
  let w' := update g w in
  (gameState w' = PLAYING \/ gameState w' = GAMEOVER)
  /\ score w' = floor ((elapsedTime w + dt) / 60) * 10
  /\ highScore w' = highScore w
  /\ elapsedTime w' = elapsedTime w + dt
  /\ invincibilityFrames w' =
     (if Rlt_dec 0 (invincibilityFrames w) then invincibilityFrames w - dt
      else invincibilityFrames w)
  /\ player w' = fst (movePlayer (player w) (sh_intensity (shake w))).
Proof.
  intros HP; unfold update; cbv zeta; cbn [gameState set_elapsedTime].
  rewrite HP.
  set (w0 := set_elapsedTime _ w).
  set (cx := centerX (player w0)); set (cy := centerY (player w0)).
  pose proof (beginFrame_frame g w0) as H1.
  destruct (beginFrame g w0) as [g1 w1]; cbv zeta in H1; cbn [snd] in H1.
  pose proof (stepShockwaves_frame cx cy w1) as H2; cbv zeta in H2.
  set (w2 := stepShockwaves cx cy w1) in *.
  pose proof (stepSpawn_frame cx g1 w2) as H3; cbv zeta in H3.
  set (w3 := stepSpawn cx g1 w2) in *.
  pose proof (fallEnemies_frame cx cy (enemies w3) w3) as H4.
  destruct (fallEnemies cx cy (enemies w3) w3) as [es w4]; cbn [snd] in H4.
  unfold same_but_over in H4. cbn.
  destruct H1 as (E1&E2&E3&E4&E5&E6&_).
  destruct H2 as (F1&F2&F3&F4&F5&F6&_).
  destruct H3 as (G1&G2&G3&G4&G5&G6&_).
  destruct H4 as (I1&I2&I3&I4&I5&I6&_).
  subst w0; cbn in *.
  repeat split; try congruence.
  destruct I1 as [I1|I1]; [|now right].
  destruct E1 as [E1|E1]; [left|right]; congruence.
Qed.

(** ** Jumps *)

(** The fuel after an accepted jump. *)
Lemma executeJump_fuel mx my g w :
  fuelConsumption config <= pl_fuel (player w) ->
  pl_fuel (player (executeJump mx my g w)) =
  if existsb (jumpHits w) (enemies w) then pl_maxFuel (player w)
  else pl_fuel (player w) - fuelConsumption config.
Proof.
  intros Hfuel.
  destruct (executeJump_accepted mx my g w Hfuel)
    as (w1 & sweep & Hs & Hp & _ & _ & _ & _ & _ & _ & _ & _ & _ & Hp' & _).
  rewrite Hp', Hs, pulseSweep_fuel, Hp; cbn [pl_fuel pl_maxFuel].
  reflexivity.
Qed.

(** A jump without the fuel for it changes the shake and the cue log
    only. *)
Lemma executeJump_reject mx my g w :
  pl_fuel (player w) < fuelConsumption config ->
  let w' := executeJump mx my g w in
  w' = playSound snd_pulse (set_intensity 5 w)
  /\ player w' = player w
  /\ pulses w' = pulses w
  /\ particles w' = particles w
  /\ enemies w' = enemies w
  /\ shockwaves w' = shockwaves w
  /\ gameState w' = gameState w
  /\ score w' = score w
  /\ elapsedTime w' = elapsedTime w
  /\ invincibilityFrames w' = invincibilityFrames w
  /\ sh_intensity (shake w') = 5
  /\ (sounds w' = sounds w \/ sounds w' = sounds w ++ [snd_pulse]).
Proof.
  intros Hfuel; cbv zeta; unfold executeJump.
  destruct (Rlt_dec (pl_fuel (player w)) (fuelConsumption config)) as [_|?];
    [|lra].
  rewrite playSound_player, playSound_pulses, playSound_particles,
    playSound_enemies, playSound_shockwaves, playSound_gameState,
    playSound_score, playSound_elapsedTime, playSound_invincibilityFrames,
    playSound_shake.
  repeat split.
  unfold playSound.
  destruct (negb (audioEnabled config) || Rleb (sfxVolume config) 0);
    [left|right]; reflexivity.
Qed.

Lemma jumpHits_spec w e :
  jumpHits w e = true <->
  en_isDead e = false
  /\ en_x e + en_radius e
     > centerX (player w)
       - pulseWidthOf (player w) (inDeadZone (player w)) / 2
  /\ en_x e - en_radius e
     < centerX (player w)
       + pulseWidthOf (player w) (inDeadZone (player w)) / 2
  /\ (if inDeadZone (player w) then en_y e < centerY (player w)
      else en_y e > centerY (player w)).
Proof.
  unfold jumpHits, pulseHits; cbv zeta.
  rewrite !andb_true_iff, negb_true_iff, Rgtb_true, Rltb_true.
  destruct (inDeadZone (player w)); rewrite ?Rltb_true, ?Rgtb_true; tauto.
Qed.

(** The enemies after a jump. *)
Lemma executeJump_enemies mx my g w :
  enemies (executeJump mx my g w) =
  (if Rlt_dec (pl_fuel (player w)) (fuelConsumption config) then enemies w
   else map (markHit (jumpHits w)) (enemies w))
  /\ Forall2
       (fun e e' =>
          e' = e
          \/ (e' = set_isDead true e
              /\ en_isDead e = false
              /\ en_x e + en_radius e
                 > centerX (player w)
                   - pulseWidthOf (player w) (inDeadZone (player w)) / 2
              /\ en_x e - en_radius e
                 < centerX (player w)
                   + pulseWidthOf (player w) (inDeadZone (player w)) / 2
              /\ (if inDeadZone (player w)
                  then en_y e < centerY (player w)
                  else en_y e > centerY (player w))))
       (enemies w) (enemies (executeJump mx my g w)).
Proof.
  assert (E : enemies (executeJump mx my g w) =
              if Rlt_dec (pl_fuel (player w)) (fuelConsumption config)
              then enemies w
              else map (markHit (jumpHits w)) (enemies w)).
  { destruct (Rlt_dec (pl_fuel (player w)) (fuelConsumption config))
      as [Hlt|Hge].
    - now destruct (executeJump_reject mx my g w Hlt) as (_&_&_&_&He&_).
    - assert (Hfuel : fuelConsumption config <= pl_fuel (player w)) by lra.
      destruct (executeJump_accepted mx my g w Hfuel)
        as (w1 & sweep & Hs & H).
      decompose [and] H.
      match goal with He : enemies _ = fst (fst sweep) |- _ => rewrite He end.
      now rewrite Hs, pulseSweep_enemies. }
  split; [exact E|].
  rewrite E.
  destruct (Rlt_dec (pl_fuel (player w)) (fuelConsumption config)).
  - clear E; generalize (enemies w) as l.
    induction l; constructor; auto.
  - clear E; generalize (enemies w) as l.
    induction l as [|e l IH]; cbn [map]; constructor; [|exact IH].
    unfold markHit. destruct (jumpHits w e) eqn:Hh; [right|now left].
    apply jumpHits_spec in Hh. tauto.
Qed.

Lemma jumpDist_nonzero dx dy : jumpDist dx dy <> 0.
Proof.
  unfold jumpDist, js_or.
  destruct (Req_dec_T (sqrt (dx * dx + dy * dy)) 0); [lra|assumption].
Qed.

Lemma jumpDist_zero : jumpDist 0 0 = 1.
Proof.
  unfold jumpDist, js_or.
  replace (0 * 0 + 0 * 0) with 0 by ring. rewrite sqrt_0.
  destruct (Req_dec_T 0 0); [reflexivity|contradiction].
Qed.

(** C9 (as amended).  A jump aimed at the very centre of the player divides
    by 1, not by 0: it is accepted, the velocity becomes (0, 0), one pulse
    and at least twenty particles are emitted, and the fuel is the old fuel
    minus [fuelConsumption] unless the pulse eliminates an enemy, which
    refills it to [maxFuel]. *)
Theorem zero_length_jump g w :
  fuelConsumption config <= pl_fuel (player w) ->
  let p := player w in
  let w' := executeJump (centerX p) (centerY p) g w in
  jumpDist (centerX p - centerX p) (centerY p - centerY p) = 1
  /\ (forall dx dy, jumpDist dx dy <> 0)
  /\ pl_vx (player w') = 0 /\ pl_vy (player w') = 0
  /\ pl_fuel (player w') =
     (if existsb (jumpHits w) (enemies w) then pl_maxFuel p
      else pl_fuel p - fuelConsumption config)
  /\ pulses w' =
     pulses w ++
     [mkPulse (centerX p - pulseWidthOf p (inDeadZone p) / 2) (centerY p)
        (pulseWidthOf p (inDeadZone p))
        (if inDeadZone p then 15 else 8) (if inDeadZone p then 15 else 8)
        (inDeadZone p)]
  /\ exists ps,
       particles w' = particles w ++ ps
       /\ length ps =
          (count (jumpHits w) (enemies w) * (if inDeadZone p then 20 else 12)
           + (if inDeadZone p then 40 else 20))%nat.
Proof.
  intros Hfuel p w'.
  assert (Hd : jumpDist (centerX p - centerX p) (centerY p - centerY p) = 1).
  { replace (centerX p - centerX p) with 0 by ring.
    replace (centerY p - centerY p) with 0 by ring. apply jumpDist_zero. }
  split; [exact Hd|]. split; [exact jumpDist_nonzero|].
  pose proof (executeJump_fuel (centerX p) (centerY p) g w Hfuel)
    as Hf.
  destruct (executeJump_accepted (centerX p) (centerY p) g w Hfuel)
    as (w1 & sweep & Hs & Hp1 & Hpu1 & Hpa1 & _ & _ & _ & _ & _ & _ & _
        & Hp' & _ & Hpu' & _ & _ & _ & _ & _ & _ & _ & Hpa').
  pose proof (pulseSweep_frame (centerX p) (centerY p)
                (pulseWidthOf p (inDeadZone p)) (inDeadZone p) (enemies w) g w1)
    as Hfr.
  subst p w'. rewrite <- Hs in Hfr.
  destruct Hfr as (_&_&_&_&_&Hpu&_&_&_&_&_&_&Hvx&Hvy&_).
  rewrite Hp', Hvx, Hvy, Hp1, Hpu', Hpu, Hpu1, Hd; cbn [pl_vx pl_vy].
  repeat split.
  - replace (centerX (player w) - centerX (player w)) with 0 by ring.
    unfold Rdiv; ring.
  - replace (centerY (player w) - centerY (player w)) with 0 by ring.
    unfold Rdiv; ring.
  - rewrite <- Hp'; exact Hf.
  - destruct (pulseSweep_particles (centerX (player w)) (centerY (player w))
                (pulseWidthOf (player w) (inDeadZone (player w)))
                (inDeadZone (player w)) (enemies w) g w1)
      as (ps & Hps & Hlen).
    rewrite <- Hs in Hps.
    rewrite Hpa', Hps, Hpa1, <- app_assoc. eexists; split; [reflexivity|].
    rewrite length_app, jumpBurst_length, Hlen. reflexivity.
Qed.

(** ** Fuel *)

Lemma movePlayer_fuel p i :
  pl_fuel (fst (movePlayer p i)) =
  (if Rlt_dec (pl_fuel p) (pl_maxFuel p)
   then Rmin (pl_maxFuel p) (pl_fuel p + fuelRegen config * dt)
   else pl_fuel p)
  /\ pl_maxFuel (fst (movePlayer p i)) = pl_maxFuel p
  /\ pl_width (fst (movePlayer p i)) = pl_width p
  /\ pl_height (fst (movePlayer p i)) = pl_height p.
Proof.
  unfold movePlayer; cbv zeta.
  destruct (Rlt_dec (pl_x p + pl_vx p * dt) 0); cbv beta iota;
    match goal with |- context [Rlt_dec (GAME_WIDTH K - pl_width p) ?x] =>
      destruct (Rlt_dec (GAME_WIDTH K - pl_width p) x) end;
    cbn; repeat split.
Qed.

Lemma resetGame_player w : player (resetGame w) = initialPlayer.
Proof.
  unfold resetGame; cbv zeta.
  destruct (audioEnabled config); [rewrite playSound_player|]; reflexivity.
Qed.

Lemma syncHighScore_same w :
  let w' := syncHighScore w in
  gameState w' = gameState w /\ score w' = score w
  /\ elapsedTime w' = elapsedTime w
  /\ invincibilityFrames w' = invincibilityFrames w
  /\ player w' = player w /\ enemies w' = enemies w
  /\ particles w' = particles w /\ pulses w' = pulses w
  /\ shockwaves w' = shockwaves w /\ shake w' = shake w
  /\ enemyIdCounter w' = enemyIdCounter w
  /\ shockwaveIdCounter w' = shockwaveIdCounter w
  /\ sounds w' = sounds w.
Proof.
  unfold syncHighScore; destruct (Rlt_dec _ _); cbn; repeat split.
Qed.

Lemma fuel_ok_update g w :
  0 <= fuelRegen config -> fuel_ok w -> fuel_ok (update g w).
Proof.
  intros Hr Hw. unfold fuel_ok in *.
  destruct (gameState w) eqn:Hs.
  1,3: rewrite update_idle by congruence; exact Hw.
  destruct (update_playing g w Hs) as (_&_&_&_&_&Hp). rewrite Hp.
  destruct (movePlayer_fuel (player w) (sh_intensity (shake w)))
    as (Hf & Hm & _).
  rewrite Hf, Hm. unfold dt.
  destruct (Rlt_dec (pl_fuel (player w)) (pl_maxFuel (player w))); [|lra].
  unfold Rmin; destruct (Rle_dec _ _); lra.
Qed.

Lemma fuel_ok_executeJump mx my g w :
  0 <= fuelConsumption config -> fuel_ok w -> fuel_ok (executeJump mx my g w).
Proof.
  intros Hc Hw. unfold fuel_ok in *.
  destruct (Rlt_dec (pl_fuel (player w)) (fuelConsumption config))
    as [Hlt|Hge].
  - destruct (executeJump_reject mx my g w Hlt) as (_&Hp&_).
    now rewrite Hp.
  - assert (Hfuel : fuelConsumption config <= pl_fuel (player w)) by lra.
    rewrite (executeJump_fuel mx my g w Hfuel).
    destruct (executeJump_accepted mx my g w Hfuel)
      as (w1 & sweep & Hs & Hp1 & _ & _ & _ & _ & _ & _ & _ & _ & _ & Hp' & _).
    pose proof (pulseSweep_frame (centerX (player w)) (centerY (player w))
                  (pulseWidthOf (player w) (inDeadZone (player w)))
                  (inDeadZone (player w)) (enemies w) g w1) as Hfr.
    rewrite <- Hs in Hfr.
    destruct Hfr as (_&_&_&_&_&_&_&_&_&_&_&_&_&_&Hm).
    rewrite Hp', Hm, Hp1; cbn [pl_maxFuel].
    destruct (existsb _ _); lra.
Qed.

Lemma fuel_ok_resetGame w : 0 <= MAX_FUEL K -> fuel_ok (resetGame w).
Proof.
  intros HM; unfold fuel_ok; rewrite resetGame_player; cbn; lra.
Qed.

Lemma fuel_ok_handleGlobalInteraction i g w :
  0 <= fuelConsumption config -> 0 <= MAX_FUEL K ->
  fuel_ok w -> fuel_ok (handleGlobalInteraction i g w).
Proof.
  intros Hc HM Hw; unfold handleGlobalInteraction.
  destruct (negb (isMouseOver i) && negb (isTouch i)); [exact Hw|].
  destruct (gameState w); try (apply fuel_ok_resetGame; exact HM).
  destruct (isTouch i && _); [exact Hw|].
  apply fuel_ok_executeJump; assumption.
Qed.

Lemma fuel_ok_step ev w :
  0 <= fuelConsumption config -> 0 <= fuelRegen config -> 0 <= MAX_FUEL K ->
  fuel_ok w -> fuel_ok (step ev w).
Proof.
  intros Hc Hr HM Hw; unfold step.
  match goal with |- fuel_ok (syncHighScore ?x) =>
    assert (H : fuel_ok x);
    [|unfold fuel_ok in *;
      destruct (syncHighScore_same x) as (_&_&_&_&Hp&_); now rewrite Hp] end.
  destruct ev.
  - apply fuel_ok_update; assumption.
  - apply fuel_ok_handleGlobalInteraction; assumption.
Qed.

(** C3.  With a non-negative [fuelConsumption], [fuelRegen] and [MAX_FUEL],
    the fuel of the player stays between 0 and [maxFuel]: in every reachable
    world, and after a frame, a jump or a reset of any world that satisfies
    the invariant. *)
Theorem fuel_invariant :
  0 <= fuelConsumption config -> 0 <= fuelRegen config -> 0 <= MAX_FUEL K ->
  (forall w, reachable w -> fuel_ok w)
  /\ (forall w g, fuel_ok w -> fuel_ok (update g w))
  /\ (forall w mx my g, fuel_ok w -> fuel_ok (executeJump mx my g w))
  /\ (forall w, fuel_ok (resetGame w)).
Proof.
  intros Hc Hr HM. split; [|split; [|split]].
  - intros w Hw; induction Hw as [|ev w Hw IH Hev].
    + unfold fuel_ok; cbn; lra.
    + now apply fuel_ok_step.
  - intros; now apply fuel_ok_update.
  - intros; now apply fuel_ok_executeJump.
  - intros; now apply fuel_ok_resetGame.
Qed.

(** ** Score *)

Lemma executeJump_frame mx my g w :
  let w' := executeJump mx my g w in
  gameState w' = gameState w /\ score w' = score w
  /\ elapsedTime w' = elapsedTime w
  /\ enemyIdCounter w' = enemyIdCounter w
  /\ length (enemies w') = length (enemies w).
Proof.
  cbv zeta.
  destruct (Rlt_dec (pl_fuel (player w)) (fuelConsumption config))
    as [Hlt|Hge].
  - destruct (executeJump_reject mx my g w Hlt)
      as (_&_&_&_&He&_&Hg&Hs&Ht&_).
    rewrite He, Hg, Hs, Ht. repeat split.
    destruct (executeJump_reject mx my g w Hlt) as (Hw&_).
    rewrite Hw, playSound_enemyIdCounter; reflexivity.
  - assert (Hfuel : fuelConsumption config <= pl_fuel (player w)) by lra.
    destruct (executeJump_accepted mx my g w Hfuel)
      as (w1 & sweep & Hs & _ & _ & _ & _ & _ & Hg1 & Hs1 & Ht1 & Hc1 & _
          & _ & He' & _ & _ & _ & Hg' & Hs' & Ht' & Hc' & _).
    pose proof (pulseSweep_frame (centerX (player w)) (centerY (player w))
                  (pulseWidthOf (player w) (inDeadZone (player w)))
                  (inDeadZone (player w)) (enemies w) g w1) as Hfr.
    rewrite <- Hs in Hfr.
    destruct Hfr as (Fg&Fs&_&Ft&_&_&_&Fc&_).
    rewrite Hg', Hs', Ht', Hc', He', Fg, Fs, Ft, Fc, Hg1, Hs1, Ht1, Hc1.
    repeat split.
    rewrite Hs, pulseSweep_enemies. apply length_map.
Qed.

Lemma resetGame_fields w :
  let w' := resetGame w in
  gameState w' = PLAYING /\ score w' = 0 /\ elapsedTime w' = 0
  /\ invincibilityFrames w' = 0 /\ player w' = initialPlayer
  /\ enemies w' = [] /\ particles w' = [] /\ pulses w' = []
  /\ shockwaves w' = [] /\ shake w' = mkShake 0 0 0
  /\ highScore w' = highScore w
  /\ enemyIdCounter w' = enemyIdCounter w
  /\ shockwaveIdCounter w' = shockwaveIdCounter w.
Proof.
  unfold resetGame; cbv zeta.
  destruct (audioEnabled config);
    [rewrite playSound_gameState, playSound_score, playSound_elapsedTime,
       playSound_invincibilityFrames, playSound_player, playSound_enemies,
       playSound_particles, playSound_pulses, playSound_shockwaves,
       playSound_shake, playSound_highScore, playSound_enemyIdCounter,
       playSound_shockwaveIdCounter|];
    cbn; repeat split.
Qed.

Lemma floor_0 : floor (0 / 60) = 0.
Proof.
  unfold floor. replace (0 / 60) with (IZR 0) by (cbn; lra).
  now rewrite ZfloorZ.
Qed.

Lemma scoreAt_0 : scoreAt 0 = 0.
Proof. unfold scoreAt; rewrite floor_0; ring. Qed.

Lemma scoreAt_180 : scoreAt 180 = 30.
Proof.
  unfold scoreAt, floor. replace (180 / 60) with (IZR 3) by (cbn; lra).
  rewrite ZfloorZ. cbn; lra.
Qed.

Lemma score_ok_step ev w : score_ok w -> score_ok (step ev w).
Proof.
  intros Hw; unfold step, score_ok.
  match goal with |- context [syncHighScore ?x] =>
    destruct (syncHighScore_same x) as (Eg&Es&Et&_); rewrite Eg, Es, Et end.
  destruct ev as [g|i g].
  - destruct (gameState w) eqn:Hs.
    1,3: rewrite update_idle by congruence; cbn; congruence.
    destruct (update_playing g w Hs) as (_&Hsc&_&Ht&_).
    now rewrite Hsc, Ht.
  - unfold handleGlobalInteraction.
    destruct (negb (isMouseOver i) && negb (isTouch i)); [exact Hw|].
    destruct (gameState w) eqn:Hs.
    1,3: destruct (resetGame_fields w) as (_&Hsc&Ht&_);
         rewrite Hsc, Ht, scoreAt_0; reflexivity.
    destruct (isTouch i && _); [unfold score_ok in Hw; rewrite Hs; auto|].
    match goal with |- context [executeJump ?mx ?my g w] =>
      destruct (executeJump_frame mx my g w) as (Eg'&Es'&Et'&_) end.
    rewrite Eg', Es', Et'. exact Hw.
Qed.

Lemma run_app evs1 evs2 w : run (evs1 ++ evs2) w = run evs2 (run evs1 w).
Proof. unfold run; apply fold_left_app. Qed.

Lemma run_cons ev evs w : run (ev :: evs) w = run evs (step ev w).
Proof. reflexivity. Qed.

(** Frames and jumps of a playing game count the frames. *)
Lemma elapsed_playing evs w :
  playing_before evs w ->
  elapsedTime (run evs w) = elapsedTime w + INR (frames evs).
Proof.
  revert w; induction evs as [|ev rest IH]; intros w Hp.
  - cbn; lra.
  - destruct Hp as (Hs & Hp). rewrite run_cons, (IH _ Hp).
    unfold step.
    match goal with |- context [syncHighScore ?x] =>
      destruct (syncHighScore_same x) as (_&_&Et&_); rewrite Et end.
    destruct ev as [g|i g].
    + destruct (update_playing g w Hs) as (_&_&_&Ht&_). rewrite Ht.
      change (frames (Frame g :: rest)) with (S (frames rest)).
      rewrite S_INR; unfold dt; lra.
    + change (frames (Pointer i g :: rest)) with (frames rest).
      unfold handleGlobalInteraction.
      destruct (negb (isMouseOver i) && negb (isTouch i)); [reflexivity|].
      rewrite Hs. destruct (isTouch i && _); [reflexivity|].
      match goal with |- context [executeJump ?mx ?my g w] =>
        destruct (executeJump_frame mx my g w) as (_&_&Et'&_) end.
      now rewrite Et'.
Qed.

Lemma score_ok_run evs w : score_ok w -> score_ok (run evs w).
Proof.
  revert w; induction evs as [|ev rest IH]; intros w Hw; [exact Hw|].
  rewrite run_cons; apply IH, score_ok_step, Hw.
Qed.

(** The score the last frame of a playing run leaves, whether or not that
    frame ends the game. *)
Lemma score_playing evs w :
  score w = scoreAt (elapsedTime w) -> playing_before evs w ->
  score (run evs w) = scoreAt (elapsedTime (run evs w)).
Proof.
  revert w; induction evs as [|ev rest IH]; intros w Hok Hp; [exact Hok|].
  destruct Hp as (Hs & Hp). rewrite run_cons. apply IH; [|exact Hp].
  unfold step.
  match goal with |- context [syncHighScore ?x] =>
    destruct (syncHighScore_same x) as (_&Es&Et&_); rewrite Es, Et end.
  destruct ev as [g|i g].
  - destruct (update_playing g w Hs) as (_&Hsc&_&Ht&_).
    now rewrite Hsc, Ht.
  - unfold handleGlobalInteraction.
    destruct (negb (isMouseOver i) && negb (isTouch i)); [exact Hok|].
    rewrite Hs. destruct (isTouch i && _); [exact Hok|].
    match goal with |- context [executeJump ?mx ?my g w] =>
      destruct (executeJump_frame mx my g w) as (_&Es'&Et'&_) end.
    now rewrite Es', Et'.
Qed.

(** Frames alone never leave [GAMEOVER], nor change the score there. *)
Lemma gameover_frozen gs w :
  gameState w = GAMEOVER ->
  gameState (run (map Frame gs) w) = GAMEOVER
  /\ score (run (map Frame gs) w) = score w.
Proof.
  revert w; induction gs as [|g rest IH]; intros w Hs; [now split|].
  cbn [map]; rewrite run_cons.
  assert (Hstep : gameState (step (Frame g) w) = GAMEOVER
                  /\ score (step (Frame g) w) = score w).
  { unfold step.
    match goal with |- context [syncHighScore ?x] =>
      destruct (syncHighScore_same x) as (Eg&Es&_); rewrite Eg, Es end.
    rewrite update_idle by congruence. now split. }
  destruct Hstep as (Hg & Hsc).
  destruct (IH _ Hg) as (IH1 & IH2). split; congruence.
Qed.

(** C4.  In every reachable world that is [PLAYING] the score is
    [floor (elapsedTime / 60) * 10]; a run of events that starts at a reset
    and finds the game [PLAYING] at each of them leaves the score of its
    number of frames, which is 30 for 180 frames; the frame that ends the
    game leaves the score of that frame, and no later frame changes it. *)
Theorem score_formula w :
  reachable w ->
  (gameState w = PLAYING -> score w = floor (elapsedTime w / 60) * 10)
  /\ (forall evs,
        playing_before evs (resetGame w) ->
        elapsedTime (run evs (resetGame w)) = INR (frames evs)
        /\ score (run evs (resetGame w))
           = floor (INR (frames evs) / 60) * 10
        /\ (frames evs = 180%nat -> score (run evs (resetGame w)) = 30))
  /\ (forall g,
        gameState w = PLAYING -> gameState (update g w) = GAMEOVER ->
        score (update g w) = floor (elapsedTime (update g w) / 60) * 10)
  /\ (forall gs,
        gameState w = GAMEOVER ->
        gameState (run (map Frame gs) w) = GAMEOVER
        /\ score (run (map Frame gs) w) = score w).
Proof.
  intros Hw. split; [|split; [|split]].
  - induction Hw as [|ev w Hw IH Hev].
    + cbn; discriminate.
    + exact (score_ok_step ev w IH).
  - intros evs Hp.
    destruct (resetGame_fields w) as (_&Hsc&Ht&_).
    pose proof (elapsed_playing evs _ Hp) as He.
    rewrite Ht, Rplus_0_l in He.
    assert (Hs : score (run evs (resetGame w))
                 = floor (INR (frames evs) / 60) * 10).
    { rewrite score_playing, He; [reflexivity| |exact Hp].
      now rewrite Hsc, Ht, scoreAt_0. }
    repeat split; [exact He|exact Hs|].
    intros H180. rewrite Hs, H180.
    change (floor (INR 180 / 60) * 10) with (scoreAt (INR 180)).
    replace (INR 180) with 180 by (rewrite INR_IZR_INZ; reflexivity).
    apply scoreAt_180.
  - intros g Hs _.
    destruct (update_playing g w Hs) as (_&Hsc&_&Ht&_).
    now rewrite Hsc, Ht.
  - intros gs Hs. now apply gameover_frozen.
Qed.

(** ** The state machine *)

Lemma movePlayer_y p i :
  pl_y (fst (movePlayer p i)) = pl_y p + (pl_vy p + gravity config * dt) * dt.
Proof.
  unfold movePlayer; cbv zeta.
  destruct (Rlt_dec (pl_x p + pl_vx p * dt) 0); cbv beta iota;
    match goal with |- context [Rlt_dec (GAME_WIDTH K - pl_width p) ?x] =>
      destruct (Rlt_dec (GAME_WIDTH K - pl_width p) x) end;
    reflexivity.
Qed.

Lemma beginFrame_fall g w :
  GAME_HEIGHT K < pl_y (fst (movePlayer (player w) (sh_intensity (shake w)))) ->
  gameState (snd (beginFrame g w)) = GAMEOVER.
Proof.
  intros Hy; unfold beginFrame; cbv zeta.
  set (w1 := if Rlt_dec 0 (invincibilityFrames (set_score _ w)) then _ else _).
  assert (H1 : player w1 = player w /\ shake w1 = shake w)
    by (subst w1; destruct (Rlt_dec _ _); cbn; split; reflexivity).
  destruct H1 as (E1 & E2); rewrite E1, E2.
  destruct (movePlayer (player w) (sh_intensity (shake w))) as [p i].
  cbn [fst] in Hy.
  set (w2 := checkFall _).
  assert (H2 : gameState w2 = GAMEOVER).
  { subst w2; unfold checkFall; cbn [player set_intensity set_shake set_player].
    destruct (Rlt_dec (GAME_HEIGHT K) (pl_y p)); [|contradiction].
    now rewrite playSound_gameState. }
  pose proof (stepShake_frame g w2) as H3.
  destruct (stepShake g w2) as [g3 w3]; cbv zeta in H3; cbn [snd] in H3.
  cbn. destruct H3 as (G1&_). congruence.
Qed.

Lemma update_fall g w :
  gameState w = PLAYING ->
  GAME_HEIGHT K
  < pl_y (player w) + (pl_vy (player w) + gravity config * dt) * dt ->
  gameState (update g w) = GAMEOVER.
Proof.
  intros HP Hy; unfold update; cbv zeta; cbn [gameState set_elapsedTime].
  rewrite HP.
  set (w0 := set_elapsedTime _ w).
  set (cx := centerX (player w0)); set (cy := centerY (player w0)).
  assert (H1 : gameState (snd (beginFrame g w0)) = GAMEOVER).
  { apply beginFrame_fall. subst w0; cbn [player shake set_elapsedTime].
    now rewrite movePlayer_y. }
  destruct (beginFrame g w0) as [g1 w1]; cbn [snd] in H1.
  pose proof (stepShockwaves_frame cx cy w1) as H2; cbv zeta in H2.
  set (w2 := stepShockwaves cx cy w1) in *.
  pose proof (stepSpawn_frame cx g1 w2) as H3; cbv zeta in H3.
  set (w3 := stepSpawn cx g1 w2) in *.
  pose proof (fallEnemies_frame cx cy (enemies w3) w3) as H4.
  destruct (fallEnemies cx cy (enemies w3) w3) as [es w4]; cbn [snd] in H4.
  destruct H2 as (F1&_). destruct H3 as (G1&_). destruct H4 as (I1&_).
  cbn. destruct I1; congruence.
Qed.

(** C5 (as amended).  A pointer event that the component accepts (a touch,
    or a mouse press while the pointer is over the game) in [START] or
    [GAMEOVER] moves it to [PLAYING] with a full reset; a mouse press while
    the pointer is not over the game is ignored in every state: it leaves
    the world as it is; a pointer event in [PLAYING], accepted or not,
    resets nothing; a frame that moves the player past the bottom boundary
    ends the game. *)
Theorem interaction_state_machine i g w :
  let w' := handleGlobalInteraction i g w in
  (isMouseOver i || isTouch i = true -> gameState w <> PLAYING ->
   gameState w' = PLAYING /\ score w' = 0 /\ elapsedTime w' = 0
   /\ enemies w' = [] /\ particles w' = [] /\ pulses w' = []
   /\ shockwaves w' = []
   /\ player w' = initialPlayer
   /\ pl_fuel (player w') = pl_maxFuel (player w')
   /\ pl_vx (player w') = 0 /\ pl_vy (player w') = 0
   /\ invincibilityFrames w' = 0)
  /\ (isTouch i = false -> isMouseOver i = false -> w' = w)
  /\ (gameState w = PLAYING ->
      gameState w' = PLAYING /\ score w' = score w
      /\ elapsedTime w' = elapsedTime w
      /\ length (enemies w') = length (enemies w)
      /\ (w' = w \/ exists mx my, w' = executeJump mx my g w))
  /\ (gameState w = PLAYING ->
      GAME_HEIGHT K
      < pl_y (player w) + (pl_vy (player w) + gravity config * dt) * dt ->
      gameState (update g w) = GAMEOVER).
Proof.
  intros w'; subst w'; unfold handleGlobalInteraction.
  split; [|split; [|split]].
  - intros Hacc Hs.
    replace (negb (isMouseOver i) && negb (isTouch i)) with false
      by (destruct (isMouseOver i), (isTouch i); cbn in *; congruence).
    assert (E : match gameState w with
                | PLAYING =>
                    if isTouch i
                       && (Rltb (clientX i) (rect_left i)
                           || Rgtb (clientX i) (rect_right i)
                           || Rltb (clientY i) (rect_top i)
                           || Rgtb (clientY i) (rect_bottom i))
                    then w
                    else executeJump
                           ((clientX i - rect_left i)
                            * (GAME_WIDTH K / rect_width i))
                           ((clientY i - rect_top i)
                            * (GAME_HEIGHT K / rect_height i)) g w
                | _ => resetGame w
                end = resetGame w)
      by (destruct (gameState w); congruence).
    rewrite E.
    destruct (resetGame_fields w) as (H1&H2&H3&H4&H5&H6&H7&H8&H9&_).
    rewrite H5. cbn. repeat split; assumption.
  - intros Ht Hm. rewrite Ht, Hm. reflexivity.
  - intros Hs; rewrite Hs.
    destruct (negb (isMouseOver i) && negb (isTouch i));
      [repeat split; try assumption; now left|].
    destruct (isTouch i && _).
    + repeat split; try assumption. now left.
    + match goal with |- context [executeJump ?mx ?my g w] =>
        destruct (executeJump_frame mx my g w) as (Eg&Es&Et&_&El);
        rewrite Eg, Es, Et, El; repeat split; try assumption;
        right; exists mx, my; reflexivity end.
  - intros Hs Hy. now apply update_fall.
Qed.

(** ** Shockwaves *)

Lemma markHit_radius hit e : en_radius (markHit hit e) = en_radius e.
Proof. unfold markHit; destruct (hit e); reflexivity. Qed.

Lemma burnEnemies_enemies cx cy sw es w :
  fst (burnEnemies cx cy sw es w) = map (markHit (burnHits sw)) es.
Proof.
  revert w; induction es as [|e rest IH]; intros; [reflexivity|].
  cbn [burnEnemies map]; unfold markHit at 1.
  destruct (burnHits sw e); cbv zeta.
  - match goal with |- context [burnEnemies cx cy sw rest ?w1] =>
      specialize (IH w1); destruct (burnEnemies cx cy sw rest w1) as [r w2]
    end.
    cbn in *; now rewrite IH.
  - specialize (IH w); destruct (burnEnemies cx cy sw rest w) as [r w2].
    cbn in *; now rewrite IH.
Qed.

(** The shockwaves that one pass pushes: one per enemy it hits, each at 0.8
    of the configured radius, and none when burning is disabled. *)
Lemma burnEnemies_shockwaves cx cy sw es w :
  exists news,
    shockwaves (snd (burnEnemies cx cy sw es w)) = shockwaves w ++ news
    /\ Forall (chained cx cy) news
    /\ length news =
       (if burningEnabled config then count (burnHits sw) es else 0%nat).
Proof.
  revert w; induction es as [|e rest IH]; intros.
  - exists []; cbn [burnEnemies snd]; rewrite app_nil_r.
    split; [reflexivity|]. split; [constructor|].
    now destruct (burningEnabled config).
  - cbn [burnEnemies]; unfold count; cbn [filter].
    destruct (burnHits sw e); cbv zeta.
    + match goal with |- context [burnEnemies cx cy sw rest ?w1] =>
        destruct (IH w1) as (news & Hn & Hc & Hl);
        destruct (burnEnemies cx cy sw rest w1) as [r w2] end.
      cbn [snd] in *. rewrite Hn, playSound_shockwaves,
        triggerShockwave_shockwaves.
      destruct (burningEnabled config).
      * eexists; rewrite <- app_assoc; split; [reflexivity|]. split.
        -- constructor; [|exact Hc]. unfold chained; cbn; repeat split.
        -- cbn [length app]. rewrite Hl; reflexivity.
      * exists news; repeat split; assumption.
    + destruct (IH w) as (news & Hn & Hc & Hl);
        destruct (burnEnemies cx cy sw rest w) as [r w2].
      exists news; repeat split; assumption.
Qed.

Lemma burnHits_alive sw e : burnHits sw e = true -> en_isDead e = false.
Proof.
  unfold burnHits; rewrite andb_true_iff, negb_true_iff; tauto.
Qed.

Lemma dead_count_markHit hit es :
  (forall e, hit e = true -> en_isDead e = false) ->
  dead_count (map (markHit hit) es) = (dead_count es + count hit es)%nat.
Proof.
  intros Hhit; unfold dead_count, count.
  induction es as [|e rest IH]; [reflexivity|].
  cbn [map filter]; unfold markHit at 1.
  destruct (hit e) eqn:Hh.
  - rewrite (Hhit e Hh); cbn [en_isDead set_isDead length]. lia.
  - destruct (en_isDead e); cbn [length]; lia.
Qed.

Lemma burnedBy_cons cx cy sw rest e :
  markHit (burnedBy cx cy rest) (markHit (burnHits (growShockwave cx cy sw)) e)
  = markHit (burnedBy cx cy (sw :: rest)) e.
Proof.
  unfold markHit, burnedBy, burnHits; cbn [existsb sw_x sw_y growShockwave].
  destruct (en_isDead e) eqn:Hd; cbn [negb andb].
  - rewrite Hd; reflexivity.
  - destruct (Rltb (distTo e cx cy) _); cbn [orb].
    + reflexivity.
    + rewrite Hd; reflexivity.
Qed.

Lemma burnAll_enemies cx cy visit es w :
  fst (fst (burnAll cx cy visit es w))
  = map (growShockwave cx cy) visit
  /\ snd (fst (burnAll cx cy visit es w))
     = map (markHit (burnedBy cx cy visit)) es.
Proof.
  revert es w; induction visit as [|sw rest IH]; intros.
  - cbn; split; [reflexivity|].
    induction es as [|e l IHl]; [reflexivity|].
    cbn [map]; rewrite <- IHl. unfold markHit, burnedBy; cbn.
    now rewrite andb_false_r.
  - cbn [burnAll]; cbv zeta.
    pose proof (burnEnemies_enemies cx cy (growShockwave cx cy sw) es w) as H1.
    destruct (burnEnemies cx cy (growShockwave cx cy sw) es w) as [es1 w1].
    cbn [fst] in H1.
    destruct (IH es1 w1) as (I1 & I2).
    destruct (burnAll cx cy rest es1 w1) as [[r es2] w2].
    cbn [fst snd map] in *. split; [now rewrite I1|].
    rewrite I2, H1, map_map. apply map_ext. intros e. apply burnedBy_cons.
Qed.

Lemma burnAll_shockwaves cx cy visit es w :
  exists news,
    shockwaves (snd (burnAll cx cy visit es w)) = shockwaves w ++ news
    /\ Forall (chained cx cy) news
    /\ length news =
       (if burningEnabled config
        then dead_count (snd (fst (burnAll cx cy visit es w))) - dead_count es
        else 0)%nat
    /\ (dead_count es <= dead_count (snd (fst (burnAll cx cy visit es w))))%nat.
Proof.
  revert es w; induction visit as [|sw rest IH]; intros.
  - exists []; cbn [burnAll fst snd]; rewrite app_nil_r.
    split; [reflexivity|]. split; [constructor|]. split; [|lia].
    destruct (burningEnabled config); cbn [length]; lia.
  - cbn [burnAll]; cbv zeta.
    pose proof (burnEnemies_enemies cx cy (growShockwave cx cy sw) es w) as H1.
    destruct (burnEnemies_shockwaves cx cy (growShockwave cx cy sw) es w)
      as (n1 & Hn1 & Hc1 & Hl1).
    destruct (burnEnemies cx cy (growShockwave cx cy sw) es w) as [es1 w1].
    cbn [fst snd] in *.
    destruct (IH es1 w1) as (n2 & Hn2 & Hc2 & Hl2 & Hle2).
    destruct (burnAll cx cy rest es1 w1) as [[r es2] w2].
    cbn [fst snd] in *.
    assert (Hd : dead_count es1
                 = (dead_count es
                    + count (burnHits (growShockwave cx cy sw)) es)%nat).
    { rewrite H1. apply dead_count_markHit. intros e; apply burnHits_alive. }
    exists (n1 ++ n2). rewrite Hn2, Hn1, <- app_assoc.
    split; [reflexivity|]. split; [apply Forall_app; now split|].
    rewrite length_app, Hl1, Hl2.
    destruct (burningEnabled config); lia.
Qed.

(** ** Well-formed worlds *)

Lemma rng_ok_after n g : rng_ok g -> rng_ok (after n g).
Proof. unfold rng_ok, after; auto. Qed.

Lemma stepShake_rng g w : rng_ok g -> rng_ok (fst (stepShake g w)).
Proof.
  unfold stepShake; destruct (Rlt_dec _ _); cbn; auto using rng_ok_after.
Qed.

Lemma beginFrame_rng g w : rng_ok g -> rng_ok (fst (beginFrame g w)).
Proof.
  intros Hg; unfold beginFrame; cbv zeta.
  destruct (movePlayer _ _) as [p i].
  match goal with |- context [stepShake g ?w2] =>
    pose proof (stepShake_rng g w2 Hg); destruct (stepShake g w2) end.
  assumption.
Qed.

Lemma fallEnemies_radius cx cy es w :
  Forall (fun e => 10 <= en_radius e) es ->
  Forall (fun e => 10 <= en_radius e) (fst (fallEnemies cx cy es w)).
Proof.
  revert w; induction es as [|e rest IH]; intros w H; [constructor|].
  inversion H; subst. cbn [fallEnemies]; cbv zeta.
  match goal with |- context [fallEnemies cx cy rest ?w1] =>
    specialize (IH w1); destruct (fallEnemies cx cy rest w1) as [r w2] end.
  cbn [fst] in *. constructor; [assumption|auto].
Qed.

Lemma markHit_radii hit es :
  Forall (fun e => 10 <= en_radius e) es ->
  Forall (fun e => 10 <= en_radius e) (map (markHit hit) es).
Proof.
  intros H; apply Forall_map. eapply Forall_impl; [|exact H].
  intros e; now rewrite markHit_radius.
Qed.

Lemma stepSpawn_enemies cx g w :
  enemies (stepSpawn cx g w) =
  if spawns g (elapsedTime w / 60)
  then enemies w
       ++ [newEnemy cx (after 1 g) (enemyIdCounter w) (elapsedTime w / 60)]
  else enemies w.
Proof.
  unfold stepSpawn; cbv zeta; destruct (spawns g _); reflexivity.
Qed.

(** [update] on a playing world, phase by phase. *)
Lemma update_phases g w :
  gameState w = PLAYING ->
  update g w =
  set_enemies
    (filter keepEnemy
       (fst (fallEnemies (centerX (player w)) (centerY (player w))
               (enemies (frameSpawned g w)) (frameSpawned g w))))
    (snd (fallEnemies (centerX (player w)) (centerY (player w))
            (enemies (frameSpawned g w)) (frameSpawned g w))).
Proof.
  intros HP; unfold update, frameSpawned, frameBurnt, frameStart.
  cbv zeta; cbn [gameState set_elapsedTime player].
  rewrite HP.
  destruct (beginFrame g _) as [g1 w1]; cbn [fst snd].
  destruct (fallEnemies _ _ _ _) as [es w4]; reflexivity.
Qed.

Lemma frameStart_frame g w :
  let w1 := snd (frameStart g w) in
  (gameState w1 = gameState w \/ gameState w1 = GAMEOVER)
  /\ invincibilityFrames w1 =
     (if Rlt_dec 0 (invincibilityFrames w) then invincibilityFrames w - dt
      else invincibilityFrames w)
  /\ player w1 = fst (movePlayer (player w) (sh_intensity (shake w)))
  /\ enemies w1 = enemies w
  /\ shockwaves w1 = shockwaves w
  /\ enemyIdCounter w1 = enemyIdCounter w
  /\ shockwaveIdCounter w1 = shockwaveIdCounter w
  /\ elapsedTime w1 = elapsedTime w + dt.
Proof.
  unfold frameStart; cbv zeta.
  destruct (beginFrame_frame g (set_elapsedTime (elapsedTime w + dt) w))
    as (H1&_&_&H4&H5&H6&H7&H8&H9&H10).
  cbn in *. repeat split; assumption.
Qed.

Lemma frameBurnt_burn g w :
  enemies (frameBurnt g w) = snd (fst (frameBurn g w))
  /\ shockwaves (frameBurnt g w) =
     filter (fun sw => Rltb 0 (sw_life sw))
       (fst (fst (frameBurn g w))
        ++ skipn (length (shockwaves w)) (shockwaves (snd (frameBurn g w)))).
Proof.
  unfold frameBurnt, frameBurn, stepShockwaves; cbv zeta.
  destruct (frameStart_frame g w) as (_&_&_&He&Hs&_).
  unfold frameStart in *; cbv zeta in *. rewrite Hs.
  destruct (burnAll _ _ _ _ _) as [[v es] w2]; cbn. split; reflexivity.
Qed.

Lemma frameBurn_spec g w :
  let cx := centerX (player w) in
  let cy := centerY (player w) in
  exists news,
    fst (fst (frameBurn g w)) = map (growShockwave cx cy) (shockwaves w)
    /\ snd (fst (frameBurn g w))
       = map (markHit (burnedBy cx cy (shockwaves w))) (enemies w)
    /\ shockwaves (snd (frameBurn g w)) = shockwaves w ++ news
    /\ Forall (chained cx cy) news
    /\ length news =
       (if burningEnabled config
        then dead_count (snd (fst (frameBurn g w))) - dead_count (enemies w)
        else 0)%nat
    /\ (dead_count (enemies w) <= dead_count (snd (fst (frameBurn g w))))%nat.
Proof.
  cbv zeta; unfold frameBurn; cbv zeta.
  destruct (frameStart_frame g w) as (_&_&_&He&Hs&_).
  unfold frameStart in *; cbv zeta in *. rewrite He, Hs.
  match goal with |- context [burnAll ?cx ?cy ?v ?es ?w1] =>
    destruct (burnAll_enemies cx cy v es w1) as (E1 & E2);
    destruct (burnAll_shockwaves cx cy v es w1) as (news & N1 & N2 & N3 & N4)
  end.
  exists news. rewrite Hs in N1. repeat split; assumption.
Qed.

Lemma skipn_app_exact {A} (l1 l2 : list A) : skipn (length l1) (l1 ++ l2) = l2.
Proof. induction l1; [reflexivity|assumption]. Qed.

(** The shockwaves after a frame: the old ones, grown, and those pushed by
    the eliminations of the frame, less the expired ones. *)
Lemma update_shockwaves g w :
  gameState w = PLAYING ->
  shockwaves (update g w) =
  filter (fun sw => Rltb 0 (sw_life sw))
    (fst (fst (frameBurn g w))
     ++ skipn (length (shockwaves w)) (shockwaves (snd (frameBurn g w)))).
Proof.
  intros HP; rewrite (update_phases g w HP); cbn [shockwaves set_enemies].
  destruct (fallEnemies_frame (centerX (player w)) (centerY (player w))
              (enemies (frameSpawned g w)) (frameSpawned g w))
    as (_&_&_&_&_&_&_&_&_&Hs&_).
  rewrite Hs. unfold frameSpawned.
  destruct (stepSpawn_frame (centerX (player w)) (fst (frameStart g w))
              (frameBurnt g w)) as (_&_&_&_&_&_&_&_&Hs'&_).
  rewrite Hs'. apply frameBurnt_burn.
Qed.

Lemma update_radii g w :
  rng_ok g -> gameState w = PLAYING ->
  Forall (fun e => 10 <= en_radius e) (enemies w) ->
  Forall (fun e => 10 <= en_radius e) (enemies (update g w)).
Proof.
  intros Hg HP Hw; rewrite (update_phases g w HP); cbn [enemies set_enemies].
  apply Forall_forall; intros e He. apply filter_In in He; destruct He as (He&_).
  revert e He; apply Forall_forall, fallEnemies_radius.
  unfold frameSpawned; rewrite stepSpawn_enemies.
  assert (Hb : Forall (fun e => 10 <= en_radius e) (enemies (frameBurnt g w))).
  { destruct (frameBurnt_burn g w) as (E&_); rewrite E.
    destruct (frameBurn_spec g w) as (news & _ & E2 & _); cbv zeta in E2.
    rewrite E2. now apply markHit_radii. }
  destruct (spawns _ _); [|exact Hb].
  apply Forall_app; split; [exact Hb|]. constructor; [|constructor].
  unfold newEnemy; cbn [en_radius].
  assert (Hg1 : rng_ok (fst (frameStart g w)))
    by (unfold frameStart; now apply beginFrame_rng).
  pose proof (rng_ok_after 1 _ Hg1 1%nat). lra.
Qed.

Lemma pulseKill_shockwaves px py sup e g w :
  shockwaves (pulseKill px py sup e g w) =
  if burningEnabled config
  then shockwaves w ++ [pushedShockwave px py 1.0 (shockwaveIdCounter w)]
  else shockwaves w.
Proof.
  unfold pulseKill; cbv zeta; cbn [shockwaves set_particles].
  now rewrite playSound_shockwaves, triggerShockwave_shockwaves.
Qed.

Lemma pulseSweep_quiet px py pw sup es g w :
  burningEnabled config = false ->
  shockwaves (snd (pulseSweep px py pw sup es g w)) = shockwaves w.
Proof.
  intros Hb; revert g w; induction es as [|e rest IH]; intros; [reflexivity|].
  cbn [pulseSweep].
  destruct (pulseHits px py pw sup e); cbv zeta.
  - match goal with |- context [pulseSweep _ _ _ _ rest ?g' ?w'] =>
      specialize (IH g' w'); destruct (pulseSweep px py pw sup rest g' w')
        as [[r g2] w2]; cbn [snd] in * end.
    now rewrite IH, pulseKill_shockwaves, Hb.
  - specialize (IH g w); destruct (pulseSweep px py pw sup rest g w)
      as [[r g2] w2]; exact IH.
Qed.

Lemma executeJump_quiet mx my g w :
  burningEnabled config = false ->
  shockwaves (executeJump mx my g w) = shockwaves w.
Proof.
  intros Hb.
  destruct (Rlt_dec (pl_fuel (player w)) (fuelConsumption config))
    as [Hlt|Hge].
  - now destruct (executeJump_reject mx my g w Hlt) as (_&_&_&_&_&Hs&_).
  - assert (Hfuel : fuelConsumption config <= pl_fuel (player w)) by lra.
    destruct (executeJump_accepted mx my g w Hfuel)
      as (w1 & sweep & Hs & _ & _ & _ & Hs1 & _ & _ & _ & _ & _ & _
          & _ & _ & _ & Hs' & _).
    now rewrite Hs', Hs, pulseSweep_quiet, Hs1.
Qed.

Lemma executeJump_radii mx my g w :
  Forall (fun e => 10 <= en_radius e) (enemies w) ->
  Forall (fun e => 10 <= en_radius e) (enemies (executeJump mx my g w)).
Proof.
  intros Hw. destruct (executeJump_enemies mx my g w) as (E & _).
  rewrite E. destruct (Rlt_dec _ _); [exact Hw|now apply markHit_radii].
Qed.

Lemma burnedBy_nil cx cy es :
  map (markHit (burnedBy cx cy [])) es = es.
Proof.
  induction es as [|e l IH]; [reflexivity|].
  cbn [map]; rewrite IH. unfold markHit, burnedBy; cbn.
  now rewrite andb_false_r.
Qed.

Lemma update_quiet g w :
  burningEnabled config = false -> shockwaves w = [] ->
  shockwaves (update g w) = [].
Proof.
  intros Hb Hs. destruct (gameState w) eqn:HP.
  1,3: rewrite update_idle by congruence; exact Hs.
  rewrite (update_shockwaves g w HP).
  destruct (frameBurn_spec g w) as (news & E1 & _ & E3 & _ & E5 & _).
  cbv zeta in *. rewrite E1, E3, Hs, Hb in *. cbn [map app length skipn].
  destruct news; [reflexivity|discriminate].
Qed.

Lemma wellFormed_step ev w :
  event_ok ev -> wellFormed w -> wellFormed (step ev w).
Proof.
  intros Hev (Hr & Hq); unfold step, wellFormed.
  match goal with |- context [syncHighScore ?x] =>
    destruct (syncHighScore_same x) as (_&_&_&_&_&Ee&_&_&Es&_);
    rewrite Ee, Es end.
  destruct ev as [g|i g]; cbn in Hev.
  - split; [|intros Hb; apply update_quiet; auto].
    destruct (gameState w) eqn:HP.
    1,3: rewrite update_idle by congruence; exact Hr.
    now apply update_radii.
  - unfold handleGlobalInteraction.
    destruct (negb (isMouseOver i) && negb (isTouch i)); [now split|].
    destruct (gameState w).
    1,3: destruct (resetGame_fields w) as (_&_&_&_&_&He&_&_&Hs&_);
         rewrite He, Hs; split; [constructor|reflexivity].
    destruct (isTouch i && _); [now split|].
    split; [now apply executeJump_radii|].
    intros Hb; rewrite executeJump_quiet by exact Hb; auto.
Qed.

Lemma reachable_wellFormed w : reachable w -> wellFormed w.
Proof.
  induction 1 as [|ev w Hw IH Hev].
  - split; [constructor|reflexivity].
  - now apply wellFormed_step.
Qed.

Lemma distTo_nonneg e cx cy : 0 <= distTo e cx cy.
Proof. unfold distTo; apply sqrt_pos. Qed.

(** ** A frame, read off the world it starts from *)

Lemma fallEnemies_spec cx cy es w :
  fst (fallEnemies cx cy es w) = map fallen es
  /\ gameState (snd (fallEnemies cx cy es w)) =
     if existsb (touches cx cy (invincibilityFrames w) (pl_width (player w)))
          (map fallen es)
     then GAMEOVER else gameState w.
Proof.
  revert w; induction es as [|e rest IH]; intros; [split; reflexivity|].
  cbn [fallEnemies map existsb]; cbv zeta.
  destruct (touches cx cy (invincibilityFrames w) (pl_width (player w))
              (fallen e)) eqn:Ht; cbn [orb].
  - match goal with |- context [fallEnemies cx cy rest ?w1] =>
      destruct (IH w1) as (I1 & I2);
      destruct (fallEnemies cx cy rest w1) as [r w2] end.
    cbn [fst snd] in *. split; [now rewrite I1|].
    rewrite I2, playSound_gameState; cbn.
    now destruct (existsb _ _).
  - destruct (IH w) as (I1 & I2);
      destruct (fallEnemies cx cy rest w) as [r w2].
    cbn [fst snd] in *. split; [now rewrite I1|exact I2].
Qed.

Lemma movePlayer_fields p i :
  let p' := fst (movePlayer p i) in
  pl_width p' = pl_width p /\ pl_height p' = pl_height p
  /\ pl_maxFuel p' = pl_maxFuel p
  /\ pl_y p' = pl_y p + (pl_vy p + gravity config * dt) * dt
  /\ pl_vy p' = pl_vy p + gravity config * dt.
Proof.
  unfold movePlayer; cbv zeta.
  destruct (Rlt_dec (pl_x p + pl_vx p * dt) 0); cbv beta iota;
    match goal with |- context [Rlt_dec (GAME_WIDTH K - pl_width p) ?x] =>
      destruct (Rlt_dec (GAME_WIDTH K - pl_width p) x) end;
    cbn; repeat split.
Qed.

Lemma frameStart_spec g w :
  fst (frameStart g w) = frameRng g w
  /\ gameState (snd (frameStart g w)) =
     (if frameFell w then GAMEOVER else gameState w)
  /\ sh_intensity (shake (snd (frameStart g w))) =
     (if Rlt_dec 0 (frameIntensity w) then frameIntensity w * 0.9
      else frameIntensity w).
Proof.
  unfold frameStart, beginFrame, frameRng, frameIntensity, frameFell.
  cbv zeta.
  set (w1 := if Rlt_dec 0 (invincibilityFrames (set_score _ _)) then _ else _).
  assert (H1 : player w1 = player w /\ shake w1 = shake w
               /\ gameState w1 = gameState w)
    by (subst w1; destruct (Rlt_dec _ _); cbn; repeat split).
  destruct H1 as (E1 & E2 & E3); rewrite E1, E2.
  pose proof (movePlayer_y (player w) (sh_intensity (shake w))) as Hy.
  destruct (movePlayer (player w) (sh_intensity (shake w))) as [p i].
  cbn [fst snd] in *.
  unfold checkFall; cbn [player set_intensity set_shake set_player].
  rewrite <- Hy. unfold Rltb.
  destruct (Rlt_dec (GAME_HEIGHT K) (pl_y p)).
  - unfold stepShake. rewrite playSound_shake; cbn [shake set_intensity
      set_shake set_gameState sh_intensity].
    destruct (Rlt_dec 0 25); [|lra]. cbn.
    now rewrite playSound_gameState.
  - unfold stepShake; cbn [shake set_intensity set_shake set_player
      sh_intensity].
    destruct (Rlt_dec 0 i); cbn; repeat split; assumption.
Qed.

Lemma frameSpawned_enemies g w :
  enemies (frameSpawned g w) = frameEnemies g w.
Proof.
  unfold frameSpawned, frameEnemies, frameBurned; cbv zeta.
  rewrite stepSpawn_enemies.
  destruct (frameStart_spec g w) as (Eg & _). rewrite Eg.
  destruct (frameBurnt_burn g w) as (Eb & _). rewrite Eb.
  destruct (frameBurn_spec g w) as (news & _ & E2 & _). rewrite E2.
  destruct (stepShockwaves_frame (centerX (player w)) (centerY (player w))
              (snd (frameStart g w))) as (_&_&_&Et&_&_&_&_&_&Ec).
  fold (frameBurnt g w) in Et, Ec. rewrite Et, Ec.
  destruct (frameStart_frame g w) as (_&_&_&_&_&Ec'&_&Et').
  now rewrite Ec', Et'.
Qed.

Lemma frameSpawned_fields g w :
  let w3 := frameSpawned g w in
  gameState w3 = (if frameFell w then GAMEOVER else gameState w)
  /\ elapsedTime w3 = elapsedTime w + dt
  /\ invincibilityFrames w3 = frameInv w
  /\ player w3 = fst (movePlayer (player w) (sh_intensity (shake w)))
  /\ sh_intensity (shake w3) =
     (if Rlt_dec 0 (frameIntensity w) then frameIntensity w * 0.9
      else frameIntensity w)
  /\ enemyIdCounter w3 =
     (if spawns (frameRng g w) ((elapsedTime w + dt) / 60)
      then S (enemyIdCounter w) else enemyIdCounter w).
Proof.
  cbv zeta.
  destruct (frameStart_spec g w) as (Eg & Es & Ei).
  destruct (frameStart_frame g w) as (_&Q2&Q3&_&_&Q6&_&Q8).
  destruct (stepShockwaves_frame (centerX (player w)) (centerY (player w))
              (snd (frameStart g w))) as (B1&_&_&B4&B5&B6&_&_&B9&B10).
  fold (frameBurnt g w) in B1, B4, B5, B6, B9, B10.
  destruct (stepSpawn_frame (centerX (player w)) (fst (frameStart g w))
              (frameBurnt g w)) as (S1&_&_&S4&S5&S6&_&_&_&S10&_).
  fold (frameSpawned g w) in S1, S4, S5, S6, S10.
  split; [congruence|]. split; [congruence|].
  split; [unfold frameInv; congruence|]. split; [congruence|].
  split; [rewrite S10, B9; exact Ei|].
  unfold frameSpawned, stepSpawn; cbv zeta.
  rewrite B4, Q8, Eg.
  destruct (spawns (frameRng g w) _); cbn; rewrite B10, Q6; reflexivity.
Qed.

(** The world after a frame of a playing world. *)
Lemma update_view g w :
  gameState w = PLAYING ->
  let w' := update g w in
  gameState w' =
  (if frameFell w then GAMEOVER
   else if existsb (frameTouches w) (map fallen (frameEnemies g w))
        then GAMEOVER else PLAYING)
  /\ elapsedTime w' = elapsedTime w + dt
  /\ invincibilityFrames w' = frameInv w
  /\ player w' = fst (movePlayer (player w) (sh_intensity (shake w)))
  /\ enemies w' = filter keepEnemy (map fallen (frameEnemies g w))
  /\ sh_intensity (shake w') =
     (if Rlt_dec 0 (frameIntensity w) then frameIntensity w * 0.9
      else frameIntensity w)
  /\ enemyIdCounter w' =
     (if spawns (frameRng g w) ((elapsedTime w + dt) / 60)
      then S (enemyIdCounter w) else enemyIdCounter w).
Proof.
  intros HP; cbv zeta.
  rewrite (update_phases g w HP); cbn [gameState elapsedTime
    invincibilityFrames player enemies shake enemyIdCounter set_enemies].
  set (cx := centerX (player w)); set (cy := centerY (player w)).
  destruct (fallEnemies_spec cx cy (enemies (frameSpawned g w))
              (frameSpawned g w)) as (F1 & F2).
  destruct (fallEnemies_frame cx cy (enemies (frameSpawned g w))
              (frameSpawned g w)) as (_&_&_&G4&G5&G6&_&_&_&_&G11&G12&_).
  destruct (frameSpawned_fields g w) as (T1&T2&T3&T4&T5&T6).
  rewrite F1, F2, G4, G5, G6, G11, G12, frameSpawned_enemies,
    T1, T2, T3, T4, T5, T6, HP.
  destruct (movePlayer_fields (player w) (sh_intensity (shake w)))
    as (Mw&_).
  rewrite Mw.
  split; [|repeat split].
  unfold frameTouches; fold cx cy.
  destruct (frameFell w); [|reflexivity].
  match goal with |- (if ?b then _ else _) = _ => destruct b end; reflexivity.
Qed.

(** ** A jump, read off the world it starts from *)

Lemma pulseSweep_shockwaves px py pw sup es g w :
  exists ids,
    shockwaves (snd (pulseSweep px py pw sup es g w))
    = shockwaves w ++ map (pushedShockwave px py 1.0) ids
    /\ length ids =
       (if burningEnabled config then count (pulseHits px py pw sup) es
        else 0%nat).
Proof.
  revert g w; induction es as [|e rest IH]; intros.
  - exists []; cbn; rewrite app_nil_r; split; [reflexivity|].
    now destruct (burningEnabled config).
  - cbn [pulseSweep]; unfold count; cbn [filter].
    destruct (pulseHits px py pw sup e); cbv zeta.
    + match goal with |- context [pulseSweep _ _ _ _ rest ?g' ?w'] =>
        destruct (IH g' w') as (ids & Hs & Hl);
        destruct (pulseSweep px py pw sup rest g' w') as [[r g2] w2];
        cbn [snd] in * end.
      rewrite Hs, pulseKill_shockwaves.
      destruct (burningEnabled config).
      * exists (shockwaveIdCounter w :: ids). cbn [map length].
        rewrite <- app_assoc; split; [reflexivity|]. now rewrite Hl.
      * exists ids; split; [reflexivity|exact Hl].
    + destruct (IH g w) as (ids & Hs & Hl);
        destruct (pulseSweep px py pw sup rest g w) as [[r g2] w2].
      exists ids; split; assumption.
Qed.

Lemma executeJump_shake mx my g w :
  fuelConsumption config <= pl_fuel (player w) ->
  sh_intensity (shake (executeJump mx my g w)) =
  if inDeadZone (player w) then 30 else 15.
Proof.
  intros Hfuel. unfold executeJump.
  destruct (Rlt_dec (pl_fuel (player w)) (fuelConsumption config)) as [?|_];
    [lra|].
  cbv zeta.
  match goal with |- context [pulseSweep ?a ?b ?c ?d ?es g ?w1] =>
    pose proof (pulseSweep_frame a b c d es g w1) as Hfr;
    destruct (pulseSweep a b c d es g w1) as [[es' g'] w'] end.
  cbn [snd] in Hfr. destruct Hfr as (_&_&_&_&_&_&Hsh&_).
  destruct (inDeadZone (player w)); cbn.
  - rewrite Hsh; cbn. now rewrite playSound_shake.
  - reflexivity.
Qed.

(** The world after an accepted jump. *)
Lemma executeJump_view mx my g w :
  fuelConsumption config <= pl_fuel (player w) ->
  let w' := executeJump mx my g w in
  let p := player w in
  let d := jumpDist (mx - centerX p) (my - centerY p) in
  let force :=
    if inDeadZone p then recoilForce config * superJumpMultiplier config
    else recoilForce config in
  gameState w' = gameState w
  /\ elapsedTime w' = elapsedTime w
  /\ enemyIdCounter w' = enemyIdCounter w
  /\ invincibilityFrames w' =
     (if inDeadZone p then 15 else invincibilityFrames w)
  /\ pl_x (player w') = pl_x p /\ pl_y (player w') = pl_y p
  /\ pl_width (player w') = pl_width p
  /\ pl_height (player w') = pl_height p
  /\ pl_vx (player w') = - ((mx - centerX p) / d) * force
  /\ pl_vy (player w') = - ((my - centerY p) / d) * force
  /\ pl_fuel (player w') =
     (if existsb (jumpHits w) (enemies w) then pl_maxFuel p
      else pl_fuel p - fuelConsumption config)
  /\ pl_maxFuel (player w') = pl_maxFuel p
  /\ enemies w' = map (markHit (jumpHits w)) (enemies w)
  /\ sh_intensity (shake w') = (if inDeadZone p then 30 else 15)
  /\ exists ids,
       shockwaves w'
       = shockwaves w ++ map (pushedShockwave (centerX p) (centerY p) 1.0) ids
       /\ length ids =
          (if burningEnabled config then count (jumpHits w) (enemies w)
           else 0%nat).
Proof.
  intros Hfuel; cbv zeta.
  pose proof (executeJump_fuel mx my g w Hfuel) as Hf.
  pose proof (executeJump_shake mx my g w Hfuel) as Hsh.
  destruct (executeJump_accepted mx my g w Hfuel)
    as (w1 & sweep & Hs & Hp1 & _ & _ & Hs1 & _ & Hg1 & _ & Ht1 & Hc1 & Hi1
        & Hp' & He' & _ & Hs' & _ & Hg' & _ & Ht' & Hc' & Hi' & _).
  pose proof (pulseSweep_frame (centerX (player w)) (centerY (player w))
                (pulseWidthOf (player w) (inDeadZone (player w)))
                (inDeadZone (player w)) (enemies w) g w1) as Hfr.
  destruct (pulseSweep_shockwaves (centerX (player w)) (centerY (player w))
              (pulseWidthOf (player w) (inDeadZone (player w)))
              (inDeadZone (player w)) (enemies w) g w1) as (ids & Hsw & Hl).
  rewrite <- Hs in Hfr, Hsw.
  destruct Hfr as (Fg&_&_&Ft&Fi&_&_&Fc&Fx&Fy&Fw&Fh&Fvx&Fvy&Fm).
  rewrite Hp' in *. rewrite Hp1 in Fx, Fy, Fw, Fh, Fvx, Fvy, Fm.
  cbn in Fx, Fy, Fw, Fh, Fvx, Fvy, Fm.
  repeat split; try congruence.
  - rewrite He', Hs. apply pulseSweep_enemies.
  - exists ids. rewrite Hs', Hsw, Hs1. split; [reflexivity|exact Hl].
Qed.

(** ** The spawn director *)

Lemma waveFactor_bounds s : 0.4 <= waveFactor s <= 1.6.
Proof.
  unfold waveFactor. pose proof (SIN_bound (s * 0.8)). lra.
Qed.

Lemma index_IZR l z :
  index l (IZR z)
  = if (0 <=? z)%Z then nth_error l (Z.to_nat z) else None.
Proof.
  unfold index; cbv zeta. rewrite ZfloorZ.
  destruct (Req_dec_T (IZR z) (IZR z)); [reflexivity|contradiction].
Qed.

Lemma floor_unit x : 0 <= x < 1 -> floor x = 0.
Proof.
  intros Hx; unfold floor. rewrite (Zfloor_eq 0 x); [reflexivity|cbn; lra].
Qed.

Lemma js_rem_small a m : 0 < m -> 0 <= a < m -> js_rem a m = a.
Proof.
  intros Hm Ha; unfold js_rem, Ztrunc.
  assert (H0 : 0 <= a / m < 1).
  { split; [apply Rmult_le_pos; [lra|left; now apply Rinv_0_lt_compat]|].
    apply Rmult_lt_reg_r with m; [lra|].
    unfold Rdiv; rewrite Rmult_assoc, Rinv_l by lra. lra. }
  destruct (Rle_dec 0 (a / m)); [|lra].
  rewrite (Zfloor_eq 0 (a / m)) by (cbn; lra). cbn; lra.
Qed.

(** A two-point curve is defined on the whole cycle. *)
Lemma curveValue_two a b t :
  0 <= t < 1 -> exists lt, curveValue [a; b] t = Some (a * (1 - lt) + b * lt).
Proof.
  intros Ht; unfold curveValue; cbv zeta.
  replace (INR (length [a; b]) - 1) with 1 by (cbn; lra).
  rewrite Rmult_1_r, (floor_unit t Ht).
  replace (Rmin (0 + 1) 1) with (IZR 1)
    by (unfold Rmin; destruct (Rle_dec _ _); lra).
  change 0 with (IZR 0) at 1. rewrite !index_IZR. cbn.
  eexists; reflexivity.
Qed.

(** With a two-point curve and no difficulty ramp, a frame in the first
    cycle spawns when the draw is below the base rate times the wave
    factor. *)
Lemma spawns_flat a b g s :
  spawnCurve config = [a; b] -> difficultyScale config = 0 ->
  0 <= s < 120 ->
  spawns g s = Rltb (draw g) (enemySpawnRate config * waveFactor s * dt).
Proof.
  intros Hc Hd Hs; unfold spawns, finalSpawnRate; cbv zeta.
  rewrite (js_rem_small s 120) by lra.
  destruct (curveValue_two a b (s / 120)) as (lt & Hcv); [lra|].
  rewrite Hc, Hcv, Hd. f_equal. ring.
Qed.

Lemma finalSpeed_flat s : difficultyScale config = 0 -> finalSpeed s = 1.5.
Proof.
  intros Hd; unfold finalSpeed; rewrite Hd.
  unfold Rmin; destruct (Rle_dec _ _); lra.
Qed.

(** Without a shockwave at its start, a frame ends without one. *)
Lemma update_calm g w : shockwaves w = [] -> shockwaves (update g w) = [].
Proof.
  intros Hs. destruct (gameState w) eqn:HP.
  1,3: rewrite update_idle by congruence; exact Hs.
  rewrite (update_shockwaves g w HP).
  destruct (frameBurn_spec g w) as (news & E1 & E2 & E3 & _ & E5 & _).
  cbv zeta in *. rewrite E1, E3, E2, Hs, burnedBy_nil in *.
  cbn [map app length skipn].
  assert (Hn : length news = 0%nat)
    by (rewrite E5; destruct (burningEnabled config); lia).
  destruct news; [reflexivity|discriminate].
Qed.

Lemma frameBurned_calm w : shockwaves w = [] -> frameBurned w = enemies w.
Proof. intros Hs; unfold frameBurned; rewrite Hs; apply burnedBy_nil. Qed.

(** ** Square roots against bounds *)

Lemma sqrt_ge_bound s t : 0 <= t -> t * t <= s -> t <= sqrt s.
Proof.
  intros Ht Hs. rewrite <- (sqrt_square t Ht). now apply sqrt_le_1_alt.
Qed.

Lemma sqrt_lt_bound s t : 0 <= s -> 0 <= t -> s < t * t -> sqrt s < t.
Proof.
  intros H0 Ht Hs. rewrite <- (sqrt_square t Ht). apply sqrt_lt_1_alt; lra.
Qed.

Lemma frameBurnt_enemies g w : enemies (frameBurnt g w) = frameBurned w.
Proof.
  destruct (frameBurnt_burn g w) as (E & _). rewrite E.
  destruct (frameBurn_spec g w) as (news & _ & E2 & _). exact E2.
Qed.

Lemma reachable_run evs w :
  reachable w -> Forall event_ok evs -> reachable (run evs w).
Proof.
  intros Hw Hevs; revert w Hw.
  induction Hevs as [|ev rest Hev Hrest IH]; intros w Hw; [exact Hw|].
  rewrite run_cons. apply IH. now apply reach_step.
Qed.

(** The lethal-contact test does not read the [isDead] flag. *)
Lemma touches_flag cx cy inv wd b e :
  touches cx cy inv wd (set_isDead b e) = touches cx cy inv wd e.
Proof. reflexivity. Qed.

(** * The claims about jumps *)

(** C1 (as amended).  An accepted jump leaves the player with its fuel minus
    [fuelConsumption], unless the pulse of that jump eliminates an enemy: the
    fuel is then refilled to [maxFuel]. *)
Theorem executeJump_fuel_accounting mx my g w :
  fuelConsumption config <= pl_fuel (player w) ->
  pl_fuel (player (executeJump mx my g w)) =
  if existsb (jumpHits w) (enemies w) then pl_maxFuel (player w)
  else pl_fuel (player w) - fuelConsumption config.
Proof. exact (executeJump_fuel mx my g w). Qed.

(** C2.  A jump attempted with less fuel than [fuelConsumption] is rejected:
    the player, the pulses, the particles, the enemies and the shockwaves are
    what they were; the shake intensity becomes 5 and the pulse cue is
    requested. *)
Theorem executeJump_rejected mx my g w :
  pl_fuel (player w) < fuelConsumption config ->
  let w' := executeJump mx my g w in
  w' = playSound snd_pulse (set_intensity 5 w)
  /\ player w' = player w
  /\ pulses w' = pulses w
  /\ particles w' = particles w
  /\ enemies w' = enemies w
  /\ shockwaves w' = shockwaves w
  /\ gameState w' = gameState w
  /\ score w' = score w
  /\ elapsedTime w' = elapsedTime w
  /\ invincibilityFrames w' = invincibilityFrames w
  /\ sh_intensity (shake w') = 5
  /\ (sounds w' = sounds w \/ sounds w' = sounds w ++ [snd_pulse]).
Proof. exact (executeJump_reject mx my g w). Qed.

(** C6.  The pulse of a jump flips [isDead] on exactly the live enemies that
    overlap its band and lie on the affected side: below the centre of the
    player for a normal jump, above it for a super jump.  Every other enemy
    is left as it was. *)
Theorem pulse_kill_direction mx my g w :
  enemies (executeJump mx my g w) =
  (if Rlt_dec (pl_fuel (player w)) (fuelConsumption config) then enemies w
   else map (markHit (jumpHits w)) (enemies w))
  /\ Forall2
       (fun e e' =>
          e' = e
          \/ (e' = set_isDead true e
              /\ en_isDead e = false
              /\ en_x e + en_radius e
                 > centerX (player w)
                   - pulseWidthOf (player w) (inDeadZone (player w)) / 2
              /\ en_x e - en_radius e
                 < centerX (player w)
                   + pulseWidthOf (player w) (inDeadZone (player w)) / 2
              /\ (if inDeadZone (player w)
                  then en_y e < centerY (player w)
                  else en_y e > centerY (player w))))
       (enemies w) (enemies (executeJump mx my g w)).
Proof. exact (executeJump_enemies mx my g w). Qed.

(** * The claim about spawns *)

Lemma spawnX_spec cx r :
  let raw := r * (GAME_WIDTH K - 40) + 20 in
  let x := spawnX cx r in
  (60 <= Rabs (x - cx)
   \/ (raw < cx /\ x = 20)
   \/ (cx <= raw /\ x = GAME_WIDTH K - 20))
  /\ (40 <= GAME_WIDTH K -> 0 <= r < 1 -> 20 <= x <= GAME_WIDTH K - 20).
Proof.
  cbv zeta; unfold spawnX; cbv zeta.
  set (raw := r * (GAME_WIDTH K - 40) + 20).
  assert (Hraw : 40 <= GAME_WIDTH K -> 0 <= r < 1 ->
                 20 <= raw <= GAME_WIDTH K - 20)
    by (intros; subst raw; nra).
  destruct (Rlt_dec (Rabs (raw - cx)) 60) as [Hin|Hout].
  - destruct (Rlt_dec raw cx) as [Hl|Hr].
    + unfold Rmax; destruct (Rle_dec 20 (raw - 60)).
      * split; [left; unfold Rabs; destruct (Rcase_abs _); lra|].
        intros H1 H2; specialize (Hraw H1 H2); lra.
      * split; [right; left; split; [exact Hl|reflexivity]|].
        intros H1 H2; specialize (Hraw H1 H2); lra.
    + unfold Rmin; destruct (Rle_dec (GAME_WIDTH K - 20) (raw + 60)).
      * split; [right; right; split; [lra|reflexivity]|].
        intros H1 H2; specialize (Hraw H1 H2); lra.
      * split; [left; unfold Rabs; destruct (Rcase_abs _); lra|].
        intros H1 H2; specialize (Hraw H1 H2); lra.
  - split; [left; lra|exact Hraw].
Qed.


(** * The claim about shockwaves *)

(** ** Invariants of the transition system *)

(** A property of the mounted world that frames, jumps, resets and the
    high-score effect preserve holds of every reachable world. *)
Lemma reachable_invariant (P : World -> Prop) :
  P initialWorld ->
  (forall w, P w -> P (syncHighScore w)) ->
  (forall g w, rng_ok g -> P w -> P (update g w)) ->
  (forall mx my g w,
      rng_ok g -> gameState w = PLAYING -> P w -> P (executeJump mx my g w)) ->
  (forall w, P w -> P (resetGame w)) ->
  forall w, reachable w -> P w.
Proof.
  intros H0 Hh Hu Hj Hr w Hw.
  induction Hw as [|ev w Hw IH Hev]; [exact H0|].
  unfold step; apply Hh. destruct ev as [g|i g]; cbn in Hev.
  - now apply Hu.
  - unfold handleGlobalInteraction.
    destruct (negb (isMouseOver i) && negb (isTouch i)); [exact IH|].
    destruct (gameState w) eqn:Hs; try now apply Hr.
    destruct (isTouch i && _); [exact IH|].
    now apply Hj.
Qed.

Lemma update_shockwaves_view g w :
  gameState w = PLAYING ->
  exists news,
    shockwaves (update g w)
    = filter (fun sw => Rltb 0 (sw_life sw))
        (map (growShockwave (centerX (player w)) (centerY (player w)))
           (shockwaves w) ++ news)
    /\ Forall (chained (centerX (player w)) (centerY (player w))) news.
Proof.
  intros HP.
  destruct (frameBurn_spec g w) as (news & E1 & _ & E3 & E4 & _).
  exists news. split; [|exact E4].
  rewrite (update_shockwaves g w HP), E1, E3. now rewrite skipn_app_exact.
Qed.

(** Every shockwave of a reachable world was pushed by [triggerShockwave]
    under the [config] of the run: its [maxLife] is [burningDuration]. *)
Lemma reachable_maxLife w :
  reachable w ->
  Forall (fun sw => sw_maxLife sw = burningDuration config) (shockwaves w).
Proof.
  revert w; apply reachable_invariant.
  - constructor.
  - intros w H.
    destruct (syncHighScore_same w) as (_&_&_&_&_&_&_&_&Hs&_).
    now rewrite Hs.
  - intros g w _ H.
    destruct (gameState w) eqn:HP.
    1,3: rewrite update_idle by congruence; exact H.
    destruct (update_shockwaves_view g w HP) as (news & Es & Hn).
    rewrite Es. apply Forall_forall; intros sw Hin.
    apply filter_In in Hin; destruct Hin as (Hin & _).
    apply in_app_iff in Hin; destruct Hin as [Hin|Hin].
    + apply in_map_iff in Hin; destruct Hin as (sw0 & <- & Hin).
      exact (proj1 (Forall_forall _ _) H sw0 Hin).
    + pose proof (proj1 (Forall_forall _ _) Hn sw Hin) as Hc.
      now destruct Hc as (_&_&_&_&_&Hc).
  - intros mx my g w _ _ H.
    destruct (Rlt_dec (pl_fuel (player w)) (fuelConsumption config))
      as [Hlt|Hge].
    + destruct (executeJump_reject mx my g w Hlt) as (_&_&_&_&_&Es&_).
      now rewrite Es.
    + assert (Hfuel : fuelConsumption config <= pl_fuel (player w)) by lra.
      destruct (executeJump_view mx my g w Hfuel)
        as (_&_&_&_&_&_&_&_&_&_&_&_&_&_&ids&Es&_).
      rewrite Es. apply Forall_app; split; [exact H|].
      apply Forall_map, Forall_forall; intros id _. reflexivity.
  - intros w _. destruct (resetGame_fields w) as (_&_&_&_&_&_&_&_&Hs&_).
    rewrite Hs; constructor.
Qed.

(** C7.  In a frame of a playing world whose enemies have non-negative
    radii and whose shockwaves have a [maxLife] other than zero (every
    reachable world is one when [burningDuration] is not zero: its enemies
    have radius 10 or more and its shockwaves have [burningDuration] as
    [maxLife]), a live enemy whose distance to the centre of the player is
    below the radius of a shockwave, as grown by that frame, is flagged
    dead; with [burningEnabled] on, the frame pushes one shockwave per enemy
    that it flags, each at the centre of the player with radius 0 and
    [maxRadius = burningRadius * 0.8].  With [burningEnabled] off neither a
    frame, a jump nor a reset creates a shockwave, no reachable world has
    one, and no frame of a reachable world flags an enemy.  (With a
    [maxLife] of zero the radius that the source computes is NaN, which is
    above no distance.) *)
Theorem shockwave_chain g w :
  gameState w = PLAYING ->
  Forall (fun e => 0 <= en_radius e) (enemies w) ->
  Forall (fun sw => sw_maxLife sw <> 0) (shockwaves w) ->
  let cx := centerX (player w) in
  let cy := centerY (player w) in
  exists news,
    enemies (frameBurnt g w)
    = map (markHit (burnedBy cx cy (shockwaves w))) (enemies w)
    /\ (forall sw e,
          In sw (shockwaves w) -> In e (enemies w) -> en_isDead e = false ->
          distTo e cx cy < sw_radius (growShockwave cx cy sw) ->
          burnedBy cx cy (shockwaves w) e = true
          /\ In (set_isDead true e) (enemies (frameBurnt g w)))
    /\ shockwaves (update g w)
       = filter (fun sw => Rltb 0 (sw_life sw))
           (map (growShockwave cx cy) (shockwaves w) ++ news)
    /\ Forall (chained cx cy) news
    /\ length news
       = (if burningEnabled config
          then dead_count (enemies (frameBurnt g w)) - dead_count (enemies w)
          else 0)%nat
    /\ (burningEnabled config = false ->
        news = []
        /\ (forall mx my g',
              shockwaves (executeJump mx my g' w) = shockwaves w)
        /\ shockwaves (resetGame w) = []
        /\ (reachable w ->
            shockwaves w = []
            /\ enemies (frameBurnt g w) = enemies w
            /\ shockwaves (update g w) = []))
    /\ (reachable w ->
        Forall (fun e => 10 <= en_radius e) (enemies w)
        /\ Forall (fun sw => sw_maxLife sw = burningDuration config)
             (shockwaves w)).
Proof.
  intros HP Hr Hml cx cy.
  destruct (frameBurn_spec g w) as (news & E1 & E2 & E3 & E4 & E5 & E6).
  destruct (frameBurnt_burn g w) as (B1 & B2).
  fold cx cy in E1, E2, E4.
  exists news.
  assert (He : enemies (frameBurnt g w)
               = map (markHit (burnedBy cx cy (shockwaves w))) (enemies w))
    by (rewrite B1; exact E2).
  assert (Hs : shockwaves (update g w)
               = filter (fun sw => Rltb 0 (sw_life sw))
                   (map (growShockwave cx cy) (shockwaves w) ++ news)).
  { rewrite (update_shockwaves g w HP), E1, E3. now rewrite skipn_app_exact. }
  split; [exact He|].
  split; [|split; [exact Hs|split; [exact E4|split; [|split]]]].
  - intros sw e Hsw Hin Hd Hdist.
    assert (Hb : burnedBy cx cy (shockwaves w) e = true).
    { unfold burnedBy; rewrite Hd; cbn [negb andb].
      apply existsb_exists; exists sw; split; [exact Hsw|].
      apply Rltb_true.
      pose proof (proj1 (Forall_forall _ _) Hr e Hin) as Hrad; cbv beta in Hrad.
      lra. }
    split; [exact Hb|]. rewrite He.
    replace (set_isDead true e)
      with (markHit (burnedBy cx cy (shockwaves w)) e)
      by (unfold markHit; now rewrite Hb).
    now apply in_map.
  - rewrite E5, <- B1. reflexivity.
  - intros Hb. rewrite Hb in E5.
    assert (Hn : news = []) by now destruct news.
    split; [exact Hn|]. split; [intros; now apply executeJump_quiet|].
    split; [now destruct (resetGame_fields w) as (_&_&_&_&_&_&_&_&Hs0&_)|].
    intros Hw. destruct (reachable_wellFormed w Hw) as (_ & Hq).
    split; [exact (Hq Hb)|]. split.
    + rewrite He, (Hq Hb). apply burnedBy_nil.
    + apply update_quiet; auto.
  - intros Hw. split; [now destruct (reachable_wellFormed w Hw)|].
    now apply reachable_maxLife.
Qed.


(** * Further properties of the engine *)

(** ** The recoil *)




(** ** The walls *)

Lemma movePlayer_x p i :
  let p' := fst (movePlayer p i) in
  pl_x p' <= GAME_WIDTH K - pl_width p
  /\ (pl_width p <= GAME_WIDTH K -> 0 <= pl_x p')
  /\ (pl_width p <= GAME_WIDTH K -> pl_x p + pl_vx p * dt < 0 ->
      pl_x p' = 0
      /\ pl_vx p' = - (pl_vx p * AIR_RESISTANCE K) * bounceElasticity config
      /\ snd (movePlayer p i) = Rabs (pl_vx p') * 0.5)
  /\ (GAME_WIDTH K - pl_width p < pl_x p + pl_vx p * dt ->
      0 <= pl_x p + pl_vx p * dt ->
      pl_x p' = GAME_WIDTH K - pl_width p
      /\ pl_vx p' = - (pl_vx p * AIR_RESISTANCE K) * bounceElasticity config
      /\ snd (movePlayer p i) = Rabs (pl_vx p') * 0.5)
  /\ (0 <= pl_x p + pl_vx p * dt <= GAME_WIDTH K - pl_width p ->
      pl_x p' = pl_x p + pl_vx p * dt
      /\ pl_vx p' = pl_vx p * AIR_RESISTANCE K
      /\ snd (movePlayer p i) = i).
Proof.
  unfold movePlayer; cbv zeta.
  destruct (Rlt_dec (pl_x p + pl_vx p * dt) 0) as [Hl|Hl]; cbv beta iota.
  - destruct (Rlt_dec (GAME_WIDTH K - pl_width p) 0) as [Hr|Hr];
      cbn [fst snd pl_x pl_vx].
    + repeat split; intros; lra.
    + repeat split; intros; lra.
  - destruct (Rlt_dec (GAME_WIDTH K - pl_width p) (pl_x p + pl_vx p * dt))
      as [Hr|Hr]; cbn [fst snd pl_x pl_vx].
    + repeat split; intros; lra.
    + repeat split; intros; lra.
Qed.

Lemma executeJump_player_box mx my g w :
  pl_x (player (executeJump mx my g w)) = pl_x (player w)
  /\ pl_y (player (executeJump mx my g w)) = pl_y (player w)
  /\ pl_width (player (executeJump mx my g w)) = pl_width (player w)
  /\ pl_height (player (executeJump mx my g w)) = pl_height (player w)
  /\ pl_maxFuel (player (executeJump mx my g w)) = pl_maxFuel (player w).
Proof.
  destruct (Rlt_dec (pl_fuel (player w)) (fuelConsumption config))
    as [Hlt|Hge].
  - destruct (executeJump_reject mx my g w Hlt) as (_&Hp&_).
    rewrite Hp; repeat split.
  - assert (Hfuel : fuelConsumption config <= pl_fuel (player w)) by lra.
    destruct (executeJump_view mx my g w Hfuel)
      as (_&_&_&_&Hx&Hy&Hw&Hh&_&_&_&Hm&_).
    repeat split; assumption.
Qed.

Lemma reachable_width w :
  reachable w -> pl_width (player w) = playerSize config.
Proof.
  revert w; apply reachable_invariant.
  - reflexivity.
  - intros w H. destruct (syncHighScore_same w) as (_&_&_&_&Hp&_).
    now rewrite Hp.
  - intros g w _ H.
    destruct (gameState w) eqn:Hs.
    1,3: rewrite update_idle by congruence; exact H.
    destruct (update_playing g w Hs) as (_&_&_&_&_&Hp). rewrite Hp.
    destruct (movePlayer_fields (player w) (sh_intensity (shake w)))
      as (Ew&_). cbv zeta in Ew. congruence.
  - intros mx my g w _ _ H.
    destruct (executeJump_player_box mx my g w) as (_&_&Ew&_). congruence.
  - intros w _. now rewrite resetGame_player.
Qed.

(** X2.  With a player no wider than the play field, the player is between
    the two walls in every reachable world, and after a frame of any playing
    world.  A frame that would carry the player past a wall leaves it on
    that wall, with the horizontal velocity (after drag) reversed and scaled
    by [bounceElasticity]. *)
Theorem player_in_field :
  playerSize config <= GAME_WIDTH K ->
  (forall w, reachable w -> inField w)
  /\ (forall g w,
        gameState w = PLAYING -> pl_width (player w) <= GAME_WIDTH K ->
        let p := player w in
        let p' := player (update g w) in
        let x := pl_x p + pl_vx p * dt in
        inField (update g w)
        /\ (x < 0 \/ GAME_WIDTH K - pl_width p < x ->
            pl_x p' = (if Rlt_dec x 0 then 0 else GAME_WIDTH K - pl_width p)
            /\ pl_vx p'
               = - (pl_vx p * AIR_RESISTANCE K) * bounceElasticity config)
        /\ (0 <= x <= GAME_WIDTH K - pl_width p ->
            pl_x p' = x /\ pl_vx p' = pl_vx p * AIR_RESISTANCE K)).
Proof.
  intros Hsize.
  assert (Hframe : forall g w,
             gameState w = PLAYING -> pl_width (player w) <= GAME_WIDTH K ->
             inField (update g w)).
  { intros g w HP Hw. unfold inField.
    destruct (update_playing g w HP) as (_&_&_&_&_&Hp). rewrite Hp.
    destruct (movePlayer_fields (player w) (sh_intensity (shake w)))
      as (Ew&_).
    destruct (movePlayer_x (player w) (sh_intensity (shake w)))
      as (H1&H2&_).
    cbv zeta in *. rewrite Ew. split; [now apply H2|exact H1]. }
  split; [|intros g w HP Hw; cbv zeta; split; [now apply Hframe|]].
  - apply reachable_invariant.
    + unfold inField; cbn. lra.
    + intros w H. unfold inField in *.
      destruct (syncHighScore_same w) as (_&_&_&_&Hp&_). now rewrite Hp.
    + intros g w _ H.
      destruct (gameState w) eqn:Hs.
      1,3: rewrite update_idle by congruence; exact H.
      apply Hframe; [exact Hs|]. unfold inField in H. lra.
    + intros mx my g w _ _ H. unfold inField in *.
      destruct (executeJump_player_box mx my g w) as (Ex&_&Ew&_).
      now rewrite Ex, Ew.
    + intros w _. unfold inField. rewrite resetGame_player; cbn. lra.
  - destruct (update_playing g w HP) as (_&_&_&_&_&Hp). rewrite Hp.
    destruct (movePlayer_x (player w) (sh_intensity (shake w)))
      as (_&_&H3&H4&H5). cbv zeta in *.
    split.
    + intros [Hl|Hr].
      * destruct (Rlt_dec _ 0) as [_|?]; [|lra].
        destruct (H3 Hw Hl) as (?&?&_). now split.
      * destruct (Rlt_dec _ 0) as [Hl|Hl].
        -- destruct (H3 Hw Hl) as (?&?&_). now split.
        -- destruct (H4 Hr ltac:(lra)) as (?&?&_). now split.
    + intros Hin. destruct (H5 Hin) as (?&?&_). now split.
Qed.

(** ** The best score *)

Lemma pulseSweep_highScore px py pw sup es g w :
  highScore (snd (pulseSweep px py pw sup es g w)) = highScore w.
Proof.
  now destruct (pulseSweep_frame px py pw sup es g w) as (_&_&H&_).
Qed.

Lemma executeJump_highScore mx my g w :
  highScore (executeJump mx my g w) = highScore w.
Proof.
  unfold executeJump.
  destruct (Rlt_dec (pl_fuel (player w)) (fuelConsumption config));
    [now rewrite playSound_highScore|].
  cbv zeta.
  match goal with |- context [pulseSweep ?a ?b ?c ?d ?es g ?w1] =>
    pose proof (pulseSweep_highScore a b c d es g w1) as Hh;
    destruct (pulseSweep a b c d es g w1) as [[es' g'] w'] end.
  cbn [snd] in Hh.
  destruct (inDeadZone (player w)); cbn in *;
    rewrite Hh; cbn; now rewrite ?playSound_highScore.
Qed.

Lemma update_highScore g w : highScore (update g w) = highScore w.
Proof.
  destruct (gameState w) eqn:Hs.
  1,3: rewrite update_idle by congruence; reflexivity.
  now destruct (update_playing g w Hs) as (_&_&H&_).
Qed.

Lemma handleGlobalInteraction_highScore i g w :
  highScore (handleGlobalInteraction i g w) = highScore w.
Proof.
  unfold handleGlobalInteraction.
  destruct (negb (isMouseOver i) && negb (isTouch i)); [reflexivity|].
  destruct (gameState w);
    try now destruct (resetGame_fields w) as (_&_&_&_&_&_&_&_&_&_&H&_).
  destruct (isTouch i && _); [reflexivity|apply executeJump_highScore].
Qed.

(** X3.  The best score is the largest score seen so far: every event leaves
    [highScore] at the larger of its old value and the new score, so it
    never decreases; no reachable world has a score above it; and a reset
    clears the score but keeps it. *)
Theorem high_score_kept :
  (forall ev w,
      highScore (step ev w) = Rmax (highScore w) (score (step ev w))
      /\ highScore w <= highScore (step ev w))
  /\ (forall w, reachable w -> score w <= highScore w)
  /\ (forall w, highScore (resetGame w) = highScore w /\ score (resetGame w) = 0).
Proof.
  assert (Hstep : forall ev w,
             highScore (step ev w) = Rmax (highScore w) (score (step ev w))).
  { intros ev w. unfold step.
    set (w1 := match ev with Frame g => update g w
                           | Pointer i g => handleGlobalInteraction i g w end).
    assert (Hh : highScore w1 = highScore w)
      by (subst w1; destruct ev;
          [apply update_highScore|apply handleGlobalInteraction_highScore]).
    unfold syncHighScore.
    destruct (Rlt_dec (highScore w1) (score w1)) as [Hlt|Hge]; cbn;
      rewrite <- Hh; unfold Rmax; destruct (Rle_dec _ _); lra. }
  split; [|split].
  - intros ev w; split; [apply Hstep|].
    rewrite Hstep. apply Rmax_l.
  - intros w Hw. destruct Hw as [|ev w Hw Hev]; [cbn; lra|].
    rewrite Hstep. apply Rmax_r.
  - intros w. destruct (resetGame_fields w) as (_&Hs&_&_&_&_&_&_&_&_&Hh&_).
    now split.
Qed.

(** ** The enemies of a world *)

Lemma markHit_map {A} (f : Enemy -> A) hit l :
  (forall e, f (set_isDead true e) = f e) ->
  map f (map (markHit hit) l) = map f l.
Proof.
  intros Hf. rewrite map_map. apply map_ext.
  intros e; unfold markHit; destruct (hit e); [apply Hf|reflexivity].
Qed.

Lemma markHit_Forall (P : Enemy -> Prop) hit l :
  (forall e, P e -> P (set_isDead true e)) ->
  Forall P l -> Forall P (map (markHit hit) l).
Proof.
  intros HP Hl. apply Forall_map. eapply Forall_impl; [|exact Hl].
  intros e He; unfold markHit; destruct (hit e); auto.
Qed.

Lemma executeJump_enemies_map {A} (f : Enemy -> A) mx my g w :
  (forall e, f (set_isDead true e) = f e) ->
  map f (enemies (executeJump mx my g w)) = map f (enemies w).
Proof.
  intros Hf. destruct (executeJump_enemies mx my g w) as (E & _).
  rewrite E. destruct (Rlt_dec _ _); [reflexivity|now apply markHit_map].
Qed.

Lemma executeJump_enemies_Forall (P : Enemy -> Prop) mx my g w :
  (forall e, P e -> P (set_isDead true e)) ->
  Forall P (enemies w) -> Forall P (enemies (executeJump mx my g w)).
Proof.
  intros HP Hl. destruct (executeJump_enemies mx my g w) as (E & _).
  rewrite E. destruct (Rlt_dec _ _); [exact Hl|now apply markHit_Forall].
Qed.

Lemma frameBurned_map {A} (f : Enemy -> A) w :
  (forall e, f (set_isDead true e) = f e) ->
  map f (frameBurned w) = map f (enemies w).
Proof. intros Hf; unfold frameBurned; now apply markHit_map. Qed.

Lemma NoDup_ids_filter f (l : list Enemy) :
  NoDup (map en_id l) -> NoDup (map en_id (filter f l)).
Proof.
  induction l as [|e l IH]; cbn; intros H; [constructor|].
  inversion H as [|x xs Hnin Hnd]; subst.
  destruct (f e); cbn; [|now apply IH].
  constructor; [|now apply IH].
  intros Hin; apply Hnin.
  apply in_map_iff in Hin; destruct Hin as (e' & He' & Hin).
  apply filter_In in Hin. apply in_map_iff; exists e'; tauto.
Qed.

(** X4.  Enemy ids are keys: in every reachable world the enemies carry
    pairwise distinct ids, all below [enemyIdCounter]; the counter never
    decreases, and a reset empties the enemies without rewinding it. *)
Theorem enemy_ids_unique :
  (forall w, reachable w -> ids_ok w)
  /\ (forall ev w, (enemyIdCounter w <= enemyIdCounter (step ev w))%nat)
  /\ (forall w,
        enemies (resetGame w) = []
        /\ enemyIdCounter (resetGame w) = enemyIdCounter w).
Proof.
  split; [|split].
  - apply reachable_invariant; unfold ids_ok.
    + cbn; split; constructor.
    + intros w H. destruct (syncHighScore_same w) as (_&_&_&_&_&He&_&_&_&_&Hc&_).
      now rewrite He, Hc.
    + intros g w _ (Hnd & Hlt).
      destruct (gameState w) eqn:Hs.
      1,3: rewrite update_idle by congruence; now split.
      destruct (update_view g w Hs) as (_&_&_&_&He&_&Hc).
      rewrite He, Hc.
      assert (Hids : map en_id (map fallen (frameEnemies g w))
                     = if spawns (frameRng g w) ((elapsedTime w + dt) / 60)
                       then map en_id (enemies w) ++ [enemyIdCounter w]
                       else map en_id (enemies w)).
      { rewrite map_map; cbn [fallen set_en_y en_id].
        change (fun x => en_id x) with en_id.
        unfold frameEnemies; cbv zeta. destruct (spawns _ _).
        - rewrite map_app, frameBurned_map by reflexivity. reflexivity.
        - now rewrite frameBurned_map. }
      split.
      * assert (H : NoDup (map en_id (map fallen (frameEnemies g w)))).
        { rewrite Hids. destruct (spawns _ _); [|exact Hnd].
          apply NoDup_app; [exact Hnd|repeat constructor; intros []|].
          intros x Hx [<-|[]].
          apply in_map_iff in Hx; destruct Hx as (e & He' & Hin).
          pose proof (proj1 (Forall_forall _ _) Hlt e Hin) as Hl; cbv beta in Hl.
          lia. }
        now apply NoDup_ids_filter.
      * apply Forall_forall; intros e Hin.
        apply filter_In in Hin; destruct Hin as (Hin & _).
        assert (Hid : In (en_id e) (map en_id (map fallen (frameEnemies g w))))
          by now apply in_map.
        rewrite Hids in Hid.
        assert (Hold : forall x, In x (map en_id (enemies w)) ->
                                 (x < enemyIdCounter w)%nat).
        { intros x Hx. apply in_map_iff in Hx; destruct Hx as (e' & <- & Hin').
          exact (proj1 (Forall_forall _ _) Hlt e' Hin'). }
        destruct (spawns _ _).
        -- apply in_app_iff in Hid; destruct Hid as [Hid|[<-|[]]]; [|lia].
           specialize (Hold _ Hid); lia.
        -- now apply Hold.
    + intros mx my g w _ _ (Hnd & Hlt).
      destruct (executeJump_frame mx my g w) as (_&_&_&Hc&_).
      rewrite Hc, executeJump_enemies_map by reflexivity.
      split; [exact Hnd|].
      now apply executeJump_enemies_Forall.
    + intros w _. destruct (resetGame_fields w) as (_&_&_&_&_&He&_).
      rewrite He; split; constructor.
  - intros ev w. unfold step.
    match goal with |- context [syncHighScore ?x] =>
      destruct (syncHighScore_same x) as (_&_&_&_&_&_&_&_&_&_&Hc&_);
      rewrite Hc end.
    destruct ev as [g|i g].
    + destruct (gameState w) eqn:Hs.
      1,3: rewrite update_idle by congruence; cbn; lia.
      destruct (update_view g w Hs) as (_&_&_&_&_&_&Hc').
      rewrite Hc'; destruct (spawns _ _); lia.
    + unfold handleGlobalInteraction.
      destruct (negb (isMouseOver i) && negb (isTouch i)); [lia|].
      destruct (gameState w);
        try (destruct (resetGame_fields w) as (_&_&_&_&_&_&_&_&_&_&_&Hc'&_);
             rewrite Hc'; lia).
      destruct (isTouch i && _); [lia|].
      match goal with |- context [executeJump ?a ?b g w] =>
        destruct (executeJump_frame a b g w) as (_&_&_&Hc'&_); rewrite Hc' end.
      lia.
  - intros w. destruct (resetGame_fields w) as (_&_&_&_&_&He&_&_&_&_&_&Hc&_).
    now split.
Qed.

(** ** The end of a game *)

Lemma frameTouches_spec w e :
  frameTouches w e = true <->
  frameInv w <= 0
  /\ distTo e (centerX (player w)) (centerY (player w))
     < en_radius e + pl_width (player w) / 2 - 2.
Proof.
  unfold frameTouches, touches.
  now rewrite andb_true_iff, Rleb_true, Rltb_true.
Qed.

(** X5.  A frame of a playing world ends the game exactly when it moves the
    player below the bottom boundary, or when, the player not being
    invincible, one of the enemies of the frame (the new one included) is,
    after its fall, closer to the centre that the player had when the frame
    started than its radius plus half the width of the player, less 2.
    Otherwise the game goes on. *)
Theorem game_over_iff g w :
  gameState w = PLAYING ->
  let cx := centerX (player w) in
  let cy := centerY (player w) in
  (gameState (update g w) = GAMEOVER <->
   GAME_HEIGHT K
   < pl_y (player w) + (pl_vy (player w) + gravity config * dt) * dt
   \/ (frameInv w <= 0
       /\ exists e,
            In e (frameEnemies g w)
            /\ sqrt ((en_x e - cx) * (en_x e - cx)
                     + (en_y e + en_speed e * dt - cy)
                       * (en_y e + en_speed e * dt - cy))
               < en_radius e + pl_width (player w) / 2 - 2))
  /\ (gameState (update g w) <> GAMEOVER -> gameState (update g w) = PLAYING).
Proof.
  intros HP cx cy.
  destruct (update_view g w HP) as (Hg&_). rewrite Hg.
  unfold frameFell. split.
  - destruct (Rltb _ _) eqn:Hf.
    + apply Rltb_true in Hf. split; [now left|reflexivity].
    + apply Rltb_false in Hf.
      destruct (existsb _ _) eqn:Ht.
      * split; [intros _; right|reflexivity].
        apply existsb_exists in Ht; destruct Ht as (e' & Hin & Ht).
        apply in_map_iff in Hin; destruct Hin as (e & <- & Hin).
        apply frameTouches_spec in Ht; destruct Ht as (Hi & Hd).
        split; [exact Hi|exists e; split; [exact Hin|exact Hd]].
      * split; [discriminate|].
        intros [Hfall|(Hi & e & Hin & Hd)]; [lra|].
        exfalso.
        assert (Ht' : existsb (frameTouches w) (map fallen (frameEnemies g w))
                      = true).
        { apply existsb_exists; exists (fallen e); split;
            [now apply in_map|].
          apply frameTouches_spec; split; [exact Hi|exact Hd]. }
        congruence.
  - destruct (Rltb _ _); [congruence|].
    destruct (existsb _ _); congruence.
Qed.

(** ** Invincibility *)

Lemma frameTouches_invincible w l :
  0 < frameInv w -> existsb (frameTouches w) l = false.
Proof.
  intros Hi. induction l as [|e l IH]; [reflexivity|].
  cbn [existsb]. rewrite IH, orb_false_r.
  unfold frameTouches, touches.
  replace (Rleb (frameInv w) 0) with false; [reflexivity|].
  symmetry; apply Rleb_false; exact Hi.
Qed.

Lemma update_invincible g w :
  gameState w = PLAYING -> 1 < invincibilityFrames w ->
  gameState (update g w) = (if frameFell w then GAMEOVER else PLAYING)
  /\ invincibilityFrames (update g w) = invincibilityFrames w - 1.
Proof.
  intros HP Hi.
  destruct (update_view g w HP) as (Hg&_&Hv&_).
  assert (Hf : frameInv w = invincibilityFrames w - 1)
    by (unfold frameInv, dt; destruct (Rlt_dec _ _); lra).
  rewrite Hg, Hv, Hf. split; [|reflexivity].
  rewrite frameTouches_invincible by lra. reflexivity.
Qed.

Lemma invincible_frames gs :
  forall w,
    gameState w = PLAYING ->
    INR (length gs) < invincibilityFrames w ->
    (forall k, (k < length gs)%nat ->
               frameFell (run (map Frame (firstn k gs)) w) = false) ->
    gameState (run (map Frame gs) w) = PLAYING
    /\ invincibilityFrames (run (map Frame gs) w)
       = invincibilityFrames w - INR (length gs).
Proof.
  induction gs as [|g gs IH]; intros w HP Hi Hfall.
  - cbn; split; [exact HP|lra].
  - cbn [map]. rewrite run_cons.
    change (length (g :: gs)) with (S (length gs)) in *.
    rewrite S_INR in *.
    pose proof (pos_INR (length gs)) as Hn.
    assert (H1 : 1 < invincibilityFrames w) by lra.
    destruct (update_invincible g w HP H1) as (Hg & Hv).
    pose proof (Hfall 0%nat ltac:(lia)) as Hf0; cbn in Hf0.
    rewrite Hf0 in Hg.
    assert (Hs : gameState (step (Frame g) w) = PLAYING
                 /\ invincibilityFrames (step (Frame g) w)
                    = invincibilityFrames w - 1).
    { unfold step.
      destruct (syncHighScore_same (update g w)) as (E1&_&_&E4&_).
      rewrite E1, E4. now split. }
    destruct Hs as (Hs1 & Hs2).
    destruct (IH (step (Frame g) w) Hs1 ltac:(lra)) as (I1 & I2).
    + intros k Hk. specialize (Hfall (S k) ltac:(lia)).
      cbn [firstn map] in Hfall. now rewrite run_cons in Hfall.
    + split; [exact I1|]. rewrite I2, Hs2. lra.
Qed.

(** X6.  A super jump grants 15 units of invincibility, and each frame takes
    one away before it tests the contacts.  So in the frames that follow a
    super jump, up to the fourteenth, no enemy can end the game: as long as
    the player does not fall below the bottom boundary the game is still
    [PLAYING]; with one unit or less left, the contact test of the frame is
    armed again. *)
Theorem invincibility_window mx my g w gs :
  gameState w = PLAYING ->
  fuelConsumption config <= pl_fuel (player w) ->
  inDeadZone (player w) = true ->
  (length gs <= 14)%nat ->
  let w' := executeJump mx my g w in
  invincibilityFrames w' = 15
  /\ ((forall k, (k < length gs)%nat ->
                 frameFell (run (map Frame (firstn k gs)) w') = false) ->
      gameState (run (map Frame gs) w') = PLAYING
      /\ invincibilityFrames (run (map Frame gs) w') = 15 - INR (length gs))
  /\ (forall g' w1,
        gameState w1 = PLAYING -> invincibilityFrames w1 <= 1 ->
        forall e, In e (frameEnemies g' w1) ->
                  distTo (fallen e) (centerX (player w1)) (centerY (player w1))
                  < en_radius e + pl_width (player w1) / 2 - 2 ->
                  gameState (update g' w1) = GAMEOVER).
Proof.
  intros HP Hfuel Hdz Hlen; cbv zeta.
  destruct (executeJump_view mx my g w Hfuel) as (Hg&_&_&Hi&_).
  rewrite Hdz in Hi.
  split; [exact Hi|]. split.
  - intros Hfall.
    assert (Hn : INR (length gs) < 15).
    { apply le_INR in Hlen.
      replace (INR 14) with 14 in Hlen by (cbn; lra). lra. }
    destruct (invincible_frames gs (executeJump mx my g w)) as (I1 & I2);
      [congruence|rewrite Hi; exact Hn|exact Hfall|].
    split; [exact I1|]. rewrite I2, Hi; reflexivity.
  - intros g' w1 HP1 Hi1 e Hin Hd.
    destruct (update_view g' w1 HP1) as (Hg1&_). rewrite Hg1.
    destruct (frameFell w1); [reflexivity|].
    replace (existsb (frameTouches w1) (map fallen (frameEnemies g' w1)))
      with true; [reflexivity|].
    symmetry; apply existsb_exists; exists (fallen e).
    split; [now apply in_map|].
    apply frameTouches_spec. split; [|exact Hd].
    unfold frameInv, dt; destruct (Rlt_dec _ _); lra.
Qed.

(** ** Particles and pulses *)

Lemma beginFrame_effects g w :
  particles (snd (beginFrame g w))
  = filter (fun p => Rltb 0 (pa_life p)) (map moveParticle (particles w))
  /\ pulses (snd (beginFrame g w))
     = filter (fun s => Rltb 0 (pu_life s)) (map agePulse (pulses w)).
Proof.
  unfold beginFrame; cbv zeta.
  set (w1 := if Rlt_dec 0 (invincibilityFrames (set_score _ w)) then _ else _).
  assert (H1 : particles w1 = particles w /\ pulses w1 = pulses w)
    by (subst w1; destruct (Rlt_dec _ _); cbn; split; reflexivity).
  clearbody w1. destruct H1 as (E1 & E2).
  destruct (movePlayer (player w1) (sh_intensity (shake w1))) as [p i].
  pose proof (checkFall_frame (set_intensity i (set_player p w1))) as H2.
  set (w2 := checkFall _) in *. cbv zeta in H2.
  pose proof (stepShake_frame g w2) as H3.
  destruct (stepShake g w2) as [g3 w3]. cbv zeta in H3; cbn [snd] in H3.
  cbn in *.
  destruct H2 as (_&_&_&_&_&_&_&F8&F9&_).
  destruct H3 as (_&_&_&_&_&_&_&G8&G9&_).
  split; congruence.
Qed.

Lemma update_effects g w :
  gameState w = PLAYING ->
  particles (update g w)
  = filter (fun p => Rltb 0 (pa_life p)) (map moveParticle (particles w))
  /\ pulses (update g w)
     = filter (fun s => Rltb 0 (pu_life s)) (map agePulse (pulses w)).
Proof.
  intros HP. rewrite (update_phases g w HP); cbn [particles pulses set_enemies].
  destruct (fallEnemies_frame (centerX (player w)) (centerY (player w))
              (enemies (frameSpawned g w)) (frameSpawned g w))
    as (_&_&_&_&_&_&_&Hp&Hs&_).
  rewrite Hp, Hs. unfold frameSpawned.
  destruct (stepSpawn_frame (centerX (player w)) (fst (frameStart g w))
              (frameBurnt g w)) as (_&_&_&_&_&_&Hp'&Hs'&_).
  rewrite Hp', Hs'. unfold frameBurnt.
  destruct (stepShockwaves_frame (centerX (player w)) (centerY (player w))
              (snd (frameStart g w))) as (_&_&_&_&_&_&Hp2&Hs2&_).
  rewrite Hp2, Hs2. unfold frameStart.
  destruct (beginFrame_effects g (set_elapsedTime (elapsedTime w + dt) w))
    as (B1 & B2).
  rewrite B1, B2. split; reflexivity.
Qed.

Lemma killBurst_ok n ex ey sup g :
  Forall particle_ok (killBurst n ex ey sup g).
Proof.
  revert g; induction n as [|n IH]; intros g; cbn [killBurst];
    constructor; [|apply IH].
  unfold particle_ok; cbn; lra.
Qed.

Lemma jumpBurst_ok n px py ux uy sup g :
  rng_ok g -> Forall particle_ok (jumpBurst n px py ux uy sup g).
Proof.
  revert g; induction n as [|n IH]; intros g Hg; cbn [jumpBurst];
    constructor; [|apply IH; now apply rng_ok_after].
  unfold particle_ok; cbn. pose proof (Hg 2%nat). lra.
Qed.

Lemma pulseSweep_rng px py pw sup es g w :
  rng_ok g -> rng_ok (snd (fst (pulseSweep px py pw sup es g w))).
Proof.
  revert g w; induction es as [|e rest IH]; intros g w Hg; [exact Hg|].
  cbn [pulseSweep]. destruct (pulseHits px py pw sup e); cbv zeta.
  - match goal with |- context [pulseSweep _ _ _ _ rest ?g' ?w'] =>
      specialize (IH g' w' (rng_ok_after _ g Hg));
      destruct (pulseSweep px py pw sup rest g' w') as [[r g2] w2] end.
    exact IH.
  - specialize (IH g w Hg).
    destruct (pulseSweep px py pw sup rest g w) as [[r g2] w2]. exact IH.
Qed.

Lemma pulseSweep_particles_ok px py pw sup es g w :
  Forall particle_ok (particles w) ->
  Forall particle_ok (particles (snd (pulseSweep px py pw sup es g w))).
Proof.
  revert g w; induction es as [|e rest IH]; intros g w Hw; [exact Hw|].
  cbn [pulseSweep]. destruct (pulseHits px py pw sup e); cbv zeta.
  - match goal with |- context [pulseSweep _ _ _ _ rest ?g' ?w'] =>
      specialize (IH g' w');
      destruct (pulseSweep px py pw sup rest g' w') as [[r g2] w2] end.
    apply IH. rewrite pulseKill_particles.
    apply Forall_app; split; [exact Hw|apply killBurst_ok].
  - specialize (IH g w Hw).
    destruct (pulseSweep px py pw sup rest g w) as [[r g2] w2]. exact IH.
Qed.

Lemma executeJump_effects_ok mx my g w :
  rng_ok g ->
  Forall particle_ok (particles w) -> Forall pulse_ok (pulses w) ->
  Forall particle_ok (particles (executeJump mx my g w))
  /\ Forall pulse_ok (pulses (executeJump mx my g w)).
Proof.
  intros Hg Hp Hs.
  destruct (Rlt_dec (pl_fuel (player w)) (fuelConsumption config))
    as [Hlt|Hge].
  - destruct (executeJump_reject mx my g w Hlt) as (_&_&Es&Ep&_).
    rewrite Es, Ep. now split.
  - assert (Hfuel : fuelConsumption config <= pl_fuel (player w)) by lra.
    destruct (executeJump_accepted mx my g w Hfuel)
      as (w1 & sweep & Hsw & _ & Hs1 & Hp1 & _ & _ & _ & _ & _ & _ & _
          & _ & _ & Hs' & _ & _ & _ & _ & _ & _ & _ & Hp').
    rewrite Hp', Hs'. subst sweep.
    split.
    + apply Forall_app; split.
      * apply pulseSweep_particles_ok. now rewrite Hp1.
      * apply jumpBurst_ok, pulseSweep_rng, Hg.
    + match goal with |- context [pulseSweep ?a ?b ?c ?d ?es g w1] =>
        destruct (pulseSweep_frame a b c d es g w1) as (_&_&_&_&_&Hq&_) end.
      rewrite Hq, Hs1. apply Forall_app; split; [exact Hs|].
      constructor; [|constructor].
      unfold pulse_ok; cbn; destruct (inDeadZone (player w)); lra.
Qed.

Lemma moveParticle_ok L l :
  Forall (fun p => pa_life p <= L /\ pa_life p <= pa_maxLife p
                   /\ pa_maxLife p <= 40) l ->
  Forall (fun p => 0 < pa_life p <= L - 1 /\ pa_life p <= pa_maxLife p
                   /\ pa_maxLife p <= 40)
    (filter (fun p => Rltb 0 (pa_life p)) (map moveParticle l)).
Proof.
  intros Hl. apply Forall_forall; intros p Hin.
  apply filter_In in Hin; destruct Hin as (Hin & Hpos).
  apply Rltb_true in Hpos.
  apply in_map_iff in Hin; destruct Hin as (q & <- & Hq).
  pose proof (proj1 (Forall_forall _ _) Hl q Hq) as H; cbv beta in H.
  cbn in *; unfold dt in *; lra.
Qed.

Lemma agePulse_ok L l :
  Forall (fun s => pu_life s <= L /\ pu_life s <= pu_maxLife s
                   /\ pu_maxLife s <= 15) l ->
  Forall (fun s => 0 < pu_life s <= L - 1 /\ pu_life s <= pu_maxLife s
                   /\ pu_maxLife s <= 15)
    (filter (fun s => Rltb 0 (pu_life s)) (map agePulse l)).
Proof.
  intros Hl. apply Forall_forall; intros p Hin.
  apply filter_In in Hin; destruct Hin as (Hin & Hpos).
  apply Rltb_true in Hpos.
  apply in_map_iff in Hin; destruct Hin as (q & <- & Hq).
  pose proof (proj1 (Forall_forall _ _) Hl q Hq) as H; cbv beta in H.
  cbn in *; unfold dt in *; lra.
Qed.

Lemma step_frame_effects g w :
  particles (step (Frame g) w) = particles (update g w)
  /\ pulses (step (Frame g) w) = pulses (update g w)
  /\ gameState (step (Frame g) w) = gameState (update g w).
Proof.
  unfold step.
  destruct (syncHighScore_same (update g w)) as (Hg&_&_&_&_&_&Hp&Hs&_).
  now rewrite Hp, Hs, Hg.
Qed.

Lemma frames_fade gs :
  forall w L M,
    playing_before (map Frame gs) w ->
    Forall (fun p => pa_life p <= L /\ pa_life p <= pa_maxLife p
                     /\ pa_maxLife p <= 40) (particles w) ->
    Forall (fun s => pu_life s <= M /\ pu_life s <= pu_maxLife s
                     /\ pu_maxLife s <= 15) (pulses w) ->
    Forall (fun p => pa_life p <= L - INR (length gs))
      (particles (run (map Frame gs) w))
    /\ Forall (fun s => pu_life s <= M - INR (length gs))
         (pulses (run (map Frame gs) w))
    /\ (gs <> [] ->
        Forall (fun p => 0 < pa_life p) (particles (run (map Frame gs) w))
        /\ Forall (fun s => 0 < pu_life s) (pulses (run (map Frame gs) w))).
Proof.
  induction gs as [|g gs IH]; intros w L M Hpl Hp Hs.
  - cbn. rewrite !Rminus_0_r. split; [|split; [|congruence]].
    + eapply Forall_impl; [|exact Hp]; cbv beta; tauto.
    + eapply Forall_impl; [|exact Hs]; cbv beta; tauto.
  - cbn [map] in *. rewrite run_cons.
    destruct Hpl as (HP & Hrest).
    destruct (step_frame_effects g w) as (Ep & Es & _).
    destruct (update_effects g w HP) as (Up & Us).
    pose proof (moveParticle_ok L _ Hp) as Hp1.
    pose proof (agePulse_ok M _ Hs) as Hs1.
    rewrite <- Up, <- Ep in Hp1. rewrite <- Us, <- Es in Hs1.
    destruct (IH (step (Frame g) w) (L - 1) (M - 1) Hrest) as (I1 & I2 & I3).
    + eapply Forall_impl; [|exact Hp1]; cbv beta; intros; lra.
    + eapply Forall_impl; [|exact Hs1]; cbv beta; intros; lra.
    + change (length (g :: gs)) with (S (length gs)). rewrite S_INR.
      split; [|split].
      * eapply Forall_impl; [|exact I1]; cbv beta; intros; lra.
      * eapply Forall_impl; [|exact I2]; cbv beta; intros; lra.
      * intros _. destruct gs as [|g' gs'].
        -- cbn [map run fold_left]. split.
           ++ eapply Forall_impl; [|exact Hp1]; cbv beta; intros; lra.
           ++ eapply Forall_impl; [|exact Hs1]; cbv beta; intros; lra.
        -- apply I3; discriminate.
Qed.

Lemma effects_ok_update g w :
  Forall particle_ok (particles w) -> Forall pulse_ok (pulses w) ->
  Forall particle_ok (particles (update g w))
  /\ Forall pulse_ok (pulses (update g w)).
Proof.
  intros Hp Hs.
  destruct (gameState w) eqn:HP.
  1,3: rewrite update_idle by congruence; now split.
  destruct (update_effects g w HP) as (Up & Us). rewrite Up, Us.
  split.
  - assert (H : Forall (fun p => pa_life p <= 40
                           /\ pa_life p <= pa_maxLife p
                           /\ pa_maxLife p <= 40) (particles w))
      by (eapply Forall_impl; [|exact Hp]; unfold particle_ok;
          intros; lra).
    eapply Forall_impl; [|exact (moveParticle_ok 40 _ H)].
    unfold particle_ok; cbv beta; intros; lra.
  - assert (H : Forall (fun s => pu_life s <= 15
                           /\ pu_life s <= pu_maxLife s
                           /\ pu_maxLife s <= 15) (pulses w))
      by (eapply Forall_impl; [|exact Hs]; unfold pulse_ok;
          intros; lra).
    eapply Forall_impl; [|exact (agePulse_ok 15 _ H)].
    unfold pulse_ok; cbv beta; intros; lra.
Qed.

Lemma reachable_effects w :
  reachable w ->
  Forall particle_ok (particles w) /\ Forall pulse_ok (pulses w).
Proof.
  revert w; apply reachable_invariant.
  - cbn; split; constructor.
  - intros w H. destruct (syncHighScore_same w) as (_&_&_&_&_&_&Hp&Hs&_).
    now rewrite Hp, Hs.
  - intros g w _ (Hp & Hs). now apply effects_ok_update.
  - intros mx my g w Hg _ (Hp & Hs). now apply executeJump_effects_ok.
  - intros w _. destruct (resetGame_fields w) as (_&_&_&_&_&_&Hp&Hs&_).
    rewrite Hp, Hs; split; constructor.
Qed.

(** X7.  Particles and pulses are short-lived.  In every reachable world
    each particle has a positive life no larger than its initial life, which
    is 40 at most, and each pulse likewise, with 15 at most; a frame of a
    playing world takes one unit of life from each and drops those with none
    left.  So 40 frames of play in a row, with no jump in between, leave no
    particle, and 15 leave no pulse. *)
Theorem effects_fade :
  (forall w, reachable w ->
             Forall particle_ok (particles w) /\ Forall pulse_ok (pulses w))
  /\ (forall g w,
        gameState w = PLAYING ->
        particles (update g w)
        = filter (fun p => Rltb 0 (pa_life p)) (map moveParticle (particles w))
        /\ pulses (update g w)
           = filter (fun s => Rltb 0 (pu_life s)) (map agePulse (pulses w)))
  /\ (forall gs w,
        reachable w -> playing_before (map Frame gs) w ->
        ((40 <= length gs)%nat -> particles (run (map Frame gs) w) = [])
        /\ ((15 <= length gs)%nat -> pulses (run (map Frame gs) w) = [])).
Proof.
  pose proof reachable_effects as Hinv.
  split; [exact Hinv|]. split; [exact update_effects|].
  intros gs w Hw Hpl. destruct (Hinv w Hw) as (Hp & Hs).
  split; intros Hlen.
  - destruct (frames_fade gs w 40 15 Hpl) as (I1 & _ & I3).
    + eapply Forall_impl; [|exact Hp]; unfold particle_ok; intros; lra.
    + eapply Forall_impl; [|exact Hs]; unfold pulse_ok; intros; lra.
    + destruct (particles (run (map Frame gs) w)) as [|p l]; [reflexivity|].
      exfalso. assert (Hne : gs <> []) by (destruct gs; cbn in *; [lia|discriminate]).
      destruct (I3 Hne) as (J1 & _).
      inversion I1 as [|? ? A _]; inversion J1 as [|? ? B _]; subst.
      apply le_INR in Hlen. replace (INR 40) with 40 in Hlen by (cbn; lra).
      lra.
  - destruct (frames_fade gs w 40 15 Hpl) as (_ & I2 & I3).
    + eapply Forall_impl; [|exact Hp]; unfold particle_ok; intros; lra.
    + eapply Forall_impl; [|exact Hs]; unfold pulse_ok; intros; lra.
    + destruct (pulses (run (map Frame gs) w)) as [|p l]; [reflexivity|].
      exfalso. assert (Hne : gs <> []) by (destruct gs; cbn in *; [lia|discriminate]).
      destruct (I3 Hne) as (_ & J2).
      inversion I2 as [|? ? A _]; inversion J2 as [|? ? B _]; subst.
      apply le_INR in Hlen. replace (INR 15) with 15 in Hlen by (cbn; lra).
      lra.
Qed.

(** ** Shockwaves *)

Lemma growShockwave_ok cx cy sw :
  shockwave_ok sw -> 0 < sw_life (growShockwave cx cy sw) ->
  shockwave_ok (growShockwave cx cy sw).
Proof.
  unfold shockwave_ok; cbn; unfold dt.
  intros ((Hl1 & Hl2) & (Hr1 & Hr2) & Hm) Hpos.
  set (life := sw_life sw - 1.0) in *.
  assert (Hlife : life = sw_life sw - 1) by (subst life; lra).
  set (progress := 1 - life / sw_maxLife sw).
  assert (Hmax : 0 < sw_maxLife sw) by lra.
  assert (Hq : 0 < life / sw_maxLife sw < 1).
  { split.
    - apply Rdiv_lt_0_compat; lra.
    - apply Rmult_lt_reg_r with (sw_maxLife sw); [exact Hmax|].
      unfold Rdiv; rewrite Rmult_assoc, Rinv_l by lra. lra. }
  assert (Hp : 0 <= progress * PI <= PI).
  { pose proof PI_RGT_0. subst progress; split; nra. }
  pose proof (sin_ge_0 _ (proj1 Hp) (proj2 Hp)) as Hs0.
  pose proof (SIN_bound (progress * PI)) as (_ & Hs1).
  repeat split; try lra; nra.
Qed.

Lemma chained_ok cx cy sw :
  0 < burningDuration config -> 0 <= burningRadius config ->
  chained cx cy sw -> shockwave_ok sw.
Proof.
  unfold chained, shockwave_ok.
  intros Hd Hr (_&_&E1&E2&E3&E4). rewrite E1, E2, E3, E4. lra.
Qed.

Lemma shockwave_ok_update g w :
  0 < burningDuration config -> 0 <= burningRadius config ->
  Forall shockwave_ok (shockwaves w) ->
  Forall shockwave_ok (shockwaves (update g w)).
Proof.
  intros Hd Hr Hw.
  destruct (gameState w) eqn:HP.
  1,3: rewrite update_idle by congruence; exact Hw.
  destruct (update_shockwaves_view g w HP) as (news & Es & Hn).
  rewrite Es. apply Forall_forall; intros sw Hin.
  apply filter_In in Hin; destruct Hin as (Hin & Hpos).
  apply Rltb_true in Hpos.
  apply in_app_iff in Hin; destruct Hin as [Hin|Hin].
  - apply in_map_iff in Hin; destruct Hin as (sw0 & <- & Hin).
    apply growShockwave_ok; [|exact Hpos].
    exact (proj1 (Forall_forall _ _) Hw sw0 Hin).
  - eapply chained_ok; eauto.
    exact (proj1 (Forall_forall _ _) Hn sw Hin).
Qed.

Lemma shockwave_ok_executeJump mx my g w :
  0 < burningDuration config -> 0 <= burningRadius config ->
  Forall shockwave_ok (shockwaves w) ->
  Forall shockwave_ok (shockwaves (executeJump mx my g w)).
Proof.
  intros Hd Hr Hw.
  destruct (Rlt_dec (pl_fuel (player w)) (fuelConsumption config))
    as [Hlt|Hge].
  - destruct (executeJump_reject mx my g w Hlt) as (_&_&_&_&_&Es&_).
    now rewrite Es.
  - assert (Hfuel : fuelConsumption config <= pl_fuel (player w)) by lra.
    destruct (executeJump_view mx my g w Hfuel)
      as (_&_&_&_&_&_&_&_&_&_&_&_&_&_&ids&Es&_).
    rewrite Es. apply Forall_app; split; [exact Hw|].
    apply Forall_map, Forall_forall; intros id _.
    unfold shockwave_ok, pushedShockwave; cbn. lra.
Qed.

Lemma reachable_shockwaves_ok w :
  0 < burningDuration config -> 0 <= burningRadius config ->
  reachable w -> Forall shockwave_ok (shockwaves w).
Proof.
  intros Hd Hr; revert w; apply reachable_invariant.
  - constructor.
  - intros w H.
    destruct (syncHighScore_same w) as (_&_&_&_&_&_&_&_&Hs&_).
    now rewrite Hs.
  - intros g w _ H. now apply shockwave_ok_update.
  - intros mx my g w _ _ H. now apply shockwave_ok_executeJump.
  - intros w _. destruct (resetGame_fields w) as (_&_&_&_&_&_&_&_&Hs&_).
    rewrite Hs; constructor.
Qed.

(** X8.  With a positive [burningDuration] and a non-negative
    [burningRadius], every shockwave of a reachable world has a positive
    life within its initial life, and a radius between 0 and its maximal
    radius, which is [burningRadius] at most; frames and jumps keep the
    shockwaves of any world in that shape. *)
Theorem shockwave_shape :
  0 < burningDuration config -> 0 <= burningRadius config ->
  (forall w, reachable w -> Forall shockwave_ok (shockwaves w))
  /\ (forall g w,
        Forall shockwave_ok (shockwaves w) ->
        Forall shockwave_ok (shockwaves (update g w)))
  /\ (forall mx my g w,
        Forall shockwave_ok (shockwaves w) ->
        Forall shockwave_ok (shockwaves (executeJump mx my g w))).
Proof.
  intros Hd Hr. split; [|split].
  - intros w Hw; now apply reachable_shockwaves_ok.
  - intros; now apply shockwave_ok_update.
  - intros; now apply shockwave_ok_executeJump.
Qed.

(** ** The envelope of the enemies *)

Lemma frameRng_ok g w : rng_ok g -> rng_ok (frameRng g w).
Proof.
  intros Hg; unfold frameRng; destruct (Rlt_dec _ _);
    auto using rng_ok_after.
Qed.

Lemma finalSpeed_bounds s :
  0 <= difficultyScale config -> 0 <= s -> 1.5 <= finalSpeed s <= 8.
Proof.
  intros Hd Hs. unfold finalSpeed, Rmin.
  assert (0 <= s * 0.05 * difficultyScale config) by nra.
  destruct (Rle_dec _ _); lra.
Qed.

Lemma newEnemy_ok cx g id s :
  0 <= difficultyScale config -> 40 <= GAME_WIDTH K -> 0 <= s -> rng_ok g ->
  let e := newEnemy cx g id s in
  10 <= en_radius e <= 22 /\ 1.5 <= en_speed e <= 9
  /\ 20 <= en_x e <= GAME_WIDTH K - 20 /\ en_y e = -30
  /\ en_isDead e = false /\ en_id e = id.
Proof.
  intros Hd HW Hs Hg; cbv zeta; unfold newEnemy; cbn.
  pose proof (Hg 0%nat); pose proof (Hg 1%nat); pose proof (Hg 2%nat).
  pose proof (finalSpeed_bounds s Hd Hs).
  destruct (spawnX_spec cx (g 0%nat)) as (_ & Hx); cbv zeta in Hx.
  specialize (Hx HW ltac:(assumption)).
  repeat split; lra.
Qed.

Lemma keepEnemy_spec e :
  keepEnemy e = true <-> en_isDead e = false /\ en_y e < GAME_HEIGHT K + 50.
Proof.
  unfold keepEnemy. now rewrite andb_true_iff, negb_true_iff, Rltb_true.
Qed.

Lemma enemy_ok_update g w :
  0 <= difficultyScale config -> 40 <= GAME_WIDTH K -> rng_ok g ->
  gameState w = PLAYING -> 0 <= elapsedTime w ->
  Forall enemy_ok (enemies w) ->
  Forall (fun e => enemy_ok e /\ en_isDead e = false) (enemies (update g w)).
Proof.
  intros Hd HW Hg HP Ht Hw.
  destruct (update_view g w HP) as (_&_&_&_&He&_). rewrite He.
  apply Forall_forall; intros e' Hin.
  apply filter_In in Hin; destruct Hin as (Hin & Hk).
  apply keepEnemy_spec in Hk; destruct Hk as (Halive & Hy).
  split; [|exact Halive].
  apply in_map_iff in Hin; destruct Hin as (e & <- & Hin).
  cbn [fallen set_en_y en_y] in Hy.
  assert (He0 : 10 <= en_radius e <= 22 /\ 1.5 <= en_speed e <= 9
                /\ 20 <= en_x e <= GAME_WIDTH K - 20 /\ -30 <= en_y e).
  { unfold frameEnemies in Hin; cbv zeta in Hin.
    assert (Hold : In e (frameBurned w) ->
                   10 <= en_radius e <= 22 /\ 1.5 <= en_speed e <= 9
                   /\ 20 <= en_x e <= GAME_WIDTH K - 20 /\ -30 <= en_y e).
    { intros Hb. unfold frameBurned in Hb.
      apply in_map_iff in Hb; destruct Hb as (e0 & <- & Hin0).
      pose proof (proj1 (Forall_forall _ _) Hw e0 Hin0) as H0.
      unfold enemy_ok in H0. unfold markHit; destruct (burnedBy _ _ _ _);
        cbn; tauto. }
    destruct (spawns _ _); [|now apply Hold].
    apply in_app_iff in Hin; destruct Hin as [Hin|[<-|[]]];
      [now apply Hold|].
    match goal with |- context [newEnemy ?cx ?g' ?id ?s] =>
      destruct (newEnemy_ok cx g' id s) as (N1&N2&N3&N4&_) end;
      try assumption.
    - unfold dt; apply Rmult_le_pos; lra.
    - apply rng_ok_after, frameRng_ok, Hg.
    - rewrite N4. repeat split; lra. }
  destruct He0 as ((?&?)&(?&?)&(?&?)&?).
  unfold dt in Hy. unfold enemy_ok, fallen, dt; cbn.
  repeat split; lra.
Qed.

(** X9.  With a non-negative [difficultyScale] and a play field 40 or more
    wide, every enemy of a reachable world has a radius in [[10, 22]], a
    falling speed in [[1.5, 9]], an abscissa in [[20, GAME_WIDTH - 20]] that
    never changes, and an ordinate in [[-30, GAME_HEIGHT + 50)]; after a
    frame of a reachable playing world none of the enemies left is flagged
    dead, and each of those kept from before has fallen by its speed. *)
Theorem enemy_envelope :
  0 <= difficultyScale config -> 40 <= GAME_WIDTH K ->
  (forall w, reachable w -> Forall enemy_ok (enemies w))
  /\ (forall g w,
        reachable w -> rng_ok g -> gameState w = PLAYING ->
        Forall (fun e => enemy_ok e /\ en_isDead e = false)
          (enemies (update g w))
        /\ exists kept born,
             enemies (update g w) = map fallen kept ++ map fallen born
             /\ (forall e, In e kept ->
                           exists e0, In e0 (enemies w)
                                      /\ en_id e = en_id e0
                                      /\ en_x e = en_x e0
                                      /\ en_y e = en_y e0
                                      /\ en_speed e = en_speed e0
                                      /\ en_radius e = en_radius e0)
             /\ (length born <= 1)%nat
             /\ Forall (fun e => en_y e = -30
                                 /\ en_id e = enemyIdCounter w) born).
Proof.
  intros Hd HW.
  assert (Hinv : forall w, reachable w ->
                   0 <= elapsedTime w /\ Forall enemy_ok (enemies w)).
  { apply reachable_invariant.
    - cbn; split; [lra|constructor].
    - intros w H.
      destruct (syncHighScore_same w) as (_&_&Ht&_&_&He&_).
      now rewrite Ht, He.
    - intros g w Hg (Ht & Hw).
      destruct (gameState w) eqn:HP.
      1,3: rewrite update_idle by congruence; cbn; unfold dt;
        split; [lra|exact Hw].
      destruct (update_view g w HP) as (_&Et&_). rewrite Et.
      split; [unfold dt; lra|].
      eapply Forall_impl; [|exact (enemy_ok_update g w Hd HW Hg HP Ht Hw)].
      cbv beta; tauto.
    - intros mx my g w _ _ (Ht & Hw).
      destruct (executeJump_frame mx my g w) as (_&_&Et&_).
      rewrite Et; split; [exact Ht|].
      apply executeJump_enemies_Forall; [|exact Hw].
      intros e; unfold enemy_ok; cbn; tauto.
    - intros w _. destruct (resetGame_fields w) as (_&_&Et&_&_&He&_).
      rewrite Et, He; split; [lra|constructor]. }
  split; [intros w Hw; apply Hinv, Hw|].
  intros g w Hw Hg HP. destruct (Hinv w Hw) as (Ht & Hok).
  split; [now apply enemy_ok_update|].
  destruct (update_view g w HP) as (_&_&_&_&He&_). rewrite He.
  unfold frameEnemies; cbv zeta.
  set (born := if spawns (frameRng g w) ((elapsedTime w + dt) / 60)
               then [newEnemy (centerX (player w)) (after 1 (frameRng g w))
                       (enemyIdCounter w) ((elapsedTime w + dt) / 60)]
               else []).
  exists (filter (fun e => keepEnemy (fallen e)) (frameBurned w)),
         (filter (fun e => keepEnemy (fallen e)) born).
  split; [|split; [|split]].
  - assert (Hfm : forall l, filter keepEnemy (map fallen l)
                            = map fallen (filter (fun e => keepEnemy (fallen e)) l)).
    { induction l as [|e l IH]; [reflexivity|]. cbn [map filter].
      destruct (keepEnemy (fallen e)); cbn [map]; now rewrite IH. }
    subst born. destruct (spawns _ _).
    + now rewrite map_app, filter_app, !Hfm.
    + rewrite Hfm. cbn [filter map]. now rewrite app_nil_r.
  - intros e Hin. apply filter_In in Hin; destruct Hin as (Hin & _).
    unfold frameBurned in Hin.
    apply in_map_iff in Hin; destruct Hin as (e0 & <- & Hin0).
    exists e0; split; [exact Hin0|].
    unfold markHit; destruct (burnedBy _ _ _ _); cbn; repeat split.
  - subst born; destruct (spawns _ _); cbn [filter];
      [destruct (keepEnemy _)|]; cbn; lia.
  - subst born; destruct (spawns _ _); cbn [filter];
      [destruct (keepEnemy _)|]; repeat constructor.
Qed.

(** ** The fuel budget *)

Lemma jumps_cons t ts w :
  jumps (t :: ts) w
  = jumps ts (executeJump (fst (fst t)) (snd (fst t)) (snd t) w).
Proof. reflexivity. Qed.

(** X10.  Jumps in a row in a world without enemies, with no frame in
    between: as long as the fuel covers them, [n] jumps cost [n] times
    [fuelConsumption] and all are accepted; once the fuel left is below
    [fuelConsumption], a further jump leaves the player as it is. *)
Theorem jumps_until_empty ts :
  forall w,
    enemies w = [] -> 0 <= fuelConsumption config ->
    INR (length ts) * fuelConsumption config <= pl_fuel (player w) ->
    pl_fuel (player (jumps ts w))
    = pl_fuel (player w) - INR (length ts) * fuelConsumption config
    /\ enemies (jumps ts w) = []
    /\ (forall mx my g,
          pl_fuel (player (jumps ts w)) < fuelConsumption config ->
          player (executeJump mx my g (jumps ts w)) = player (jumps ts w)
          /\ pulses (executeJump mx my g (jumps ts w)) = pulses (jumps ts w)).
Proof.
  induction ts as [|[[mx my] g] ts IH]; intros w He Hc Hf.
  - cbn [jumps fold_left length INR]. split; [lra|]. split; [exact He|].
    intros mx my g Hlt.
    destruct (executeJump_reject mx my g w Hlt) as (_&Hp&Hs&_).
    now split.
  - rewrite jumps_cons; cbn [fst snd].
    change (length ((mx, my, g) :: ts)) with (S (length ts)) in *.
    rewrite S_INR in *.
    pose proof (pos_INR (length ts)) as Hn.
    assert (Hfuel : fuelConsumption config <= pl_fuel (player w)) by nra.
    destruct (executeJump_view mx my g w Hfuel)
      as (_&_&_&_&_&_&_&_&_&_&Ef&_&Ee&_).
    rewrite He in Ef, Ee. cbn in Ef, Ee.
    destruct (IH (executeJump mx my g w) Ee Hc) as (I1 & I2 & I3).
    + rewrite Ef. lra.
    + split; [rewrite I1, Ef; lra|]. split; [exact I2|exact I3].
Qed.

Lemma step_frame_player g w :
  gameState w = PLAYING ->
  player (step (Frame g) w)
  = fst (movePlayer (player w) (sh_intensity (shake w))).
Proof.
  intros HP. unfold step.
  destruct (syncHighScore_same (update g w)) as (_&_&_&_&Hp&_).
  rewrite Hp. now destruct (update_playing g w HP) as (_&_&_&_&_&H).
Qed.

(** ** The spawn director *)

Lemma js_rem_floor a m :
  0 < m -> 0 <= a -> js_rem a m = a - m * IZR (Zfloor (a / m)).
Proof.
  intros Hm Ha; unfold js_rem, Ztrunc.
  destruct (Rle_dec 0 (a / m)) as [_|Hn]; [reflexivity|].
  exfalso; apply Hn.
  apply Rmult_le_pos; [exact Ha|left; now apply Rinv_0_lt_compat].
Qed.

Lemma js_rem_range a m : 0 < m -> 0 <= a -> 0 <= js_rem a m < m.
Proof.
  intros Hm Ha. rewrite js_rem_floor by assumption.
  pose proof (Zfloor_bound (a / m)) as (H1 & H2).
  assert (Ham : a = a / m * m) by (field; lra).
  split; nra.
Qed.



Lemma curveValue_nil t : curveValue [] t = None.
Proof.
  unfold curveValue, index; cbv zeta.
  destruct (Req_dec_T _ _); [|reflexivity].
  destruct (0 <=? _)%Z; [|reflexivity].
  now destruct (Z.to_nat _).
Qed.

(** The lookup of the intensity curve stays inside the array. *)
Lemma curveValue_spec points t :
  points <> [] -> 0 <= t < 1 ->
  let n := (length points - 1)%nat in
  exists i lam a b,
    (i <= n)%nat
    /\ nth_error points i = Some a
    /\ nth_error points (Nat.min (S i) n) = Some b
    /\ 0 <= lam < 1
    /\ t * INR n = INR i + lam
    /\ curveValue points t = Some (a * (1 - lam) + b * lam).
Proof.
  intros Hne Ht; cbv zeta.
  assert (Hlen : (1 <= length points)%nat)
    by (destruct points; [congruence|cbn; lia]).
  set (n := (length points - 1)%nat).
  assert (Hn : INR (length points) - 1 = INR n).
  { subst n. rewrite minus_INR by exact Hlen. reflexivity. }
  unfold curveValue; cbv zeta. rewrite Hn.
  assert (Hndef : n = (length points - 1)%nat) by reflexivity.
  clearbody n.
  set (x := t * INR n).
  assert (Hx : 0 <= x /\ (x < INR n \/ (n = 0%nat /\ x = 0))).
  { pose proof (pos_INR n) as Hp. subst x. split; [nra|].
    destruct (Nat.eq_dec n 0) as [H0|H0];
      [right; split; [exact H0|rewrite H0; cbn; lra]|left].
    assert (0 < INR n) by (apply lt_0_INR; lia). nra. }
  destruct Hx as (Hx0 & Hx1).
  pose proof (Zfloor_bound x) as (Hz1 & Hz2).
  set (z := Zfloor x) in *.
  assert (Hz0 : (0 <= z)%Z) by (apply Zfloor_lub; cbn; exact Hx0).
  assert (Hzn : (z <= Z.of_nat n)%Z).
  { destruct Hx1 as [Hlt|(_ & H0)].
    - apply le_IZR. rewrite <- INR_IZR_INZ. lra.
    - subst z. rewrite H0. change 0 with (IZR 0). rewrite ZfloorZ. lia. }
  assert (Hzn' : (Z.to_nat z <= n)%nat) by lia.
  assert (Hfl : floor x = IZR z) by reflexivity.
  rewrite Hfl.
  assert (Hnxt : Rmin (IZR z + 1) (INR n)
                 = IZR (Z.of_nat (Nat.min (S (Z.to_nat z)) n))).
  { rewrite <- INR_IZR_INZ.
    assert (Hzi : IZR z + 1 = INR (S (Z.to_nat z))).
    { rewrite S_INR, INR_IZR_INZ, Z2Nat.id by exact Hz0. reflexivity. }
    rewrite Hzi. unfold Rmin.
    destruct (Rle_dec (INR (S (Z.to_nat z))) (INR n)) as [Hle|Hgt].
    - apply INR_le in Hle. now rewrite Nat.min_l.
    - rewrite Nat.min_r; [reflexivity|].
      apply Nat.lt_le_incl, INR_lt. lra. }
  rewrite Hnxt, !index_IZR.
  replace (0 <=? z)%Z with true by (symmetry; now apply Z.leb_le).
  replace (0 <=? Z.of_nat _)%Z with true by (symmetry; apply Z.leb_le; lia).
  rewrite Nat2Z.id.
  assert (Hrem : js_rem x 1 = x - IZR z).
  { rewrite js_rem_floor by lra. unfold Rdiv; rewrite Rinv_1, Rmult_1_r.
    fold z. lra. }
  rewrite Hrem.
  destruct (nth_error points (Z.to_nat z)) as [a|] eqn:Ea;
    [|apply nth_error_None in Ea; lia].
  destruct (nth_error points (Nat.min (S (Z.to_nat z)) n)) as [b|] eqn:Eb;
    [|apply nth_error_None in Eb; lia].
  exists (Z.to_nat z), (x - IZR z), a, b.
  split; [exact Hzn'|]. split; [exact Ea|]. split; [exact Eb|].
  split; [lra|]. split; [|reflexivity].
  rewrite INR_IZR_INZ, Z2Nat.id by exact Hz0. lra.
Qed.

Lemma cycle_position s : 0 <= s -> 0 <= js_rem s 120 / 120 < 1.
Proof.
  intros Hs. destruct (js_rem_range s 120 ltac:(lra) Hs) as (H1 & H2).
  split; lra.
Qed.

Lemma finalSpawnRate_spec s :
  0 <= s -> spawnCurve config <> [] ->
  exists i lam a b,
    nth_error (spawnCurve config) i = Some a
    /\ nth_error (spawnCurve config)
         (Nat.min (S i) (length (spawnCurve config) - 1)) = Some b
    /\ 0 <= lam < 1
    /\ js_rem s 120 / 120 * INR (length (spawnCurve config) - 1)
       = INR i + lam
    /\ finalSpawnRate s
       = Some ((enemySpawnRate config
                + (a * (1 - lam) + b * lam) * 0.1 * difficultyScale config)
               * waveFactor s).
Proof.
  intros Hs Hne.
  destruct (curveValue_spec (spawnCurve config) (js_rem s 120 / 120) Hne
              (cycle_position s Hs)) as (i & lam & a & b & _ & Ha & Hb & Hl & Hx & Hcv).
  exists i, lam, a, b. repeat split; try assumption; try lra.
  unfold finalSpawnRate; cbv zeta. now rewrite Hcv.
Qed.

(** X12.  The lookup of the intensity curve never leaves the array: for a
    curve with at least one point and a position [t] in [[0, 1)], the curve
    value is the interpolation, with a weight in [[0, 1)], between the point
    of index [floor (t * n)] and its successor (the last point being its own
    successor), so the spawn rate is a number at any non-negative time.
    With an empty curve there is no rate, and no frame ever spawns. *)
Theorem spawn_curve_lookup :
  (forall points t,
      points <> [] -> 0 <= t < 1 ->
      let n := (length points - 1)%nat in
      exists i lam a b,
        (i <= n)%nat
        /\ nth_error points i = Some a
        /\ nth_error points (Nat.min (S i) n) = Some b
        /\ 0 <= lam < 1
        /\ t * INR n = INR i + lam
        /\ curveValue points t = Some (a * (1 - lam) + b * lam))
  /\ (forall s,
        0 <= s -> spawnCurve config <> [] ->
        exists r, finalSpawnRate s = Some r)
  /\ (spawnCurve config = [] ->
      forall g s w,
        finalSpawnRate s = None
        /\ spawns g s = false
        /\ (gameState w = PLAYING ->
            enemyIdCounter (update g w) = enemyIdCounter w
            /\ enemies (update g w)
               = filter keepEnemy (map fallen (frameBurned w)))).
Proof.
  split; [exact curveValue_spec|]. split.
  - intros s Hs Hne.
    destruct (finalSpawnRate_spec s Hs Hne) as (i & lam & a & b & _&_&_&_& H).
    eexists; exact H.
  - intros Hnil g s w.
    assert (Hr : forall s', finalSpawnRate s' = None).
    { intros s'. unfold finalSpawnRate; cbv zeta.
      now rewrite Hnil, curveValue_nil. }
    assert (Hsp : forall g' s', spawns g' s' = false)
      by (intros; unfold spawns; now rewrite Hr).
    split; [apply Hr|]. split; [apply Hsp|].
    intros HP. destruct (update_view g w HP) as (_&_&_&_&He&_&Hc).
    rewrite Hc, He. unfold frameEnemies; cbv zeta. rewrite !Hsp.
    now split.
Qed.

(** A draw at or above what the rate can be does not spawn. *)
Lemma spawns_above hi g s :
  spawnCurve config <> [] ->
  Forall (fun p => 0 <= p <= hi) (spawnCurve config) ->
  0 <= difficultyScale config -> 0 <= enemySpawnRate config -> 0 <= s ->
  1.6 * (enemySpawnRate config + hi * 0.1 * difficultyScale config)
  <= draw g ->
  spawns g s = false.
Proof.
  intros Hne Hpts Hd Hb Hs Hg.
  destruct (finalSpawnRate_spec s Hs Hne)
    as (i & lam & a & b & Ha & Hb' & Hl & _ & Hr).
  apply nth_error_In in Ha, Hb'.
  pose proof (proj1 (Forall_forall _ _) Hpts a Ha) as Ra.
  pose proof (proj1 (Forall_forall _ _) Hpts b Hb') as Rb.
  cbv beta in Ra, Rb.
  set (cv := a * (1 - lam) + b * lam) in *.
  assert (Hcv : 0 <= cv <= hi) by (subst cv; split; nra).
  pose proof (waveFactor_bounds s) as Hw.
  set (d := difficultyScale config) in *.
  set (base := enemySpawnRate config) in *.
  assert (HA : 0 <= base + cv * 0.1 * d
               /\ base + cv * 0.1 * d <= base + hi * 0.1 * d)
    by (split; nra).
  assert (Hr2 : (base + cv * 0.1 * d) * waveFactor s
                <= 1.6 * (base + hi * 0.1 * d)) by nra.
  unfold spawns. rewrite Hr. apply Rltb_false. unfold dt. lra.
Qed.

(** A draw below what the rate is at least spawns. *)
Lemma spawns_below lo g s :
  spawnCurve config <> [] ->
  Forall (fun p => lo <= p) (spawnCurve config) ->
  0 <= difficultyScale config ->
  0 <= enemySpawnRate config + lo * 0.1 * difficultyScale config ->
  0 <= s ->
  draw g
  < 0.4 * (enemySpawnRate config + lo * 0.1 * difficultyScale config) ->
  spawns g s = true.
Proof.
  intros Hne Hpts Hd Hlo Hs Hg.
  destruct (finalSpawnRate_spec s Hs Hne)
    as (i & lam & a & b & Ha & Hb & Hl & _ & Hr).
  apply nth_error_In in Ha, Hb.
  pose proof (proj1 (Forall_forall _ _) Hpts a Ha) as Ra.
  pose proof (proj1 (Forall_forall _ _) Hpts b Hb) as Rb.
  cbv beta in Ra, Rb.
  set (cv := a * (1 - lam) + b * lam) in *.
  assert (Hcv : lo <= cv) by (subst cv; nra).
  pose proof (waveFactor_bounds s) as Hw.
  set (d := difficultyScale config) in *.
  set (base := enemySpawnRate config) in *.
  assert (HA : base + lo * 0.1 * d <= base + cv * 0.1 * d) by nra.
  assert (Hr1 : 0.4 * (base + lo * 0.1 * d)
                <= (base + cv * 0.1 * d) * waveFactor s) by nra.
  unfold spawns. rewrite Hr. apply Rltb_true. unfold dt. lra.
Qed.

(** X13.  With a non-empty curve whose points lie between [lo] and [hi], a
    non-negative [difficultyScale] and a non-negative rate at [lo], the
    spawn rate at any non-negative time lies between 0.4 times the rate at
    [lo] and 1.6 times the rate at [hi]; a frame whose draw is not below
    that upper bound does not spawn. *)
Theorem spawn_rate_bounds lo hi s :
  spawnCurve config <> [] ->
  Forall (fun p => lo <= p <= hi) (spawnCurve config) ->
  0 <= difficultyScale config ->
  0 <= enemySpawnRate config + lo * 0.1 * difficultyScale config ->
  0 <= s ->
  exists r,
    finalSpawnRate s = Some r
    /\ 0.4 * (enemySpawnRate config + lo * 0.1 * difficultyScale config) <= r
    /\ r <= 1.6 * (enemySpawnRate config + hi * 0.1 * difficultyScale config)
    /\ (forall g,
          1.6 * (enemySpawnRate config + hi * 0.1 * difficultyScale config)
          <= draw g ->
          spawns g s = false).
Proof.
  intros Hne Hpts Hd Hlo Hs.
  destruct (finalSpawnRate_spec s Hs Hne)
    as (i & lam & a & b & Ha & Hb & Hl & _ & Hr).
  apply nth_error_In in Ha, Hb.
  pose proof (proj1 (Forall_forall _ _) Hpts a Ha) as Ra.
  pose proof (proj1 (Forall_forall _ _) Hpts b Hb) as Rb.
  cbv beta in Ra, Rb.
  set (cv := a * (1 - lam) + b * lam) in *.
  assert (Hcv : lo <= cv <= hi) by (subst cv; split; nra).
  pose proof (waveFactor_bounds s) as Hw.
  set (d := difficultyScale config) in *.
  set (base := enemySpawnRate config) in *.
  assert (HA : base + lo * 0.1 * d <= base + cv * 0.1 * d
               /\ base + cv * 0.1 * d <= base + hi * 0.1 * d)
    by (split; nra).
  assert (Hr1 : 0.4 * (base + lo * 0.1 * d)
                <= (base + cv * 0.1 * d) * waveFactor s) by nra.
  assert (Hr2 : (base + cv * 0.1 * d) * waveFactor s
                <= 1.6 * (base + hi * 0.1 * d)) by nra.
  eexists; split; [exact Hr|]. split; [exact Hr1|]. split; [exact Hr2|].
  intros g Hg. unfold spawns. rewrite Hr. apply Rltb_false.
  unfold dt. lra.
Qed.


(** ** The pointer and the page *)

Lemma inside_spec x y rect :
  App.inside x y rect = true <->
  dom_left rect <= x <= dom_right rect /\ dom_top rect <= y <= dom_bottom rect.
Proof.
  unfold App.inside. rewrite !andb_true_iff, !Rleb_true. tauto.
Qed.

(** X16.  Whether a mouse press reaches the game is decided by the last
    movement of the mouse: after a move over the mounted game container,
    borders included, a press in the [START] or [GAMEOVER] state starts a
    game, and after a move elsewhere, or onto the sidebar, a press changes
    nothing, in any state; pressing and releasing the button or typing do
    not change that. *)
Theorem mouse_over_gate x y rect st evs i g w :
  isTouch i = false ->
  Forall (fun ev => match ev with
                    | App.mousedown | App.mouseup | App.keydown _ _ => True
                    | _ => False
                    end) evs ->
  let st' := fold_left (fun s ev => App.handle ev s) evs
               (App.handleMouseMove x y (Some rect) st) in
  isMouseOver i = App.isMouseOverGame st' ->
  (App.isMouseOverGame st' = true <->
   dom_left rect <= x <= dom_right rect
   /\ dom_top rect <= y <= dom_bottom rect)
  /\ (App.isMouseOverGame st' = true -> gameState w <> PLAYING ->
      handleGlobalInteraction i g w = resetGame w)
  /\ (App.isMouseOverGame st' = false -> handleGlobalInteraction i g w = w)
  /\ App.isMouseOverGame (App.sidebarMouseEnter st') = false.
Proof.
  intros Ht Hevs; cbv zeta.
  assert (Hkeep : forall s,
             App.isMouseOverGame
               (fold_left (fun s ev => App.handle ev s) evs s)
             = App.isMouseOverGame s).
  { induction Hevs as [|ev evs Hev _ IH]; intros s; [reflexivity|].
    cbn [fold_left]. rewrite IH.
    destruct ev; try contradiction; cbn; [reflexivity|reflexivity|].
    unfold App.handleKeyDown. destruct (ctrlKey && _); reflexivity. }
  rewrite Hkeep. cbn [App.handleMouseMove App.isMouseOverGame].
  intros Hover. split; [apply inside_spec|]. split; [|split].
  - intros Hin Hs. unfold handleGlobalInteraction.
    rewrite Hover, Hin, Ht. cbn. destruct (gameState w); congruence.
  - intros Hout. unfold handleGlobalInteraction.
    now rewrite Hover, Hout, Ht.
  - reflexivity.
Qed.

(** ** The audio *)

Lemma Sound_eqb_eq a b : Audio.Sound_eqb a b = true <-> a = b.
Proof. destruct a, b; cbn; split; congruence. Qed.


Lemma playSound_cases cfg t ts now st :
  (Audio.playSound cfg t ts now st = (st, None)
   /\ (audioEnabled cfg = false \/ sfxVolume cfg <= 0
       \/ exists last, Audio.lastSoundPlayed st t = Some last
                       /\ last <> 0%Z
                       /\ (ts - last < Audio.throttleTime t)%Z))
  \/ (exists st',
        Audio.playSound cfg t ts now st
        = (st', Some (Audio.voice (sfxVolume cfg) t now))
        /\ audioEnabled cfg = true /\ 0 < sfxVolume cfg
        /\ Audio.audioCtx st' = true
        /\ Audio.lastSoundPlayed st' t = Some ts
        /\ (forall t', t' <> t ->
                       Audio.lastSoundPlayed st' t'
                       = Audio.lastSoundPlayed st t')
        /\ (forall last, Audio.lastSoundPlayed st t = Some last ->
                         last <> 0%Z ->
                         (Audio.throttleTime t <= ts - last)%Z)).
Proof.
  unfold Audio.playSound.
  destruct (audioEnabled cfg) eqn:Ea; cbn [negb orb];
    [|left; split; [reflexivity|now left]].
  destruct (Rleb (sfxVolume cfg) 0) eqn:Ev;
    [left; split; [reflexivity|right; left; now apply Rleb_true]|].
  apply Rleb_false in Ev.
  unfold Audio.throttled.
  destruct (Audio.lastSoundPlayed st t) as [last|] eqn:El.
  - destruct (last =? 0)%Z eqn:E0; cbn [negb andb].
    + right; eexists; split; [reflexivity|]. cbn.
      replace (Audio.Sound_eqb t t) with true
        by (symmetry; now apply Sound_eqb_eq).
      repeat split; try assumption.
      * intros t' Hne. destruct (Audio.Sound_eqb t' t) eqn:E;
          [apply Sound_eqb_eq in E; contradiction|reflexivity].
      * intros l Hl Hnz. apply Z.eqb_eq in E0. congruence.
    + destruct (ts - last <? Audio.throttleTime t)%Z eqn:Et.
      * left; split; [reflexivity|]. right; right. exists last.
        apply Z.eqb_neq in E0. apply Z.ltb_lt in Et. now repeat split.
      * right; eexists; split; [reflexivity|]. cbn.
        replace (Audio.Sound_eqb t t) with true
          by (symmetry; now apply Sound_eqb_eq).
        repeat split; try assumption.
        -- intros t' Hne. destruct (Audio.Sound_eqb t' t) eqn:E;
             [apply Sound_eqb_eq in E; contradiction|reflexivity].
        -- intros l Hl _. apply Z.ltb_ge in Et. congruence.
  - right; eexists; split; [reflexivity|]. cbn.
    replace (Audio.Sound_eqb t t) with true
      by (symmetry; now apply Sound_eqb_eq).
    repeat split; try assumption.
    + intros t' Hne. destruct (Audio.Sound_eqb t' t) eqn:E;
        [apply Sound_eqb_eq in E; contradiction|reflexivity].
    + intros l Hl _. congruence.
Qed.




(** X18.  Every voice that [playSound] starts is one the audio context
    takes: it stops after it starts, every call on its frequency and on its
    gain is timed between the two, the target of every exponential ramp is
    positive, every frequency is positive, and the gain starts between 0 and
    twice [sfxVolume] and ends at a tenth of [sfxVolume] or less. *)
Theorem voice_scheduled cfg t ts now st st' v :
  Audio.playSound cfg t ts now st = (st', Some v) ->
  0 < sfxVolume cfg
  /\ Audio.start v = now /\ Audio.start v < Audio.stop v
  /\ Audio.stop v <= now + 0.4
  /\ Forall (Audio.scheduled v) (Audio.frequency v)
  /\ Forall (Audio.scheduled v) (Audio.gain v)
  /\ Forall (fun a => 0 < Audio.target a) (Audio.frequency v)
  /\ (exists g0 rest,
        Audio.gain v = Audio.setValueAtTime g0 now :: rest
        /\ 0 < g0 <= 2 * sfxVolume cfg)
  /\ 0 <= Audio.target (last (Audio.gain v) (Audio.setValueAtTime 0 now))
     <= 0.1 * sfxVolume cfg.
Proof.
  intros Hp.
  destruct (playSound_cases cfg t ts now st)
    as [(E & _)|(st1 & E & _ & Hv & _)]; rewrite E in Hp; [discriminate|].
  inversion Hp; subst. split; [exact Hv|].
  destruct t; cbn;
    (split; [reflexivity|]); (split; [lra|]); (split; [lra|]);
    (split; [repeat constructor; cbn; lra|]);
    (split; [repeat constructor; cbn; lra|]);
    (split; [repeat constructor; cbn; lra|]);
    (split; [eexists; eexists; split; [reflexivity|lra]|]).
  all: lra.
Qed.

(** *** The music *)

Lemma reachable_whole_clock w : reachable w -> whole_clock w.
Proof.
  revert w; apply reachable_invariant; unfold whole_clock.
  - exists 0%nat; reflexivity.
  - intros w (n & Hn). exists n.
    destruct (syncHighScore_same w) as (_&_&Ht&_). congruence.
  - intros g w _ (n & Hn). exists (S n). rewrite S_INR, <- Hn.
    destruct (gameState w) eqn:HP.
    1,3: rewrite update_idle by congruence; cbn; unfold dt; lra.
    destruct (update_view g w HP) as (_&Et&_). rewrite Et. unfold dt; lra.
  - intros mx my g w _ _ (n & Hn). exists n.
    destruct (executeJump_frame mx my g w) as (_&_&Et&_). congruence.
  - intros w _. exists 0%nat.
    now destruct (resetGame_fields w) as (_&_&Et&_).
Qed.

Lemma floor_div_nat n m :
  (0 < m)%nat -> floor (INR n / INR m) = INR (n / m).
Proof.
  intros Hm. unfold floor. rewrite (INR_IZR_INZ (n / m)). f_equal.
  apply Zfloor_eq. rewrite <- INR_IZR_INZ.
  assert (Hmr : 0 < INR m) by (apply lt_0_INR; exact Hm).
  pose proof (Nat.div_mod_eq n m) as Hdm.
  pose proof (Nat.mod_upper_bound n m ltac:(lia)) as Hlt.
  assert (Hn : INR n = INR m * INR (n / m) + INR (n mod m))
    by (rewrite <- mult_INR, <- plus_INR; f_equal; exact Hdm).
  assert (Hr : 0 <= INR (n mod m) < INR m)
    by (split; [apply pos_INR|apply lt_INR; exact Hlt]).
  split.
  - apply Rmult_le_reg_r with (INR m); [exact Hmr|].
    unfold Rdiv. rewrite Rmult_assoc, Rinv_l by lra. nra.
  - apply Rmult_lt_reg_r with (INR m); [exact Hmr|].
    unfold Rdiv. rewrite Rmult_assoc, Rinv_l by lra. nra.
Qed.

Lemma js_rem_nat n m :
  (0 < m)%nat -> js_rem (INR n) (INR m) = INR (n mod m).
Proof.
  intros Hm.
  assert (Hmr : 0 < INR m) by (apply lt_0_INR; exact Hm).
  rewrite js_rem_floor by (try exact Hmr; apply pos_INR).
  pose proof (floor_div_nat n m Hm) as Hf. unfold floor in Hf. rewrite Hf.
  pose proof (Nat.div_mod_eq n m) as Hdm.
  assert (Hn : INR n = INR m * INR (n / m) + INR (n mod m))
    by (rewrite <- mult_INR, <- plus_INR; f_equal; exact Hdm).
  lra.
Qed.

Lemma index_nat l n : index l (INR n) = nth_error l n.
Proof.
  rewrite INR_IZR_INZ, index_IZR.
  replace (0 <=? Z.of_nat n)%Z with true by (symmetry; apply Z.leb_le; lia).
  now rewrite Nat2Z.id.
Qed.

Lemma bgm_note_index n :
  index Audio.notes
    (js_rem (floor (INR n / 30)) (INR (length Audio.notes)))
  = nth_error Audio.notes ((n / 30) mod 4).
Proof.
  replace 30 with (INR 30) by (cbn; lra).
  rewrite floor_div_nat by lia.
  change (length Audio.notes) with 4%nat.
  rewrite js_rem_nat by lia. apply index_nat.
Qed.

(** X19.  The music never reads outside its four notes.  The clock of a
    reachable world counts whole frames, so a call of [playBgmNote] either
    does nothing (audio off, game not [PLAYING], no volume, or no audio
    context yet) or plays, as a square wave that fades over 0.2 s, the note
    of index [(n / 30) mod 4], [n] being the frame count: it never hands the
    oscillator a frequency that is not a number. *)
Theorem bgm_note_defined look now st w :
  reachable w ->
  exists n : nat,
    elapsedTime w = INR n
    /\ Audio.playBgmNote config look w now st <> Audio.throws
    /\ (audioEnabled config = true -> gameState w = PLAYING ->
        0 < bgmVolume look -> Audio.audioCtx st = true ->
        exists freq,
          nth_error Audio.notes ((n / 30) mod 4) = Some freq
          /\ Audio.playBgmNote config look w now st
             = Audio.plays
                 (Audio.mkVoice Audio.square
                    [Audio.setValueAtTime freq now]
                    [Audio.setValueAtTime (bgmVolume look) now;
                     Audio.linearRampToValueAtTime 0 (now + 0.2)]
                    now (now + 0.2)))
    /\ (gameState w <> PLAYING ->
        Audio.playBgmNote config look w now st = Audio.silent).
Proof.
  intros Hw. destruct (reachable_whole_clock w Hw) as (n & Hn).
  exists n. split; [exact Hn|].
  assert (Hlt : ((n / 30) mod 4 < length Audio.notes)%nat)
    by (change (length Audio.notes) with 4%nat;
        apply Nat.mod_upper_bound; lia).
  destruct (nth_error Audio.notes ((n / 30) mod 4)) as [freq|] eqn:Ef;
    [|apply nth_error_None in Ef; lia].
  unfold Audio.playBgmNote. rewrite Hn, bgm_note_index, Ef.
  split; [|split].
  - destruct (negb (audioEnabled config) || _ || _); [discriminate|].
    destruct (negb (Audio.audioCtx st)); discriminate.
  - intros Ha HP Hv Hc. rewrite Ha, HP, Hc. cbn [negb orb Audio.isPlaying].
    replace (Rleb (bgmVolume look) 0) with false
      by (symmetry; now apply Rleb_false).
    exists freq; split; reflexivity.
  - intros HP. destruct (gameState w); [| congruence |];
      cbn [Audio.isPlaying negb]; now rewrite orb_true_r.
Qed.

Lemma playSound_muted cfg t ts now st :
  Audio.muted cfg -> Audio.playSound cfg t ts now st = (st, None).
Proof.
  intros Hm. unfold Audio.playSound.
  replace (negb (audioEnabled cfg) || Rleb (sfxVolume cfg) 0) with true;
    [reflexivity|].
  symmetry. destruct Hm as [->|Hv]; [reflexivity|].
  apply orb_true_iff; right. now apply Rleb_true.
Qed.

Lemma playEach_mute calls st :
  Forall (fun c => Audio.muted (fst c)) calls ->
  Audio.playEach calls st = (st, []).
Proof.
  induction 1 as [|[cfg r] rest Hm _ IH]; [reflexivity|].
  cbn [Audio.playEach fst] in *.
  now rewrite (playSound_muted cfg _ _ _ st Hm), IH.
Qed.

(** X20.  The music needs a sound effect to have been played first, and
    nothing more.  The audio context is created by [playSound] only, behind
    the gate of the [config] that the calling closure holds.  As long as
    every call came from a closure whose [config] is muted (audio off, or
    [sfxVolume] at 0 or below), no cue has played, the context does not
    exist and [playBgmNote] is silent, whatever the volume of the music.
    One call from a closure that holds a [config] with the sound effects
    on, as the memoised [triggerShockwave] can after [sfxVolume] was set to
    0, plays its cue and creates the context; the muted calls that follow
    do not take it away, and [playBgmNote] then plays in a playing game
    with the audio on and a positive music volume, whatever [sfxVolume] is
    by then. *)
Theorem bgm_needs_sfx calls look w now :
  Forall (fun c => Audio.muted (fst c)) calls ->
  Audio.playEach calls Audio.initial = (Audio.initial, [])
  /\ Audio.playBgmNote config look w now
       (fst (Audio.playEach calls Audio.initial))
     = Audio.silent
  /\ (forall stale t ts now0 more,
        audioEnabled stale = true -> 0 < sfxVolume stale ->
        Forall (fun c => Audio.muted (fst c)) more ->
        let st :=
          fst (Audio.playEach
                 (calls ++ (stale, Audio.mkRequest t ts now0) :: more)
                 Audio.initial) in
        snd (Audio.playEach
               (calls ++ (stale, Audio.mkRequest t ts now0) :: more)
               Audio.initial) = [(t, ts)]
        /\ Audio.audioCtx st = true
        /\ (audioEnabled config = true -> gameState w = PLAYING ->
            0 < bgmVolume look -> whole_clock w ->
            exists v, Audio.playBgmNote config look w now st
                      = Audio.plays v)).
Proof.
  intros Hm.
  assert (E : Audio.playEach calls Audio.initial = (Audio.initial, []))
    by now apply playEach_mute.
  split; [exact E|]. split.
  { rewrite E. unfold Audio.playBgmNote;
      cbn [fst Audio.audioCtx Audio.initial negb].
    now destruct (negb (audioEnabled config) || _ || _). }
  intros stale t ts now0 more Ha Hv Hmore; cbv zeta.
  assert (Ep : Audio.playSound stale t ts now0 Audio.initial
               = (Audio.mkState true
                    (fun t' => if Audio.Sound_eqb t' t then Some ts
                               else None),
                  Some (Audio.voice (sfxVolume stale) t now0))).
  { unfold Audio.playSound. rewrite Ha.
    replace (Rleb (sfxVolume stale) 0) with false
      by (symmetry; now apply Rleb_false).
    reflexivity. }
  assert (Eall : Audio.playEach
                   (calls ++ (stale, Audio.mkRequest t ts now0) :: more)
                   Audio.initial
                 = (Audio.mkState true
                      (fun t' => if Audio.Sound_eqb t' t then Some ts
                                 else None),
                    [(t, ts)])).
  { clear E. induction Hm as [|[cfg r] rest Hc _ IH].
    - cbn [app Audio.playEach Audio.req_type Audio.req_ts Audio.req_now].
      rewrite Ep. now rewrite (playEach_mute more _ Hmore).
    - cbn [app Audio.playEach fst] in *.
      now rewrite (playSound_muted cfg _ _ _ Audio.initial Hc), IH. }
  rewrite Eall; cbn [fst snd Audio.audioCtx].
  split; [reflexivity|]. split; [reflexivity|].
  intros Ha' HP Hb (n & Hn).
  assert (Hlt : ((n / 30) mod 4 < length Audio.notes)%nat)
    by (change (length Audio.notes) with 4%nat;
        apply Nat.mod_upper_bound; lia).
  destruct (nth_error Audio.notes ((n / 30) mod 4)) as [freq|] eqn:Ef;
    [|apply nth_error_None in Ef; lia].
  unfold Audio.playBgmNote.
  rewrite Ha', HP, Hn, bgm_note_index, Ef.
  cbn [negb orb Audio.isPlaying Audio.audioCtx].
  replace (Rleb (bgmVolume look) 0) with false
    by (symmetry; now apply Rleb_false).
  eexists; reflexivity.
Qed.

(** ** The canvas *)

Lemma execAll_app a b c :
  Canvas.execAll (a ++ b) c = Canvas.execAll b (Canvas.execAll a c).
Proof. unfold Canvas.execAll. apply fold_left_app. Qed.

Lemma painted_app a b c :
  Canvas.painted (a ++ b) c
  = Canvas.painted a c ++ Canvas.painted b (Canvas.execAll a c).
Proof.
  revert c; induction a as [|cmd a IH]; intros c; [reflexivity|].
  cbn [app Canvas.painted]. rewrite IH, <- app_assoc. reflexivity.
Qed.

Lemma forallb_flat_map {A B} (p : B -> bool) (f : A -> list B) l :
  (forall x, forallb p (f x) = true) -> forallb p (flat_map f l) = true.
Proof.
  intros Hf. induction l as [|x l IH]; [reflexivity|].
  cbn [flat_map]. rewrite forallb_app, Hf, IH. reflexivity.
Qed.

Lemma planar_block cmds :
  forall c,
    forallb Canvas.planar cmds = true ->
    Canvas.saved (Canvas.execAll cmds c) = Canvas.saved c
    /\ Canvas.st_dx (Canvas.current (Canvas.execAll cmds c))
       = Canvas.st_dx (Canvas.current c)
    /\ Canvas.st_dy (Canvas.current (Canvas.execAll cmds c))
       = Canvas.st_dy (Canvas.current c)
    /\ Forall (fun p => Canvas.offset p
                        = (Canvas.st_dx (Canvas.current c),
                           Canvas.st_dy (Canvas.current c)))
         (Canvas.painted cmds c)
    /\ map fst (Canvas.painted cmds c) = filter Canvas.paints cmds.
Proof.
  induction cmds as [|cmd cmds IH]; intros c Hp.
  - cbn. repeat split; constructor.
  - cbn [forallb] in Hp. apply andb_true_iff in Hp; destruct Hp as (H1 & H2).
    assert (Hc : Canvas.saved (Canvas.exec c cmd) = Canvas.saved c
                 /\ Canvas.st_dx (Canvas.current (Canvas.exec c cmd))
                    = Canvas.st_dx (Canvas.current c)
                 /\ Canvas.st_dy (Canvas.current (Canvas.exec c cmd))
                    = Canvas.st_dy (Canvas.current c)).
    { destruct cmd; try discriminate; cbn; repeat split.
      all: destruct (Canvas.alphaValid v); cbn; reflexivity. }
    destruct Hc as (C1 & C2 & C3).
    destruct (IH (Canvas.exec c cmd) H2) as (I1 & I2 & I3 & I4 & I5).
    change (Canvas.execAll (cmd :: cmds) c)
      with (Canvas.execAll cmds (Canvas.exec c cmd)).
    cbn [Canvas.painted filter].
    split; [congruence|]. split; [congruence|]. split; [congruence|].
    rewrite C2, C3 in I4. split.
    + apply Forall_app; split; [|exact I4].
      destruct (Canvas.paints cmd); constructor; [reflexivity|constructor].
    + rewrite map_app, I5.
      destruct (Canvas.paints cmd); reflexivity.
Qed.

Lemma keepsBlur_block cmds :
  forall c,
    forallb Canvas.keepsBlur cmds = true ->
    Canvas.st_shadowBlur (Canvas.current (Canvas.execAll cmds c))
    = Canvas.st_shadowBlur (Canvas.current c).
Proof.
  induction cmds as [|cmd cmds IH]; intros c Hp; [reflexivity|].
  cbn [forallb] in Hp. apply andb_true_iff in Hp; destruct Hp as (H1 & H2).
  change (Canvas.execAll (cmd :: cmds) c)
    with (Canvas.execAll cmds (Canvas.exec c cmd)).
  rewrite (IH (Canvas.exec c cmd) H2).
  destruct cmd; try discriminate; cbn; try reflexivity.
  destruct (Canvas.alphaValid v); reflexivity.
Qed.

Lemma keepsAlpha_block cmds :
  forall c,
    forallb Canvas.keepsAlpha cmds = true ->
    Canvas.st_globalAlpha (Canvas.current (Canvas.execAll cmds c))
    = Canvas.st_globalAlpha (Canvas.current c)
    /\ Forall (fun p => Canvas.st_globalAlpha (snd p)
                        = Canvas.st_globalAlpha (Canvas.current c))
         (Canvas.painted cmds c).
Proof.
  induction cmds as [|cmd cmds IH]; intros c Hp;
    [split; [reflexivity|constructor]|].
  cbn [forallb] in Hp. apply andb_true_iff in Hp; destruct Hp as (H1 & H2).
  change (Canvas.execAll (cmd :: cmds) c)
    with (Canvas.execAll cmds (Canvas.exec c cmd)).
  destruct (IH (Canvas.exec c cmd) H2) as (I1 & I2).
  assert (Hc : Canvas.st_globalAlpha (Canvas.current (Canvas.exec c cmd))
               = Canvas.st_globalAlpha (Canvas.current c))
    by (destruct cmd; try discriminate; reflexivity).
  rewrite Hc in I1, I2. split; [exact I1|].
  cbn [Canvas.painted]. apply Forall_app; split; [|exact I2].
  destruct (Canvas.paints cmd); constructor; [reflexivity|constructor].
Qed.

Lemma scanFrom_plain n :
  forall i,
    forallb Canvas.planar (Canvas.scanFrom K n i) = true
    /\ forallb Canvas.keepsBlur (Canvas.scanFrom K n i) = true
    /\ forallb Canvas.keepsAlpha (Canvas.scanFrom K n i) = true.
Proof.
  induction n as [|n IH]; intros i; [repeat split|].
  cbn [Canvas.scanFrom]. destruct (Rlt_dec i (GAME_HEIGHT K)); [|repeat split].
  destruct (IH (i + 3)) as (I1 & I2 & I3). cbn [forallb].
  now rewrite I1, I2, I3.
Qed.

Lemma drawDeadZone_plain :
  forallb Canvas.planar (Canvas.drawDeadZone K config) = true
  /\ forallb Canvas.keepsBlur (Canvas.drawDeadZone K config) = true
  /\ forallb Canvas.keepsAlpha (Canvas.drawDeadZone K config) = true.
Proof.
  unfold Canvas.drawDeadZone; destruct (deadJumpEnabled config); repeat split.
Qed.

Lemma drawCrt_plain look :
  forallb Canvas.planar (Canvas.drawCrt K look) = true
  /\ forallb Canvas.keepsBlur (Canvas.drawCrt K look) = true
  /\ forallb Canvas.keepsAlpha (Canvas.drawCrt K look) = true.
Proof.
  unfold Canvas.drawCrt; destruct (crtEnabled look); [|repeat split].
  destruct (scanFrom_plain (Canvas.scanTurns K) 0) as (I1 & I2 & I3).
  cbn [app forallb]. rewrite !forallb_app, I1, I2, I3. repeat split.
Qed.

Lemma drawScene_planar look gs w :
  forallb Canvas.planar (Canvas.drawScene K config look gs w) = true.
Proof.
  unfold Canvas.drawScene. rewrite !forallb_app.
  rewrite !forallb_flat_map.
  - destruct gs; cbn; try reflexivity;
      rewrite ?forallb_app, forallb_flat_map; try reflexivity;
      unfold Canvas.drawPlayer; destruct (playerShape look); reflexivity.
  - reflexivity.
  - reflexivity.
  - intros s; unfold Canvas.drawPulse; destruct (pu_isSuper s); reflexivity.
Qed.

Lemma drawHud_plain sc p :
  forallb Canvas.planar (Canvas.drawHud K config sc p) = true
  /\ forallb Canvas.keepsAlpha (Canvas.drawHud K config sc p) = true.
Proof. split; reflexivity. Qed.

Lemma alphaValid_one : Canvas.alphaValid 1.0 = true.
Proof.
  unfold Canvas.alphaValid. apply andb_true_iff.
  split; apply Rleb_true; lra.
Qed.

Lemma drawStart_plain hs t :
  forallb Canvas.planar (Canvas.drawStart K hs t) = true
  /\ forallb Canvas.keepsBlur (Canvas.drawStart K hs t) = true.
Proof.
  unfold Canvas.drawStart. cbv zeta. rewrite !forallb_app.
  destruct (Rlt_dec 0 hs); split; reflexivity.
Qed.

Lemma alpha_reset pre tl c :
  forallb Canvas.keepsAlpha tl = true ->
  Canvas.st_globalAlpha
    (Canvas.current
       (Canvas.execAll (pre ++ [Canvas.globalAlpha 1.0] ++ tl) c)) = 1.
Proof.
  intros Htl. rewrite !execAll_app.
  destruct (keepsAlpha_block tl
              (Canvas.execAll [Canvas.globalAlpha 1.0]
                 (Canvas.execAll pre c)) Htl) as (H & _).
  rewrite H. cbn. rewrite alphaValid_one. cbn. lra.
Qed.

Lemma drawStart_alpha hs t c :
  Canvas.st_globalAlpha
    (Canvas.current (Canvas.execAll (Canvas.drawStart K hs t) c)) = 1.
Proof.
  unfold Canvas.drawStart. cbv zeta.
  match goal with |- context [Canvas.execAll (?l ++ ?m ++ ?n) c] =>
    change (l ++ m ++ n)
      with (removelast l ++ [Canvas.globalAlpha 1.0] ++ m ++ n)
  end.
  apply alpha_reset. destruct (Rlt_dec 0 hs); reflexivity.
Qed.

Lemma drawGameOver_plain sc :
  forallb Canvas.planar (Canvas.drawGameOver K sc) = true
  /\ forallb Canvas.keepsBlur (Canvas.drawGameOver K sc) = true
  /\ forallb Canvas.keepsAlpha (Canvas.drawGameOver K sc) = true.
Proof. repeat split. Qed.

(** The part of [draw] that follows [ctx.restore()]. *)
Lemma drawTail_spec look gs sc hs w c :
  let tail :=
    Canvas.drawCrt K look
    ++ match gs with
       | PLAYING => Canvas.drawHud K config sc (player w)
       | _ => []
       end
    ++ [Canvas.shadowBlur 0]
    ++ match gs with
       | START => Canvas.drawStart K hs (elapsedTime w)
       | GAMEOVER => Canvas.drawGameOver K sc
       | PLAYING => []
       end in
  forallb Canvas.planar tail = true
  /\ Canvas.st_shadowBlur (Canvas.current (Canvas.execAll tail c)) = 0
  /\ (Canvas.st_globalAlpha (Canvas.current c) = 1 ->
      Canvas.st_globalAlpha (Canvas.current (Canvas.execAll tail c)) = 1).
Proof.
  cbv zeta.
  destruct (drawCrt_plain look) as (C1 & C2 & C3).
  destruct (drawStart_plain hs (elapsedTime w)) as (S1 & S2).
  destruct (drawGameOver_plain sc) as (G1 & G2 & G3).
  split; [|split].
  - rewrite !forallb_app, C1.
    destruct gs; cbn [forallb andb Canvas.planar];
      rewrite ?S1, ?G1; reflexivity.
  - rewrite !execAll_app.
    match goal with |- context [Canvas.execAll ?ov
                                  (Canvas.execAll [Canvas.shadowBlur 0] ?c0)] =>
      rewrite (keepsBlur_block ov
                 (Canvas.execAll [Canvas.shadowBlur 0] c0))
        by (destruct gs; [exact S2|reflexivity|exact G2])
    end.
    reflexivity.
  - intros Ha. rewrite !execAll_app.
    destruct gs.
    + apply drawStart_alpha.
    + cbn [Canvas.execAll fold_left].
      destruct (keepsAlpha_block (Canvas.drawHud K config sc (player w))
                  (Canvas.execAll (Canvas.drawCrt K look) c)
                  (proj2 (drawHud_plain sc (player w)))) as (H1 & _).
      destruct (keepsAlpha_block (Canvas.drawCrt K look) c C3) as (H2 & _).
      cbn [Canvas.exec Canvas.current Canvas.st_globalAlpha].
      fold (Canvas.execAll (Canvas.drawHud K config sc (player w))
              (Canvas.execAll (Canvas.drawCrt K look) c)).
      congruence.
    + destruct (keepsAlpha_block (Canvas.drawGameOver K sc)
                  (Canvas.execAll [Canvas.shadowBlur 0]
                     (Canvas.execAll [] (Canvas.execAll (Canvas.drawCrt K look) c)))
                  G3) as (H1 & _).
      rewrite H1.
      destruct (keepsAlpha_block (Canvas.drawCrt K look) c C3) as (H2 & _).
      cbn. exact (eq_trans H2 Ha).
Qed.

(** X21.  [draw] leaves the context as it finds it between two frames:
    started on a context that is opaque, without shadow or translation and
    with an empty stack of [save], it ends on such a context, whatever the
    world and the state.  Its first stroke fills the whole field in opaque
    pink, and the translation of the camera shake applies to the scene
    (pulses, shockwaves, particles, player and enemies) and to nothing
    else: the background, the dead-zone band, the CRT overlay, the score,
    the fuel bar and the title and game-over screens are painted in
    place. *)
Theorem draw_restores_context look gs sc hs w c :
  Canvas.ready c ->
  Canvas.ready (Canvas.execAll (Canvas.draw K config look gs sc hs w) c)
  /\ exists s0 bg scene over,
       Canvas.painted (Canvas.draw K config look gs sc hs w) c
       = (Canvas.fillRect 0 0 (GAME_WIDTH K) (GAME_HEIGHT K), s0)
         :: bg ++ scene ++ over
       /\ Canvas.st_fillStyle s0 = Canvas.PINK
       /\ Canvas.st_globalAlpha s0 = 1
       /\ Canvas.st_dx s0 = 0 /\ Canvas.st_dy s0 = 0
       /\ Forall (fun p => Canvas.offset p = (0, 0)) (bg ++ over)
       /\ Forall (fun p => Canvas.offset p
                           = (0 + sh_x (shake w), 0 + sh_y (shake w)))
            scene
       /\ map fst scene
          = filter Canvas.paints (Canvas.drawScene K config look gs w).
Proof.
  intros (Ha & Hb & Hx & Hy & Hst).
  set (sx := sh_x (shake w)); set (sy := sh_y (shake w)).
  set (dz := Canvas.drawDeadZone K config).
  set (scene := Canvas.drawScene K config look gs w).
  set (tail :=
         Canvas.drawCrt K look
         ++ match gs with
            | PLAYING => Canvas.drawHud K config sc (player w)
            | _ => []
            end
         ++ [Canvas.shadowBlur 0]
         ++ match gs with
            | START => Canvas.drawStart K hs (elapsedTime w)
            | GAMEOVER => Canvas.drawGameOver K sc
            | PLAYING => []
            end).
  assert (Hd : Canvas.draw K config look gs sc hs w
               = [Canvas.fillStyle Canvas.PINK;
                  Canvas.fillRect 0 0 (GAME_WIDTH K) (GAME_HEIGHT K)]
                 ++ dz
                 ++ [Canvas.save; Canvas.translate sx sy]
                 ++ scene ++ [Canvas.restore] ++ tail) by reflexivity.
  rewrite Hd; clear Hd.
  set (c0 := Canvas.execAll
               [Canvas.fillStyle Canvas.PINK;
                Canvas.fillRect 0 0 (GAME_WIDTH K) (GAME_HEIGHT K)] c).
  assert (H0 : Canvas.st_fillStyle (Canvas.current c0) = Canvas.PINK
               /\ Canvas.st_globalAlpha (Canvas.current c0) = 1
               /\ Canvas.st_shadowBlur (Canvas.current c0) = 0
               /\ Canvas.st_dx (Canvas.current c0) = 0
               /\ Canvas.st_dy (Canvas.current c0) = 0
               /\ Canvas.saved c0 = [])
    by (subst c0; cbn; repeat split; assumption).
  destruct H0 as (F0 & A0 & B0 & X0 & Y0 & S0).
  destruct drawDeadZone_plain as (D1 & _ & D3). fold dz in D1, D3.
  set (c1 := Canvas.execAll dz c0).
  destruct (planar_block dz c0 D1) as (P1 & P2 & P3 & P4 & _).
  destruct (keepsAlpha_block dz c0 D3) as (P5 & _).
  fold c1 in P1, P2, P3, P5.
  set (c3 := Canvas.execAll [Canvas.save; Canvas.translate sx sy] c1).
  assert (H3 : Canvas.saved c3 = Canvas.current c1 :: Canvas.saved c1
               /\ Canvas.st_dx (Canvas.current c3)
                  = Canvas.st_dx (Canvas.current c1) + sx
               /\ Canvas.st_dy (Canvas.current c3)
                  = Canvas.st_dy (Canvas.current c1) + sy)
    by (subst c3; cbn; repeat split).
  destruct H3 as (S3 & X3 & Y3).
  set (c4 := Canvas.execAll scene c3).
  destruct (planar_block scene c3 (drawScene_planar look gs w))
    as (Q1 & _ & _ & Q4 & Q5).
  fold c4 in Q1.
  set (c5 := Canvas.execAll [Canvas.restore] c4).
  assert (H5 : Canvas.current c5 = Canvas.current c1
               /\ Canvas.saved c5 = Canvas.saved c1).
  { subst c5. cbn. rewrite Q1, S3. split; reflexivity. }
  destruct H5 as (E5 & S5).
  destruct (drawTail_spec look gs sc hs w c5) as (T1 & T2 & T3).
  fold tail in T1, T2, T3.
  destruct (planar_block tail c5 T1) as (R1 & R2 & R3 & R4 & _).
  split.
  - rewrite !execAll_app. fold c0 c1 c3 c4 c5.
    unfold Canvas.ready.
    split; [apply T3; rewrite E5; congruence|].
    split; [exact T2|].
    split; [rewrite R2, E5; congruence|].
    split; [rewrite R3, E5; congruence|].
    rewrite R1, S5. congruence.
  - exists (Canvas.current
              (Canvas.exec c (Canvas.fillStyle Canvas.PINK))),
           (Canvas.painted dz c0), (Canvas.painted scene c3),
           (Canvas.painted tail c5).
    split.
    { rewrite !painted_app. fold c0 c1.
      rewrite <- !execAll_app. rewrite !execAll_app. fold c0 c1 c3 c4 c5.
      cbn [Canvas.painted Canvas.paints app]. reflexivity. }
    split; [reflexivity|]. split; [exact Ha|].
    split; [exact Hx|]. split; [exact Hy|].
    split; [|split; [|exact Q5]].
    + apply Forall_app; split.
      * eapply Forall_impl; [|exact P4]. cbv beta; intros p Hp.
        rewrite Hp. f_equal; assumption.
      * eapply Forall_impl; [|exact R4]. cbv beta; intros p Hp.
        rewrite Hp, E5. f_equal; congruence.
    + eapply Forall_impl; [|exact Q4]. cbv beta; intros p Hp.
      rewrite Hp, X3, Y3. f_equal; congruence.
Qed.

Ltac canvas_ok :=
  unfold Canvas.effective, Canvas.accepted, Canvas.stops_ok; cbn;
  repeat split; try lra; repeat constructor; cbn; lra.

Lemma scanFrom_effective n :
  forall i, Forall Canvas.effective (Canvas.scanFrom K n i).
Proof.
  induction n as [|n IH]; intros i; [constructor|].
  cbn [Canvas.scanFrom]. destruct (Rlt_dec i (GAME_HEIGHT K));
    constructor; [canvas_ok|apply IH].
Qed.

Lemma drawShockwave_effective sw :
  shockwave_ok sw -> Forall Canvas.effective (Canvas.drawShockwave sw).
Proof.
  intros ((Hl1 & Hl2) & (Hr1 & Hr2) & _).
  assert (Hq : 0 <= sw_life sw / sw_maxLife sw)
    by (apply Rmult_le_pos; [lra|left; apply Rinv_0_lt_compat; lra]).
  assert (Ha : 0 <= Rmin 1 (sw_life sw / sw_maxLife sw * 2) <= 1)
    by (unfold Rmin; destruct (Rle_dec _ _); lra).
  unfold Canvas.drawShockwave; cbv zeta.
  repeat (constructor;
          [unfold Canvas.effective, Canvas.accepted; cbn;
           repeat split; lra|]).
  constructor.
Qed.

Lemma drawParticle_effective p :
  particle_ok p -> Forall Canvas.effective (Canvas.drawParticle p).
Proof.
  intros ((Hl1 & Hl2) & _).
  assert (Hq : 0 <= pa_life p / pa_maxLife p <= 1).
  { split; [apply Rmult_le_pos; [lra|left; apply Rinv_0_lt_compat; lra]|].
    apply Rmult_le_reg_r with (pa_maxLife p); [lra|].
    unfold Rdiv; rewrite Rmult_assoc, Rinv_l by lra. lra. }
  unfold Canvas.drawParticle.
  repeat (constructor;
          [unfold Canvas.effective, Canvas.accepted; cbn;
           repeat split; lra|]).
  constructor.
Qed.

Lemma drawPulse_effective s :
  Forall Canvas.effective (Canvas.drawPulse K s).
Proof.
  unfold Canvas.drawPulse; cbv zeta. destruct (pu_isSuper s);
    repeat (constructor; [canvas_ok|]); constructor.
Qed.

Lemma drawEnemy_effective e :
  0 <= en_radius e -> Forall Canvas.effective (Canvas.drawEnemy e).
Proof.
  intros Hr. unfold Canvas.drawEnemy.
  repeat (constructor;
          [unfold Canvas.effective, Canvas.accepted; cbn;
           repeat split; lra|]).
  constructor.
Qed.

Lemma drawPlayer_effective look p :
  0 <= pl_width p -> Forall Canvas.effective (Canvas.drawPlayer look p).
Proof.
  intros Hw. unfold Canvas.drawPlayer; cbv zeta.
  destruct (playerShape look);
    repeat (constructor;
            [unfold Canvas.effective, Canvas.accepted; cbn;
             repeat split; lra|]);
    constructor.
Qed.

Lemma playerFill_effective look w :
  Canvas.effective (Canvas.fillStyle (Canvas.playerFill config look w)).
Proof.
  unfold Canvas.playerFill; cbv zeta.
  repeat destruct (Rlt_dec _ _); split; exact I.
Qed.

Lemma drawStart_effective hs t :
  Forall Canvas.effective (Canvas.drawStart K hs t).
Proof.
  unfold Canvas.drawStart; cbv zeta.
  pose proof (SIN_bound (t * 0.1)) as Hs.
  apply Forall_app; split; [|apply Forall_app; split].
  - repeat (constructor;
            [unfold Canvas.effective, Canvas.accepted; cbn;
             repeat split; lra|]).
    constructor.
  - destruct (Rlt_dec 0 hs); repeat (constructor; [canvas_ok|]);
      constructor.
  - repeat (constructor; [canvas_ok|]); constructor.
Qed.

Lemma drawScene_effective look gs w :
  drawable w ->
  Forall Canvas.effective (Canvas.drawScene K config look gs w).
Proof.
  intros (Hsw & Hpa & Hpu & Hen & Hpl).
  unfold Canvas.drawScene.
  apply Forall_app; split.
  { apply Forall_flat_map, Forall_forall; intros s _.
    apply drawPulse_effective. }
  apply Forall_app; split.
  { apply Forall_flat_map. eapply Forall_impl; [|exact Hsw].
    exact drawShockwave_effective. }
  apply Forall_app; split.
  { repeat (constructor; [canvas_ok|]); constructor. }
  apply Forall_app; split.
  { apply Forall_flat_map. eapply Forall_impl; [|exact Hpa].
    exact drawParticle_effective. }
  apply Forall_app; split.
  { repeat (constructor; [canvas_ok|]); constructor. }
  apply Forall_app; split.
  { constructor; [apply playerFill_effective|constructor]. }
  destruct gs; [constructor| |];
    (apply Forall_app; split;
     [now apply drawPlayer_effective
     |apply Forall_flat_map; eapply Forall_impl; [|exact Hen];
      exact drawEnemy_effective]).
Qed.

Lemma drawCrt_effective look :
  0 <= GAME_HEIGHT K -> Forall Canvas.effective (Canvas.drawCrt K look).
Proof.
  intros HH.
  unfold Canvas.drawCrt; destruct (crtEnabled look); [|constructor].
  apply Forall_app; split.
  { repeat (constructor; [canvas_ok|]); constructor. }
  apply Forall_app; split; [apply scanFrom_effective|].
  assert (0 <= GAME_HEIGHT K / 1.5)
    by (apply Rmult_le_pos; [exact HH|lra]).
  repeat (constructor;
          [unfold Canvas.effective, Canvas.accepted, Canvas.stops_ok;
           cbn; repeat split; try lra; repeat constructor; cbn; lra|]).
  constructor.
Qed.

Lemma drawHud_effective sc p :
  Forall Canvas.effective (Canvas.drawHud K config sc p).
Proof.
  unfold Canvas.drawHud; cbv zeta.
  repeat (constructor;
          [unfold Canvas.effective, Canvas.accepted; cbn;
           try destruct (Rlt_dec _ _); repeat split|]).
  constructor.
Qed.

Lemma draw_effective look gs sc hs w :
  0 <= GAME_HEIGHT K -> drawable w ->
  Forall Canvas.effective (Canvas.draw K config look gs sc hs w).
Proof.
  intros HH Hw.
  unfold Canvas.draw.
  apply Forall_app; split.
  { repeat (constructor; [canvas_ok|]); constructor. }
  apply Forall_app; split.
  { unfold Canvas.drawDeadZone; destruct (deadJumpEnabled config);
      cbv zeta; repeat (constructor; [canvas_ok|]); constructor. }
  apply Forall_app; split.
  { repeat (constructor; [canvas_ok|]); constructor. }
  apply Forall_app; split; [now apply drawScene_effective|].
  apply Forall_app; split.
  { repeat (constructor; [canvas_ok|]); constructor. }
  apply Forall_app; split; [now apply drawCrt_effective|].
  apply Forall_app; split.
  { destruct gs; [constructor|apply drawHud_effective|constructor]. }
  apply Forall_app; split.
  { repeat (constructor; [canvas_ok|]); constructor. }
  destruct gs; [apply drawStart_effective|constructor|].
  unfold Canvas.drawGameOver.
  repeat (constructor; [canvas_ok|]); constructor.
Qed.

Lemma draw_refs look gs sc hs w w' :
  shake w' = shake w -> pulses w' = pulses w ->
  shockwaves w' = shockwaves w -> particles w' = particles w ->
  invincibilityFrames w' = invincibilityFrames w -> player w' = player w ->
  enemies w' = enemies w -> elapsedTime w' = elapsedTime w ->
  Canvas.draw K config look gs sc hs w' = Canvas.draw K config look gs sc hs w.
Proof.
  intros E1 E2 E3 E4 E5 E6 E7 E8.
  unfold Canvas.draw, Canvas.drawScene, Canvas.playerFill.
  now rewrite E1, E2, E3, E4, E5, E6, E7, E8.
Qed.

Lemma reachable_drawable w :
  0 < burningDuration config -> 0 <= burningRadius config ->
  0 <= playerSize config ->
  reachable w -> drawable w.
Proof.
  intros Hd Hr Hs Hw. unfold drawable.
  destruct (reachable_effects w Hw) as (Hp & Hq).
  destruct (reachable_wellFormed w Hw) as (He & _).
  split; [now apply reachable_shockwaves_ok|].
  split; [exact Hp|]. split; [exact Hq|]. split.
  - eapply Forall_impl; [|exact He]. cbv beta; intros; lra.
  - now rewrite reachable_width.
Qed.

(** X22.  On the worlds that the component reaches, the context takes every
    call of [draw] as it is.  With a positive [burningDuration] and
    non-negative [burningRadius], [playerSize] and [GAME_HEIGHT], no arc and
    no radial gradient is asked for with a negative radius, every colour
    stop lies between 0 and 1, and every opacity that is set lies between 0
    and 1, whatever the state the callback was created in; this holds in
    particular of the frame that the animation loop draws after
    [update]. *)
Theorem draw_accepted look g w :
  0 < burningDuration config -> 0 <= burningRadius config ->
  0 <= playerSize config -> 0 <= GAME_HEIGHT K ->
  reachable w -> rng_ok g ->
  (forall gs sc hs,
      Forall Canvas.effective (Canvas.draw K config look gs sc hs w))
  /\ Forall Canvas.effective (snd (loop look g w)).
Proof.
  intros Hd Hr Hs HH Hw Hg. split.
  - intros gs sc hs. apply draw_effective; [exact HH|].
    now apply reachable_drawable.
  - unfold loop; cbv zeta; cbn [snd].
    assert (Hw' : reachable (step (Frame g) w))
      by (apply reach_step; [exact Hw|exact Hg]).
    pose proof (reachable_drawable _ Hd Hr Hs Hw') as Hdr.
    unfold step in Hdr.
    destruct (syncHighScore_same (update g w))
      as (_&_&E3&E4&E5&E6&E7&E8&E9&E10&_).
    rewrite <- (draw_refs look (gameState w) (score w) (highScore w)
                  (update g w) (syncHighScore (update g w)));
      try assumption.
    now apply draw_effective.
Qed.

(** *** The fuel bar *)

Lemma reachable_fuel w :
  0 <= fuelConsumption config -> 0 <= fuelRegen config -> 0 <= MAX_FUEL K ->
  reachable w -> fuel_ok w /\ pl_maxFuel (player w) = MAX_FUEL K.
Proof.
  intros Hc Hr HM; revert w; apply reachable_invariant.
  - unfold fuel_ok; cbn; split; [lra|reflexivity].
  - intros w H. unfold fuel_ok in *.
    destruct (syncHighScore_same w) as (_&_&_&_&Hp&_). now rewrite Hp.
  - intros g w _ (H1 & H2). split; [now apply fuel_ok_update|].
    destruct (gameState w) eqn:Hs.
    1,3: rewrite update_idle by congruence; exact H2.
    destruct (update_playing g w Hs) as (_&_&_&_&_&Hp). rewrite Hp.
    destruct (movePlayer_fields (player w) (sh_intensity (shake w)))
      as (_&_&Em&_). cbv zeta in Em. congruence.
  - intros mx my g w _ _ (H1 & H2).
    split; [now apply fuel_ok_executeJump|].
    destruct (executeJump_player_box mx my g w) as (_&_&_&_&Em).
    congruence.
  - intros w _. split; [now apply fuel_ok_resetGame|].
    now rewrite resetGame_player.
Qed.

Lemma executeJump_pulse mx my g w :
  fuelConsumption config <= pl_fuel (player w) ->
  length (pulses (executeJump mx my g w)) = S (length (pulses w)).
Proof.
  intros Hfuel.
  destruct (executeJump_accepted mx my g w Hfuel)
    as (w1 & sweep & Hsw & _ & Hs1 & _ & _ & _ & _ & _ & _ & _ & _
        & _ & _ & Hs' & _).
  rewrite Hs'. subst sweep.
  match goal with |- context [pulseSweep ?a ?b ?c ?d ?es g w1] =>
    destruct (pulseSweep_frame a b c d es g w1) as (_&_&_&_&_&Hq&_) end.
  rewrite Hq, Hs1, length_app. cbn; lia.
Qed.

(** X23.  The fuel bar of the score display tells the truth.  With
    non-negative [fuelConsumption] and [fuelRegen] and a positive
    [MAX_FUEL], in every reachable world the filled part of the bar is the
    fraction [fuel / maxFuel] of its 120 pixels, so it never leaves the
    frame of the bar, and it is full exactly when the fuel is [MAX_FUEL];
    it is red exactly when the fuel is below [fuelConsumption], in which
    case a jump leaves the player as it is, and blue otherwise, in which
    case a jump emits a pulse. *)
Theorem fuel_bar_shows_fuel sc w :
  0 <= fuelConsumption config -> 0 <= fuelRegen config -> 0 < MAX_FUEL K ->
  reachable w ->
  let bar := pl_fuel (player w) / pl_maxFuel (player w) * 120 in
  0 <= bar <= 120
  /\ (bar = 120 <-> pl_fuel (player w) = MAX_FUEL K)
  /\ exists pre post colour,
       Canvas.drawHud K config sc (player w)
       = pre
         ++ [Canvas.fillStyle colour;
             Canvas.fillRect (GAME_WIDTH K - 120 - 20) 28 bar 12]
         ++ post
       /\ (pl_fuel (player w) < fuelConsumption config ->
           colour = Canvas.RED
           /\ forall mx my g, player (executeJump mx my g w) = player w)
       /\ (fuelConsumption config <= pl_fuel (player w) ->
           colour = Canvas.BLUE
           /\ forall mx my g,
                length (pulses (executeJump mx my g w))
                = S (length (pulses w))).
Proof.
  intros Hc Hr HM Hw; cbv zeta.
  destruct (reachable_fuel w Hc Hr ltac:(lra) Hw) as ((F1 & F2) & Em).
  rewrite Em in *.
  assert (Hq : 0 <= pl_fuel (player w) / MAX_FUEL K <= 1).
  { split; [apply Rmult_le_pos; [lra|left; apply Rinv_0_lt_compat; lra]|].
    apply Rmult_le_reg_r with (MAX_FUEL K); [lra|].
    unfold Rdiv; rewrite Rmult_assoc, Rinv_l by lra. lra. }
  split; [lra|]. split.
  - split; intros H.
    + assert (H1 : pl_fuel (player w) / MAX_FUEL K = 1) by lra.
      apply (f_equal (fun x => x * MAX_FUEL K)) in H1.
      unfold Rdiv in H1; rewrite Rmult_assoc, Rinv_l in H1 by lra. lra.
    + rewrite H. unfold Rdiv; rewrite Rinv_r by lra. lra.
  - exists (firstn 11 (Canvas.drawHud K config sc (player w))),
           (skipn 13 (Canvas.drawHud K config sc (player w))),
           (if Rlt_dec (pl_fuel (player w)) (fuelConsumption config)
            then Canvas.RED else Canvas.BLUE).
    split; [unfold Canvas.drawHud; cbv zeta; rewrite Em; reflexivity|].
    split.
    + intros Hlt. destruct (Rlt_dec _ _); [|lra]. split; [reflexivity|].
      intros mx my g.
      now destruct (executeJump_reject mx my g w Hlt) as (_&Hp&_).
    + intros Hge. destruct (Rlt_dec _ _); [lra|]. split; [reflexivity|].
      intros mx my g. now apply executeJump_pulse.
Qed.

(** *** Dead enemies are not drawn *)

Lemma update_all_alive g w :
  gameState w = PLAYING -> all_alive (update g w).
Proof.
  intros HP. unfold all_alive.
  destruct (update_view g w HP) as (_&_&_&_&He&_). rewrite He.
  apply Forall_forall; intros e Hin.
  apply filter_In in Hin; destruct Hin as (_ & Hk).
  now apply keepEnemy_spec in Hk.
Qed.

Lemma reachable_idle_alive w :
  reachable w -> gameState w <> PLAYING -> all_alive w.
Proof.
  revert w.
  apply (reachable_invariant (fun w => gameState w <> PLAYING -> all_alive w)).
  - intros _; constructor.
  - intros w H. unfold all_alive in *.
    destruct (syncHighScore_same w) as (Hg&_&_&_&_&He&_).
    now rewrite Hg, He.
  - intros g w _ H Hs.
    destruct (gameState w) eqn:HP.
    2: now apply update_all_alive.
    all: rewrite update_idle in * by congruence; unfold all_alive in *;
      cbn in *; apply H; congruence.
  - intros mx my g w _ HP _ Hs.
    destruct (executeJump_frame mx my g w) as (Hg&_). congruence.
  - intros w _ Hs. now destruct (resetGame_fields w) as (Hg&_).
Qed.

(** X24.  An enemy flagged dead is never drawn.  [draw] paints every enemy
    of the list, flagged or not, but a flag only lasts from the jump that
    sets it to the next frame: a frame of a playing world leaves live
    enemies only, a reachable world that is not [PLAYING] has live enemies
    only, and so has the world that the animation loop draws after
    [update], whatever the state it started in; meanwhile a jump flags
    enemies without removing any. *)
Theorem dead_enemies_swept :
  (forall g w, gameState w = PLAYING -> all_alive (update g w))
  /\ (forall w, reachable w -> gameState w <> PLAYING -> all_alive w)
  /\ (forall look g w,
        reachable w ->
        fst (loop look g w) = update g w
        /\ all_alive (fst (loop look g w))
        /\ forall e,
             In e (enemies (fst (loop look g w))) ->
             incl (Canvas.drawEnemy e)
               (Canvas.drawScene K config look PLAYING (fst (loop look g w))))
  /\ (forall mx my g w,
        length (enemies (executeJump mx my g w)) = length (enemies w)).
Proof.
  split; [exact update_all_alive|]. split; [exact reachable_idle_alive|].
  split.
  - intros look g w Hw. unfold loop; cbv zeta; cbn [fst].
    split; [reflexivity|]. split.
    + destruct (gameState w) eqn:HP.
      2: now apply update_all_alive.
      all: rewrite update_idle by congruence; unfold all_alive; cbn;
        apply (reachable_idle_alive w Hw); congruence.
    + intros e Hin x Hx. unfold Canvas.drawScene.
      rewrite !in_app_iff. do 6 right. right.
      apply in_flat_map. exists e; split; assumption.
  - intros mx my g w. now destruct (executeJump_frame mx my g w) as (_&_&_&_&H).
Qed.

(** *** The scan lines *)

Lemma scan_test k :
  3 * INR k < GAME_HEIGHT K <-> (k < Canvas.scanTurns K)%nat.
Proof.
  unfold Canvas.scanTurns.
  pose proof (Zceil_bound (GAME_HEIGHT K / 3)) as (H1 & H2).
  set (z := Zceil (GAME_HEIGHT K / 3)) in *.
  rewrite INR_IZR_INZ. split.
  - intros Hlt.
    assert (Hk : IZR (Z.of_nat k) < IZR z) by lra.
    apply lt_IZR in Hk. lia.
  - intros Hlt.
    assert (Hk : (Z.of_nat k <= z - 1)%Z) by lia.
    apply IZR_le in Hk. rewrite minus_IZR in Hk. lra.
Qed.

Lemma scanFrom_seq n :
  forall j i,
    i = 3 * INR j ->
    Canvas.scanFrom K n i
    = map (fun k => Canvas.fillRect 0 (3 * INR k) (GAME_WIDTH K) 1)
        (seq j (Nat.min n (Canvas.scanTurns K - j))).
Proof.
  induction n as [|n IH]; intros j i Hi; [reflexivity|].
  cbn [Canvas.scanFrom]. subst i.
  destruct (Rlt_dec (3 * INR j) (GAME_HEIGHT K)) as [Hlt|Hge].
  - apply scan_test in Hlt.
    replace (Canvas.scanTurns K - j)%nat
      with (S (Canvas.scanTurns K - S j)) by lia.
    cbn [Nat.min seq map]. f_equal.
    apply IH. rewrite S_INR. ring.
  - assert (Hn : ~ (j < Canvas.scanTurns K)%nat)
      by (intros H; apply Hge, scan_test, H).
    replace (Canvas.scanTurns K - j)%nat with 0%nat by lia.
    now rewrite Nat.min_0_r.
Qed.

(** X25.  The scan lines of the CRT overlay are as many as
    [ceil (GAME_HEIGHT / 3)], one pixel high, at the ordinates 0, 3, 6, ...
    below [GAME_HEIGHT], the last of them within 3 of it; the loop ends by
    its own test: allowing it more turns adds no line. *)
Theorem scan_lines :
  Canvas.scanFrom K (Canvas.scanTurns K) 0
  = map (fun k => Canvas.fillRect 0 (3 * INR k) (GAME_WIDTH K) 1)
      (seq 0 (Canvas.scanTurns K))
  /\ (forall more,
        Canvas.scanFrom K (Canvas.scanTurns K + more) 0
        = Canvas.scanFrom K (Canvas.scanTurns K) 0)
  /\ (forall k, (k < Canvas.scanTurns K)%nat <-> 3 * INR k < GAME_HEIGHT K)
  /\ (0 < GAME_HEIGHT K ->
      (0 < Canvas.scanTurns K)%nat
      /\ GAME_HEIGHT K - 3 <= 3 * INR (Canvas.scanTurns K - 1)).
Proof.
  assert (H0 : 0 = 3 * INR 0) by (cbn; lra).
  split; [|split; [|split]].
  - rewrite (scanFrom_seq _ 0 0 H0). now rewrite Nat.sub_0_r, Nat.min_id.
  - intros more. rewrite !(scanFrom_seq _ 0 0 H0), Nat.sub_0_r.
    now rewrite Nat.min_id, Nat.min_r by lia.
  - intros k. symmetry. apply scan_test.
  - intros HH.
    assert (Hpos : (0 < Canvas.scanTurns K)%nat)
      by (apply scan_test; cbn; lra).
    split; [exact Hpos|].
    destruct (Rle_dec (GAME_HEIGHT K - 3)
                (3 * INR (Canvas.scanTurns K - 1))) as [Hle|Hgt];
      [exact Hle|exfalso].
    assert (Hlt : 3 * INR (S (Canvas.scanTurns K - 1)) < GAME_HEIGHT K)
      by (rewrite S_INR; lra).
    apply scan_test in Hlt. lia.
Qed.

End Game.

(** * The sample run *)

Section Demo.

Variable K : Constants.
Hypothesis HW : 160 <= GAME_WIDTH K.
Hypothesis HH : 200 <= GAME_HEIGHT K.
Hypothesis HM : 24 <= MAX_FUEL K.

Lemma still_ok : rng_ok still.
Proof. intros i; unfold still; lra. Qed.

Lemma quiet_ok : rng_ok quiet.
Proof. intros i; unfold quiet; lra. Qed.

Lemma rng_of_ok l : Forall (fun r => 0 <= r < 1) l -> rng_ok (rng_of l).
Proof.
  intros Hl i; unfold rng_of. revert i; induction Hl; intros [|i]; cbn;
    try lra; auto.
Qed.

Lemma spawnA_ok : rng_ok spawnA.
Proof. apply rng_of_ok; repeat constructor; lra. Qed.

Lemma spawnB_ok : rng_ok spawnB.
Proof. apply rng_of_ok; repeat constructor; lra. Qed.

(** The player of [demoConfig], at rest horizontally and inside the walls,
    moves by its vertical speed and nothing else. *)
Lemma demo_movePlayer p i :
  pl_x p = (GAME_WIDTH K) / 2 - 50 -> pl_width p = 100 -> pl_vx p = 0 ->
  let p' := fst (movePlayer K (demoConfig K) p i) in
  pl_x p' = (GAME_WIDTH K) / 2 - 50 /\ pl_y p' = pl_y p + pl_vy p
  /\ pl_vx p' = 0 /\ pl_vy p' = pl_vy p
  /\ pl_fuel p' = pl_fuel p
  /\ snd (movePlayer K (demoConfig K) p i) = i.
Proof.
  intros Hx Hw Hvx; cbv zeta; unfold movePlayer, dt; cbv zeta.
  cbn [gravity bounceElasticity fuelRegen demoConfig].
  rewrite Hx, Hw, Hvx.
  destruct (Rlt_dec (GAME_WIDTH K / 2 - 50 + 0 * 1.0) 0); [lra|].
  destruct (Rlt_dec (GAME_WIDTH K - 100) (GAME_WIDTH K / 2 - 50 + 0 * 1.0));
    [lra|].
  cbn. repeat split; try lra.
  destruct (Rlt_dec (pl_fuel p) (pl_maxFuel p)); [|reflexivity].
  unfold Rmin; destruct (Rle_dec _ _); lra.
Qed.

(** A frame of the sample run in a world without shockwaves, where the
    player neither falls out nor is touched. *)
Lemma demo_frame g w el y vy fuel es intensity eid :
  demoShape K w PLAYING el (GAME_WIDTH K / 2 - 50) y vy fuel es [] intensity eid ->
  0 <= el -> el + 1 < 7200 -> y + vy <= (GAME_HEIGHT K) ->
  let g1 := if Rlt_dec 0 intensity then after 2 g else g in
  let seconds := (el + 1) / 60 in
  let sp := Rltb (draw g1) (0.5 * waveFactor seconds * dt) in
  let es1 :=
    if sp then es ++ [newEnemy K (demoConfig K) (GAME_WIDTH K / 2) (after 1 g1) eid seconds]
    else es in
  Forall (fun e => touches (GAME_WIDTH K / 2) (y + 50) 0 100 (fallen e) = false) es1 ->
  demoShape K (step K (demoConfig K) (Frame g) w) PLAYING (el + 1) (GAME_WIDTH K / 2 - 50) (y + vy)
    vy fuel (filter (keepEnemy K) (map fallen es1)) []
    (if Rlt_dec 0 intensity then intensity * 0.9 else intensity)
    (if sp then S eid else eid).
Proof.
  intros (Hst&Hel&Hinv&Hx&Hy&Hw&Hh&Hvx&Hvy&Hf&Hm&Hes&Hsw&Hint&Heid)
         Hel0 Hel1 Hfall g1 seconds sp es1 Htouch.
  unfold step.
  match goal with |- context [syncHighScore ?x] =>
    destruct (syncHighScore_same x)
      as (Sg&_&St&Si&Sp&Se&_&_&Ss&Ssh&Sc&_) end.
  destruct (update_view K (demoConfig K) g w Hst) as (Vg&Vt&Vi&Vp&Ve&Vint&Vc).
  destruct (demo_movePlayer (player w) (sh_intensity (shake w)) Hx Hw Hvx)
    as (Mx&My&Mvx&Mvy&Mf&Mi).
  destruct (movePlayer_fields K (demoConfig K) (player w) (sh_intensity (shake w)))
    as (Mw&Mh&Mm&_).
  assert (Hfell : frameFell K (demoConfig K) w = false).
  { unfold frameFell. apply Rltb_false. rewrite Hy, Hvy.
    cbn [gravity demoConfig]; unfold dt; lra. }
  assert (Hfi : frameIntensity K (demoConfig K) w = intensity)
    by (unfold frameIntensity; rewrite Hfell, Mi; exact Hint).
  assert (Hrng : frameRng K (demoConfig K) g w = g1)
    by (unfold frameRng; rewrite Hfi; reflexivity).
  assert (Hfinv : frameInv w = 0)
    by (unfold frameInv; rewrite Hinv; destruct (Rlt_dec 0 0); lra).
  assert (Hcx : centerX (player w) = (GAME_WIDTH K) / 2)
    by (unfold centerX; rewrite Hx, Hw; lra).
  assert (Hcy : centerY (player w) = y + 50)
    by (unfold centerY; rewrite Hy, Hh; lra).
  assert (Hsp : spawns (demoConfig K) g1 ((elapsedTime w + dt) / 60) = sp).
  { rewrite Hel. unfold dt. replace ((el + 1.0) / 60) with seconds
      by (subst seconds; lra).
    rewrite (spawns_flat (demoConfig K) 0 0) by
      (try reflexivity; subst seconds; lra).
    reflexivity. }
  assert (Hfe : frameEnemies K (demoConfig K) g w = es1).
  { unfold frameEnemies; cbv zeta. rewrite Hrng, Hsp.
    rewrite (frameBurned_calm w Hsw), Hes, Hcx, Heid, Hel.
    unfold dt. replace ((el + 1.0) / 60) with seconds
      by (subst seconds; lra).
    reflexivity. }
  assert (Hnt : existsb (frameTouches w) (map fallen es1) = false).
  { apply not_true_is_false; intros Hex.
    apply existsb_exists in Hex; destruct Hex as (e' & Hin & Ht).
    apply in_map_iff in Hin; destruct Hin as (e & <- & Hin).
    pose proof (proj1 (Forall_forall _ _) Htouch e Hin) as Hno.
    cbv beta in Hno. unfold frameTouches in Ht.
    rewrite Hcx, Hcy, Hfinv, Hw in Ht. congruence. }
  unfold demoShape.
  rewrite Sg, St, Si, Sp, Se, Ss, Ssh, Sc, Vg, Vt, Vi, Vp, Ve, Vint, Vc,
    Hfell, Hfe, Hnt, Hfinv, Hfi, Hrng, Hsp, Mx, My, Mvx, Mvy, Mf, Mw, Mh, Mm.
  rewrite (update_calm K (demoConfig K) g w Hsw).
  repeat split; try assumption; try (unfold dt; lra).
  now rewrite Heid.
Qed.

Lemma demoShape_ext w st el x y vy fuel es sws i eid el' x' y' vy' fuel' es' i' :
  demoShape K w st el x y vy fuel es sws i eid ->
  el = el' -> x = x' -> y = y' -> vy = vy' -> fuel = fuel' -> es = es' ->
  i = i' ->
  demoShape K w st el' x' y' vy' fuel' es' sws i' eid.
Proof. intros Hs; intros; subst; exact Hs. Qed.

(** The two enemies of the run. *)
Lemma spawnX_centre : spawnX K (GAME_WIDTH K / 2) (1 / 2) = (GAME_WIDTH K) / 2 + 60.
Proof.
  unfold spawnX; cbv zeta;
  destruct (Rlt_dec (Rabs (1 / 2 * (GAME_WIDTH K - 40) + 20 - (GAME_WIDTH K) / 2))
              60) as [_|Hn].
  - destruct (Rlt_dec (1 / 2 * (GAME_WIDTH K - 40) + 20) (GAME_WIDTH K / 2));
      [lra|].
    unfold Rmin; destruct (Rle_dec _ _); lra.
  - exfalso; apply Hn.
    replace (1 / 2 * (GAME_WIDTH K - 40) + 20 - (GAME_WIDTH K) / 2) with 0
      by lra.
    rewrite Rabs_R0; lra.
Qed.

Lemma newEnemy_A s :
  newEnemy K (demoConfig K) (GAME_WIDTH K / 2) (after 1 spawnA) 0 s = enemyA K (-30) false.
Proof.
  unfold newEnemy, enemyA, after, spawnA, rng_of; cbn [nth Nat.add].
  rewrite spawnX_centre, (finalSpeed_flat (demoConfig K) s eq_refl).
  f_equal; lra.
Qed.

Lemma newEnemy_B s :
  newEnemy K (demoConfig K) (GAME_WIDTH K / 2) (after 1 spawnB) 1 s = enemyB K (-30) false.
Proof.
  unfold newEnemy, enemyB, after, spawnB, rng_of; cbn [nth Nat.add].
  rewrite spawnX_centre, (finalSpeed_flat (demoConfig K) s eq_refl).
  f_equal; lra.
Qed.

Lemma fallen_A y d : fallen (enemyA K y d) = enemyA K (y + 2) d.
Proof. unfold fallen, enemyA, set_en_y, dt; cbn; f_equal; lra. Qed.

Lemma fallen_B y d : fallen (enemyB K y d) = enemyB K (y + 2) d.
Proof. unfold fallen, enemyB, set_en_y, dt; cbn; f_equal; lra. Qed.

Lemma keep_A y : y < (GAME_HEIGHT K) + 50 -> keepEnemy K (enemyA K y false) = true.
Proof.
  intros Hy; unfold keepEnemy, enemyA; cbn. now apply Rltb_true.
Qed.

Lemma keep_B y : y < (GAME_HEIGHT K) + 50 -> keepEnemy K (enemyB K y false) = true.
Proof.
  intros Hy; unfold keepEnemy, enemyB; cbn. now apply Rltb_true.
Qed.

(** Enemy A, sixty units to the side with radius 10, never touches the
    player. *)
Lemma far_A cy inv y d : touches (GAME_WIDTH K / 2) cy inv 100 (enemyA K y d) = false.
Proof.
  unfold touches. apply andb_false_iff; right. apply Rltb_false.
  unfold distTo, enemyA; cbn.
  eapply Rle_trans; [|apply sqrt_ge_bound with (t := 60); [lra|]]; [lra|].
  replace (GAME_WIDTH K / 2 + 60 - (GAME_WIDTH K) / 2) with 60 by lra.
  pose proof (Rle_0_sqr (y - cy)) as Hsq; unfold Rsqr in Hsq. lra.
Qed.

(** Enemy B does not touch the player either while it is 35 units or more
    above or below its centre. *)
Lemma far_B cy inv y d :
  35 <= Rabs (y - cy) -> touches (GAME_WIDTH K / 2) cy inv 100 (enemyB K y d) = false.
Proof.
  intros Hy. unfold touches. apply andb_false_iff; right. apply Rltb_false.
  unfold distTo, enemyB; cbn.
  eapply Rle_trans; [|apply sqrt_ge_bound with (t := 69); [lra|]]; [lra|].
  assert (35 * 35 <= (y - cy) * (y - cy)).
  { unfold Rabs in Hy; destruct (Rcase_abs (y - cy)); nra. }
  replace (GAME_WIDTH K / 2 + 60 - (GAME_WIDTH K) / 2) with 60 by lra.
  lra.
Qed.

(** A press at [(mx, my)] during the game is a jump aimed there. *)
Lemma demo_click mx my g w :
  gameState w = PLAYING ->
  handleGlobalInteraction K (demoConfig K) (clickAt K mx my) g w
  = executeJump K (demoConfig K) mx my g w.
Proof.
  intros HP; unfold handleGlobalInteraction, clickAt; cbn. rewrite HP.
  f_equal; field; lra.
Qed.

(** A press before the game starts it. *)
Lemma demo_start :
  demoShape K (step K (demoConfig K) (Pointer (clickAt K 0 0) still) (initialWorld K (demoConfig K)))
    PLAYING 0 (GAME_WIDTH K / 2 - 50) (GAME_HEIGHT K / 2 - 100) 0 (MAX_FUEL K) [] [] 0 0.
Proof.
  unfold step.
  match goal with |- context [syncHighScore ?x] =>
    destruct (syncHighScore_same x)
      as (Sg&_&St&Si&Sp&Se&_&_&Ss&Ssh&Sc&_) end.
  unfold demoShape. rewrite Sg, St, Si, Sp, Se, Ss, Ssh, Sc.
  unfold handleGlobalInteraction, clickAt; cbn [isMouseOver isTouch negb andb
    gameState initialWorld].
  destruct (resetGame_fields K (demoConfig K) (initialWorld K (demoConfig K)))
    as (R1&_&R3&R4&R5&R6&_&_&R9&R10&_&R12&_).
  rewrite R1, R3, R4, R5, R6, R9, R10, R12.
  cbn. repeat split; lra.
Qed.

(** A vertical jump of the sample run in a world without shockwaves. *)
Lemma demo_jump my w el y vy fuel es intensity eid :
  demoShape K w PLAYING el (GAME_WIDTH K / 2 - 50) y vy fuel es [] intensity eid ->
  12 <= fuel ->
  let hit := pulseHits (GAME_WIDTH K / 2) (y + 50) 110 false in
  let w' := step K (demoConfig K) (Pointer (clickAt K (GAME_WIDTH K / 2) my) still) w in
  exists ids,
    demoShape K w' PLAYING el (GAME_WIDTH K / 2 - 50) y
      (- ((my - (y + 50)) / jumpDist 0 (my - (y + 50))) * (GAME_HEIGHT K / 2 - 25))
      (if existsb hit es then (MAX_FUEL K) else fuel - 12)
      (map (markHit hit) es)
      (map (pushedShockwave (demoConfig K) (GAME_WIDTH K / 2) (y + 50) 1.0) ids) 15 eid
    /\ length ids = count hit es.
Proof.
  intros (Hst&Hel&Hinv&Hx&Hy&Hw&Hh&Hvx&Hvy&Hf&Hm&Hes&Hsw&Hint&Heid)
         Hfuel hit w'.
  subst w'; unfold step.
  match goal with |- context [syncHighScore ?x] =>
    destruct (syncHighScore_same x)
      as (Sg&_&St&Si&Sp&Se&_&_&Ss&Ssh&Sc&_) end.
  rewrite (demo_click _ _ _ _ Hst) in *.
  assert (Hc : fuelConsumption (demoConfig K) <= pl_fuel (player w))
    by (rewrite Hf; cbn; lra).
  assert (Hcx : centerX (player w) = (GAME_WIDTH K) / 2)
    by (unfold centerX; rewrite Hx, Hw; lra).
  assert (Hcy : centerY (player w) = y + 50)
    by (unfold centerY; rewrite Hy, Hh; lra).
  assert (Hdz : inDeadZone K (demoConfig K) (player w) = false) by reflexivity.
  assert (Hpw : pulseWidthOf (player w) false = 110)
    by (unfold pulseWidthOf; rewrite Hw; lra).
  assert (Hhit : jumpHits K (demoConfig K) w = hit).
  { unfold jumpHits; cbv zeta. rewrite Hdz, Hcx, Hcy, Hpw. reflexivity. }
  destruct (executeJump_view K (demoConfig K) (GAME_WIDTH K / 2) my still w Hc)
    as (V1&V2&V3&V4&V5&V6&V7&V8&V9&V10&V11&V12&V13&V14&ids&V15&V16).
  rewrite Hdz, Hcx, Hcy, Hhit in *.
  exists ids. unfold demoShape.
  rewrite Sg, St, Si, Sp, Se, Ss, Ssh, Sc, V1, V2, V3, V4, V5, V6, V7, V8,
    V9, V10, V11, V12, V13, V14, V15, V16, Hsw, Hes, Hf, Hm.
  cbn [app burningEnabled demoConfig recoilForce].
  replace (GAME_WIDTH K / 2 - (GAME_WIDTH K) / 2) with 0 by lra.
  repeat split; try assumption.
  unfold Rdiv; ring.
Qed.

(** *** The worlds of the run *)

Lemma demo_world1 :
  demoShape K (run K (demoConfig K) (firstn 1 (approach K)) (initialWorld K (demoConfig K))) PLAYING 0 ((GAME_WIDTH K) / 2 - 50)
    ((GAME_HEIGHT K) / 2 - 100) 0 (MAX_FUEL K) [] [] 0 0.
Proof. exact demo_start. Qed.

Lemma spawn_draw_low s : Rltb 0 (0.5 * waveFactor s * dt) = true.
Proof.
  apply Rltb_true. pose proof (waveFactor_bounds s). unfold dt; lra.
Qed.

Lemma spawn_draw_high s : Rltb 0.9 (0.5 * waveFactor s * dt) = false.
Proof.
  apply Rltb_false. pose proof (waveFactor_bounds s). unfold dt; lra.
Qed.

Lemma demo_world2 :
  demoShape K (run K (demoConfig K) (firstn 2 (approach K)) (initialWorld K (demoConfig K))) PLAYING 1 ((GAME_WIDTH K) / 2 - 50)
    ((GAME_HEIGHT K) / 2 - 100) 0 (MAX_FUEL K) [enemyA K (-28) false] [] 0 1.
Proof.
  pose proof (demo_frame spawnA _ _ _ _ _ _ _ _ demo_world1) as Hf.
  cbv zeta in Hf.
  destruct (Rlt_dec 0 0) as [?|_]; [lra|].
  change (draw spawnA) with 0 in Hf.
  rewrite spawn_draw_low in Hf. cbn [app map] in Hf.
  rewrite newEnemy_A, fallen_A in Hf. cbn [filter] in Hf.
  rewrite keep_A in Hf by lra.
  eapply demoShape_ext; [apply Hf; try lra| | | | | |f_equal; f_equal|];
    try lra.
  repeat constructor. rewrite fallen_A. apply far_A.
Qed.

Lemma demo_world3 :
  demoShape K (run K (demoConfig K) (firstn 3 (approach K)) (initialWorld K (demoConfig K))) PLAYING 2 ((GAME_WIDTH K) / 2 - 50)
    ((GAME_HEIGHT K) / 2 - 100) 0 (MAX_FUEL K)
    [enemyA K (-26) false; enemyB K (-28) false] [] 0 2.
Proof.
  pose proof (demo_frame spawnB _ _ _ _ _ _ _ _ demo_world2) as Hf.
  cbv zeta in Hf.
  destruct (Rlt_dec 0 0) as [?|_]; [lra|].
  change (draw spawnB) with 0 in Hf.
  rewrite spawn_draw_low in Hf. cbn [app map] in Hf.
  rewrite newEnemy_B, fallen_A, fallen_B in Hf. cbn [filter] in Hf.
  rewrite keep_A, keep_B in Hf by lra.
  eapply demoShape_ext;
    [apply Hf; try lra| | | | |
     |f_equal; [|f_equal]; unfold enemyA, enemyB; f_equal|];
    try lra.
  repeat constructor; rewrite ?fallen_A, ?fallen_B;
    [apply far_A|apply far_B].
  unfold Rabs; destruct (Rcase_abs _); lra.
Qed.

Lemma jumpDist_unit : jumpDist 0 1 = 1.
Proof.
  unfold jumpDist, js_or. replace (0 * 0 + 1 * 1) with 1 by ring.
  rewrite sqrt_1. destruct (Req_dec_T 1 0); [lra|reflexivity].
Qed.

(** The pulse of a jump reaches enemy A and enemy B sideways; what decides
    is which of them is below the centre of the player. *)
Lemma hit_A py y d :
  pulseHits ((GAME_WIDTH K) / 2) py 110 false (enemyA K y d)
  = Rgtb y py && negb d.
Proof.
  unfold pulseHits, enemyA; cbn.
  replace (Rgtb ((GAME_WIDTH K) / 2 + 60 + 10) ((GAME_WIDTH K) / 2 - 110 / 2))
    with true by (symmetry; apply Rgtb_true; lra).
  replace (Rltb ((GAME_WIDTH K) / 2 + 60 - 10) ((GAME_WIDTH K) / 2 + 110 / 2))
    with true by (symmetry; apply Rltb_true; lra).
  reflexivity.
Qed.

Lemma hit_B py y d :
  pulseHits ((GAME_WIDTH K) / 2) py 110 false (enemyB K y d)
  = Rgtb y py && negb d.
Proof.
  unfold pulseHits, enemyB; cbn.
  replace (Rgtb ((GAME_WIDTH K) / 2 + 60 + 21) ((GAME_WIDTH K) / 2 - 110 / 2))
    with true by (symmetry; apply Rgtb_true; lra).
  replace (Rltb ((GAME_WIDTH K) / 2 + 60 - 21) ((GAME_WIDTH K) / 2 + 110 / 2))
    with true by (symmetry; apply Rltb_true; lra).
  reflexivity.
Qed.

Lemma demo_world4 :
  demoShape K (run K (demoConfig K) (firstn 4 (approach K)) (initialWorld K (demoConfig K))) PLAYING 2 ((GAME_WIDTH K) / 2 - 50)
    ((GAME_HEIGHT K) / 2 - 100) (- ((GAME_HEIGHT K) / 2 - 25))
    ((MAX_FUEL K) - 12)
    [enemyA K (-26) false; enemyB K (-28) false] [] 15 2.
Proof.
  destruct (demo_jump ((GAME_HEIGHT K) / 2 - 49) _ _ _ _ _ _ _ _ demo_world3)
    as (ids & Hs & Hl); [lra|].
  assert (HA : Rgtb (-26) ((GAME_HEIGHT K) / 2 - 100 + 50) = false)
    by (apply Rgtb_false; lra).
  assert (HB : Rgtb (-28) ((GAME_HEIGHT K) / 2 - 100 + 50) = false)
    by (apply Rgtb_false; lra).
  unfold count in Hl. cbn [filter existsb map] in Hs, Hl.
  unfold markHit in Hs. rewrite hit_A, hit_B, HA, HB in Hs, Hl.
  cbn [andb orb length] in Hs, Hl.
  destruct ids; [|discriminate]. cbn [map] in Hs.
  replace ((GAME_HEIGHT K) / 2 - 49 - ((GAME_HEIGHT K) / 2 - 100 + 50)) with 1
    in Hs by lra.
  rewrite jumpDist_unit in Hs.
  eapply demoShape_ext; [exact Hs|..]; try reflexivity; lra.
Qed.

Lemma demo_world5 :
  demoShape K (run K (demoConfig K) (firstn 5 (approach K)) (initialWorld K (demoConfig K))) PLAYING 3 ((GAME_WIDTH K) / 2 - 50) (-75)
    (- ((GAME_HEIGHT K) / 2 - 25)) ((MAX_FUEL K) - 12)
    [enemyA K (-24) false; enemyB K (-26) false] [] (15 * 0.9) 2.
Proof.
  pose proof (demo_frame quiet _ _ _ _ _ _ _ _ demo_world4) as Hf.
  cbv zeta in Hf.
  destruct (Rlt_dec 0 15) as [_|?]; [|lra].
  change (draw (after 2 quiet)) with 0.9 in Hf.
  rewrite spawn_draw_high in Hf. cbn [map] in Hf.
  rewrite fallen_A, fallen_B in Hf. cbn [filter] in Hf.
  rewrite keep_A, keep_B in Hf by lra.
  eapply demoShape_ext;
    [apply Hf; try lra| | | | |
     |f_equal; [|f_equal]; unfold enemyA, enemyB; f_equal|];
    try lra.
  repeat constructor; rewrite ?fallen_A, ?fallen_B;
    [apply far_A|apply far_B].
  unfold Rabs; destruct (Rcase_abs _); lra.
Qed.

(** The world after the strike: enemy A is flagged, the fuel is full and
    one shockwave sits at the centre of the player. *)
Lemma demo_world6 :
  exists id,
    demoShape K (step K (demoConfig K) (strike K) (run K (demoConfig K) (firstn 5 (approach K)) (initialWorld K (demoConfig K)))) PLAYING 3
      ((GAME_WIDTH K) / 2 - 50) (-75) 0 (MAX_FUEL K)
      [enemyA K (-24) true; enemyB K (-26) false]
      [pushedShockwave (demoConfig K) ((GAME_WIDTH K) / 2) (-25) 1.0 id] 15 2.
Proof.
  destruct (demo_jump (-25) _ _ _ _ _ _ _ _ demo_world5)
    as (ids & Hs & Hl); [lra|].
  assert (HA : Rgtb (-24) (-75 + 50) = true) by (apply Rgtb_true; lra).
  assert (HB : Rgtb (-26) (-75 + 50) = false) by (apply Rgtb_false; lra).
  unfold count in Hl. cbn [filter existsb map] in Hs, Hl.
  unfold markHit in Hs. rewrite hit_A, hit_B, HA, HB in Hs, Hl.
  cbn [andb orb negb length] in Hs, Hl.
  destruct ids as [|id [|? ?]]; try discriminate. cbn [map] in Hs.
  exists id.
  replace (-25 - (-75 + 50)) with 0 in Hs by lra.
  rewrite jumpDist_zero in Hs.
  replace (-75 + 50) with (-25) in Hs by lra.
  eapply demoShape_ext; [exact Hs|..]; try reflexivity.
  unfold Rdiv; ring.
Qed.

Lemma approach_ok : Forall (event_ok) (approach K).
Proof.
  unfold approach.
  repeat (apply Forall_cons; [cbn|]); try apply Forall_nil;
    auto using still_ok, quiet_ok, spawnA_ok, spawnB_ok.
Qed.

Lemma demo_world5_reachable : reachable K (demoConfig K) (run K (demoConfig K) (firstn 5 (approach K)) (initialWorld K (demoConfig K))).
Proof.
  apply reachable_run; [apply reach_init|exact approach_ok].
Qed.

Lemma demo_world6_reachable :
  reachable K (demoConfig K) (step K (demoConfig K) (strike K) (run K (demoConfig K) (firstn 5 (approach K)) (initialWorld K (demoConfig K)))).
Proof.
  apply reach_step; [exact demo_world5_reachable|exact still_ok].
Qed.

(** The shockwave of the strike, one frame later, has its full radius. *)
Lemma demo_shockwave_radius id :
  sw_radius
    (growShockwave ((GAME_WIDTH K) / 2) (-25)
       (pushedShockwave (demoConfig K) ((GAME_WIDTH K) / 2) (-25) 1.0 id))
  = 80.
Proof.
  unfold growShockwave, pushedShockwave, dt; cbn.
  replace ((1 - (2 - 1.0) / 2) * PI) with (PI / 2) by lra.
  rewrite sin_PI2; lra.
Qed.

(** The frame after the strike: the shockwave flags enemy B, and enemy B,
    flagged, falls onto the player. *)
Lemma demo_last_frame :
  let w := step K (demoConfig K) (strike K) (run K (demoConfig K) (firstn 5 (approach K)) (initialWorld K (demoConfig K))) in
  gameState w = PLAYING /\ invincibilityFrames w = 0
  /\ enemies w = [enemyA K (-24) true; enemyB K (-26) false]
  /\ frameBurned w = [enemyA K (-24) true; enemyB K (-26) true]
  /\ frameEnemies K (demoConfig K) quiet w
     = [enemyA K (-24) true; enemyB K (-26) true]
  /\ frameTouches w (fallen (enemyA K (-24) true)) = false
  /\ frameTouches w (fallen (enemyB K (-26) true)) = true
  /\ frameFell K (demoConfig K) w = false
  /\ gameState (update K (demoConfig K) quiet w) = GAMEOVER.
Proof.
  cbv zeta. destruct demo_world6 as (id & Hs).
  set (w := step K (demoConfig K) (strike K) _) in *.
  destruct Hs as (Hst&Hel&Hinv&Hx&Hy&Hw&Hh&Hvx&Hvy&Hf&Hm&Hes&Hsw&Hint&Heid).
  destruct (update_view K (demoConfig K) quiet w Hst) as (Vg&_).
  destruct (demo_movePlayer (player w) (sh_intensity (shake w)) Hx Hw Hvx)
    as (Mx&My&Mvx&Mvy&Mf&Mi).
  assert (Hfell : frameFell K (demoConfig K) w = false).
  { unfold frameFell. apply Rltb_false. rewrite Hy, Hvy.
    cbn [gravity demoConfig]; unfold dt; lra. }
  assert (Hfi : frameIntensity K (demoConfig K) w = 15)
    by (unfold frameIntensity; rewrite Hfell, Mi; exact Hint).
  assert (Hrng : frameRng K (demoConfig K) quiet w = after 2 quiet).
  { unfold frameRng; rewrite Hfi. destruct (Rlt_dec 0 15); [reflexivity|lra]. }
  assert (Hfinv : frameInv w = 0)
    by (unfold frameInv; rewrite Hinv; destruct (Rlt_dec 0 0); lra).
  assert (Hcx : centerX (player w) = (GAME_WIDTH K) / 2)
    by (unfold centerX; rewrite Hx, Hw; lra).
  assert (Hcy : centerY (player w) = -25)
    by (unfold centerY; rewrite Hy, Hh; lra).
  assert (Hb : frameBurned w = [enemyA K (-24) true; enemyB K (-26) true]).
  { unfold frameBurned. rewrite Hes, Hsw, Hcx, Hcy. cbn [map].
    unfold markHit, burnedBy. cbn [existsb enemyA enemyB en_isDead negb andb].
    rewrite demo_shockwave_radius. cbn [orb en_radius].
    replace (Rltb _ _) with true; [reflexivity|].
    symmetry; apply Rltb_true. unfold distTo; cbn.
    replace ((GAME_WIDTH K) / 2 + 60 - (GAME_WIDTH K) / 2) with 60 by lra.
    apply sqrt_lt_bound; lra. }
  assert (Hsp : spawns (demoConfig K) (after 2 quiet)
                  ((elapsedTime w + dt) / 60) = false).
  { rewrite (spawns_flat (demoConfig K) 0 0)
      by (try reflexivity; rewrite Hel; unfold dt; lra).
    apply spawn_draw_high. }
  assert (Hfe : frameEnemies K (demoConfig K) quiet w
                = [enemyA K (-24) true; enemyB K (-26) true]).
  { unfold frameEnemies; cbv zeta. now rewrite Hrng, Hsp. }
  assert (HtA : frameTouches w (fallen (enemyA K (-24) true)) = false).
  { unfold frameTouches. rewrite fallen_A, Hcx, Hw. apply far_A. }
  assert (HtB : frameTouches w (fallen (enemyB K (-26) true)) = true).
  { unfold frameTouches. rewrite fallen_B, Hcx, Hcy, Hfinv, Hw.
    unfold touches. apply andb_true_iff; split.
    - apply Rleb_true; lra.
    - apply Rltb_true. unfold distTo, enemyB; cbn.
      replace ((GAME_WIDTH K) / 2 + 60 - (GAME_WIDTH K) / 2) with 60 by lra.
      apply sqrt_lt_bound; lra. }
  repeat split; try assumption.
  rewrite Vg, Hfell, Hfe. cbn [map existsb]. now rewrite HtA, HtB.
Qed.

(** The reset of the mounted component, seen as a world of the run. *)
Lemma demo_reset :
  demoShape K (resetGame K (demoConfig K) (initialWorld K (demoConfig K)))
    PLAYING 0 ((GAME_WIDTH K) / 2 - 50) ((GAME_HEIGHT K) / 2 - 100) 0
    (MAX_FUEL K) [] [] 0 0.
Proof.
  destruct (resetGame_fields K (demoConfig K) (initialWorld K (demoConfig K)))
    as (R1&_&R3&R4&R5&R6&_&_&R9&R10&_&R12&_).
  unfold demoShape. rewrite R1, R3, R4, R5, R6, R9, R10, R12.
  cbn. repeat split; lra.
Qed.

(** A jump in the fifth world of the run, whatever its target, refills the
    fuel: enemy A is below the player and inside the band of the pulse. *)
Lemma demo_refill mx my g :
  let w := (run K (demoConfig K) (firstn 5 (approach K)) (initialWorld K (demoConfig K))) in
  gameState w = PLAYING
  /\ pl_fuel (player w) = (MAX_FUEL K) - 12
  /\ centerX (player w) = (GAME_WIDTH K) / 2
  /\ centerY (player w) = -25
  /\ existsb (jumpHits K (demoConfig K) w) (enemies w) = true
  /\ pl_fuel (player (executeJump K (demoConfig K) mx my g w)) = (MAX_FUEL K).
Proof.
  cbv zeta.
  destruct demo_world5
    as (Hst&Hel&Hinv&Hx&Hy&Hw&Hh&Hvx&Hvy&Hf&Hm&Hes&Hsw&Hint&Heid).
  set (w := run K (demoConfig K) _ _) in *.
  assert (Hc : fuelConsumption (demoConfig K) <= pl_fuel (player w))
    by (rewrite Hf; cbn; lra).
  assert (Hcx : centerX (player w) = (GAME_WIDTH K) / 2)
    by (unfold centerX; rewrite Hx, Hw; lra).
  assert (Hcy : centerY (player w) = -25)
    by (unfold centerY; rewrite Hy, Hh; lra).
  assert (Hpw : pulseWidthOf (player w) false = 110)
    by (unfold pulseWidthOf; rewrite Hw; lra).
  assert (Hex : existsb (jumpHits K (demoConfig K) w) (enemies w) = true).
  { rewrite Hes; cbn [existsb]. unfold jumpHits; cbv zeta.
    change (inDeadZone K (demoConfig K) (player w)) with false.
    rewrite Hcx, Hcy, Hpw, hit_A.
    replace (Rgtb (-24) (-25)) with true
      by (symmetry; apply Rgtb_true; lra).
    reflexivity. }
  repeat split; try assumption.
  rewrite (executeJump_fuel K (demoConfig K) mx my g w Hc), Hex. exact Hm.
Qed.


(** Frames without a spawn leave the freshly started game as it is, its
    clock apart: the game can be left idle. *)
Lemma demo_idle n w el :
  demoShape K w PLAYING el ((GAME_WIDTH K) / 2 - 50)
    ((GAME_HEIGHT K) / 2 - 100) 0 (MAX_FUEL K) [] [] 0 0 ->
  0 <= el -> el + INR n < 7200 ->
  playing_before K (demoConfig K) (repeat (Frame quiet) n) w.
Proof.
  revert w el; induction n as [|n IH]; intros w el Hs Hel Hn; [exact I|].
  cbn [repeat playing_before]. split; [apply Hs|].
  rewrite S_INR in Hn. pose proof (pos_INR n) as Hpos.
  pose proof (demo_frame quiet _ _ _ _ _ _ _ _ Hs) as Hf.
  cbv zeta in Hf.
  destruct (Rlt_dec 0 0) as [?|_]; [lra|].
  change (draw quiet) with 0.9 in Hf.
  rewrite spawn_draw_high in Hf. cbn [map filter] in Hf.
  apply (IH _ (el + 1)); [|lra|lra].
  eapply demoShape_ext; [apply Hf; try lra; constructor|..];
    try reflexivity; lra.
Qed.

(** C10.  The lethal-contact test of [update] does not read [isDead], and
    there is a reachable frame in which an enemy that the shockwave pass of
    that very frame has flagged dead falls onto a vulnerable player and ends
    the game: it is the only enemy in contact, and the player has not fallen
    out. *)
Theorem dead_enemy_contact :
  (forall cx cy inv wd b e,
     touches cx cy inv wd (set_isDead b e) = touches cx cy inv wd e)
  /\ deadContactFrame K (demoConfig K).
Proof.
  split; [exact touches_flag|].
  destruct demo_last_frame as (Hst&Hinv&Hes&Hb&Hfe&HtA&HtB&Hfell&Hover).
  exists (step K (demoConfig K) (strike K) (run K (demoConfig K) (firstn 5 (approach K)) (initialWorld K (demoConfig K)))), quiet,
    (enemyB K (-26) false).
  change (set_isDead true (enemyB K (-26) false))
    with (enemyB K (-26) true).
  rewrite frameBurnt_enemies, Hb, Hfe, Hes.
  split; [exact demo_world6_reachable|]. split; [exact quiet_ok|].
  split; [exact Hst|]. split; [lra|].
  split; [right; now left|]. split; [reflexivity|].
  split; [right; now left|]. split; [right; now left|].
  split; [exact HtB|]. split; [exact Hfell|]. split; [|exact Hover].
  intros e' [<-|[<-|[]]] Ht; [congruence|reflexivity].
Qed.

End Demo.

(** * A spawn next to the wall *)

Section Wall.

Variable K : Constants.
Hypothesis HW : 100 <= GAME_WIDTH K.
Hypothesis HH : 0 < GAME_HEIGHT K.
Hypothesis HM : 12 <= MAX_FUEL K.




End Wall.

(** * The theorems at work on the sample data *)

(** A jump of the mounted component with the default configuration costs
    12 of its 100 units of fuel. *)
Lemma executeJump_fuel_accounting_witness :
  fuelConsumption defaultConfig
  <= pl_fuel (player (initialWorld sampleConstants defaultConfig))
  /\ pl_fuel
       (player
          (executeJump sampleConstants defaultConfig 0 0 still
             (initialWorld sampleConstants defaultConfig)))
     = 100 - 12.
Proof.
  assert (H : fuelConsumption defaultConfig
              <= pl_fuel (player (initialWorld sampleConstants defaultConfig)))
    by (cbn; lra).
  split; [exact H|].
  exact (executeJump_fuel_accounting sampleConstants defaultConfig 0 0 still
           _ H).
Defined.

(** C1, as stated, fails in the fifth world of the sample run: the player
    has [MAX_FUEL - 12] units of fuel, which is enough to jump, and the jump
    leaves [MAX_FUEL] units, not [MAX_FUEL - 24], because its pulse
    eliminates the enemy below the player. *)
Lemma jump_refill_counterexample :
  reachable sampleConstants (demoConfig sampleConstants) (run sampleConstants (demoConfig sampleConstants) (firstn 5 (approach sampleConstants)) (initialWorld sampleConstants (demoConfig sampleConstants)))
  /\ gameState (run sampleConstants (demoConfig sampleConstants) (firstn 5 (approach sampleConstants)) (initialWorld sampleConstants (demoConfig sampleConstants))) = PLAYING
  /\ fuelConsumption (demoConfig sampleConstants)
     <= pl_fuel (player (run sampleConstants (demoConfig sampleConstants) (firstn 5 (approach sampleConstants)) (initialWorld sampleConstants (demoConfig sampleConstants))))
  /\ pl_fuel (player (run sampleConstants (demoConfig sampleConstants) (firstn 5 (approach sampleConstants)) (initialWorld sampleConstants (demoConfig sampleConstants)))) = 88
  /\ pl_fuel
       (player
          (executeJump sampleConstants (demoConfig sampleConstants) 0 0 still
             (run sampleConstants (demoConfig sampleConstants) (firstn 5 (approach sampleConstants)) (initialWorld sampleConstants (demoConfig sampleConstants)))))
     = 100
  /\ pl_fuel
       (player
          (executeJump sampleConstants (demoConfig sampleConstants) 0 0 still
             (run sampleConstants (demoConfig sampleConstants) (firstn 5 (approach sampleConstants)) (initialWorld sampleConstants (demoConfig sampleConstants)))))
     <> pl_fuel (player (run sampleConstants (demoConfig sampleConstants) (firstn 5 (approach sampleConstants)) (initialWorld sampleConstants (demoConfig sampleConstants))))
        - fuelConsumption (demoConfig sampleConstants).
Proof.
  destruct (demo_refill sampleConstants ltac:(cbn; lra) ltac:(cbn; lra)
              ltac:(cbn; lra) 0 0 still) as (HP & Hf & _ & _ & _ & Hj).
  cbn [MAX_FUEL sampleConstants] in Hf, Hj.
  split; [apply demo_world5_reachable|]. split; [exact HP|].
  rewrite Hj, Hf. cbn [fuelConsumption demoConfig]. repeat split; lra.
Qed.

(** A jump of a player with 5 units of fuel is rejected. *)
Lemma executeJump_rejected_witness :
  pl_fuel (player lowFuelWorld) < fuelConsumption defaultConfig
  /\ player (executeJump sampleConstants defaultConfig 0 0 still lowFuelWorld)
     = player lowFuelWorld
  /\ sh_intensity
       (shake (executeJump sampleConstants defaultConfig 0 0 still lowFuelWorld))
     = 5.
Proof.
  assert (H : pl_fuel (player lowFuelWorld) < fuelConsumption defaultConfig)
    by (cbn; lra).
  split; [exact H|].
  destruct (executeJump_rejected sampleConstants defaultConfig 0 0 still
              lowFuelWorld H) as (_ & Hp & _ & _ & _ & _ & _ & _ & _ & _ & Hi & _).
  split; [exact Hp|exact Hi].
Defined.

(** The fuel invariant with the default configuration. *)
Lemma fuel_invariant_witness :
  (0 <= fuelConsumption defaultConfig /\ 0 <= fuelRegen defaultConfig
   /\ 0 <= MAX_FUEL sampleConstants)
  /\ fuel_ok (update sampleConstants defaultConfig still lowFuelWorld)
  /\ fuel_ok (resetGame sampleConstants defaultConfig lowFuelWorld).
Proof.
  assert (H1 : 0 <= fuelConsumption defaultConfig) by (cbn; lra).
  assert (H2 : 0 <= fuelRegen defaultConfig) by (cbn; lra).
  assert (H3 : 0 <= MAX_FUEL sampleConstants) by (cbn; lra).
  split; [repeat split; assumption|].
  destruct (fuel_invariant sampleConstants defaultConfig H1 H2 H3)
    as (_ & Hu & _ & Hr).
  split; [apply Hu; unfold fuel_ok; cbn; lra|apply Hr].
Defined.

(** 180 idle frames after a reset, without gravity and without spawns,
    leave a score of 30. *)
Lemma score_formula_witness :
  reachable sampleConstants (demoConfig sampleConstants)
    (initialWorld sampleConstants (demoConfig sampleConstants))
  /\ playing_before sampleConstants (demoConfig sampleConstants)
       (repeat (Frame quiet) 180)
       (resetGame sampleConstants (demoConfig sampleConstants)
          (initialWorld sampleConstants (demoConfig sampleConstants)))
  /\ score
       (run sampleConstants (demoConfig sampleConstants)
          (repeat (Frame quiet) 180)
          (resetGame sampleConstants (demoConfig sampleConstants)
             (initialWorld sampleConstants (demoConfig sampleConstants))))
     = 30.
Proof.
  assert (Hr : reachable sampleConstants (demoConfig sampleConstants)
                 (initialWorld sampleConstants (demoConfig sampleConstants)))
    by apply reach_init.
  assert (Hp : playing_before sampleConstants (demoConfig sampleConstants)
                 (repeat (Frame quiet) 180)
                 (resetGame sampleConstants (demoConfig sampleConstants)
                    (initialWorld sampleConstants
                       (demoConfig sampleConstants)))).
  { apply (demo_idle sampleConstants ltac:(cbn; lra) ltac:(cbn; lra) 180 _ 0);
      [apply demo_reset|lra|].
    replace (INR 180) with 180 by (rewrite INR_IZR_INZ; reflexivity). lra. }
  split; [exact Hr|]. split; [exact Hp|].
  destruct (score_formula sampleConstants (demoConfig sampleConstants) _ Hr)
    as (_ & Hb & _).
  destruct (Hb _ Hp) as (_ & _ & H180). apply H180.
  reflexivity.
Defined.

(** A press over the game starts it; a press while the pointer is away
    from the game, during the game, changes nothing. *)
Lemma interaction_state_machine_witness :
  gameState
    (handleGlobalInteraction sampleConstants defaultConfig
       (clickAt sampleConstants 0 0) still
       (initialWorld sampleConstants defaultConfig))
  = PLAYING
  /\ player
       (handleGlobalInteraction sampleConstants defaultConfig
          (clickAt sampleConstants 0 0) still
          (initialWorld sampleConstants defaultConfig))
     = initialPlayer sampleConstants defaultConfig
  /\ gameState lowFuelWorld = PLAYING
  /\ handleGlobalInteraction sampleConstants defaultConfig
       (clickAway sampleConstants) still lowFuelWorld
     = lowFuelWorld.
Proof.
  destruct (interaction_state_machine sampleConstants defaultConfig
              (clickAt sampleConstants 0 0) still
              (initialWorld sampleConstants defaultConfig))
    as (Hreset & _).
  destruct (Hreset eq_refl ltac:(discriminate))
    as (Hg & _ & _ & _ & _ & _ & _ & Hp & _).
  destruct (interaction_state_machine sampleConstants defaultConfig
              (clickAway sampleConstants) still lowFuelWorld)
    as (_ & Hignored & _).
  split; [exact Hg|]. split; [exact Hp|]. split; [reflexivity|].
  exact (Hignored eq_refl eq_refl).
Defined.

(** C5, as stated, fails on a mouse press while the pointer is away from
    the game: the handler receives it in [START] and returns the world as it
    was, still in [START]. *)
Lemma ignored_press_counterexample :
  reachable sampleConstants defaultConfig
    (initialWorld sampleConstants defaultConfig)
  /\ gameState (initialWorld sampleConstants defaultConfig) = START
  /\ handleGlobalInteraction sampleConstants defaultConfig
       (clickAway sampleConstants) still
       (initialWorld sampleConstants defaultConfig)
     = initialWorld sampleConstants defaultConfig
  /\ gameState
       (handleGlobalInteraction sampleConstants defaultConfig
          (clickAway sampleConstants) still
          (initialWorld sampleConstants defaultConfig))
     <> PLAYING.
Proof.
  split; [apply reach_init|]. split; [reflexivity|].
  split; [reflexivity|]. discriminate.
Qed.

(** The frame after the strike of the sample run: one shockwave is alive,
    with a [maxLife] of 2, one enemy is flagged by it, one shockwave is
    pushed. *)
Lemma shockwave_chain_witness :
  reachable sampleConstants (demoConfig sampleConstants)
    (step sampleConstants (demoConfig sampleConstants)
       (strike sampleConstants) (run sampleConstants (demoConfig sampleConstants) (firstn 5 (approach sampleConstants)) (initialWorld sampleConstants (demoConfig sampleConstants))))
  /\ gameState
       (step sampleConstants (demoConfig sampleConstants)
          (strike sampleConstants) (run sampleConstants (demoConfig sampleConstants) (firstn 5 (approach sampleConstants)) (initialWorld sampleConstants (demoConfig sampleConstants))))
     = PLAYING
  /\ Forall (fun sw => sw_maxLife sw <> 0)
       (shockwaves
          (step sampleConstants (demoConfig sampleConstants)
             (strike sampleConstants) (run sampleConstants (demoConfig sampleConstants) (firstn 5 (approach sampleConstants)) (initialWorld sampleConstants (demoConfig sampleConstants)))))
  /\ exists news,
       length news = 1%nat
       /\ Forall (chained (demoConfig sampleConstants) 200 (-25)) news
       /\ shockwaves
            (update sampleConstants (demoConfig sampleConstants) quiet
               (step sampleConstants (demoConfig sampleConstants)
                  (strike sampleConstants) (run sampleConstants (demoConfig sampleConstants) (firstn 5 (approach sampleConstants)) (initialWorld sampleConstants (demoConfig sampleConstants)))))
          = filter (fun sw => Rltb 0 (sw_life sw))
              (map (growShockwave 200 (-25))
                 (shockwaves
                    (step sampleConstants (demoConfig sampleConstants)
                       (strike sampleConstants) (run sampleConstants (demoConfig sampleConstants) (firstn 5 (approach sampleConstants)) (initialWorld sampleConstants (demoConfig sampleConstants)))))
               ++ news).
Proof.
  pose proof (demo_world6_reachable sampleConstants) as Hr.
  destruct (demo_last_frame sampleConstants ltac:(cbn; lra) ltac:(cbn; lra)
              ltac:(cbn; lra)) as (HP & _ & Hes & Hb & _).
  destruct (demo_world6 sampleConstants ltac:(cbn; lra) ltac:(cbn; lra)
              ltac:(cbn; lra))
    as (id & _&_&_&Hx&Hy&Hw&Hh&_&_&_&_&_&Hsw&_).
  assert (Hml : Forall (fun sw => sw_maxLife sw <> 0)
                  (shockwaves
                     (step sampleConstants (demoConfig sampleConstants)
                        (strike sampleConstants) (run sampleConstants (demoConfig sampleConstants) (firstn 5 (approach sampleConstants)) (initialWorld sampleConstants (demoConfig sampleConstants)))))).
  { rewrite Hsw. repeat constructor; cbn; lra. }
  split; [exact Hr|]. split; [exact HP|]. split; [exact Hml|].
  assert (Hrad : Forall (fun e => 0 <= en_radius e)
                   (enemies
                      (step sampleConstants (demoConfig sampleConstants)
                         (strike sampleConstants) (run sampleConstants (demoConfig sampleConstants) (firstn 5 (approach sampleConstants)) (initialWorld sampleConstants (demoConfig sampleConstants)))))).
  { rewrite Hes. repeat constructor; cbn; lra. }
  destruct (shockwave_chain sampleConstants (demoConfig sampleConstants) quiet
              _ HP Hrad Hml) as (news & He & _ & Hs & Hc & Hl & _).
  set (w := step sampleConstants _ _ _) in *.
  assert (Hcx : centerX (player w) = 200)
    by (unfold centerX; rewrite Hx, Hw; cbn; lra).
  assert (Hcy : centerY (player w) = -25)
    by (unfold centerY; rewrite Hy, Hh; lra).
  rewrite Hcx, Hcy in *.
  exists news. split; [|split; [exact Hc|exact Hs]].
  rewrite Hl, frameBurnt_enemies, Hb, Hes. reflexivity.
Defined.



(** The centre that C8 measures from is the one the player has when the
    frame starts.  With the default configuration, after the two events of
    [sidestep] the player, its centre at [x = 200], leaves to the right at 6
    units a frame; the next frame draws the position 261.875, which is
    61.875 units from that centre and is kept, inside the bounds; the frame
    has moved the centre of the player to 206 by then, 55.875 units from
    the enemy. *)
Lemma spawn_measured_before_move :
  reachable sampleConstants defaultConfig
    (run sampleConstants defaultConfig (sidestep sampleConstants)
       (initialWorld sampleConstants defaultConfig))
  /\ gameState
       (run sampleConstants defaultConfig (sidestep sampleConstants)
          (initialWorld sampleConstants defaultConfig))
     = PLAYING
  /\ rng_ok spawnC
  /\ spawns defaultConfig
       (frameRng sampleConstants defaultConfig spawnC
          (run sampleConstants defaultConfig (sidestep sampleConstants)
             (initialWorld sampleConstants defaultConfig)))
       ((elapsedTime
           (run sampleConstants defaultConfig (sidestep sampleConstants)
              (initialWorld sampleConstants defaultConfig))
         + dt) / 60) = true
  /\ exists e,
       enemies
         (frameSpawned sampleConstants defaultConfig spawnC
            (run sampleConstants defaultConfig (sidestep sampleConstants)
               (initialWorld sampleConstants defaultConfig)))
       = enemies
           (frameBurnt sampleConstants defaultConfig spawnC
              (run sampleConstants defaultConfig (sidestep sampleConstants)
                 (initialWorld sampleConstants defaultConfig)))
         ++ [e]
       /\ en_x e = 261.875
       /\ 20 < en_x e < GAME_WIDTH sampleConstants - 20
       /\ centerX
            (player
               (run sampleConstants defaultConfig (sidestep sampleConstants)
                  (initialWorld sampleConstants defaultConfig)))
          = 200
       /\ centerX
            (player
               (update sampleConstants defaultConfig spawnC
                  (run sampleConstants defaultConfig
                     (sidestep sampleConstants)
                     (initialWorld sampleConstants defaultConfig))))
          = 206
       /\ Rabs
            (en_x e
             - centerX
                 (player
                    (update sampleConstants defaultConfig spawnC
                       (run sampleConstants defaultConfig
                          (sidestep sampleConstants)
                          (initialWorld sampleConstants defaultConfig)))))
          < 60.
Proof.
  assert (HC : rng_ok spawnC)
    by (apply rng_of_ok; repeat constructor; lra).
  assert (Hreach : reachable sampleConstants defaultConfig
                     (run sampleConstants defaultConfig
                        (sidestep sampleConstants)
                        (initialWorld sampleConstants defaultConfig))).
  { apply reachable_run; [apply reach_init|].
    unfold sidestep.
    repeat (apply Forall_cons; [cbn|]); try apply Forall_nil;
      auto using still_ok. }
  set (w := run sampleConstants defaultConfig (sidestep sampleConstants) _)
    in *.
  assert (Hw : gameState w = PLAYING /\ elapsedTime w = 0
               /\ pl_x (player w) = 190 /\ pl_y (player w) = 200
               /\ pl_width (player w) = 20
               /\ pl_vx (player w) = 6 /\ pl_vy (player w) = 0
               /\ enemies w = [] /\ shockwaves w = []
               /\ sh_intensity (shake w) = 15).
  { subst w. unfold sidestep, run; cbn [fold_left].
    set (v1 := step sampleConstants defaultConfig
                 (Pointer (clickAt sampleConstants 0 0) still) _).
    assert (S1 : gameState v1 = PLAYING /\ elapsedTime v1 = 0
                 /\ player v1 = initialPlayer sampleConstants defaultConfig
                 /\ enemies v1 = [] /\ shockwaves v1 = []).
    { subst v1; unfold step.
      match goal with |- context [syncHighScore ?x] =>
        destruct (syncHighScore_same x)
          as (Sg&_&St&_&Sp&Se&_&_&Ss&_) end.
      rewrite Sg, St, Sp, Se, Ss.
      unfold handleGlobalInteraction, clickAt; cbn [isMouseOver isTouch negb
        andb gameState initialWorld].
      destruct (resetGame_fields sampleConstants defaultConfig
                  (initialWorld sampleConstants defaultConfig))
        as (R1&_&R3&_&R5&R6&_&_&R9&_).
      repeat split; assumption. }
    destruct S1 as (A1&A2&A4&A5&A6). clearbody v1.
    unfold step.
    match goal with |- context [syncHighScore ?x] =>
      destruct (syncHighScore_same x)
        as (Sg&_&St&_&Sp&Se&_&_&Ss&Ssh&_) end.
    rewrite Sg, St, Sp, Se, Ss, Ssh.
    unfold handleGlobalInteraction, clickAt; cbn [isMouseOver isTouch negb
      andb clientX clientY rect_left rect_top rect_width rect_height].
    rewrite A1. cbn [andb GAME_WIDTH GAME_HEIGHT sampleConstants].
    replace ((400 / 2 - 1 - 0) * (400 / 400)) with 199 by lra.
    replace ((600 / 2 - 100 + 10 - 0) * (600 / 600)) with 210 by lra.
    assert (Hc : fuelConsumption defaultConfig <= pl_fuel (player v1))
      by (rewrite A4; cbn; lra).
    assert (Hcx : centerX (player v1) = 200)
      by (rewrite A4; unfold centerX; cbn; lra).
    assert (Hcy : centerY (player v1) = 210)
      by (rewrite A4; unfold centerY; cbn; lra).
    destruct (executeJump_view sampleConstants defaultConfig 199 210 still
                v1 Hc)
      as (V1&V2&_&_&V5&V6&V7&_&V9&V10&_&_&V13&V14&ids&V15&V16).
    rewrite A5 in V13, V16. rewrite A6 in V15.
    cbn [map] in V13. unfold count in V16; cbn in V16.
    destruct ids; [|destruct (burningEnabled defaultConfig); discriminate].
    cbn [map app] in V15.
    change (inDeadZone sampleConstants defaultConfig (player v1))
      with false in *.
    rewrite Hcx, Hcy in V9, V10.
    assert (Hd : jumpDist (199 - 200) (210 - 210) = 1).
    { unfold jumpDist, js_or.
      replace ((199 - 200) * (199 - 200) + (210 - 210) * (210 - 210))
        with 1 by lra.
      rewrite sqrt_1. destruct (Req_dec_T 1 0); [lra|reflexivity]. }
    rewrite Hd in V9, V10.
    rewrite V1, V2, V5, V6, V7, V9, V10, V13, V14, V15, A1, A2, A4.
    cbn. repeat split; lra. }
  destruct Hw as (HP&Hel&Hx&Hy&Hwd&Hvx&Hvy&Hes&Hsw&Hint).
  clearbody w.
  destruct (update_view sampleConstants defaultConfig spawnC w HP)
    as (_&_&_&Vp&_).
  destruct (movePlayer_x sampleConstants defaultConfig (player w)
              (sh_intensity (shake w))) as (_&_&_&_&Mx).
  destruct Mx as (Mx&_&Mi);
    [rewrite Hx, Hvx, Hwd; cbn; unfold dt; lra|].
  destruct (movePlayer_fields sampleConstants defaultConfig (player w)
              (sh_intensity (shake w))) as (Mw&_).
  assert (Hfell : frameFell sampleConstants defaultConfig w = false).
  { unfold frameFell. apply Rltb_false. rewrite Hy, Hvy.
    cbn [GAME_HEIGHT sampleConstants gravity defaultConfig]; unfold dt.
    lra. }
  assert (Hfi : frameIntensity sampleConstants defaultConfig w = 15)
    by (unfold frameIntensity; rewrite Hfell, Mi; exact Hint).
  assert (Hrng : frameRng sampleConstants defaultConfig spawnC w
                 = after 2 spawnC).
  { unfold frameRng; rewrite Hfi.
    destruct (Rlt_dec 0 15); [reflexivity|lra]. }
  assert (Hsp : spawns defaultConfig (after 2 spawnC)
                  ((elapsedTime w + dt) / 60) = true).
  { apply (spawns_below defaultConfig 0).
    - discriminate.
    - repeat constructor; cbn; lra.
    - cbn; lra.
    - cbn; lra.
    - rewrite Hel; unfold dt; lra.
    - unfold draw, after, spawnC, rng_of; cbn; lra. }
  assert (Hcx : centerX (player w) = 200)
    by (unfold centerX; rewrite Hx, Hwd; lra).
  assert (Hcx' : centerX
                   (player (update sampleConstants defaultConfig spawnC w))
                 = 206).
  { unfold centerX. rewrite Vp, Mx, Mw, Hx, Hvx, Hwd. unfold dt; lra. }
  split; [exact Hreach|]. split; [exact HP|]. split; [exact HC|].
  rewrite Hrng. split; [exact Hsp|].
  rewrite frameSpawned_enemies, frameBurnt_enemies.
  unfold frameEnemies; cbv zeta. rewrite Hrng, Hsp.
  eexists; split; [reflexivity|].
  assert (Hex : en_x
                  (newEnemy sampleConstants defaultConfig
                     (centerX (player w)) (after 1 (after 2 spawnC))
                     (enemyIdCounter w) ((elapsedTime w + dt) / 60))
                = 261.875).
  { unfold newEnemy; cbn [en_x]. rewrite Hcx.
    unfold spawnX, after, spawnC, rng_of; cbv zeta.
    cbn [nth Nat.add GAME_WIDTH sampleConstants].
    destruct (Rlt_dec (Rabs (43 / 64 * (400 - 40) + 20 - 200)) 60)
      as [Hin|_]; [|lra].
    exfalso. unfold Rabs in Hin.
    destruct (Rcase_abs (43 / 64 * (400 - 40) + 20 - 200)); lra. }
  rewrite Hex, Hcx'. cbn [GAME_WIDTH sampleConstants].
  split; [reflexivity|]. split; [lra|]. split; [exact Hcx|].
  split; [reflexivity|].
  unfold Rabs; destruct (Rcase_abs _); lra.
Qed.

(** A jump of the mounted component aimed at the centre of its player. *)
Lemma zero_length_jump_witness :
  fuelConsumption defaultConfig
  <= pl_fuel (player (initialWorld sampleConstants defaultConfig))
  /\ pl_vx
       (player
          (executeJump sampleConstants defaultConfig
             (centerX (player (initialWorld sampleConstants defaultConfig)))
             (centerY (player (initialWorld sampleConstants defaultConfig)))
             still (initialWorld sampleConstants defaultConfig)))
     = 0
  /\ pl_fuel
       (player
          (executeJump sampleConstants defaultConfig
             (centerX (player (initialWorld sampleConstants defaultConfig)))
             (centerY (player (initialWorld sampleConstants defaultConfig)))
             still (initialWorld sampleConstants defaultConfig)))
     = 100 - 12.
Proof.
  assert (H : fuelConsumption defaultConfig
              <= pl_fuel (player (initialWorld sampleConstants defaultConfig)))
    by (cbn; lra).
  split; [exact H|].
  destruct (zero_length_jump sampleConstants defaultConfig still
              (initialWorld sampleConstants defaultConfig) H)
    as (_ & _ & Hvx & _ & Hf & _).
  split; [exact Hvx|exact Hf].
Defined.

(** C9, as stated, fails in the fifth world of the sample run: the jump
    aimed at the centre of the player, [(200, -25)], is accepted with 88
    units of fuel and leaves 100, not 76, because its pulse eliminates the
    enemy below the player. *)
Lemma zero_jump_refill_counterexample :
  reachable sampleConstants (demoConfig sampleConstants) (run sampleConstants (demoConfig sampleConstants) (firstn 5 (approach sampleConstants)) (initialWorld sampleConstants (demoConfig sampleConstants)))
  /\ centerX (player (run sampleConstants (demoConfig sampleConstants) (firstn 5 (approach sampleConstants)) (initialWorld sampleConstants (demoConfig sampleConstants)))) = 200
  /\ centerY (player (run sampleConstants (demoConfig sampleConstants) (firstn 5 (approach sampleConstants)) (initialWorld sampleConstants (demoConfig sampleConstants)))) = -25
  /\ fuelConsumption (demoConfig sampleConstants)
     <= pl_fuel (player (run sampleConstants (demoConfig sampleConstants) (firstn 5 (approach sampleConstants)) (initialWorld sampleConstants (demoConfig sampleConstants))))
  /\ pl_fuel
       (player
          (executeJump sampleConstants (demoConfig sampleConstants)
             (centerX (player (run sampleConstants (demoConfig sampleConstants) (firstn 5 (approach sampleConstants)) (initialWorld sampleConstants (demoConfig sampleConstants))))) (centerY (player (run sampleConstants (demoConfig sampleConstants) (firstn 5 (approach sampleConstants)) (initialWorld sampleConstants (demoConfig sampleConstants))))) still
             (run sampleConstants (demoConfig sampleConstants) (firstn 5 (approach sampleConstants)) (initialWorld sampleConstants (demoConfig sampleConstants)))))
     = 100
  /\ pl_fuel
       (player
          (executeJump sampleConstants (demoConfig sampleConstants)
             (centerX (player (run sampleConstants (demoConfig sampleConstants) (firstn 5 (approach sampleConstants)) (initialWorld sampleConstants (demoConfig sampleConstants))))) (centerY (player (run sampleConstants (demoConfig sampleConstants) (firstn 5 (approach sampleConstants)) (initialWorld sampleConstants (demoConfig sampleConstants))))) still
             (run sampleConstants (demoConfig sampleConstants) (firstn 5 (approach sampleConstants)) (initialWorld sampleConstants (demoConfig sampleConstants)))))
     <> pl_fuel (player (run sampleConstants (demoConfig sampleConstants) (firstn 5 (approach sampleConstants)) (initialWorld sampleConstants (demoConfig sampleConstants))))
        - fuelConsumption (demoConfig sampleConstants).
Proof.
  destruct (demo_refill sampleConstants ltac:(cbn; lra) ltac:(cbn; lra)
              ltac:(cbn; lra) (centerX (player (run sampleConstants (demoConfig sampleConstants) (firstn 5 (approach sampleConstants)) (initialWorld sampleConstants (demoConfig sampleConstants)))))
              (centerY (player (run sampleConstants (demoConfig sampleConstants) (firstn 5 (approach sampleConstants)) (initialWorld sampleConstants (demoConfig sampleConstants))))) still)
    as (HP & Hf & Hcx & Hcy & _ & Hj).
  cbn [MAX_FUEL GAME_WIDTH sampleConstants] in Hf, Hj, Hcx.
  split; [apply demo_world5_reachable|].
  split; [rewrite Hcx; lra|]. split; [exact Hcy|].
  rewrite Hj, Hf. cbn [fuelConsumption demoConfig]. repeat split; lra.
Qed.

(** The sample constants satisfy the bounds of the sample run. *)
Lemma dead_enemy_contact_witness :
  (160 <= GAME_WIDTH sampleConstants /\ 200 <= GAME_HEIGHT sampleConstants
   /\ 24 <= MAX_FUEL sampleConstants)
  /\ deadContactFrame sampleConstants (demoConfig sampleConstants).
Proof.
  assert (H1 : 160 <= GAME_WIDTH sampleConstants) by (cbn; lra).
  assert (H2 : 200 <= GAME_HEIGHT sampleConstants) by (cbn; lra).
  assert (H3 : 24 <= MAX_FUEL sampleConstants) by (cbn; lra).
  split; [repeat split; assumption|].
  exact (proj2 (dead_enemy_contact sampleConstants H1 H2 H3)).
Defined.

(** * The curve editor and the spawn director *)





(** * The further properties on the sample data *)


(** The mounted player of the default configuration is between the walls. *)
Lemma player_in_field_witness :
  playerSize defaultConfig <= GAME_WIDTH sampleConstants
  /\ inField sampleConstants (initialWorld sampleConstants defaultConfig).
Proof.
  assert (H : playerSize defaultConfig <= GAME_WIDTH sampleConstants)
    by (cbn; lra).
  split; [exact H|].
  exact (proj1 (player_in_field sampleConstants defaultConfig H) _
           (reach_init sampleConstants defaultConfig)).
Defined.

(** Frames of a player that rises from [y = 570] or above in a field 600
    high, under the gravity of the default configuration: as long as its
    vertical velocity stays at or below zero it does not fall out. *)
Lemma climb_frames gs :
  forall w,
    gameState w = PLAYING ->
    INR (length gs) < invincibilityFrames w ->
    pl_y (player w) <= 570 ->
    pl_vy (player w) + 0.16 * INR (length gs) <= 0 ->
    forall k, (k < length gs)%nat ->
      frameFell sampleConstants deadJumpConfig
        (run sampleConstants deadJumpConfig (map Frame (firstn k gs)) w)
      = false.
Proof.
  induction gs as [|g gs IH]; intros w HP Hi Hy Hv k Hk;
    [cbn in Hk; lia|].
  change (length (g :: gs)) with (S (length gs)) in *.
  rewrite S_INR in *.
  pose proof (pos_INR (length gs)) as Hn.
  assert (Hf0 : frameFell sampleConstants deadJumpConfig w = false).
  { unfold frameFell. apply Rltb_false.
    cbn [GAME_HEIGHT sampleConstants gravity deadJumpConfig]. unfold dt.
    lra. }
  destruct k as [|k]; [exact Hf0|].
  cbn [firstn map]. rewrite run_cons.
  destruct (update_invincible sampleConstants deadJumpConfig g w HP
              ltac:(lra)) as (Hg & Hv').
  rewrite Hf0 in Hg.
  pose proof (step_frame_player sampleConstants deadJumpConfig g w HP) as Hp.
  destruct (movePlayer_fields sampleConstants deadJumpConfig (player w)
              (sh_intensity (shake w))) as (_&_&_&My&Mvy).
  rewrite <- Hp in My, Mvy.
  cbn [gravity deadJumpConfig] in My, Mvy. unfold dt in My, Mvy.
  assert (Hs : gameState (step sampleConstants deadJumpConfig (Frame g) w)
               = PLAYING
               /\ invincibilityFrames
                    (step sampleConstants deadJumpConfig (Frame g) w)
                  = invincibilityFrames w - 1).
  { unfold step.
    destruct (syncHighScore_same
                (update sampleConstants deadJumpConfig g w))
      as (E1&_&_&E4&_).
    rewrite E1, E4. now split. }
  destruct Hs as (Hs1 & Hs2).
  apply IH; [exact Hs1|rewrite Hs2; lra|rewrite My; lra|rewrite Mvy; lra|lia].
Qed.

(** A super jump from the dead zone, straight up, with an enemy sitting on
    the player: the pulse of the jump goes upwards and leaves the enemy,
    which is within lethal reach in the frame that follows; the game is
    nevertheless [PLAYING] fourteen frames later, with one unit of
    invincibility left. *)
Lemma invincibility_window_witness :
  gameState deepWorld = PLAYING
  /\ fuelConsumption deadJumpConfig <= pl_fuel (player deepWorld)
  /\ inDeadZone sampleConstants deadJumpConfig (player deepWorld) = true
  /\ (length (repeat still 14) <= 14)%nat
  /\ enemies
       (executeJump sampleConstants deadJumpConfig 200 581 still deepWorld)
     = [sittingEnemy]
  /\ distTo (fallen sittingEnemy)
       (centerX
          (player
             (executeJump sampleConstants deadJumpConfig 200 581 still
                deepWorld)))
       (centerY
          (player
             (executeJump sampleConstants deadJumpConfig 200 581 still
                deepWorld)))
     < en_radius sittingEnemy
       + pl_width
           (player
              (executeJump sampleConstants deadJumpConfig 200 581 still
                 deepWorld)) / 2 - 2
  /\ gameState
       (run sampleConstants deadJumpConfig (map Frame (repeat still 14))
          (executeJump sampleConstants deadJumpConfig 200 581 still
             deepWorld))
     = PLAYING
  /\ invincibilityFrames
       (run sampleConstants deadJumpConfig (map Frame (repeat still 14))
          (executeJump sampleConstants deadJumpConfig 200 581 still
             deepWorld))
     = 15 - INR (length (repeat still 14)).
Proof.
  assert (H1 : gameState deepWorld = PLAYING) by reflexivity.
  assert (H2 : fuelConsumption deadJumpConfig <= pl_fuel (player deepWorld))
    by (cbn; lra).
  assert (H3 : inDeadZone sampleConstants deadJumpConfig (player deepWorld)
               = true)
    by (unfold inDeadZone; cbn [deadJumpEnabled deadJumpConfig andb];
        apply Rgtb_true; cbn; lra).
  assert (H4 : (length (repeat still 14) <= 14)%nat)
    by (rewrite repeat_length; lia).
  destruct (executeJump_view sampleConstants deadJumpConfig 200 581 still
              deepWorld H2)
    as (Vg&_&_&Vi&Vx&Vy&Vw&Vh&_&Vvy&_&_&Ve&_).
  rewrite H3 in Vi, Vvy.
  assert (Hcx : centerX (player deepWorld) = 200)
    by (unfold centerX; cbn; lra).
  assert (Hcy : centerY (player deepWorld) = 580)
    by (unfold centerY; cbn; lra).
  assert (He : enemies
                 (executeJump sampleConstants deadJumpConfig 200 581 still
                    deepWorld) = [sittingEnemy]).
  { rewrite Ve. cbn [enemies deepWorld map]. unfold markHit, jumpHits.
    cbv zeta. rewrite H3, Hcx, Hcy. unfold pulseHits; cbv zeta.
    replace (Rltb (en_y sittingEnemy) 580) with false
      by (symmetry; apply Rltb_false; cbn; lra).
    now rewrite andb_false_r. }
  set (w' := executeJump sampleConstants deadJumpConfig 200 581 still
               deepWorld) in *.
  assert (Hvy : pl_vy (player w') = -18).
  { rewrite Vvy, Hcx, Hcy.
    replace (200 - 200) with 0 by lra. replace (581 - 580) with 1 by lra.
    rewrite jumpDist_unit. cbn; lra. }
  assert (Hd : distTo (fallen sittingEnemy) (centerX (player w'))
                 (centerY (player w'))
               < en_radius sittingEnemy + pl_width (player w') / 2 - 2).
  { unfold centerX, centerY. rewrite Vx, Vy, Vw, Vh.
    unfold distTo, fallen, sittingEnemy, dt; cbn.
    apply sqrt_lt_bound; [nra|lra|nra]. }
  split; [exact H1|]. split; [exact H2|]. split; [exact H3|].
  split; [exact H4|]. split; [exact He|]. split; [exact Hd|].
  destruct (invincibility_window sampleConstants deadJumpConfig 200 581
              still deepWorld (repeat still 14) H1 H2 H3 H4)
    as (_ & Hrun & _).
  fold w' in Hrun. apply Hrun.
  apply climb_frames.
  - subst w'; rewrite Vg; exact H1.
  - rewrite Vi, repeat_length.
    replace (INR 14) with 14 by (rewrite INR_IZR_INZ; reflexivity). lra.
  - rewrite Vy; cbn; lra.
  - rewrite Hvy, repeat_length.
    replace (INR 14) with 14 by (rewrite INR_IZR_INZ; reflexivity). lra.
Defined.

(** A frame of a playing world leaves the game playing or over. *)
Lemma game_over_iff_witness :
  gameState lowFuelWorld = PLAYING
  /\ (gameState (update sampleConstants defaultConfig still lowFuelWorld)
      <> GAMEOVER ->
      gameState (update sampleConstants defaultConfig still lowFuelWorld)
      = PLAYING).
Proof.
  assert (H : gameState lowFuelWorld = PLAYING) by reflexivity.
  split; [exact H|].
  exact (proj2 (game_over_iff sampleConstants defaultConfig still
                  lowFuelWorld H)).
Defined.

(** The strike of the sample run pushes a shockwave; it is in shape, and so
    are the shockwaves of the frame that follows, in which it has grown to
    its full radius and flagged an enemy. *)
Lemma shockwave_shape_witness :
  0 < burningDuration (demoConfig sampleConstants)
  /\ 0 <= burningRadius (demoConfig sampleConstants)
  /\ (exists id,
        shockwaves
          (step sampleConstants (demoConfig sampleConstants)
             (strike sampleConstants) (run sampleConstants (demoConfig sampleConstants) (firstn 5 (approach sampleConstants)) (initialWorld sampleConstants (demoConfig sampleConstants))))
        = [pushedShockwave (demoConfig sampleConstants)
             (GAME_WIDTH sampleConstants / 2) (-25) 1.0 id])
  /\ Forall (shockwave_ok (demoConfig sampleConstants))
       (shockwaves
          (step sampleConstants (demoConfig sampleConstants)
             (strike sampleConstants) (run sampleConstants (demoConfig sampleConstants) (firstn 5 (approach sampleConstants)) (initialWorld sampleConstants (demoConfig sampleConstants)))))
  /\ Forall (shockwave_ok (demoConfig sampleConstants))
       (shockwaves
          (update sampleConstants (demoConfig sampleConstants) quiet
             (step sampleConstants (demoConfig sampleConstants)
                (strike sampleConstants) (run sampleConstants (demoConfig sampleConstants) (firstn 5 (approach sampleConstants)) (initialWorld sampleConstants (demoConfig sampleConstants)))))).
Proof.
  assert (H1 : 0 < burningDuration (demoConfig sampleConstants))
    by (cbn; lra).
  assert (H2 : 0 <= burningRadius (demoConfig sampleConstants))
    by (cbn; lra).
  destruct (demo_world6 sampleConstants ltac:(cbn; lra) ltac:(cbn; lra)
              ltac:(cbn; lra))
    as (id & _&_&_&_&_&_&_&_&_&_&_&_&Hsw&_).
  destruct (shockwave_shape sampleConstants (demoConfig sampleConstants)
              H1 H2) as (Hreach & Hframe & _).
  pose proof (Hreach _ (demo_world6_reachable sampleConstants)) as Hok.
  split; [exact H1|]. split; [exact H2|].
  split; [exists id; exact Hsw|]. split; [exact Hok|].
  apply Hframe; exact Hok.
Defined.

(** Eight jumps in a row of the mounted player take the fuel from 100 to
    4. *)
Lemma jumps_until_empty_witness :
  enemies (initialWorld sampleConstants defaultConfig) = []
  /\ 0 <= fuelConsumption defaultConfig
  /\ pl_fuel
       (player
          (jumps sampleConstants defaultConfig (repeat (0, 0, still) 8)
             (initialWorld sampleConstants defaultConfig)))
     = pl_fuel (player (initialWorld sampleConstants defaultConfig))
       - INR (length (repeat (0, 0, still) 8))
         * fuelConsumption defaultConfig.
Proof.
  assert (H1 : enemies (initialWorld sampleConstants defaultConfig) = [])
    by reflexivity.
  assert (H2 : 0 <= fuelConsumption defaultConfig) by (cbn; lra).
  assert (H3 : INR (length (repeat (0, 0, still) 8))
               * fuelConsumption defaultConfig
               <= pl_fuel (player (initialWorld sampleConstants
                                     defaultConfig)))
    by (cbn; lra).
  split; [exact H1|]. split; [exact H2|].
  exact (proj1 (jumps_until_empty sampleConstants defaultConfig
                  (repeat (0, 0, still) 8) _ H1 H2 H3)).
Defined.


(** The spawn rate of the default configuration at the start of a game. *)
Lemma spawn_rate_bounds_witness :
  Forall (fun p => 0.1 <= p <= 0.5) (spawnCurve defaultConfig)
  /\ exists r,
       finalSpawnRate defaultConfig 0 = Some r
       /\ 0.4 * (enemySpawnRate defaultConfig
                 + 0.1 * 0.1 * difficultyScale defaultConfig) <= r
       /\ r <= 1.6 * (enemySpawnRate defaultConfig
                      + 0.5 * 0.1 * difficultyScale defaultConfig).
Proof.
  assert (H1 : spawnCurve defaultConfig <> []) by discriminate.
  assert (H2 : Forall (fun p => 0.1 <= p <= 0.5) (spawnCurve defaultConfig))
    by (repeat constructor; cbn; lra).
  assert (H3 : 0 <= difficultyScale defaultConfig) by (cbn; lra).
  assert (H4 : 0 <= enemySpawnRate defaultConfig
                    + 0.1 * 0.1 * difficultyScale defaultConfig)
    by (cbn; lra).
  split; [exact H2|].
  destruct (spawn_rate_bounds defaultConfig 0.1 0.5 0 H1 H2 H3 H4
              (Rle_refl 0)) as (r & E & L & U & _).
  exists r. split; [exact E|]. split; [exact L|exact U].
Defined.


(** The two enemies of the fifth world of the sample run, of radius 10 and
    21 and speed 2, sixty units to the right of the centre of the field,
    are within the envelope. *)
Lemma enemy_envelope_witness :
  0 <= difficultyScale (demoConfig sampleConstants)
  /\ 40 <= GAME_WIDTH sampleConstants
  /\ enemies (run sampleConstants (demoConfig sampleConstants) (firstn 5 (approach sampleConstants)) (initialWorld sampleConstants (demoConfig sampleConstants)))
     = [enemyA sampleConstants (-24) false; enemyB sampleConstants (-26) false]
  /\ Forall (enemy_ok sampleConstants) (enemies (run sampleConstants (demoConfig sampleConstants) (firstn 5 (approach sampleConstants)) (initialWorld sampleConstants (demoConfig sampleConstants)))).
Proof.
  assert (H1 : 0 <= difficultyScale (demoConfig sampleConstants))
    by (cbn; lra).
  assert (H2 : 40 <= GAME_WIDTH sampleConstants) by (cbn; lra).
  destruct (demo_world5 sampleConstants ltac:(cbn; lra) ltac:(cbn; lra)
              ltac:(cbn; lra))
    as (_&_&_&_&_&_&_&_&_&_&_&Hes&_).
  split; [exact H1|]. split; [exact H2|]. split; [exact Hes|].
  exact (proj1 (enemy_envelope sampleConstants (demoConfig sampleConstants)
                  H1 H2) _ (demo_world5_reachable sampleConstants)).
Defined.


(** *** A game of the default configuration left alone *)

Lemma freeFall_start :
  freeFall 0
    (step sampleConstants defaultConfig
       (Pointer (clickAt sampleConstants 0 0) still)
       (initialWorld sampleConstants defaultConfig)).
Proof.
  unfold step.
  match goal with |- context [syncHighScore ?x] =>
    destruct (syncHighScore_same x)
      as (Sg&_&St&Si&Sp&Se&_&_&Ss&Ssh&_) end.
  unfold freeFall. rewrite Sg, St, Si, Sp, Se, Ss, Ssh.
  unfold handleGlobalInteraction, clickAt; cbn [isMouseOver isTouch negb andb
    gameState initialWorld].
  destruct (resetGame_fields sampleConstants defaultConfig
              (initialWorld sampleConstants defaultConfig))
    as (R1&_&R3&R4&R5&R6&_&_&R9&R10&_).
  rewrite R1, R3, R4, R5, R6, R9, R10.
  cbn. repeat split; lra.
Qed.

Lemma freeFall_frame k w :
  (k <= 44)%nat -> freeFall k w ->
  freeFall (S k) (step sampleConstants defaultConfig (Frame quiet) w).
Proof.
  intros Hk (Hst&Hel&Hinv&Hx&Hw&Hvx&Hy&Hvy&Hes&Hsw&Hint).
  assert (Hr : 0 <= INR k <= 44).
  { split; [apply pos_INR|]. apply le_INR in Hk.
    replace (INR 44) with 44 in Hk by (rewrite INR_IZR_INZ; reflexivity).
    exact Hk. }
  unfold step.
  match goal with |- context [syncHighScore ?x] =>
    destruct (syncHighScore_same x)
      as (Sg&_&St&Si&Sp&Se&_&_&Ss&Ssh&_) end.
  destruct (update_view sampleConstants defaultConfig quiet w Hst)
    as (Vg&Vt&Vi&Vp&Ve&Vint&_).
  destruct (movePlayer_x sampleConstants defaultConfig (player w)
              (sh_intensity (shake w))) as (_&_&_&_&Mx).
  destruct Mx as (Mx&Mvx&Mi);
    [rewrite Hx, Hvx, Hw; cbn; unfold dt; lra|].
  destruct (movePlayer_fields sampleConstants defaultConfig (player w)
              (sh_intensity (shake w))) as (Mw&_&_&My&Mvy).
  assert (Hfell : frameFell sampleConstants defaultConfig w = false).
  { unfold frameFell. apply Rltb_false.
    cbn [GAME_HEIGHT sampleConstants gravity defaultConfig]; unfold dt.
    nra. }
  assert (Hfi : frameIntensity sampleConstants defaultConfig w = 0)
    by (unfold frameIntensity; rewrite Hfell, Mi; exact Hint).
  assert (Hrng : frameRng sampleConstants defaultConfig quiet w = quiet).
  { unfold frameRng; rewrite Hfi.
    destruct (Rlt_dec 0 0); [lra|reflexivity]. }
  assert (Hsp : spawns defaultConfig quiet ((elapsedTime w + dt) / 60)
                = false).
  { apply (spawns_above defaultConfig 0.5).
    - discriminate.
    - repeat constructor; cbn; lra.
    - cbn; lra.
    - cbn; lra.
    - rewrite Hel; unfold dt. apply Rmult_le_pos; lra.
    - unfold draw, quiet; cbn; lra. }
  assert (Hfe : frameEnemies sampleConstants defaultConfig quiet w = []).
  { unfold frameEnemies; cbv zeta. rewrite Hrng, Hsp.
    now rewrite (frameBurned_calm w Hsw). }
  assert (Hfinv : frameInv w = 0)
    by (unfold frameInv; rewrite Hinv; destruct (Rlt_dec 0 0); lra).
  unfold freeFall.
  rewrite Sg, St, Si, Sp, Se, Ss, Ssh, Vg, Vt, Vi, Vp, Ve, Vint, Hfell, Hfe,
    Hfinv, Hfi, Mx, Mvx, Mw, My, Mvy,
    (update_calm sampleConstants defaultConfig quiet w Hsw), Hel, Hx, Hvx,
    S_INR.
  cbn [map existsb filter gravity defaultConfig AIR_RESISTANCE
       sampleConstants].
  destruct (Rlt_dec 0 0); [lra|].
  unfold dt. repeat split; try assumption; try lra; nra.
Qed.

Lemma freeFall_frames n :
  forall k w,
    (k + n <= 45)%nat -> freeFall k w ->
    freeFall (k + n)
      (run sampleConstants defaultConfig (repeat (Frame quiet) n) w).
Proof.
  induction n as [|n IH]; intros k w Hk Hw.
  - rewrite Nat.add_0_r. exact Hw.
  - cbn [repeat]. rewrite run_cons.
    replace (k + S n)%nat with (S k + n)%nat by lia.
    apply IH; [lia|]. apply freeFall_frame; [lia|exact Hw].
Qed.

Lemma warmUp_reachable :
  reachable sampleConstants defaultConfig
    (run sampleConstants defaultConfig (warmUp sampleConstants)
       (initialWorld sampleConstants defaultConfig)).
Proof.
  apply reachable_run; [apply reach_init|].
  unfold warmUp. constructor; [exact still_ok|].
  apply Forall_forall; intros ev Hin.
  apply repeat_spec in Hin; subst ev. exact quiet_ok.
Qed.

Lemma warmUp_world :
  freeFall 45
    (run sampleConstants defaultConfig (warmUp sampleConstants)
       (initialWorld sampleConstants defaultConfig)).
Proof.
  unfold warmUp. rewrite run_cons.
  exact (freeFall_frames 45 0 _ (Nat.le_refl 45) freeFall_start).
Qed.

(** The music 45 frames into a game of the default configuration, after
    the cue of the reset has created the audio context: the note is the
    second of the four, D3. *)
Lemma bgm_note_defined_witness :
  reachable sampleConstants defaultConfig
    (run sampleConstants defaultConfig (warmUp sampleConstants)
       (initialWorld sampleConstants defaultConfig))
  /\ gameState
       (run sampleConstants defaultConfig (warmUp sampleConstants)
          (initialWorld sampleConstants defaultConfig))
     = PLAYING
  /\ elapsedTime
       (run sampleConstants defaultConfig (warmUp sampleConstants)
          (initialWorld sampleConstants defaultConfig))
     = INR 45
  /\ Audio.playBgmNote defaultConfig defaultLook
       (run sampleConstants defaultConfig (warmUp sampleConstants)
          (initialWorld sampleConstants defaultConfig))
       0.25
       (fst (Audio.playSound defaultConfig snd_pulse 1000 0 Audio.initial))
     = Audio.plays
         (Audio.mkVoice Audio.square
            [Audio.setValueAtTime 146.83 0.25]
            [Audio.setValueAtTime (bgmVolume defaultLook) 0.25;
             Audio.linearRampToValueAtTime 0 (0.25 + 0.2)]
            0.25 (0.25 + 0.2)).
Proof.
  pose proof warmUp_reachable as Hr.
  destruct warmUp_world as (HP & Hel & _).
  set (w := run sampleConstants defaultConfig (warmUp sampleConstants) _)
    in *.
  assert (Hctx : Audio.audioCtx
                   (fst (Audio.playSound defaultConfig snd_pulse 1000 0
                           Audio.initial)) = true).
  { unfold Audio.playSound.
    replace (Rleb (sfxVolume defaultConfig) 0) with false
      by (symmetry; apply Rleb_false; cbn; lra).
    reflexivity. }
  split; [exact Hr|]. split; [exact HP|]. split; [exact Hel|].
  destruct (bgm_note_defined sampleConstants defaultConfig defaultLook 0.25
              (fst (Audio.playSound defaultConfig snd_pulse 1000 0
                      Audio.initial)) w Hr)
    as (n & En & _ & Hplay & _).
  assert (Hn : n = 45%nat) by (apply INR_eq; congruence).
  subst n.
  destruct (Hplay eq_refl HP ltac:(cbn; lra) Hctx) as (freq & Hf & Hv).
  change ((45 / 30) mod 4)%nat with 1%nat in Hf.
  cbn [nth_error Audio.notes] in Hf.
  injection Hf as <-. exact Hv.
Defined.


(** The voice of the first jump cue. *)
Lemma voice_scheduled_witness :
  Audio.playSound defaultConfig snd_jump 1000 0 Audio.initial
  = (fst (Audio.playSound defaultConfig snd_jump 1000 0 Audio.initial),
     Some (Audio.voice (sfxVolume defaultConfig) snd_jump 0))
  /\ Forall (Audio.scheduled (Audio.voice (sfxVolume defaultConfig) snd_jump 0))
       (Audio.gain (Audio.voice (sfxVolume defaultConfig) snd_jump 0)).
Proof.
  assert (H : Audio.playSound defaultConfig snd_jump 1000 0 Audio.initial
              = (fst (Audio.playSound defaultConfig snd_jump 1000 0
                        Audio.initial),
                 Some (Audio.voice (sfxVolume defaultConfig) snd_jump 0))).
  { unfold Audio.playSound.
    replace (Rleb (sfxVolume defaultConfig) 0) with false
      by (symmetry; apply Rleb_false; cbn; lra).
    reflexivity. }
  split; [exact H|].
  exact (proj1 (proj2 (proj2 (proj2 (proj2 (proj2
           (voice_scheduled defaultConfig snd_jump 1000 0 Audio.initial _ _
              H))))))).
Defined.

(** The sound effects turned down to 0 before any cue was played: the cues
    of the new closures are dropped and the music is silent; the cue of a
    [triggerShockwave] that still holds the default configuration plays,
    the [kill] cue after it is dropped, and the music plays from then on. *)
Lemma bgm_needs_sfx_witness :
  Forall (fun c => Audio.muted (fst c))
    [(mutedConfig, Audio.mkRequest snd_pulse 1000 0);
     (mutedConfig, Audio.mkRequest snd_jump 2000 1)]
  /\ Audio.playBgmNote mutedConfig defaultLook lowFuelWorld 1.25
       (fst (Audio.playEach
               [(mutedConfig, Audio.mkRequest snd_pulse 1000 0);
                (mutedConfig, Audio.mkRequest snd_jump 2000 1)]
               Audio.initial))
     = Audio.silent
  /\ snd (Audio.playEach
            ([(mutedConfig, Audio.mkRequest snd_pulse 1000 0);
              (mutedConfig, Audio.mkRequest snd_jump 2000 1)]
             ++ (defaultConfig, Audio.mkRequest snd_shockwave 2000 1)
                :: [(mutedConfig, Audio.mkRequest snd_kill 2000 1)])
            Audio.initial)
     = [(snd_shockwave, 2000%Z)]
  /\ exists v,
       Audio.playBgmNote mutedConfig defaultLook lowFuelWorld 1.25
         (fst (Audio.playEach
                 ([(mutedConfig, Audio.mkRequest snd_pulse 1000 0);
                   (mutedConfig, Audio.mkRequest snd_jump 2000 1)]
                  ++ (defaultConfig, Audio.mkRequest snd_shockwave 2000 1)
                     :: [(mutedConfig, Audio.mkRequest snd_kill 2000 1)])
                 Audio.initial))
       = Audio.plays v.
Proof.
  assert (Hm : Audio.muted mutedConfig) by (right; cbn; lra).
  assert (H : Forall (fun c => Audio.muted (fst c))
                [(mutedConfig, Audio.mkRequest snd_pulse 1000 0);
                 (mutedConfig, Audio.mkRequest snd_jump 2000 1)])
    by (repeat constructor; exact Hm).
  destruct (bgm_needs_sfx mutedConfig _ defaultLook lowFuelWorld 1.25 H)
    as (_ & Hsilent & Hstale).
  split; [exact H|]. split; [exact Hsilent|].
  destruct (Hstale defaultConfig snd_shockwave 2000%Z 1
              [(mutedConfig, Audio.mkRequest snd_kill 2000 1)]
              eq_refl ltac:(cbn; lra)
              ltac:(repeat constructor; exact Hm))
    as (Hplayed & _ & Hmusic).
  split; [exact Hplayed|].
  apply Hmusic; [reflexivity|reflexivity|cbn; lra|].
  exists 0%nat; reflexivity.
Defined.

(** The first frame that the loop draws on the mounted component. *)
Lemma draw_accepted_witness :
  (0 < burningDuration defaultConfig /\ 0 <= burningRadius defaultConfig
   /\ 0 <= playerSize defaultConfig /\ 0 <= GAME_HEIGHT sampleConstants)
  /\ Forall Canvas.effective
       (snd (loop sampleConstants defaultConfig defaultLook still
               (initialWorld sampleConstants defaultConfig))).
Proof.
  assert (H1 : 0 < burningDuration defaultConfig) by (cbn; lra).
  assert (H2 : 0 <= burningRadius defaultConfig) by (cbn; lra).
  assert (H3 : 0 <= playerSize defaultConfig) by (cbn; lra).
  assert (H4 : 0 <= GAME_HEIGHT sampleConstants) by (cbn; lra).
  split; [repeat split; assumption|].
  exact (proj2 (draw_accepted sampleConstants defaultConfig defaultLook still
                  _ H1 H2 H3 H4
                  (reach_init sampleConstants defaultConfig) still_ok)).
Defined.

(** The first frame on a fresh context. *)
Lemma draw_restores_context_witness :
  Canvas.ready Canvas.fresh
  /\ Canvas.ready
       (Canvas.execAll
          (Canvas.draw sampleConstants defaultConfig defaultLook START 0 0
             (initialWorld sampleConstants defaultConfig))
          Canvas.fresh).
Proof.
  assert (H : Canvas.ready Canvas.fresh) by (repeat split).
  split; [exact H|].
  exact (proj1 (draw_restores_context sampleConstants defaultConfig
                  defaultLook START 0 0 _ Canvas.fresh H)).
Defined.


(** A press on the mounted component after the pointer has moved over the
    game container starts the game. *)
Lemma mouse_over_gate_witness :
  isMouseOver (pressWhile true)
  = App.isMouseOverGame
      (fold_left (fun s ev => App.handle ev s) [App.mousedown]
         (App.handleMouseMove 400 300 (Some containerRect) App.initial))
  /\ handleGlobalInteraction sampleConstants defaultConfig (pressWhile true)
       still (initialWorld sampleConstants defaultConfig)
     = resetGame sampleConstants defaultConfig
         (initialWorld sampleConstants defaultConfig).
Proof.
  assert (H1 : isTouch (pressWhile true) = false) by reflexivity.
  assert (H2 : Forall (fun ev => match ev with
                                 | App.mousedown | App.mouseup
                                 | App.keydown _ _ => True
                                 | _ => False
                                 end) [App.mousedown])
    by (repeat constructor).
  assert (H3 : isMouseOver (pressWhile true)
               = App.isMouseOverGame
                   (fold_left (fun s ev => App.handle ev s) [App.mousedown]
                      (App.handleMouseMove 400 300 (Some containerRect)
                         App.initial))).
  { cbn. symmetry. apply inside_spec. cbn; lra. }
  split; [exact H3|].
  destruct (mouse_over_gate sampleConstants defaultConfig 400 300
              containerRect App.initial [App.mousedown] (pressWhile true)
              still (initialWorld sampleConstants defaultConfig) H1 H2 H3)
    as (_ & R & _).
  apply R; [now rewrite <- H3|discriminate].
Defined.

(** The fuel bar of the mounted player is full. *)
Lemma fuel_bar_shows_fuel_witness :
  (0 <= fuelConsumption defaultConfig /\ 0 <= fuelRegen defaultConfig
   /\ 0 < MAX_FUEL sampleConstants)
  /\ 0 <= pl_fuel (player (initialWorld sampleConstants defaultConfig))
          / pl_maxFuel (player (initialWorld sampleConstants defaultConfig))
          * 120
     <= 120.
Proof.
  assert (H1 : 0 <= fuelConsumption defaultConfig) by (cbn; lra).
  assert (H2 : 0 <= fuelRegen defaultConfig) by (cbn; lra).
  assert (H3 : 0 < MAX_FUEL sampleConstants) by (cbn; lra).
  split; [repeat split; assumption|].
  exact (proj1 (fuel_bar_shows_fuel sampleConstants defaultConfig 0 _ H1 H2
                  H3 (reach_init sampleConstants defaultConfig))).
Defined.
